(* ===== verification/_CoqProject ===== *)
-Q . S2P
Prelude.v
Util.v
RustStr.v
Checksums.v
Extern.v
ExternModel.v
Codec.v
FramingConfig.v
TxCodecs.v
Parsers.v
Decoder.v
DecoderTotal.v
DecoderChunks.v
DecoderRoundtrip.v
Presets.v
RxRing.v
RxWait.v
BufferBudget.v
BudgetConcurrency.v
LogBuffer.v
MatchConfig.v
MatchWindow.v
StopController.v
RxConsume.v
ReadLoop.v
ReadLoopProofs.v
ReadStream.v
FramedStream.v
Tools.v
Profiles.v
ProfileStore.v
StoreInvariant.v
StoreConcurrency.v
Learning.v
SerialConfig.v
Connection.v
Manager.v
CaptureStore.v
RxPump.v
RxSession.v
TxSession.v
IoTools.v
ControlTools.v
Resources.v
PortWatcher.v
Pagination.v
OpenSettings.v
PortPlan.v
PortTools.v
PortProofs.v
OpenProofs.v
Startup.v
ServerTools.v
SessionView.v
ReadSession.v
CaptureBoot.v
Handlers.v
Annotations.v
Protocol.v
Background.v
ProcessInvariant.v
Lifetime.v
PortEnum.v
TestTarget.v
AgentEval.v
