(* ===== verification/Prelude.v ===== *)
(** * serial-mcp: a verification development

    serial-mcp is a server that lets a client program talk to serial ports.  A
    background pump copies every received byte of a connection into a ring
    buffer; the read tools take bytes from the ring, cut them into frames, match
    them against a pattern, parse them, and stop by time, size or match; the
    write tools decode their payload, frame it and hand it to a worker.  This
    library models the code that decides what a client gets to see and what goes
    on the wire, and proves it correct.

    ** How the code is modelled

    Every definition is a translation of the Rust function it is named after;
    the doc comment of a definition names the function when the names differ.
    Bytes are [Byte.byte]; [String] and [&str] are lists of bytes (valid UTF-8
    where the code has a [&str]).  A [u64] or [usize] is a [Z], with [wrap64]
    where the code's arithmetic wraps and [saturating_sub]/[saturating_add] where
    it saturates; lengths and indices into vectors are [nat].  [Result] is
    [result], an error text is a constructor with its arguments.  A function that
    mutates its receiver returns the new receiver.  A panic (a slice out of range)
    is a value of its own ([Panicked] in ReadLoop, [None] elsewhere, said in the
    doc comment).  Time is an argument ([now], in milliseconds).

    Crates are parameters: Extern declares a class per crate (hex, base64,
    serde_json, regex, glob), with the documented laws that some theorems need
    ([HexLaws], [Base64Laws]) as separate classes; ExternModel gives concrete
    instances that satisfy them, for the witnesses.  What the code uses of the
    Rust standard library (UTF-8 validation and lossy decoding, ASCII classes,
    [from_str_radix], [trim]) is defined in Prelude and RustStr.

    ** The files

    - Prelude: bytes, machine integers, results, [position]/[windows]/[split_on],
      the hint databases [serial] and the tactics of the development.
    - RustStr, Util (src/util.rs), Checksums (src/checksums.rs), Extern,
      ExternModel, Codec (src/codec.rs).
    - FramingConfig (src/framing/config.rs), TxCodecs (src/framing/codecs.rs),
      Parsers (src/framing/parsers/mod.rs), Decoder (src/framing/decoder.rs).
      DecoderTotal proves that decoding ends and relates [push] to a decoder that
      only cuts; DecoderChunks proves independence of the chunking;
      DecoderRoundtrip pairs TX with RX; Presets treats two protocols end to end.
    - RxRing (src/rx_ring.rs) with RxWait, its [wait_for_data] against [append]
      as a step relation; BufferBudget (src/buffer_budget.rs), an interface with
      three implementations, with BudgetConcurrency, the compare-exchange loop
      under interleaving; LogBuffer (src/log_buffer.rs).
    - MatchConfig (src/match_config.rs) with MatchWindow, what the bounded
      windows find; StopController (src/stop_controller.rs, src/rx_metadata.rs);
      RxConsume (src/tools/rx_consume.rs), frame dispatch against a sink
      interface; ReadLoop (src/tools/read_loop.rs), a whole read, with
      ReadLoopProofs (it returns), ReadStream and FramedStream (what an unframed
      and a framed read return).
    - Tools: src/precedence.rs, src/security.rs, src/limits.rs,
      src/tools/rx_validate.rs and the deciding parts of src/tools/helpers.rs and
      src/tools/io_ops.rs.
    - SerialConfig (src/serial/config.rs, src/error.rs), Connection
      (src/serial/connection.rs): a connection against its device, its life cycle
      split at the I/O lock; Manager (src/serial/manager.rs): the registry, the
      reconnect tasks and the supervisor as interleaved steps.
    - RxPump, RxSession (src/rx_session.rs): the pump under its gate, the session
      table with its ring reservations; TxSession (src/tx_session.rs): the queue,
      its worker and its callers; CaptureStore (src/capture_store.rs): exports
      under a quota, with crashes and several processes.
    - Profiles (src/profiles.rs): the profile document, matching, generated names;
      ProfileStore (src/profile_store.rs): every operation as its critical
      section under the store lock; StoreConcurrency: the same with the steps of
      concurrent processes interleaved, and that they come to whole transactions;
      StoreInvariant: what its documents always satisfy;
      Learning (src/learning.rs): the learning transaction on a committed open;
      PortEnum (src/serial/port_info.rs): the ports as the system lists them.
    - IoTools (src/tools/io_ops.rs, src/tools/result_builders.rs): write, read,
      transact and flush as whole calls; SessionView and
      ReadSession, what a client sees of a connection over many calls; ControlTools
      and CaptureBoot (src/tools/control_ops.rs): the lines, the BREAK, the reset
      pulse and the boot capture end to end.
    - OpenSettings (src/tools/helpers.rs): the layers of an open request; PortPlan,
      PortTools (src/tools/port_ops.rs): the session plan, opening, closing,
      reconfiguring and the profile tools on one server state, with PortProofs and
      OpenProofs, what holds of them.
    - Resources, PortWatcher (src/resource_events.rs, src/resources): URIs,
      listeners and the port watcher; Pagination, ServerTools, Handlers
      (src/server.rs): listings, resources and logs, the tool handlers with the
      hints they publish; Background, the tasks next to the handlers;
      ProcessInvariant, what any run of all of these keeps; Annotations, the tool
      catalog and what its hints promise; Protocol (src/server.rs, src/prompts),
      what each protocol version sees; Startup (src/main.rs, src/mcp_protocol.rs):
      the command line and the protocol versions; Lifetime, the process started,
      run and started again on what it left.
    - The repository's tool xtask, next to the server: TestTarget
      (xtask/src/main.rs), test runs in a directory of their own on a file system
      with links; AgentEval (xtask/src/agent_eval), the evaluation of the tool
      interface, with sizes and percentages in binary64.

    ** How the parts interact

    The pump calls [append]; a read calls [read_from] at its cursor, feeds the
    slice to [consume_frames] (which calls the decoder's [push], then the matcher
    and the sink per frame) or to [push_bounded], and asks the stop controller
    whether to go on; between slices it waits in [wait_for_data].  ReadLoop
    composes exactly these definitions.  A read is a list of rounds: each round
    is what one iteration of [run_wait] meets (connection state, clock, what woke
    the wait, the ring at that moment), so theorems about all lists of rounds are
    theorems about all timings and all interleavings with the pump.  The write
    side is [wire_bytes] in Tools, which composes Codec, [resolve_field] and
    [encode_tx].

    A tool call of IoTools or CaptureBoot runs on an [IoState] (connections,
    sessions, budget); at each await its script says what others do meanwhile.  A
    tool of PortTools runs on a [Server] (registry, sessions, profile file and
    cache).  Handlers joins the two into a [Process] and adds the hints, which
    Resources delivers; Background lets the pumps and the reconnect tasks work on
    it.  What interleaves inside a component is a step relation of that component
    (Manager, RxPump, RxSession, TxSession, CaptureStore,
    ControlTools, BudgetConcurrency, RxWait).

    ** What the theorems show

    - Ring and waiting: the ring refines a stream with bounded memory, so a reader
      following [next_offset] loses nothing silently; no wake-up is lost.
    - Framing: decoding terminates with gap-free numbering, does not depend on
      chunking (with the exceptions stated as theorems and examples), and inverts
      the TX encoders; the Modbus and NMEA presets work end to end; stuffing and
      length prefixes are exact and bounded.
    - Matching: bounded windows find exactly the first occurrence in the stream;
      globs match whole lines only; memory is bounded.
    - Reading: the stop rules and their numbers; a read with a timeout returns;
      an unframed read returns the stream at its cursor and leaves the cursor
      right after it; framed matches are per frame.
    - Resources: the budgets refine one ledger, also under concurrency; the log
      keeps the latest entries; JSONL snapshots are exact or refused.
    - Tools: what goes on the wire, request bounds, the allowlist, flush.
    - Streams: unframed reads one after the other return the stream without loss,
      repetition or reordering; a framed read returns the frames that a fresh
      decoder finds in its piece of the stream; frames a peer sends arrive in order.
    - Connections: no two connections hold one port; a closed connection does
      nothing; a payload is written whole or reported, in order, and the worker
      answers every caller that waits; reservations equal the rings that exist.
    - Captures: a capture of a boot shows exactly the stream from its mark; with
      the input of the device purged before it; the
      reset pulse is exclusive and its lines are released; exports are atomic and
      within their quota.
    - Profiles: the calls of processes that interleave at the file come to whole
      transactions in one order, so no update is lost; documents stay well-formed; rollback restores a value under a new
      revision; settings changed on a connection come back at the next open; a
      rolled-back profile is not written over; the preview of list_ports is what
      open does; a saved profile finds its device again under another name.
    - Server: through any run of calls, pumps and reconnects the registry, the
      connections and the profile documents stay consistent; what a call reserves is
      returned, and which rings it takes or gives back is known; successful handlers publish a hint for all that their
      call changed; a listener misses no change, the watcher publishes exactly the
      changes; pages cover the listing; a client is told what it gets, by its protocol
      version; the annotations of the tools are true; a command line that is accepted
      starts with limits in their ranges, and the server starts again on whatever an
      earlier process left.
    - Tooling: a test run removes nothing outside the directory it reserved, and
      follows no link there; which decisions of the interface evaluation depend on
      what it measures.

    Examples next to the theorems record behaviour of the code outside a
    theorem's hypotheses (for instance ReadStream, DecoderChunks).

    ** Fuel and bounds

    [push_loop] and [cobs_loop] recurse on fuel taken from the buffer length;
    [push_total] shows that it is always enough.  [utf8_pieces_fuel] runs with the
    length of its input and consumes at least a byte per step
    ([utf8_pieces_concat]).  [run_wait] is structural in the rounds;
    [read_returns_by_deadline] is its termination theorem.  All other functions
    are structural.  Theorems about offsets assume fewer than [2^64] bytes per
    connection where wrap-around would be visible.

    ** What is not modelled

    The MCP protocol itself (rmcp, axum), JSON schemas and the
    routers they are generated into; the entry point's signals and shutdown; the operating system behind a
    device, the file system and the port list, which are state or arguments of the
    model; the crates, which are parameters; tracing and progress notifications,
    which change no state; the report texts of xtask, the fuzz targets and the
    integration tests. *)

From Stdlib Require Export Strings.Byte.
From stdpp Require Export base list numbers strings option gmap.
From Stdlib Require Export ZArith Lia.

#[global] Open Scope Z_scope.
#[global] Set Bullet Behavior "Strict Subproofs".

(** ** Bytes and machine integers *)

#[export] Instance byte_eq_decision : EqDecision byte := Byte.byte_eq_dec.

#[export] Instance byte_countable : Countable byte :=
  inj_countable Byte.to_N Byte.of_N Byte.of_to_N.

(** The unsigned value of a [u8]. *)
Definition b2z (b : byte) : Z := Z.of_N (Byte.to_N b).

(** [z as u8]: truncation to the low eight bits. *)
Definition z2b (z : Z) : byte :=
  default x00 (Byte.of_N (Z.to_N (z mod 256))).

(** [u8] arithmetic: [wrapping_add], [wrapping_neg], [^]. *)
Definition u8_wrapping_add (a b : byte) : byte := z2b (b2z a + b2z b).
Definition u8_wrapping_neg (a : byte) : byte := z2b (- b2z a).
Definition u8_xor (a b : byte) : byte := z2b (Z.lxor (b2z a) (b2z b)).

(** [u64]/[usize] arithmetic on a 64-bit target: plain [+] wraps in a release
    build; the saturating forms clamp. *)
Definition U64_MAX : Z := 2 ^ 64 - 1.
Definition wrap64 (z : Z) : Z := z mod 2 ^ 64.
Definition saturating_sub (a b : Z) : Z := Z.max 0 (a - b).
Definition saturating_add (a b : Z) : Z := Z.min U64_MAX (a + b).

(** The length of a vector as a [usize]. *)
Definition zlen {A} (l : list A) : Z := Z.of_nat (length l).

Lemma b2z_range b : 0 <= b2z b < 256.
Proof. unfold b2z. pose proof (Byte.to_N_bounded b). lia. Qed.

Lemma b2z_z2b z : b2z (z2b z) = z mod 256.
Proof.
  unfold b2z, z2b. pose proof (Z.mod_pos_bound z 256 eq_refl).
  destruct (Byte.of_N (Z.to_N (z mod 256))) as [b|] eqn:E; simpl.
  - apply Byte.to_of_N in E. lia.
  - apply Byte.of_N_None_iff in E. lia.
Qed.

Lemma z2b_b2z b : z2b (b2z b) = b.
Proof.
  unfold z2b. rewrite Z.mod_small by apply b2z_range.
  unfold b2z. by rewrite N2Z.id, Byte.of_to_N.
Qed.

Lemma z2b_eq z b : z = b2z b -> z2b z = b.
Proof. intros ->. apply z2b_b2z. Qed.

Lemma b2z_inj a b : b2z a = b2z b -> a = b.
Proof. intros H. by rewrite <- (z2b_b2z a), <- (z2b_b2z b), H. Qed.

Lemma z2b_mod z : z2b (z mod 256) = z2b z.
Proof. unfold z2b. by rewrite Z.mod_mod by done. Qed.

Lemma wrap64_small z : 0 <= z < 2 ^ 64 -> wrap64 z = z.
Proof. apply Z.mod_small. Qed.

Lemma zlen_nil {A} : zlen (@nil A) = 0.
Proof. done. Qed.

Lemma zlen_app {A} (l k : list A) : zlen (l ++ k) = zlen l + zlen k.
Proof. unfold zlen. rewrite length_app. lia. Qed.

Lemma zlen_cons {A} (x : A) l : zlen (x :: l) = 1 + zlen l.
Proof. unfold zlen. simpl. lia. Qed.

Lemma zlen_nonneg {A} (l : list A) : 0 <= zlen l.
Proof. unfold zlen. lia. Qed.

(** ** Fallible code: [Result<A, E>] *)

Inductive result (E A : Type) :=
  | Ok (a : A)
  | Err (e : E).
Arguments Ok {_ _} _.
Arguments Err {_ _} _.

#[export] Instance result_ret {E} : MRet (result E) := fun _ a => Ok a.
#[export] Instance result_bind {E} : MBind (result E) :=
  fun _ _ f m => match m with Ok a => f a | Err e => Err e end.
#[export] Instance result_fmap {E} : FMap (result E) :=
  fun _ _ f m => match m with Ok a => Ok (f a) | Err e => Err e end.

(** [Result::map_err]. *)
Definition map_err {E F A} (f : E -> F) (m : result E A) : result F A :=
  match m with Ok a => Ok a | Err e => Err (f e) end.

Definition is_ok {E A} (m : result E A) : bool :=
  match m with Ok _ => true | Err _ => false end.

(** [Option::is_some]. *)
Definition is_some {A} (o : option A) : bool := match o with Some _ => true | None => false end.

(** [Option::ok_or] and [u64::checked_add]. *)
Definition ok_or {E A} (o : option A) (e : E) : result E A :=
  match o with Some a => Ok a | None => Err e end.

Definition checked_add (a b : Z) : option Z := if U64_MAX <? a + b then None else Some (a + b).

Lemma map_err_ok {E F A} (f : E -> F) (m : result E A) a : map_err f m = Ok a -> m = Ok a.
Proof. destruct m; simpl; congruence. Qed.

Lemma ok_or_ok {E A} (o : option A) (e : E) a : ok_or o e = Ok a -> o = Some a.
Proof. destruct o; simpl; congruence. Qed.

Lemma checked_add_ok a b c : checked_add a b = Some c -> c = a + b /\ a + b <= U64_MAX.
Proof. unfold checked_add. case_match; [done|]. intros [= <-]. lia. Qed.

Lemma result_bind_ok {E A B} (m : result E A) (f : A -> result E B) b :
  (m ≫= f) = Ok b <-> exists a, m = Ok a /\ f a = Ok b.
Proof. destruct m; simpl; naive_solver. Qed.

(** ** Iterator operations of the standard library *)

(** [iter().position(p)]: the index of the first element satisfying [p]. *)
Fixpoint position {A} (p : A -> bool) (l : list A) : option nat :=
  match l with
  | [] => None
  | x :: l => if p x then Some 0%nat else S <$> position p l
  end.

(** [slice::windows(n)]. *)
Fixpoint windows {A} (n : nat) (l : list A) : list (list A) :=
  match l with
  | [] => []
  | _ :: t => if (n <=? length l)%nat then take n l :: windows n t else []
  end.

(** [slice::starts_with] and [slice::ends_with]. *)
Definition starts_with {A} `{EqDecision A} (l p : list A) : bool :=
  bool_decide (take (length p) l = p).
Definition ends_with {A} `{EqDecision A} (l s : list A) : bool :=
  bool_decide (drop (length l - length s) l = s).

(** [slice::split(sep)] / [str::split(char)] on a one-byte separator: always
    at least one piece. *)
Fixpoint split_on {A} (sep : A -> bool) (l : list A) : list (list A) :=
  match l with
  | [] => [[]]
  | x :: l =>
      if sep x then [] :: split_on sep l
      else match split_on sep l with
           | [] => [[x]]
           | p :: ps => (x :: p) :: ps
           end
  end.

Lemma position_Some {A} (p : A -> bool) l i :
  position p l = Some i <->
  (exists x, l !! i = Some x /\ p x = true) /\
  forall j x, (j < i)%nat -> l !! j = Some x -> p x = false.
Proof.
  revert i. induction l as [|y l IH]; intros i; simpl.
  { split; [done|]. intros [(x & Hx & _) _]. done. }
  destruct (p y) eqn:Hy.
  - split.
    + intros [= <-]. split; [eauto|]. intros; lia.
    + intros [(x & Hx & Hp) Hj]. destruct i as [|i]; [done|].
      specialize (Hj 0%nat y ltac:(lia) eq_refl). congruence.
  - rewrite fmap_Some. split.
    + intros (k & Hk & ->). apply IH in Hk as [(x & Hx & Hp) Hj].
      split; [eauto|]. intros [|j] z Hlt Hz; [injection Hz as <-; done|].
      apply (Hj j); [lia|done].
    + intros [(x & Hx & Hp) Hj]. destruct i as [|i]; [injection Hx as <-; congruence|].
      exists i. split; [|done]. apply IH. split; [eauto|].
      intros j z Hlt Hz. apply (Hj (S j)); [lia|done].
Qed.

Lemma position_None {A} (p : A -> bool) l :
  position p l = None <-> Forall (fun x => p x = false) l.
Proof.
  induction l as [|y l IH]; simpl; [by split|].
  destruct (p y) eqn:Hy.
  - split; [done|]. intros H. inversion H; congruence.
  - rewrite fmap_None, IH. split; [by constructor|]. by inversion 1.
Qed.

Lemma position_lt {A} (p : A -> bool) l i :
  position p l = Some i -> (i < length l)%nat.
Proof. intros [(x & Hx & _) _]%position_Some. by eapply lookup_lt_Some. Qed.

Lemma position_app_None {A} (p : A -> bool) l k :
  position p l = None ->
  position p (l ++ k) = (fun i => length l + i)%nat <$> position p k.
Proof.
  induction l as [|y l IH]; simpl; [by destruct (position p k)|].
  destruct (p y); [done|]. intros H%fmap_None. rewrite IH by done.
  by destruct (position p k).
Qed.

Lemma position_app_Some {A} (p : A -> bool) l k i :
  position p l = Some i -> position p (l ++ k) = Some i.
Proof.
  revert i. induction l as [|y l IH]; intros i; simpl; [done|].
  destruct (p y); [done|]. intros (j & Hj & ->)%fmap_Some. by rewrite (IH j).
Qed.

Lemma take_plus {A} (n m : nat) (l : list A) : take (n + m) l = take n l ++ take m (drop n l).
Proof.
  revert l. induction n as [|n IH]; intros l; [by rewrite drop_0|].
  destruct l as [|x l]; [by rewrite drop_nil, !take_nil|]. simpl. by rewrite IH.
Qed.

Lemma starts_with_spec {A} `{EqDecision A} (l p : list A) :
  starts_with l p = true <-> p `prefix_of` l.
Proof.
  unfold starts_with. rewrite bool_decide_eq_true. split.
  - intros <-. apply prefix_take.
  - intros [k ->]. by rewrite take_app_length.
Qed.

Lemma forallb_true {A} (p : A -> bool) l : forallb p l = true -> Forall (fun x => p x = true) l.
Proof. intros H. apply Forall_forall. intros x Hx. by eapply forallb_forall, list_elem_of_In. Qed.

(** ** Totals over a map *)

Section Totals.
Context `{Countable K} {A : Type} (w : K -> A -> Z).

Definition map_total (m : gmap K A) : Z := map_fold (fun k a acc => w k a + acc) 0 m.

Lemma map_total_empty : map_total ∅ = 0.
Proof. apply map_fold_empty. Qed.

Lemma map_total_insert m k a : m !! k = None -> map_total (<[k := a]> m) = w k a + map_total m.
Proof. intros Hk. unfold map_total. rewrite map_fold_insert_L; [done| |done]. intros. lia. Qed.

Lemma map_total_delete m k a : m !! k = Some a -> map_total m = w k a + map_total (delete k m).
Proof.
  intros Hk. unfold map_total. rewrite (map_fold_delete_L _ _ k a); [done| |done]. intros. lia.
Qed.

Lemma map_total_delete_le m k : (forall k a, 0 <= w k a) -> map_total (delete k m) <= map_total m.
Proof.
  intros Hw. destruct (m !! k) as [a|] eqn:Hk.
  - rewrite (map_total_delete m k a Hk). specialize (Hw k a). lia.
  - by rewrite delete_id.
Qed.

Lemma map_total_nonneg m : (forall k a, 0 <= w k a) -> 0 <= map_total m.
Proof.
  intros Hw. unfold map_total. apply (map_fold_weak_ind (fun acc _ => 0 <= acc)); [lia|].
  intros k a m' acc _ Hacc. specialize (Hw k a). lia.
Qed.
End Totals.

(** ** Sequences of steps *)

(** What every step preserves holds in every reachable state. *)
Lemma rtc_preserves {A} (R : A -> A -> Prop) (P : A -> Prop) x y :
  (forall x y, P x -> R x y -> P y) -> P x -> rtc R x y -> P y.
Proof. intros Hstep Hx Hr. induction Hr as [|x y z Hs _ IH]; eauto. Qed.

(** ** Tactics and hints *)

(** Split every [if]/[match] whose discriminee is stuck, keeping equations. *)
Ltac case_match_all := repeat (case_match; simplify_eq/=).

(** Close arithmetic goals about list lengths. *)
Ltac len :=
  unfold zlen, saturating_sub in *;
  repeat rewrite ?length_app, ?length_take, ?length_drop, ?length_fmap,
    ?length_replicate, ?length_insert in *;
  simpl in *; lia.

Create HintDb serial.
Create Rewrite HintDb serial.
#[export] Hint Resolve b2z_range zlen_nonneg position_lt : serial.
#[export] Hint Rewrite @zlen_app @zlen_cons @zlen_nil : serial.
#[export] Hint Rewrite b2z_z2b z2b_b2z : serial.
