(* ===== verification/Util.v ===== *)
(** * [src/util.rs]: shared byte-slice search

    [find_subsequence] and its characterisation as the first occurrence. *)

From S2P Require Import Prelude.

(** [find_subsequence(haystack, needle)]. *)
Definition find_subsequence (haystack needle : list byte) : option nat :=
  if bool_decide (needle = []) || (length haystack <? length needle)%nat
  then None
  else position (fun window => bool_decide (window = needle))
         (windows (length needle) haystack).

(** [str::contains] for a non-empty needle. *)
Definition contains (haystack needle : list byte) : bool := is_some (find_subsequence haystack needle).

(** [needle] occurs in [l] at offset [i]. *)
Definition occurs_at (needle l : list byte) (i : nat) : Prop :=
  needle `prefix_of` drop i l.

#[export] Instance occurs_at_dec needle l i : Decision (occurs_at needle l i).
Proof. unfold occurs_at. apply _. Defined.

(** The specification: [i] is the least offset at which [needle] occurs. *)
Definition first_occurrence (needle l : list byte) (i : nat) : Prop :=
  occurs_at needle l i /\ forall j, (j < i)%nat -> ~ occurs_at needle l j.

Lemma lookup_windows {A} n (l : list A) i :
  (0 < n)%nat ->
  windows n l !! i =
    if (i + n <=? length l)%nat then Some (take n (drop i l)) else None.
Proof.
  intros Hn. revert i. induction l as [|x l IH]; intros i.
  - simpl. destruct n; [lia|]. replace (i + S n <=? 0)%nat with false; [done|].
    symmetry. apply Nat.leb_gt. lia.
  - cbn [windows]. destruct (Nat.leb_spec n (length (x :: l))) as [Hle|Hgt].
    + destruct i as [|i]; cbn [lookup list_lookup].
      * simpl Nat.add. by rewrite (proj2 (Nat.leb_le _ _) Hle).
      * change (windows n l !! i = if (S i + n <=? length (x :: l))%nat
          then Some (take n (drop (S i) (x :: l))) else None).
        rewrite IH. simpl. by destruct (i + n <=? length l)%nat.
    + simpl in Hgt |- *. symmetry.
      destruct (Nat.leb_spec (i + n) (S (length l))); [lia|done].
Qed.

Lemma occurs_at_window needle l i :
  occurs_at needle l i <->
  (i + length needle <= length l \/ needle = [])%nat /\
  take (length needle) (drop i l) = needle.
Proof.
  unfold occurs_at. split.
  - intros Hp. split.
    + apply prefix_length in Hp. rewrite length_drop in Hp.
      destruct needle; [by right|]. left. simpl in *. lia.
    + destruct Hp as [k ->]. by rewrite take_app_length.
  - intros [_ <-]. apply prefix_take.
Qed.

Lemma occurs_at_bound needle l i :
  needle <> [] -> occurs_at needle l i -> (i + length needle <= length l)%nat.
Proof. intros Hne [[|] _]%occurs_at_window; done. Qed.

Lemma find_subsequence_unfold l needle :
  needle <> [] ->
  find_subsequence l needle =
    position (fun w => bool_decide (w = needle)) (windows (length needle) l).
Proof.
  intros Hne. unfold find_subsequence. rewrite bool_decide_eq_false_2 by done.
  simpl. destruct (Nat.ltb_spec (length l) (length needle)); [|done].
  symmetry. apply position_None. apply Forall_lookup. intros i w.
  rewrite lookup_windows by (destruct needle; simpl; [done|lia]).
  destruct (Nat.leb_spec (i + length needle) (length l)); [lia|done].
Qed.

(** A hit is exactly the first occurrence. *)
Lemma find_subsequence_Some l needle i :
  find_subsequence l needle = Some i <->
  needle <> [] /\ first_occurrence needle l i.
Proof.
  destruct (decide (needle = [])) as [->|Hne].
  { unfold find_subsequence. rewrite bool_decide_eq_true_2 by done. naive_solver. }
  assert (Hpos : (0 < length needle)%nat) by (destruct needle; simpl; [done|lia]).
  assert (Hocc : forall j, occurs_at needle l j <->
    exists w, windows (length needle) l !! j = Some w /\ bool_decide (w = needle) = true).
  { intros j. rewrite occurs_at_window, lookup_windows by done. split.
    - intros [[Hle|] Ht]; [|done]. exists needle.
      rewrite (proj2 (Nat.leb_le _ _) Hle), Ht. split; [done|].
      by apply bool_decide_eq_true_2.
    - intros (w & Hw & ->%bool_decide_eq_true).
      destruct (Nat.leb_spec (j + length needle) (length l)); simplify_eq/=.
      split; [by left|congruence]. }
  rewrite find_subsequence_unfold by done. rewrite position_Some.
  unfold first_occurrence. rewrite Hocc. split.
  - intros [H1 H2]. split; [done|]. split; [done|].
    intros j Hj (w & Hw & Ht)%Hocc. rewrite (H2 j w) in Ht; done.
  - intros (_ & H1 & H2). split; [done|]. intros j w Hj Hw.
    destruct (bool_decide (w = needle)) eqn:E; [|done].
    exfalso. apply (H2 j Hj), Hocc. eauto.
Qed.

(** A miss means the needle is empty or occurs nowhere. *)
Lemma find_subsequence_None l needle :
  needle <> [] ->
  find_subsequence l needle = None <-> forall i, ~ occurs_at needle l i.
Proof.
  intros Hne. split.
  - intros Hf i Hi.
    assert (exists k, first_occurrence needle l k) as [k Hk].
    { induction i as [i IH] using lt_wf_ind.
      destruct (decide (Forall (fun j => ~ occurs_at needle l j) (seq 0 i))) as [Hall|Hex].
      - exists i. split; [done|]. intros j Hj.
        rewrite Forall_forall in Hall. apply Hall, elem_of_seq. lia.
      - apply not_Forall_Exists in Hex; [|apply _].
        apply Exists_exists in Hex as (j & Hj%elem_of_seq & Ho).
        apply (IH j); [lia|]. by apply dec_stable. }
    rewrite (proj2 (find_subsequence_Some l needle k)) in Hf; [done|split; done].
  - intros Hno. destruct (find_subsequence l needle) as [i|] eqn:E; [|done].
    apply find_subsequence_Some in E as [_ [Ho _]]. by destruct (Hno i).
Qed.

Lemma find_subsequence_bound l needle i :
  find_subsequence l needle = Some i -> (i + length needle <= length l)%nat.
Proof.
  intros [Hne [Ho _]]%find_subsequence_Some. by apply occurs_at_bound.
Qed.

Lemma occurs_at_app_l needle l k i :
  occurs_at needle l i -> occurs_at needle (l ++ k) i.
Proof.
  unfold occurs_at. intros [m Hm]. destruct (decide (i <= length l)%nat).
  - rewrite drop_app_le by done. rewrite Hm, <- (assoc_L (++)). by apply prefix_app_r.
  - rewrite drop_ge in Hm by lia. destruct needle; [apply prefix_nil|done].
Qed.

Lemma occurs_at_app_inv needle l k i :
  (i + length needle <= length l)%nat ->
  occurs_at needle (l ++ k) i -> occurs_at needle l i.
Proof.
  intros Hle. rewrite !occurs_at_window. intros [_ Ht]. split; [by left|].
  rewrite drop_app_le in Ht by lia.
  by rewrite take_app_le in Ht by (rewrite length_drop; lia).
Qed.

(** Extending the haystack never changes a hit. *)
Lemma find_subsequence_app_Some l k needle i :
  find_subsequence l needle = Some i -> find_subsequence (l ++ k) needle = Some i.
Proof.
  intros Hf. pose proof (find_subsequence_bound _ _ _ Hf) as Hb.
  apply find_subsequence_Some in Hf as [Hne [Ho Hmin]].
  apply find_subsequence_Some. split; [done|]. split; [by apply occurs_at_app_l|].
  intros j Hj Hoj. apply (Hmin j Hj), (occurs_at_app_inv _ _ k); [lia|done].
Qed.

Lemma occurs_at_drop needle l n i :
  occurs_at needle (drop n l) i <-> occurs_at needle l (n + i).
Proof. unfold occurs_at. by rewrite drop_drop. Qed.

Lemma find_subsequence_nil needle : find_subsequence [] needle = None.
Proof.
  destruct (find_subsequence [] needle) as [i|] eqn:E; [|done].
  apply find_subsequence_Some in E as [Hne [Ho _]]. apply occurs_at_bound in Ho; [|done].
  destruct needle; [done|]. simpl in Ho. lia.
Qed.

Lemma contains_app pre needle post : needle <> [] -> contains (pre ++ needle ++ post) needle = true.
Proof.
  intros Hne. unfold contains. destruct (find_subsequence _ _) eqn:Hf; [done|].
  exfalso. rewrite find_subsequence_None in Hf by done. apply (Hf (length pre)).
  unfold occurs_at. rewrite drop_app_length. by exists post.
Qed.

#[export] Hint Resolve find_subsequence_bound : serial.
