(* ===== verification/RustStr.v ===== *)
(** * Text and character operations of the Rust standard library

    Rust's [String] and [str] are byte sequences that hold valid UTF-8; they are
    modelled as [list byte].  This file gives the standard-library operations
    the repository calls: UTF-8 validation ([String::from_utf8]), lossy decoding
    ([String::from_utf8_lossy]), [str::trim] and its variants, the ASCII byte
    predicates, [{:02x}]/[{:02X}] formatting and [u8::from_str_radix]. *)

From stdpp Require Import pretty.
From S2P Require Import Prelude.

(** A string literal as its bytes. *)
Definition bs (s : string) : list byte := String.list_byte_of_string s.

Definition in_range (lo b hi : Z) : bool := (lo <=? b) && (b <=? hi).

(** ** ASCII predicates on [u8] *)

Definition is_ascii (b : byte) : bool := b2z b <? 128.

(** [u8::is_ascii_whitespace]: space, tab, line feed, form feed, carriage
    return.  Vertical tab (0x0B) is not in the set. *)
Definition is_ascii_whitespace (b : byte) : bool :=
  let z := b2z b in
  (z =? 32) || (z =? 9) || (z =? 10) || (z =? 12) || (z =? 13).

(** [char::to_digit(16)] on an ASCII byte. *)
Definition hex_digit (b : byte) : option Z :=
  let z := b2z b in
  if in_range 48 z 57 then Some (z - 48)
  else if in_range 65 z 70 then Some (z - 55)
  else if in_range 97 z 102 then Some (z - 87)
  else None.

Definition is_ascii_hexdigit (b : byte) : bool :=
  match hex_digit b with Some _ => true | None => false end.

Definition is_ascii_alphanumeric (b : byte) : bool :=
  let z := b2z b in in_range 48 z 57 || in_range 65 z 90 || in_range 97 z 122.

(** [u8::to_ascii_lowercase]. *)
Definition to_ascii_lowercase (b : byte) : byte :=
  if in_range 65 (b2z b) 90 then z2b (b2z b + 32) else b.

(** [u8::to_ascii_uppercase]. *)
Definition to_ascii_uppercase (b : byte) : byte :=
  if in_range 97 (b2z b) 122 then z2b (b2z b - 32) else b.

Definition is_ascii_digit (b : byte) : bool := in_range 48 (b2z b) 57.

(** Digits of a radix-16 number, most significant first, with the overflow check
    of [u8]. *)
Fixpoint radix16_digits (acc : Z) (s : list byte) : option Z :=
  match s with
  | [] => Some acc
  | b :: s =>
      d ← hex_digit b;
      if acc * 16 + d <? 256 then radix16_digits (acc * 16 + d) s else None
  end.

(** [u8::from_str_radix(s, 16)]: a leading [+] is accepted; the empty string and
    a lone sign are not. *)
Definition u8_from_str_radix16 (s : list byte) : option byte :=
  match s with
  | [] => None
  | x2b :: rest | rest => z2b <$> (if bool_decide (rest = []) then None else radix16_digits 0 rest)
  end.

(** One hex digit, upper or lower case. *)
Definition hex_char (upper : bool) (d : Z) : byte :=
  if d <? 10 then z2b (48 + d) else z2b (d + (if upper then 55 else 87)).

(** [format!("{b:02x}")] and [format!("{b:02X}")]. *)
Definition hex2 (upper : bool) (b : byte) : list byte :=
  [hex_char upper (b2z b / 16); hex_char upper (b2z b mod 16)].

(** ** UTF-8 *)

Definition is_cont (b : byte) : bool := in_range 128 (b2z b) 191.

(** The width announced by a lead byte; 0 when no character starts with it. *)
Definition utf8_width (b : byte) : nat :=
  let z := b2z b in
  if z <? 128 then 1
  else if in_range 194 z 223 then 2
  else if in_range 224 z 239 then 3
  else if in_range 240 z 244 then 4
  else 0.

(** The second byte a lead byte admits (no overlong form, no surrogate, at most
    U+10FFFF). *)
Definition second_ok (lead b : byte) : bool :=
  let z := b2z lead in
  let lo := if z =? 224 then 160 else if z =? 240 then 144 else 128 in
  let hi := if z =? 237 then 159 else if z =? 244 then 143 else 191 in
  in_range lo (b2z b) hi.

(** The first character of a byte sequence: [(true, w)] for a valid character of
    [w] bytes, [(false, w)] for a maximal invalid prefix of [w] bytes. *)
Definition utf8_first (l : list byte) : bool * nat :=
  match l with
  | [] => (false, 1%nat)
  | b0 :: rest =>
      match utf8_width b0, rest with
      | 1%nat, _ => (true, 1%nat)
      | 2%nat, b1 :: _ => if is_cont b1 then (true, 2%nat) else (false, 1%nat)
      | 3%nat, b1 :: rest =>
          if negb (second_ok b0 b1) then (false, 1%nat)
          else match rest with
               | b2 :: _ => if is_cont b2 then (true, 3%nat) else (false, 2%nat)
               | [] => (false, 2%nat)
               end
      | 4%nat, b1 :: rest =>
          if negb (second_ok b0 b1) then (false, 1%nat)
          else match rest with
               | b2 :: rest =>
                   if negb (is_cont b2) then (false, 2%nat)
                   else match rest with
                        | b3 :: _ => if is_cont b3 then (true, 4%nat) else (false, 3%nat)
                        | [] => (false, 3%nat)
                        end
               | [] => (false, 2%nat)
               end
      | _, _ => (false, 1%nat)
      end
  end.

(** The byte sequence cut into characters and invalid pieces.  The fuel is the
    length, and every piece is at least one byte long. *)
Fixpoint utf8_pieces_fuel (fuel : nat) (l : list byte) : list (bool * list byte) :=
  match fuel, l with
  | S fuel, _ :: _ =>
      let '(ok, w) := utf8_first l in
      (ok, take w l) :: utf8_pieces_fuel fuel (drop w l)
  | _, _ => []
  end.

Definition utf8_pieces (l : list byte) : list (bool * list byte) :=
  utf8_pieces_fuel (length l) l.

(** [str::from_utf8(l).is_ok()]. *)
Definition utf8_valid (l : list byte) : bool := forallb fst (utf8_pieces l).

(** U+FFFD in UTF-8. *)
Definition REPLACEMENT : list byte := [xef; xbf; xbd].

(** [String::from_utf8_lossy]. *)
Definition from_utf8_lossy (l : list byte) : list byte :=
  concat ((fun p : bool * list byte => if p.1 then p.2 else REPLACEMENT) <$> utf8_pieces l).

(** [char::is_whitespace]: the code points with the White_Space property, as
    their UTF-8 encodings. *)
Definition is_whitespace_char (c : list byte) : bool :=
  match b2z <$> c with
  | [z] => in_range 9 z 13 || (z =? 32)
  | [194; z] => (z =? 133) || (z =? 160)
  | [225; 154; 128] => true
  | [226; 128; z] => in_range 128 z 138 || (z =? 168) || (z =? 169) || (z =? 175)
  | [226; 129; 159] => true
  | [227; 128; 128] => true
  | _ => false
  end.

Fixpoint drop_while {A} (p : A -> bool) (l : list A) : list A :=
  match l with
  | [] => []
  | x :: l' => if p x then drop_while p l' else l
  end.

(** [str::trim_start], [str::trim_end], [str::trim]. *)
Definition trim_start (s : list byte) : list byte :=
  concat (drop_while is_whitespace_char ((utf8_pieces s).*2)).
Definition trim_end (s : list byte) : list byte :=
  concat (reverse (drop_while is_whitespace_char (reverse ((utf8_pieces s).*2)))).
Definition trim (s : list byte) : list byte := trim_end (trim_start s).

(** [slice.join(sep)]. *)
Fixpoint join (sep : list byte) (l : list (list byte)) : list byte :=
  match l with
  | [] => []
  | [x] => x
  | x :: l => x ++ sep ++ join sep l
  end.

(** [str::strip_prefix]. *)
Definition strip_prefix (s p : list byte) : option (list byte) :=
  if starts_with s p then Some (drop (length p) s) else None.

(** [str::strip_suffix]. *)
Definition strip_suffix (s p : list byte) : option (list byte) :=
  if ends_with s p then Some (take (length s - length p) s) else None.

(** [str::parse::<usize>]: an optional plus sign and digits. *)
Fixpoint parse_digits (acc : Z) (s : list byte) : option Z :=
  match s with
  | [] => Some acc
  | b :: s =>
      if is_ascii_digit b
      then let acc := acc * 10 + (b2z b - 48) in
           if U64_MAX <? acc then None else parse_digits acc s
      else None
  end.

Definition parse_usize (s : list byte) : option Z :=
  match (match s with x2b :: _ :: _ => tail s | _ => s end) with
  | [] => None
  | digits => parse_digits 0 digits
  end.

(** [usize::to_string]. *)
Definition usize_to_string (n : Z) : list byte := bs (pretty (Z.to_N n)).

(** ** Lemmas *)

Lemma hex_digit_range b d : hex_digit b = Some d -> 0 <= d < 16.
Proof.
  unfold hex_digit, in_range. intros H.
  repeat (case_match; simplify_eq);
    repeat match goal with H : (_ && _) = true |- _ => apply andb_prop in H as [??] end; lia.
Qed.

(** Decide a property of one byte by enumeration. *)
Ltac byte_cases b := destruct b; vm_compute; try done; try congruence.

Lemma hex_digit_hex_char upper d : 0 <= d < 16 -> hex_digit (hex_char upper d) = Some d.
Proof.
  intros Hd.
  assert (Hin : In (Z.to_nat d) (seq 0 16)) by (apply in_seq; lia).
  replace d with (Z.of_nat (Z.to_nat d)) by lia. simpl in Hin.
  destruct upper; repeat (destruct Hin as [<-|Hin]; [reflexivity|]); done.
Qed.

Lemma nibbles_range b : 0 <= b2z b / 16 < 16 /\ 0 <= b2z b mod 16 < 16.
Proof.
  pose proof (b2z_range b). split.
  - split; [apply Z.div_pos; lia|apply Z.div_lt_upper_bound; lia].
  - apply Z.mod_pos_bound. lia.
Qed.

(** Formatting a byte in hex and parsing it back. *)
Lemma from_str_radix16_hex2 upper b : u8_from_str_radix16 (hex2 upper b) = Some b.
Proof. destruct upper, b; reflexivity. Qed.

Lemma hex2_hexdigit upper b : Forall (fun c => is_ascii_hexdigit c = true) (hex2 upper b).
Proof. destruct upper, b; repeat constructor. Qed.

Lemma utf8_first_pos l : (1 <= (utf8_first l).2)%nat.
Proof. unfold utf8_first. repeat case_match; simpl; lia. Qed.

Lemma utf8_first_length l : l <> [] -> ((utf8_first l).2 <= length l)%nat.
Proof. intros Hl. unfold utf8_first. repeat case_match; simplify_eq/=; lia. Qed.

Lemma utf8_pieces_fuel_concat fuel l :
  (length l <= fuel)%nat -> concat ((utf8_pieces_fuel fuel l).*2) = l.
Proof.
  revert l. induction fuel as [|fuel IH]; intros l Hl; [by destruct l; simpl in *; [|lia]|].
  destruct l as [|b l]; [done|]. cbn [utf8_pieces_fuel].
  pose proof (utf8_first_pos (b :: l)) as Hp.
  destruct (utf8_first (b :: l)) as [ok w] eqn:E. cbn [fmap list_fmap concat snd].
  rewrite IH; [apply take_drop|]. rewrite length_drop. simpl in *. lia.
Qed.

(** The pieces partition the input. *)
Lemma utf8_pieces_concat l : concat ((utf8_pieces l).*2) = l.
Proof. by apply utf8_pieces_fuel_concat. Qed.

(** Lossy decoding of valid UTF-8 changes nothing. *)
Lemma from_utf8_lossy_valid l : utf8_valid l = true -> from_utf8_lossy l = l.
Proof.
  unfold utf8_valid, from_utf8_lossy. intros H.
  rewrite <- (utf8_pieces_concat l) at 2. f_equal.
  induction (utf8_pieces l) as [|[ok c] ps IH]; [done|].
  simpl in *. apply andb_prop in H as [-> H]. f_equal. by apply IH.
Qed.

Lemma utf8_pieces_fuel_ascii fuel l :
  (length l <= fuel)%nat -> Forall (fun b => is_ascii b = true) l ->
  utf8_pieces_fuel fuel l = (fun b => (true, [b])) <$> l.
Proof.
  revert l. induction fuel as [|fuel IH]; intros l Hl Ha.
  { by destruct l; simpl in *; [|lia]. }
  destruct l as [|b l]; [done|]. inversion Ha as [|?? Hb Hl']; subst.
  cbn [utf8_pieces_fuel].
  assert (utf8_first (b :: l) = (true, 1%nat)) as ->.
  { simpl. unfold utf8_width, is_ascii in *. by rewrite Hb. }
  simpl. rewrite drop_0, IH; [done| |done]. simpl in Hl. lia.
Qed.

Lemma utf8_pieces_ascii l :
  Forall (fun b => is_ascii b = true) l -> utf8_pieces l = (fun b => (true, [b])) <$> l.
Proof. by apply utf8_pieces_fuel_ascii. Qed.

(** ASCII text is valid UTF-8. *)
Lemma utf8_valid_ascii l : Forall (fun b => is_ascii b = true) l -> utf8_valid l = true.
Proof.
  intros H. unfold utf8_valid. rewrite utf8_pieces_ascii by done.
  by induction l; inversion H; simpl; auto.
Qed.

(** ** Trimming printable text *)

Lemma drop_while_id {A} (p : A -> bool) x l : p x = false -> drop_while p (x :: l) = x :: l.
Proof. simpl. by intros ->. Qed.

Lemma concat_singletons {A} (l : list A) : concat ((fun x => [x]) <$> l) = l.
Proof. induction l as [|x l IH]; [done|]. simpl. f_equal. apply IH. Qed.

Lemma pieces_singletons l :
  Forall (fun b => is_ascii b = true) l -> (utf8_pieces l).*2 = (fun b => [b]) <$> l.
Proof. intros Ha. rewrite utf8_pieces_ascii by done. by rewrite <- list_fmap_compose. Qed.

(** ASCII text whose first and last characters are not blank is unchanged by
    [trim]. *)
Lemma trim_id l :
  Forall (fun b => is_ascii b = true) l ->
  (forall b, head l = Some b -> is_whitespace_char [b] = false) ->
  (forall b, last l = Some b -> is_whitespace_char [b] = false) ->
  trim l = l.
Proof.
  intros Ha Hh Hl.
  assert (Hs : trim_start l = l).
  { unfold trim_start. rewrite pieces_singletons by done. destruct l as [|b l]; [done|].
    cbn [fmap list_fmap]. rewrite drop_while_id by (by apply Hh).
    apply (concat_singletons (b :: l)). }
  unfold trim. rewrite Hs. unfold trim_end. rewrite pieces_singletons by done.
  destruct l as [|b l] using rev_ind; [done|].
  rewrite fmap_app, reverse_app. cbn [fmap list_fmap].
  change (reverse [[b]] ++ ?k) with ([b] :: k).
  rewrite drop_while_id by (apply Hl; by rewrite last_snoc).
  rewrite <- (concat_singletons (l ++ [b])), fmap_app. f_equal.
  change ([b] :: ?k) with ([[b]] ++ k).
  by rewrite reverse_app, reverse_involutive.
Qed.

#[export] Hint Resolve hex_digit_range nibbles_range utf8_valid_ascii : serial.

(** ** Decimal numbers *)

Lemma bs_cons c s : bs (String c s) = Ascii.byte_of_ascii c :: bs s.
Proof. done. Qed.

(** The digit of [pretty_N_char]. *)
Lemma pretty_char x : (x < 10)%N ->
  let b := Ascii.byte_of_ascii (pretty_N_char x) in is_ascii_digit b = true /\ b2z b = 48 + Z.of_N x.
Proof.
  intros Hx. assert (Hd : x = 0%N \/ x = 1%N \/ x = 2%N \/ x = 3%N \/ x = 4%N \/ x = 5%N \/ x = 6%N
    \/ x = 7%N \/ x = 8%N \/ x = 9%N) by lia.
  by repeat (destruct Hd as [->|Hd]; [done|]); rewrite Hd.
Qed.

Lemma parse_pretty_go x : forall s, Z.of_N x <= U64_MAX ->
  parse_digits 0 (bs (pretty_N_go x s)) = parse_digits (Z.of_N x) (bs s).
Proof.
  induction (N.lt_wf_0 x) as [x _ IH]. intros s Hx.
  destruct (decide (x = 0)%N) as [->|Hz]; [by rewrite pretty_N_go_0|].
  rewrite pretty_N_go_step by lia. rewrite IH; [|apply N.div_lt; lia|].
  2: { rewrite N2Z.inj_div. apply Z.div_le_upper_bound; lia. }
  rewrite bs_cons. destruct (pretty_char (x mod 10)) as [Hd Hb]; [by apply N.mod_lt|].
  cbn [parse_digits]. rewrite Hd, Hb.
  assert (Hsum : Z.of_N (x / 10) * 10 + (48 + Z.of_N (x mod 10) - 48) = Z.of_N x).
  { rewrite N2Z.inj_div, N2Z.inj_mod by lia. pose proof (Z.div_mod (Z.of_N x) 10). lia. }
  rewrite Hsum. by rewrite (proj2 (Z.ltb_ge _ _)).
Qed.

Lemma pretty_go_digits x : forall s, Forall (fun b => is_ascii_digit b = true) (bs s) ->
  Forall (fun b => is_ascii_digit b = true) (bs (pretty_N_go x s)).
Proof.
  induction (N.lt_wf_0 x) as [x _ IH]. intros s Hs.
  destruct (decide (x = 0)%N) as [->|Hz]; [by rewrite pretty_N_go_0|].
  rewrite pretty_N_go_step by lia. apply IH; [apply N.div_lt; lia|].
  rewrite bs_cons. constructor; [|done]. by apply pretty_char, N.mod_lt.
Qed.

(** A number is printed as digits. *)
Lemma usize_to_string_digits n : Forall (fun b => is_ascii_digit b = true) (usize_to_string n).
Proof.
  unfold usize_to_string, pretty, pretty_N. destruct (decide _); [by repeat constructor|].
  apply pretty_go_digits. constructor.
Qed.

Lemma pretty_go_length x : forall s, (length (bs s) <= length (bs (pretty_N_go x s)))%nat.
Proof.
  induction (N.lt_wf_0 x) as [x _ IH]. intros s.
  destruct (decide (x = 0)%N) as [->|Hz]; [by rewrite pretty_N_go_0|].
  rewrite pretty_N_go_step by lia. etrans; [|apply IH; apply N.div_lt; lia].
  rewrite bs_cons. simpl. lia.
Qed.

(** A number is printed as at least one digit. *)
Lemma usize_to_string_nonempty n : usize_to_string n <> [].
Proof.
  unfold usize_to_string, pretty, pretty_N. destruct (decide _); [done|].
  rewrite pretty_N_go_step by lia. intros E.
  pose proof (pretty_go_length (Z.to_N n `div` 10)%N
    (String (pretty_N_char (Z.to_N n `mod` 10)) "")) as Hl.
  rewrite E, bs_cons in Hl. simpl in Hl. lia.
Qed.

(** Printing and parsing back. *)
Lemma parse_usize_to_string n : 0 <= n <= U64_MAX -> parse_usize (usize_to_string n) = Some n.
Proof.
  intros Hn. pose proof (usize_to_string_digits n) as Hd.
  assert (Hp : parse_digits 0 (usize_to_string n) = Some n).
  { unfold usize_to_string, pretty, pretty_N. destruct (decide _) as [Hz|Hz].
    - assert (n = 0) as -> by lia. done.
    - rewrite parse_pretty_go by lia. cbn. f_equal. lia. }
  unfold parse_usize. destruct (usize_to_string n) as [|b l] eqn:E; cbn [tail].
  - by apply usize_to_string_nonempty in E.
  - apply Forall_cons in Hd as [Hb _].
    assert (Hnp : b <> x2b) by (intros ->; discriminate Hb).
    destruct l; destruct b; done.
Qed.
