(* ===== verification/Checksums.v ===== *)
(** * [src/checksums.rs]: single-byte protocol checksums

    [xor_checksum] (NMEA-0183 [*XX]) and [lrc] (Modbus ASCII), with the algebra
    the parsers rely on: both are additive over concatenation, and both detect
    every substitution of one byte. *)

From S2P Require Import Prelude.

Definition xor_checksum (bytes : list byte) : byte :=
  foldl (fun acc b => u8_xor acc b) x00 bytes.

Definition lrc (bytes : list byte) : byte :=
  let sum := foldl (fun acc b => u8_wrapping_add acc b) x00 bytes in
  u8_wrapping_neg sum.

(** ** Reference forms over the integers *)

Definition byte_sum (l : list byte) : Z := foldr (fun b s => b2z b + s) 0 l.
Definition byte_xor (l : list byte) : Z := foldr (fun b s => Z.lxor (b2z b) s) 0 l.

Lemma lxor_byte_range a b : 0 <= a < 256 -> 0 <= b < 256 -> 0 <= Z.lxor a b < 256.
Proof.
  intros Ha Hb. split; [apply Z.lxor_nonneg; lia|].
  destruct (Z.eq_dec (Z.lxor a b) 0) as [->|Hne]; [lia|].
  assert (Hp : 0 <= Z.lxor a b) by (apply Z.lxor_nonneg; lia).
  change 256 with (2 ^ 8). apply Z.log2_lt_pow2; [lia|].
  assert (Hlog : forall z, 0 <= z < 256 -> Z.log2 z < 8).
  { intros z Hz. destruct (Z.eq_dec z 0) as [->|]; [done|].
    apply Z.log2_lt_pow2; [lia|]. change (2 ^ 8) with 256. lia. }
  pose proof (Z.log2_lxor a b ltac:(lia) ltac:(lia)).
  pose proof (Hlog a Ha). pose proof (Hlog b Hb). lia.
Qed.

Lemma byte_xor_range l : 0 <= byte_xor l < 256.
Proof.
  induction l as [|b l IH]; simpl; [lia|].
  apply lxor_byte_range; [apply b2z_range|done].
Qed.

Lemma u8_xor_z a b : b2z (u8_xor a b) = Z.lxor (b2z a) (b2z b).
Proof.
  unfold u8_xor. rewrite b2z_z2b, Z.mod_small; [done|].
  apply lxor_byte_range; apply b2z_range.
Qed.

Lemma byte_sum_app l k : byte_sum (l ++ k) = byte_sum l + byte_sum k.
Proof. induction l as [|b l IH]; simpl; [lia|]. unfold byte_sum in *. lia. Qed.

Lemma byte_xor_app l k : byte_xor (l ++ k) = Z.lxor (byte_xor l) (byte_xor k).
Proof.
  induction l as [|b l IH]; simpl; [done|]. fold (byte_xor (l ++ k)).
  by rewrite IH, Z.lxor_assoc.
Qed.

(** [xor_checksum] is the exclusive or of all bytes. *)
Lemma xor_checksum_z l : b2z (xor_checksum l) = byte_xor l.
Proof.
  unfold xor_checksum.
  assert (H : forall acc, b2z (foldl (fun acc b => u8_xor acc b) acc l)
                   = Z.lxor (b2z acc) (byte_xor l)).
  { induction l as [|b l IH]; intros acc; simpl; [by rewrite Z.lxor_0_r|].
    rewrite IH, u8_xor_z. by rewrite Z.lxor_assoc. }
  rewrite H. by rewrite Z.lxor_0_l.
Qed.

(** [lrc] is the two's complement of the byte sum. *)
Lemma lrc_z l : b2z (lrc l) = (- byte_sum l) mod 256.
Proof.
  unfold lrc, u8_wrapping_neg. rewrite b2z_z2b.
  assert (H : forall acc, b2z (foldl (fun acc b => u8_wrapping_add acc b) acc l)
                   = (b2z acc + byte_sum l) mod 256).
  { induction l as [|b l IH]; intros acc; simpl.
    - rewrite Z.add_0_r, Z.mod_small; [done|apply b2z_range].
    - rewrite IH. unfold u8_wrapping_add. rewrite b2z_z2b.
      rewrite Zplus_mod_idemp_l. f_equal. fold (byte_sum l). lia. }
  rewrite H. change (b2z x00) with 0. rewrite Z.add_0_l.
  rewrite <- (Z.sub_0_l (byte_sum l mod 256)), Zminus_mod_idemp_r. f_equal.
Qed.

(** A frame that carries its own LRC sums to zero modulo 256. *)
Lemma lrc_appended_sum l : byte_sum (l ++ [lrc l]) mod 256 = 0.
Proof.
  rewrite byte_sum_app. simpl. rewrite Z.add_0_r, lrc_z, Zplus_mod_idemp_r.
  by rewrite Z.add_opp_diag_r.
Qed.

Lemma lrc_detects l1 a b l2 :
  lrc (l1 ++ [a] ++ l2) = lrc (l1 ++ [b] ++ l2) -> a = b.
Proof.
  intros H%(f_equal b2z). rewrite !lrc_z, !byte_sum_app in H. simpl in H.
  rewrite !Z.add_0_r in H. apply b2z_inj.
  pose proof (b2z_range a). pose proof (b2z_range b).
  assert (Hd : (b2z a - b2z b) mod 256 = 0).
  { replace (b2z a - b2z b) with
      (- (byte_sum l1 + (b2z b + byte_sum l2)) - - (byte_sum l1 + (b2z a + byte_sum l2))) by lia.
    rewrite Zminus_mod, H, Z.sub_diag. done. }
  apply Z.mod_divide in Hd as [k Hk]; [|done]. lia.
Qed.

Lemma xor_detects l1 a b l2 :
  xor_checksum (l1 ++ [a] ++ l2) = xor_checksum (l1 ++ [b] ++ l2) -> a = b.
Proof.
  intros H%(f_equal b2z). rewrite !xor_checksum_z, !byte_xor_app in H. simpl in H.
  rewrite !Z.lxor_0_r in H. apply b2z_inj.
  assert (Hinj : forall x y z, Z.lxor x y = Z.lxor x z -> y = z).
  { intros x y z E. apply (f_equal (Z.lxor x)) in E.
    by rewrite <- !Z.lxor_assoc, !Z.lxor_nilpotent, !Z.lxor_0_l in E. }
  apply Hinj in H. rewrite !(Z.lxor_comm _ (byte_xor l2)) in H. by apply Hinj in H.
Qed.

(** Both protocol checksums detect every single-byte substitution: two
    messages that differ in exactly one byte have different NMEA XOR checksums
    and different Modbus LRCs. *)
Theorem checksums_detect_single_byte_error l1 a b l2 :
  a <> b ->
  xor_checksum (l1 ++ [a] ++ l2) <> xor_checksum (l1 ++ [b] ++ l2) /\
  lrc (l1 ++ [a] ++ l2) <> lrc (l1 ++ [b] ++ l2).
Proof.
  intros Hne. split; intros H; apply Hne.
  - by apply xor_detects in H.
  - by apply lrc_detects in H.
Qed.

Lemma checksums_detect_single_byte_error_witness :
  xor_checksum [x01; x03; x00] <> xor_checksum [x01; x04; x00] /\
  lrc [x01; x03; x00] <> lrc [x01; x04; x00].
Proof. apply (checksums_detect_single_byte_error [x01] x03 x04 [x00]). done. Defined.
