(* ===== verification/Extern.v ===== *)
(** * Interfaces of the third-party crates the source calls

    The crates [hex], [base64], [serde_json], [regex] and [glob] are not part of
    the repository: each is a class of operations that the model takes as a
    parameter.  Where the source relies on documented behaviour, that behaviour
    is a separate class of laws, and the theorems that need it say so. *)

From S2P Require Import Prelude RustStr.

(** [hex::decode]: pairs of hex digits, either case. *)
Class HexCrate := {
  FromHexError : Type;
  hex_decode : list byte -> result FromHexError (list byte);
}.

(** Documented: decoding the hex rendering of bytes yields the bytes. *)
Class HexLaws `{HexCrate} :=
  hex_decode_hex2 : forall bytes, hex_decode (concat (hex2 false <$> bytes)) = Ok bytes.

(** [base64::engine::general_purpose::{STANDARD, URL_SAFE_NO_PAD}]. *)
Class Base64Crate := {
  DecodeError : Type;
  base64_standard_encode : list byte -> list byte;
  base64_standard_decode : list byte -> result DecodeError (list byte);
  base64_url_safe_no_pad_decode : list byte -> result DecodeError (list byte);
}.

(** The characters of the standard alphabet and the padding character. *)
Definition base64_char (b : byte) : bool :=
  let z := b2z b in
  in_range 65 z 90 || in_range 97 z 122 || in_range 48 z 57
  || (z =? 43) || (z =? 47) || (z =? 61).

Class Base64Laws `{Base64Crate} := {
  base64_roundtrip : forall bytes,
    base64_standard_decode (base64_standard_encode bytes) = Ok bytes;
  base64_alphabet : forall bytes,
    Forall (fun c => base64_char c = true) (base64_standard_encode bytes);
}.

(** [serde_json::from_slice::<Value>(data)] followed by [Value::is_object]:
    the parsed value, when the whole slice is one JSON document. *)
Class JsonCrate := {
  Value : Type;
  from_slice : list byte -> option Value;
  is_object : Value -> bool;
}.

(** [serde_json::Value], built by [json!]; an object lists its members. *)
Inductive Json :=
  | JNull
  | JBool (b : bool)
  | JNumber (z : Z)
  | JString (s : list byte)
  | JArray (l : list Json)
  | JObject (members : list (list byte * Json)).

(** [serde_json::to_string]: the compact text of a value. *)
Class JsonWriter := { json_to_string : Json -> list byte }.

(** [regex::bytes::Regex]: compilation, search, and the start of the leftmost
    match. *)
Class RegexCrate := {
  Regex : Type;
  RegexError : Type;
  regex_new : list byte -> result RegexError Regex;
  regex_find : Regex -> list byte -> option nat;
}.

(** [Regex::is_match]: whether there is a match anywhere in the haystack. *)
Definition regex_is_match `{RegexCrate} (re : Regex) (data : list byte) : bool :=
  match regex_find re data with Some _ => true | None => false end.

(** [glob::Pattern]. *)
Class GlobCrate := {
  Pattern : Type;
  PatternError : Type;
  pattern_new : list byte -> result PatternError Pattern;
  pattern_matches : Pattern -> list byte -> bool;
  pattern_as_str : Pattern -> list byte;
}.
