(* ===== verification/ExternModel.v ===== *)
(** * Concrete instances of the crate interfaces

    Functions that satisfy the laws of [Extern], so that the theorems which
    assume those laws can be applied and the model can be evaluated.  They are
    not models of the crates' code; only the laws are used by the theorems. *)

From S2P Require Import Prelude RustStr Extern.

(** ** Hexadecimal text *)

Fixpoint hex_pairs (l : list byte) : result unit (list byte) :=
  match l with
  | [] => Ok []
  | a :: b :: l =>
      match hex_digit a, hex_digit b with
      | Some x, Some y => r ← hex_pairs l; Ok (z2b (x * 16 + y) :: r)
      | _, _ => Err tt
      end
  | _ => Err tt
  end.

#[export] Instance hex_reference : HexCrate :=
  {| FromHexError := unit; hex_decode := hex_pairs |}.

#[export] Instance hex_reference_laws : HexLaws.
Proof.
  intros bytes. change (hex_pairs (concat (hex2 false <$> bytes)) = Ok bytes).
  induction bytes as [|b bytes IH]; [done|].
  cbn [fmap list_fmap concat hex2 app hex_pairs].
  destruct (nibbles_range b) as [H1 H2].
  rewrite !hex_digit_hex_char by done. rewrite IH. simpl.
  by rewrite (z2b_eq _ b) by (pose proof (Z.div_mod (b2z b) 16 ltac:(lia)); lia).
Qed.

(** ** Base64 text *)

Definition b64_char (n : Z) : byte :=
  z2b (if n <? 26 then n + 65 else if n <? 52 then n + 71
       else if n <? 62 then n - 4 else if n =? 62 then 43 else 47).

Definition b64_value (b : byte) : option Z :=
  let z := b2z b in
  if in_range 65 z 90 then Some (z - 65)
  else if in_range 97 z 122 then Some (z - 71)
  else if in_range 48 z 57 then Some (z + 4)
  else if z =? 43 then Some 62 else if z =? 47 then Some 63 else None.

Fixpoint b64_encode (l : list byte) : list byte :=
  match l with
  | [] => []
  | [a] =>
      let a := b2z a in [b64_char (a / 4); b64_char (a mod 4 * 16); x3d; x3d]
  | [a; b] =>
      let a := b2z a in let b := b2z b in
      [b64_char (a / 4); b64_char (a mod 4 * 16 + b / 16); b64_char (b mod 16 * 4); x3d]
  | a :: b :: c :: l =>
      let a := b2z a in let b := b2z b in let c := b2z c in
      b64_char (a / 4) :: b64_char (a mod 4 * 16 + b / 16)
        :: b64_char (b mod 16 * 4 + c / 64) :: b64_char (c mod 64) :: b64_encode l
  end.

Fixpoint b64_decode (l : list byte) : result unit (list byte) :=
  match l with
  | [] => Ok []
  | w :: x :: y :: z :: l =>
      match b64_value w, b64_value x, b64_value y, b64_value z with
      | Some w, Some x, Some y, Some z =>
          r ← b64_decode l;
          Ok (z2b (w * 4 + x / 16) :: z2b (x mod 16 * 16 + y / 4) :: z2b (y mod 4 * 64 + z) :: r)
      | Some w, Some x, Some y, None => Ok [z2b (w * 4 + x / 16); z2b (x mod 16 * 16 + y / 4)]
      | Some w, Some x, None, None => Ok [z2b (w * 4 + x / 16)]
      | _, _, _, _ => Err tt
      end
  | _ => Err tt
  end.

#[export] Instance base64_reference : Base64Crate :=
  {| DecodeError := unit; base64_standard_encode := b64_encode;
     base64_standard_decode := b64_decode;
     base64_url_safe_no_pad_decode := b64_decode |}.

Lemma b64_char_ok n : 0 <= n < 64 ->
  b64_value (b64_char n) = Some n /\ base64_char (b64_char n) = true.
Proof.
  intros Hn. assert (Hin : In (Z.to_nat n) (seq 0 64)) by (apply in_seq; lia).
  replace n with (Z.of_nat (Z.to_nat n)) by lia. simpl in Hin.
  repeat (destruct Hin as [<-|Hin]; [by split|]). done.
Qed.

Ltac Zify.zify_post_hook ::= Z.div_mod_to_equations.

(** Induction on the length, three bytes at a time. *)
Lemma triples_ind (P : list byte -> Prop) :
  P [] -> (forall a, P [a]) -> (forall a b, P [a; b]) ->
  (forall a b c l, P l -> P (a :: b :: c :: l)) -> forall l, P l.
Proof.
  intros H0 H1 H2 H3 l. remember (length l) as n eqn:Hn. revert l Hn.
  induction n as [n IH] using lt_wf_ind. intros [|a [|b [|c l]]] ->; auto.
  apply H3, (IH (length l)); simpl; lia.
Qed.

#[export] Instance base64_reference_laws : Base64Laws.
Proof.
  split; intros bytes; simpl.
  - induction bytes as [|a|a b|a b c l IH] using triples_ind; [done|..]; simpl;
      pose proof (b2z_range a); try pose proof (b2z_range b); try pose proof (b2z_range c);
      rewrite !(fun n H => proj1 (b64_char_ok n H)) by lia; simpl.
    + by rewrite (z2b_eq _ a) by lia.
    + by rewrite (z2b_eq _ a), (z2b_eq _ b) by lia.
    + rewrite IH. simpl. by rewrite (z2b_eq _ a), (z2b_eq _ b), (z2b_eq _ c) by lia.
  - induction bytes as [|a|a b|a b c l IH] using triples_ind; [constructor|..]; simpl;
      pose proof (b2z_range a); try pose proof (b2z_range b); try pose proof (b2z_range c);
      repeat constructor; try done; apply b64_char_ok; lia.
Qed.

(** ** Text libraries that recognise literals *)

(** A regex engine whose patterns are literals. *)
#[export] Instance regex_reference : RegexCrate :=
  {| Regex := list byte; RegexError := unit; regex_new := Ok;
     regex_find := fun re data =>
       position (fun i => bool_decide (take (length re) (drop i data) = re))
         (seq 0 (S (length data))) |}.

(** A glob engine that knows literals and a trailing star. *)
#[export] Instance glob_reference : GlobCrate :=
  {| Pattern := list byte; PatternError := unit; pattern_new := Ok;
     pattern_matches := fun p l =>
       match last p with
       | Some x2a => starts_with l (take (length p - 1) p)
       | _ => bool_decide (p = l)
       end;
     pattern_as_str := id |}.

(** A JSON reader that accepts the empty object only. *)
#[export] Instance json_reference : JsonCrate :=
  {| Value := unit; is_object := fun _ => true;
     from_slice := fun d => if bool_decide (d = bs "{}") then Some tt else None |}.

(** A JSON writer: compact, with the two escapes and control characters as
    [\u00xx], line ends in short form. *)
Definition json_escape (b : byte) : list byte :=
  if bool_decide (b = x22) || bool_decide (b = x5c) then [x5c; b]
  else if bool_decide (b = x0a) then bs "\n"
  else if bool_decide (b = x0d) then bs "\r"
  else if bool_decide (b = x09) then bs "\t"
  else if b2z b <? 32 then bs "\u00" ++ hex2 false b
  else [b].

Definition json_quote (s : list byte) : list byte := x22 :: concat (json_escape <$> s) ++ [x22].

Fixpoint json_write (v : Json) : list byte :=
  match v with
  | JNull => bs "null"
  | JBool b => if b then bs "true" else bs "false"
  | JNumber z => if z <? 0 then x2d :: usize_to_string (- z) else usize_to_string z
  | JString s => json_quote s
  | JArray l => x5b :: join [x2c] (map json_write l) ++ [x5d]
  | JObject members =>
      x7b :: join [x2c] (map (fun m => json_quote (fst m) ++ x3a :: json_write (snd m)) members) ++ [x7d]
  end.

#[export] Instance json_writer_reference : JsonWriter := {| json_to_string := json_write |}.
