(* ===== verification/Codec.v ===== *)
(** * [src/codec.rs]: payload strings and raw bytes

    The [Encoding] tag, [decode], [encode] and the lossless fallback
    [encode_or_hex]. *)

From S2P Require Import Prelude RustStr Extern ExternModel.

Inductive Encoding := Utf8 | Hex | Base64.

#[export] Instance Encoding_eq_dec : EqDecision Encoding.
Proof. solve_decision. Defined.

Section Codec.
Context `{HexCrate, Base64Crate}.

(** [CodecError]; [FromUtf8Error] owns the rejected bytes. *)
Inductive CodecError :=
  | UnknownEncoding (s : list byte)
  | InvalidUtf8 (bytes : list byte)
  | InvalidHex (e : FromHexError)
  | InvalidBase64 (e : DecodeError)
  | HexOddLength.

(** [Encoding::from_str].  The accepted names are ASCII, so lower-casing the
    ASCII letters decides the same inputs as [str::to_lowercase]. *)
Definition Encoding_from_str (s : list byte) : result CodecError Encoding :=
  let l := to_ascii_lowercase <$> s in
  if bool_decide (l = bs "utf8") || bool_decide (l = bs "utf-8") then Ok Utf8
  else if bool_decide (l = bs "hex") then Ok Hex
  else if bool_decide (l = bs "base64") || bool_decide (l = bs "b64") then Ok Base64
  else Err (UnknownEncoding s).

(** [Display for Encoding]. *)
Definition Encoding_name (e : Encoding) : list byte :=
  match e with
  | Utf8 => bs "utf8"
  | Hex => bs "hex"
  | Base64 => bs "base64"
  end.

Definition encode_hex_spaced (bytes : list byte) : list byte :=
  join (bs " ") (hex2 false <$> bytes).

Definition decode_hex (input : list byte) : result CodecError (list byte) :=
  let stripped := List.filter (fun b => negb (bool_decide (b = x20))) (trim input) in
  if negb (Nat.even (length stripped)) then Err HexOddLength
  else map_err InvalidHex (hex_decode stripped).

Definition decode_base64 (input : list byte) : result CodecError (list byte) :=
  let trimmed := trim input in
  map_err InvalidBase64
    (match base64_standard_decode trimmed with
     | Ok v => Ok v
     | Err _ => base64_url_safe_no_pad_decode trimmed
     end).

Definition decode (encoding : Encoding) (input : list byte) : result CodecError (list byte) :=
  match encoding with
  | Utf8 => Ok input
  | Hex => decode_hex input
  | Base64 => decode_base64 input
  end.

Definition encode (encoding : Encoding) (bytes : list byte) : result CodecError (list byte) :=
  match encoding with
  | Utf8 => if utf8_valid bytes then Ok bytes else Err (InvalidUtf8 bytes)
  | Hex => Ok (encode_hex_spaced bytes)
  | Base64 => Ok (base64_standard_encode bytes)
  end.

(** [EncodedPayload]; the fallback reason keeps the error whose text the code
    records. *)
Record EncodedPayload := mkPayload {
  data : list byte;
  encoding : Encoding;
  fallback_reason : option CodecError;
}.

Definition encode_or_hex (requested : Encoding) (bytes : list byte)
    : result CodecError EncodedPayload :=
  match encode requested bytes with
  | Ok d => Ok (mkPayload d requested None)
  | Err e =>
      d ← encode Hex bytes;
      Ok (mkPayload d Hex (Some e))
  end.

(** ** Lemmas *)

Lemma hex2_not_space upper b :
  List.filter (fun b => negb (bool_decide (b = x20))) (hex2 upper b) = hex2 upper b.
Proof. destruct upper, b; reflexivity. Qed.

Lemma hex2_ends upper b :
  exists c d, hex2 upper b = [c; d] /\ is_whitespace_char [c] = false /\
    is_whitespace_char [d] = false /\ is_ascii c = true /\ is_ascii d = true.
Proof. destruct upper, b; eexists _, _; repeat split. Qed.

Lemma filter_hex_spaced bytes :
  List.filter (fun b => negb (bool_decide (b = x20))) (encode_hex_spaced bytes)
  = concat (hex2 false <$> bytes).
Proof.
  unfold encode_hex_spaced. induction bytes as [|b bytes IH]; [done|].
  destruct bytes as [|b' bytes]; cbn [fmap list_fmap join concat] in *.
  - by rewrite hex2_not_space, app_nil_r.
  - rewrite !List.filter_app, IH, hex2_not_space. done.
Qed.

Lemma hex_spaced_ascii bytes :
  Forall (fun b => is_ascii b = true) (encode_hex_spaced bytes).
Proof.
  unfold encode_hex_spaced. induction bytes as [|b bytes IH]; [constructor|].
  destruct (hex2_ends false b) as (c & d & E & _ & _ & Hc & Hd).
  destruct bytes as [|b' bytes]; cbn [fmap list_fmap join] in *; rewrite E.
  - by repeat constructor.
  - repeat apply Forall_app_2; [by repeat constructor|by repeat constructor|done].
Qed.

Lemma hex_spaced_head bytes b :
  head (encode_hex_spaced bytes) = Some b -> is_whitespace_char [b] = false.
Proof.
  unfold encode_hex_spaced. destruct bytes as [|x bytes]; [done|].
  destruct (hex2_ends false x) as (c & d & E & Hc & _).
  destruct bytes; cbn [fmap list_fmap join]; rewrite E; simpl; naive_solver.
Qed.

Lemma hex_spaced_nonnil x bytes : encode_hex_spaced (x :: bytes) <> [].
Proof.
  unfold encode_hex_spaced. destruct (hex2_ends false x) as (c & d & E & _).
  destruct bytes; cbn [fmap list_fmap join]; by rewrite E.
Qed.

Lemma hex_spaced_cons x y bytes :
  encode_hex_spaced (x :: y :: bytes) = hex2 false x ++ bs " " ++ encode_hex_spaced (y :: bytes).
Proof. done. Qed.

Lemma hex_spaced_last bytes b :
  last (encode_hex_spaced bytes) = Some b -> is_whitespace_char [b] = false.
Proof.
  induction bytes as [|x bytes IH]; [done|]. destruct bytes as [|y bytes].
  - unfold encode_hex_spaced. cbn [fmap list_fmap join].
    destruct (hex2_ends false x) as (c & d & -> & _ & Hd & _). simpl. naive_solver.
  - rewrite hex_spaced_cons, !last_app.
    destruct (last (encode_hex_spaced (y :: bytes))) eqn:L; [intros [= <-]; by apply IH|].
    apply last_None, hex_spaced_nonnil in L. done.
Qed.

Lemma concat_hex2_even bytes : Nat.even (length (concat (hex2 false <$> bytes))) = true.
Proof.
  induction bytes as [|b bytes IH]; [done|]. cbn [fmap list_fmap concat].
  rewrite length_app. by destruct (hex2_ends false b) as (c & d & -> & _).
Qed.

Lemma decode_encode_hex `{!HexLaws} bytes : decode_hex (encode_hex_spaced bytes) = Ok bytes.
Proof.
  unfold decode_hex. rewrite trim_id
    by eauto using hex_spaced_ascii, hex_spaced_head, hex_spaced_last.
  rewrite filter_hex_spaced, concat_hex2_even. simpl.
  by rewrite hex_decode_hex2.
Qed.

Lemma base64_char_plain c :
  base64_char c = true -> is_ascii c = true /\ is_whitespace_char [c] = false.
Proof. destruct c; by vm_compute. Qed.

Lemma decode_encode_base64 `{!Base64Laws} bytes :
  decode_base64 (base64_standard_encode bytes) = Ok bytes.
Proof.
  pose proof (base64_alphabet bytes) as Ha. unfold decode_base64.
  rewrite trim_id.
  - by rewrite base64_roundtrip.
  - eapply Forall_impl; [done|]. intros c Hc. by apply base64_char_plain in Hc as [??].
  - intros b Hb. rewrite Forall_lookup in Ha. rewrite head_lookup in Hb.
    by apply Ha, base64_char_plain in Hb as [??].
  - intros b Hb. rewrite Forall_lookup in Ha. rewrite last_lookup in Hb.
    by apply Ha, base64_char_plain in Hb as [??].
Qed.

(** Whatever [encode] produces, [decode] with the same tag inverts. *)
Lemma decode_encode `{!HexLaws, !Base64Laws} e bytes s :
  encode e bytes = Ok s -> decode e s = Ok bytes.
Proof.
  destruct e; simpl; intros He.
  - case_match; naive_solver.
  - injection He as <-. apply decode_encode_hex.
  - injection He as <-. apply decode_encode_base64.
Qed.

(** The payload [encode_or_hex] returns decodes to its input. *)
Lemma encode_or_hex_decodes `{!HexLaws, !Base64Laws} requested bytes :
  exists p, encode_or_hex requested bytes = Ok p /\ decode (encoding p) (data p) = Ok bytes.
Proof.
  unfold encode_or_hex. destruct (encode requested bytes) as [d|e] eqn:E.
  - eexists. split; [done|]. by apply decode_encode.
  - eexists. split; [done|]. apply decode_encode_hex.
Qed.

(** [encode_or_hex] never fails and never loses a byte.
    For every requested encoding and every payload it returns a payload whose
    [data], decoded under the encoding it reports, is exactly the input; it
    keeps the requested encoding unless that encoding is UTF-8 and the bytes are
    not valid UTF-8, and only then it reports a fallback reason and hex. *)
Theorem encode_or_hex_lossless `{!HexLaws, !Base64Laws} requested bytes :
  exists p, encode_or_hex requested bytes = Ok p /\
    decode (encoding p) (data p) = Ok bytes /\
    (fallback_reason p = None <-> encoding p = requested) /\
    (encoding p <> requested <-> requested = Utf8 /\ utf8_valid bytes = false).
Proof.
  destruct (encode_or_hex_decodes requested bytes) as (p & Hp & Hd). exists p. split; [done|]. split; [done|].
  unfold encode_or_hex in Hp. destruct (encode requested bytes) as [d|e] eqn:E; simplify_eq/=.
  - split; [done|]. split; [done|]. intros [-> Hv]. cbn in E. by rewrite Hv in E.
  - destruct requested; cbn in E; [|done..]. destruct (utf8_valid bytes); [done|]. by repeat split.
Qed.

End Codec.


Lemma encode_or_hex_lossless_witness :
  exists p, encode_or_hex Utf8 [x41; xff; x00] = Ok p /\
    decode (encoding p) (data p) = Ok [x41; xff; x00] /\
    (fallback_reason p = None <-> encoding p = Utf8) /\
    (encoding p <> Utf8 <-> Utf8 = Utf8 /\ utf8_valid [x41; xff; x00] = false).
Proof. apply (encode_or_hex_lossless Utf8 [x41; xff; x00]). Defined.
