(* ===== verification/FramingConfig.v ===== *)
(** * [src/framing/config.rs]: framing and parser configuration, presets

    The RX and TX framing modes, the parser configuration and the three
    expansions of a [ProtocolPreset]. *)

From S2P Require Import Prelude RustStr Codec.

(** [match_config::PatternEncoding] and its conversion into a codec tag. *)
Inductive PatternEncoding := PUtf8 | PHex | PBase64.

Definition PatternEncoding_into (pe : PatternEncoding) : Encoding :=
  match pe with PUtf8 => Utf8 | PHex => Hex | PBase64 => Base64 end.

Inductive LineEnding := Auto | Lf | Cr | Crlf.
Inductive Endianness := Big | Little.
Inductive TxLineEnding := TxLf | TxCr | TxCrlf.

(** How frame boundaries are detected in the byte stream. *)
Inductive RxFramingMode :=
  | RxLine (ending : LineEnding)
  | RxDelimiter (delimiter : list byte) (delimiter_encoding : PatternEncoding)
  | RxLengthPrefixed (prefix_size : Z) (endianness : Endianness) (initial_offset : option Z)
  | RxStartEnd (start : list (list byte)) (end_ : list byte)
      (marker_encoding : PatternEncoding) (include_markers : bool)
  | RxSlip
  | RxCobs.

Record RxFramingConfig := mkRxFraming {
  rx_mode : RxFramingMode;
  max_frames : option Z;
  include_terminators : bool;
  skip_empty : bool;
}.

(** [Default for RxFramingConfig]. *)
Definition RxFramingConfig_default : RxFramingConfig :=
  mkRxFraming (RxLine Auto) None false false.

(** How TX frames are constructed around a payload. *)
Inductive TxFramingMode :=
  | TxLine (ending : TxLineEnding)
  | TxDelimiter (delimiter : list byte) (delimiter_encoding : PatternEncoding)
  | TxLengthPrefixed (prefix_size : Z) (endianness : Endianness)
  | TxStartEnd (start : list (list byte)) (end_ : list byte) (marker_encoding : PatternEncoding)
  | TxSlip
  | TxCobs
  | TxNmea.

Record TxFramingConfig := mkTxFraming { tx_mode : TxFramingMode }.

Inductive ParserType := AtCommand | JsonLines | ShellPrompt | Raw | Nmea | ModbusAscii.

Record ParserConfig := mkParser {
  parser_type : ParserType;
  custom_prompt : option (list byte);
  validate : bool;
}.

Inductive ProtocolPreset :=
  | PAtCommand | PSlip | PJsonLines | PCobs | PNdjson | PNmea0183 | PModbusAscii.

Definition CRLF : list byte := [x0d; x0a].

(** [#[derive(PartialEq)]] of the configuration types. *)
#[export] Instance PatternEncoding_eq_dec : EqDecision PatternEncoding.
Proof. solve_decision. Defined.
#[export] Instance LineEnding_eq_dec : EqDecision LineEnding.
Proof. solve_decision. Defined.
#[export] Instance Endianness_eq_dec : EqDecision Endianness.
Proof. solve_decision. Defined.
#[export] Instance TxLineEnding_eq_dec : EqDecision TxLineEnding.
Proof. solve_decision. Defined.
#[export] Instance RxFramingMode_eq_dec : EqDecision RxFramingMode.
Proof. solve_decision. Defined.
#[export] Instance RxFramingConfig_eq_dec : EqDecision RxFramingConfig.
Proof. solve_decision. Defined.
#[export] Instance TxFramingMode_eq_dec : EqDecision TxFramingMode.
Proof. solve_decision. Defined.
#[export] Instance TxFramingConfig_eq_dec : EqDecision TxFramingConfig.
Proof. solve_decision. Defined.
#[export] Instance ParserType_eq_dec : EqDecision ParserType.
Proof. solve_decision. Defined.
#[export] Instance ParserConfig_eq_dec : EqDecision ParserConfig.
Proof. solve_decision. Defined.
#[export] Instance ProtocolPreset_eq_dec : EqDecision ProtocolPreset.
Proof. solve_decision. Defined.

(** The TX framing implied by a protocol preset. *)
Definition preset_tx_framing (p : ProtocolPreset) : TxFramingConfig :=
  match p with
  | PAtCommand => mkTxFraming (TxLine TxCr)
  | PSlip => mkTxFraming TxSlip
  | PJsonLines | PNdjson => mkTxFraming (TxLine TxLf)
  | PCobs => mkTxFraming TxCobs
  | PNmea0183 => mkTxFraming TxNmea
  | PModbusAscii => mkTxFraming (TxStartEnd [bs ":"] CRLF PUtf8)
  end.

(** The RX framing implied by a protocol preset. *)
Definition preset_rx_framing (p : ProtocolPreset) : RxFramingConfig :=
  let '(mode, skip_empty) :=
    match p with
    | PAtCommand | PJsonLines => (RxLine Auto, false)
    | PSlip => (RxSlip, false)
    | PCobs => (RxCobs, false)
    | PNdjson => (RxLine Auto, true)
    | PNmea0183 => (RxStartEnd [bs "$"; bs "!"] CRLF PUtf8 false, false)
    | PModbusAscii => (RxStartEnd [bs ":"] CRLF PUtf8 false, false)
    end in
  mkRxFraming mode None false skip_empty.

(** The RX parser implied by a protocol preset. *)
Definition preset_rx_parser (p : ProtocolPreset) : ParserConfig :=
  let '(parser_type, validate) :=
    match p with
    | PAtCommand => (AtCommand, false)
    | PSlip | PCobs => (Raw, false)
    | PJsonLines | PNdjson => (JsonLines, false)
    | PNmea0183 => (Nmea, true)
    | PModbusAscii => (ModbusAscii, true)
    end in
  mkParser parser_type None validate.
