(* ===== verification/TxCodecs.v ===== *)
(** * [src/framing/codecs.rs]: TX framing codecs and byte helpers

    [TxFramingMode::encode] on every mode, SLIP and COBS stuffing, the length
    prefix reader, the delimiter and blank-frame helpers. *)

From S2P Require Import Prelude Util RustStr Extern Checksums Codec FramingConfig.

(** ** SLIP (RFC 1055) constants and stuffing *)

Definition SLIP_END : byte := xc0.
Definition SLIP_ESC : byte := xdb.
Definition SLIP_ESC_END : byte := xdc.
Definition SLIP_ESC_ESC : byte := xdd.

(** The bytes pushed for one payload byte. *)
Definition slip_stuff_byte (b : byte) : list byte :=
  if decide (b = SLIP_END) then [SLIP_ESC; SLIP_ESC_END]
  else if decide (b = SLIP_ESC) then [SLIP_ESC; SLIP_ESC_ESC]
  else [b].

Definition slip_stuff (payload : list byte) : list byte :=
  foldl (fun out b => out ++ slip_stuff_byte b) [] payload.

(** ** COBS stuffing *)

(** The loop state: the output so far, the index of the placeholder of the
    current block's code byte, and the code. *)
Record CobsEnc := mkCobsEnc { out : list byte; code_index : nat; code : byte }.

(** [code.saturating_add(1)] on [u8]. *)
Definition u8_saturating_succ (c : byte) : byte := z2b (Z.min 255 (b2z c + 1)).

Definition cobs_stuff_step (st : CobsEnc) (b : byte) : CobsEnc :=
  if decide (b = x00) then
    let out := <[code_index st := code st]> (out st) in
    mkCobsEnc (out ++ [x00]) (length out) x01
  else
    let out := out st ++ [b] in
    let code := u8_saturating_succ (code st) in
    if decide (code = xff) then
      let out := <[code_index st := xff]> out in
      mkCobsEnc (out ++ [x00]) (length out) x01
    else mkCobsEnc out (code_index st) code.

Definition cobs_stuff (payload : list byte) : list byte :=
  let st := foldl cobs_stuff_step (mkCobsEnc [x00] 0 x01) payload in
  <[code_index st := code st]> (out st).

(** The final write of the placeholder. *)
Definition cobs_finish (st : CobsEnc) : list byte := <[code_index st := code st]> (out st).

(** ** Length prefixes *)

(** [to_le_bytes] / [to_be_bytes] of an [8*n]-bit unsigned integer; the value is
    truncated to that width by the [as] conversion. *)
Fixpoint to_le_bytes (n : nat) (z : Z) : list byte :=
  match n with
  | O => []
  | S n => z2b z :: to_le_bytes n (z / 256)
  end.
Definition to_be_bytes (n : nat) (z : Z) : list byte := reverse (to_le_bytes n z).

(** [from_le_bytes] / [from_be_bytes]. *)
Fixpoint from_le_bytes (l : list byte) : Z :=
  match l with
  | [] => 0
  | b :: l => b2z b + 256 * from_le_bytes l
  end.
Definition from_be_bytes (l : list byte) : Z := from_le_bytes (reverse l).

Definition prefix_bytes (n : nat) (e : Endianness) (len : Z) : list byte :=
  match e with Big => to_be_bytes n len | Little => to_le_bytes n len end.

(** [read_length_prefix]; other sizes than 1, 2 and 4 give 0. *)
Definition read_length_prefix (bytes : list byte) (prefix_size : Z) (e : Endianness) : Z :=
  let read n :=
    match e with
    | Big => from_be_bytes (take n bytes)
    | Little => from_le_bytes (take n bytes)
    end in
  if prefix_size =? 1 then b2z (default x00 (head bytes))
  else if prefix_size =? 2 then read 2%nat
  else if prefix_size =? 4 then read 4%nat
  else 0.

(** ** Small helpers *)

(** [is_blank_frame]: empty or ASCII whitespace only. *)
Definition is_blank_frame (data : list byte) : bool := forallb is_ascii_whitespace data.

(** [extract_delimited]: the next frame and the remaining buffer. *)
Definition extract_delimited (buf delim : list byte) (include_terminators : bool)
    : option (list byte * list byte) :=
  pos ← find_subsequence buf delim;
  let fb := if include_terminators then take (pos + length delim) buf else take pos buf in
  Some (fb, drop (pos + length delim) buf).

Definition hex_upper (bytes : list byte) : list byte := concat (hex2 true <$> bytes).

(** ** TX encoding *)

Section Encode.
Context `{HexCrate, Base64Crate}.

(** The error texts of [TxFramingMode::encode]. *)
Inductive TxError :=
  | TxInvalidDelimiterEncoding (e : CodecError)
  | TxEmptyDelimiter
  | TxBadPrefixSize
  | TxPayloadTooLong (len max : Z)
  | TxNoStartMarkers
  | TxInvalidStartEncoding (e : CodecError)
  | TxInvalidEndEncoding (e : CodecError)
  | TxEmptyMarker
  | TxNmeaTerminator
  | TxNmeaNotPrintable
  | TxNmeaBadUtf8
  | TxNmeaBadHex
  | TxNmeaChecksumMismatch (received computed : byte).

(** The [*HH] suffix of an NMEA body: [None] when there is none, otherwise the
    parsed value or the parse error. *)
Definition nmea_existing_checksum (body : list byte) : option (result TxError byte) :=
  let n := length body in
  let tail := drop (n - 3) body in
  match tail with
  | [star; h1; h2] =>
      if (3 <=? n)%nat && bool_decide (star = x2a)
         && is_ascii_hexdigit h1 && is_ascii_hexdigit h2
      then Some (if utf8_valid [h1; h2] then
                   match u8_from_str_radix16 [h1; h2] with
                   | Some v => Ok v
                   | None => Err TxNmeaBadHex
                   end
                 else Err TxNmeaBadUtf8)
      else None
  | _ => None
  end.

(** The [Nmea] arm of [TxFramingMode::encode]. *)
Definition encode_nmea (payload : list byte) : result TxError (list byte) :=
  if existsb (fun b => bool_decide (b = x0d) || bool_decide (b = x0a)) payload
  then Err TxNmeaTerminator
  else if existsb (fun b => negb (in_range 32 (b2z b) 126)) payload
  then Err TxNmeaNotPrintable
  else
    let marked := bool_decide (head payload = Some x24) || bool_decide (head payload = Some x21) in
    let lead_byte := if marked then default x24 (head payload) else x24 in
    let body := if marked then drop 1 payload else payload in
    existing_val ←
      match nmea_existing_checksum body with
      | Some (Ok v) => Ok (Some v)
      | Some (Err e) => Err e
      | None => Ok None
      end;
    let body_to_checksum :=
      match existing_val with
      | Some _ => take (length body - 3) body
      | None => body
      end in
    let computed := xor_checksum body_to_checksum in
    match existing_val with
    | Some received =>
        if decide (computed = received)
        then Ok (lead_byte :: body ++ CRLF)
        else Err (TxNmeaChecksumMismatch received computed)
    | None => Ok (lead_byte :: body ++ [x2a] ++ hex2 true computed ++ CRLF)
    end.

(** [TxFramingMode::encode]. *)
Definition encode_tx (mode : TxFramingMode) (payload : list byte) : result TxError (list byte) :=
  match mode with
  | TxLine ending =>
      Ok (payload ++ match ending with TxLf => [x0a] | TxCr => [x0d] | TxCrlf => CRLF end)
  | TxDelimiter delimiter enc =>
      delim_bytes ← map_err TxInvalidDelimiterEncoding
                      (decode (PatternEncoding_into enc) delimiter);
      if bool_decide (delim_bytes = []) then Err TxEmptyDelimiter
      else Ok (payload ++ delim_bytes)
  | TxLengthPrefixed prefix_size e =>
      let len := zlen payload in
      if prefix_size =? 1 then
        if 255 <? len then Err (TxPayloadTooLong len 255) else Ok (z2b len :: payload)
      else if prefix_size =? 2 then
        if 65535 <? len then Err (TxPayloadTooLong len 65535)
        else Ok (prefix_bytes 2 e len ++ payload)
      else if prefix_size =? 4 then Ok (prefix_bytes 4 e len ++ payload)
      else Err TxBadPrefixSize
  | TxStartEnd start end_ enc =>
      match start with
      | [] => Err TxNoStartMarkers
      | start0 :: _ =>
          start_bytes ← map_err TxInvalidStartEncoding (decode (PatternEncoding_into enc) start0);
          end_bytes ← map_err TxInvalidEndEncoding (decode (PatternEncoding_into enc) end_);
          if bool_decide (start_bytes = []) || bool_decide (end_bytes = [])
          then Err TxEmptyMarker
          else Ok (start_bytes ++ payload ++ end_bytes)
      end
  | TxSlip => Ok ([SLIP_END] ++ slip_stuff payload ++ [SLIP_END])
  | TxCobs => Ok ([x00] ++ cobs_stuff payload ++ [x00])
  | TxNmea => encode_nmea payload
  end.

End Encode.

(** ** SLIP stuffing *)

Lemma slip_stuff_concat payload : slip_stuff payload = concat (slip_stuff_byte <$> payload).
Proof.
  unfold slip_stuff.
  assert (H : forall acc, foldl (fun out b => out ++ slip_stuff_byte b) acc payload
                   = acc ++ concat (slip_stuff_byte <$> payload)).
  { induction payload as [|b p IH]; intros acc; simpl; [by rewrite app_nil_r|].
    by rewrite IH, <- (assoc_L (++)). }
  apply H.
Qed.

Lemma slip_stuff_cons b p : slip_stuff (b :: p) = slip_stuff_byte b ++ slip_stuff p.
Proof. by rewrite !slip_stuff_concat. Qed.

Lemma slip_stuff_byte_no_end b : Forall (fun c => c <> SLIP_END) (slip_stuff_byte b).
Proof. unfold slip_stuff_byte. repeat case_decide; repeat constructor; done. Qed.

(** A stuffed payload never contains the frame marker. *)
Lemma slip_stuff_no_end payload : Forall (fun c => c <> SLIP_END) (slip_stuff payload).
Proof.
  rewrite slip_stuff_concat. induction payload; simpl; [constructor|].
  apply Forall_app_2; [apply slip_stuff_byte_no_end|done].
Qed.

(** ** COBS stuffing as a sequence of blocks *)

(** The code byte of a block holding [run]. *)
Definition cobs_code (run : list byte) : byte := z2b (zlen run + 1).

(** The reference encoder: [run] is the current block's data. *)
Fixpoint cobs_blocks (run payload : list byte) : list byte :=
  match payload with
  | [] => cobs_code run :: run
  | b :: p =>
      if decide (b = x00) then cobs_code run :: run ++ cobs_blocks [] p
      else if (zlen run + 1 =? 254) then xff :: run ++ [b] ++ cobs_blocks [] p
      else cobs_blocks (run ++ [b]) p
  end.

(** A block under construction: non-zero bytes, at most 253 of them. *)
Definition open_block (run : list byte) : Prop :=
  Forall (fun b => b <> x00) run /\ zlen run <= 253.

Lemma open_block_nil : open_block [].
Proof. split; [constructor|]. by compute. Qed.

Lemma open_block_snoc run b :
  open_block run -> b <> x00 -> zlen run + 1 <> 254 -> open_block (run ++ [b]).
Proof.
  intros [Hr Hl] Hb Hn. split; [by apply Forall_app_2; repeat constructor|].
  autorewrite with serial. lia.
Qed.

Lemma cobs_code_z run : zlen run <= 253 -> b2z (cobs_code run) = zlen run + 1.
Proof.
  intros Hl. unfold cobs_code. rewrite b2z_z2b, Z.mod_small; [done|].
  pose proof (zlen_nonneg run). lia.
Qed.

Lemma b2z_xff : b2z xff = 255.
Proof. done. Qed.

Lemma u8_saturating_succ_code run b :
  zlen run <= 253 -> u8_saturating_succ (cobs_code run) = cobs_code (run ++ [b]).
Proof.
  intros Hl. unfold u8_saturating_succ. rewrite cobs_code_z by done.
  unfold cobs_code. autorewrite with serial. f_equal. lia.
Qed.

Lemma insert_placeholder {A} (done_ : list A) (c x : A) l :
  <[length done_ := c]> (done_ ++ x :: l) = done_ ++ c :: l.
Proof. rewrite insert_app_r_alt by lia. by rewrite Nat.sub_diag. Qed.

Lemma cobs_code_xff run b :
  zlen run <= 253 -> cobs_code (run ++ [b]) = xff <-> zlen run + 1 = 254.
Proof.
  intros Hl. pose proof (zlen_nonneg run). unfold cobs_code. autorewrite with serial. split.
  - intros E%(f_equal b2z). rewrite b2z_z2b, b2z_xff, Z.mod_small in E; lia.
  - intros E. by replace (zlen run + (1 + 0) + 1) with 255 by lia.
Qed.

(** The encoder state in which [done_] is complete and [run] is the data of the
    block under construction. *)
Definition cobs_state (done_ run : list byte) : CobsEnc :=
  mkCobsEnc (done_ ++ x00 :: run) (length done_) (cobs_code run).

Lemma cobs_step_state done_ run b :
  open_block run ->
  cobs_stuff_step (cobs_state done_ run) b =
    if decide (b = x00) then cobs_state (done_ ++ cobs_code run :: run) []
    else if zlen run + 1 =? 254 then cobs_state (done_ ++ xff :: run ++ [b]) []
    else cobs_state done_ (run ++ [b]).
Proof.
  intros [Hr Hl]. unfold cobs_stuff_step, cobs_state. cbn [out code_index code].
  case_decide; [by rewrite insert_placeholder|].
  rewrite (u8_saturating_succ_code run b Hl).
  assert (Hassoc : (done_ ++ x00 :: run) ++ [b] = done_ ++ x00 :: run ++ [b])
    by by rewrite <- (assoc_L (++)).
  case_decide as Hff; rewrite cobs_code_xff in Hff by done.
  - rewrite (proj2 (Z.eqb_eq _ _) Hff), Hassoc. by rewrite insert_placeholder.
  - rewrite (proj2 (Z.eqb_neq _ _) Hff). by rewrite Hassoc.
Qed.

Lemma cobs_stuff_loop payload : forall done_ run, open_block run ->
  cobs_finish (foldl cobs_stuff_step (cobs_state done_ run) payload)
  = done_ ++ cobs_blocks run payload.
Proof.
  induction payload as [|b p IH]; intros done_ run Hrun; cbn [foldl cobs_blocks].
  { unfold cobs_finish. simpl. by rewrite insert_placeholder. }
  rewrite cobs_step_state by done. case_decide; [|case_match eqn:Hn].
  - rewrite IH by apply open_block_nil. by rewrite <- (assoc_L (++)).
  - rewrite IH by apply open_block_nil. rewrite <- (assoc_L (++)). simpl.
    by rewrite <- (assoc_L (++)).
  - apply IH, open_block_snoc; [done..|]. by apply Z.eqb_neq.
Qed.

(** The in-place encoder computes the block encoding. *)
Lemma cobs_stuff_blocks payload : cobs_stuff payload = cobs_blocks [] payload.
Proof. apply (cobs_stuff_loop payload [] [] open_block_nil). Qed.

Lemma cobs_code_nonzero run : zlen run <= 253 -> cobs_code run <> x00.
Proof.
  intros Hl E%(f_equal b2z). rewrite cobs_code_z in E by done.
  change (b2z x00) with 0 in E. pose proof (zlen_nonneg run). lia.
Qed.

Lemma cobs_blocks_spec payload : forall run, open_block run ->
  Forall (fun b => b <> x00) (cobs_blocks run payload) /\
  zlen (cobs_blocks run payload) <= 1 + zlen run + zlen payload + (zlen run + zlen payload) / 254.
Proof.
  induction payload as [|b p IH]; intros run Hrun; cbn [cobs_blocks].
  - destruct Hrun as [Hr Hl]. split.
    + constructor; [by apply cobs_code_nonzero|done].
    + autorewrite with serial. pose proof (zlen_nonneg run).
      pose proof (Z.div_pos (zlen run + 0) 254 ltac:(lia) ltac:(lia)). lia.
  - pose proof Hrun as [Hr Hl]. pose proof (zlen_nonneg run). pose proof (zlen_nonneg p).
    case_decide as Hb; [|case_match eqn:Hn].
    + destruct (IH [] open_block_nil) as [I1 I2]. split.
      * constructor; [by apply cobs_code_nonzero|]. by apply Forall_app_2.
      * autorewrite with serial in *.
        pose proof (Z.div_le_mono (0 + zlen p) (zlen run + (1 + zlen p)) 254). lia.
    + destruct (IH [] open_block_nil) as [I1 I2]. apply Z.eqb_eq in Hn. split.
      * constructor; [done|]. repeat apply Forall_app_2; [done|by repeat constructor|done].
      * autorewrite with serial in *.
        replace (zlen run + (1 + zlen p)) with (zlen p + 1 * 254) by lia.
        rewrite Z.div_add by lia. rewrite Z.add_0_l in I2. lia.
    + apply Z.eqb_neq in Hn. destruct (IH (run ++ [b])) as [I1 I2]; [by apply open_block_snoc|].
      split; [done|]. autorewrite with serial in *.
      replace (zlen run + (1 + zlen p)) with (zlen run + (1 + 0) + zlen p) by lia. lia.
Qed.

(** ** Length prefixes *)

Lemma length_to_le_bytes n z : length (to_le_bytes n z) = n.
Proof. revert z. induction n; simpl; auto. Qed.

Lemma from_to_le_bytes n z : 0 <= z -> from_le_bytes (to_le_bytes n z) = z mod 256 ^ Z.of_nat n.
Proof.
  revert z. induction n as [|n IH]; intros z Hz; [by rewrite Z.mod_1_r|].
  cbn [to_le_bytes from_le_bytes]. rewrite b2z_z2b, IH by (apply Z.div_pos; lia).
  rewrite Nat2Z.inj_succ, Z.pow_succ_r by lia.
  symmetry. apply Z.rem_mul_r; lia.
Qed.

Lemma length_prefix_bytes n e z : length (prefix_bytes n e z) = n.
Proof.
  destruct e; simpl; unfold to_be_bytes; rewrite ?length_reverse; apply length_to_le_bytes.
Qed.

(** The prefix holds the length modulo its width. *)
Lemma to_le_bytes_mod n z : to_le_bytes n (z mod 256 ^ Z.of_nat n) = to_le_bytes n z.
Proof.
  revert z. induction n as [|n IH]; intros z; [done|]. cbn [to_le_bytes].
  rewrite Nat2Z.inj_succ, Z.pow_succ_r by lia. f_equal.
  - rewrite <- (z2b_mod (z mod _)), <- (z2b_mod z). f_equal.
    rewrite Z.rem_mul_r by lia. rewrite Z.mul_comm, Z.mod_add by lia. by rewrite Z.mod_mod.
  - rewrite <- (IH (z / 256)). f_equal. rewrite Z.rem_mul_r by lia.
    rewrite Z.mul_comm, Z.div_add by lia. rewrite Z.div_small; [done|]. by apply Z.mod_pos_bound.
Qed.

Lemma prefix_bytes_mod n e z : prefix_bytes n e z = prefix_bytes n e (z mod 256 ^ Z.of_nat n).
Proof. destruct e; simpl; unfold to_be_bytes; by rewrite to_le_bytes_mod. Qed.

Definition valid_prefix_size (n : Z) : Prop := n = 1 \/ n = 2 \/ n = 4.

#[export] Instance valid_prefix_size_dec n : Decision (valid_prefix_size n).
Proof. unfold valid_prefix_size. apply _. Defined.

(** Reading back a written prefix, whatever follows it. *)
Lemma read_length_prefix_bytes n e len rest :
  valid_prefix_size n -> 0 <= len < 256 ^ n ->
  read_length_prefix (prefix_bytes (Z.to_nat n) e len ++ rest) n e = len.
Proof.
  intros Hn Hlen.
  assert (Hrd : match e with
                | Big => from_be_bytes (take (Z.to_nat n) (prefix_bytes (Z.to_nat n) e len ++ rest))
                | Little => from_le_bytes (take (Z.to_nat n) (prefix_bytes (Z.to_nat n) e len ++ rest))
                end = len).
  { rewrite take_app_length' by (symmetry; apply length_prefix_bytes).
    assert (Hz : from_le_bytes (to_le_bytes (Z.to_nat n) len) = len).
    { rewrite from_to_le_bytes by lia. rewrite Z2Nat.id by (destruct Hn as [->|[-> | ->] ]; lia).
      by apply Z.mod_small. }
    destruct e; simpl; [|done]. unfold from_be_bytes, to_be_bytes. by rewrite reverse_involutive. }
  destruct Hn as [->|[-> | ->] ]; unfold read_length_prefix; simpl in Hrd |- *; [|done..].
  destruct e; simpl in *; unfold from_be_bytes in *; simpl in Hrd; lia.
Qed.

(** ** What the encoder puts on the wire *)

Lemma length_slip_stuff p : zlen (slip_stuff p) <= 2 * zlen p.
Proof.
  induction p as [|b p IH]; [done|]. rewrite slip_stuff_cons. autorewrite with serial.
  assert (zlen (slip_stuff_byte b) <= 2) by (unfold slip_stuff_byte; repeat case_decide; done). lia.
Qed.

Section Wire.
Context `{HexCrate, Base64Crate}.

(** Byte stuffing.  Every payload is accepted by the SLIP and
    COBS encoders; the frame is the payload stuffed between two marker bytes,
    the marker occurs nowhere inside, and the frame has at most
    [2 * n + 2] bytes for SLIP and [n + n / 254 + 3] bytes for COBS. *)
Theorem stuffed_frames payload :
  (exists body, encode_tx TxSlip payload = Ok (SLIP_END :: body ++ [SLIP_END]) /\
     Forall (fun b => b <> SLIP_END) body /\
     zlen (SLIP_END :: body ++ [SLIP_END]) <= 2 * zlen payload + 2) /\
  (exists body, encode_tx TxCobs payload = Ok (x00 :: body ++ [x00]) /\
     Forall (fun b => b <> x00) body /\
     zlen (x00 :: body ++ [x00]) <= zlen payload + zlen payload / 254 + 3).
Proof.
  split.
  - exists (slip_stuff payload). split; [done|]. split; [apply slip_stuff_no_end|].
    pose proof (length_slip_stuff payload). autorewrite with serial. lia.
  - exists (cobs_stuff payload). split; [done|]. rewrite cobs_stuff_blocks.
    destruct (cobs_blocks_spec payload [] open_block_nil) as [Hz Hl]. split; [done|].
    autorewrite with serial in *. rewrite Z.add_0_l in Hl. lia.
Qed.

(** The length prefix.  The encoder accepts a payload
    exactly when the prefix size is 1, 2 or 4 and the length fits the smaller
    sizes (at most 255, at most 65535); a size of 4 is never refused, and the
    receiver reads back the length modulo [2^32] there.  An accepted payload is
    written unchanged after its prefix, and the prefix reads back as the length,
    whatever bytes follow, when it fits. *)
Theorem length_prefix_limits n e payload rest :
  match encode_tx (TxLengthPrefixed n e) payload with
  | Ok f =>
      valid_prefix_size n /\ (n = 4 \/ zlen payload < 256 ^ n) /\
      exists prefix, f = prefix ++ payload /\ zlen prefix = n /\
        read_length_prefix (f ++ rest) n e = zlen payload mod 256 ^ n
  | Err (TxPayloadTooLong len max) =>
      len = zlen payload /\ max < len /\ (n = 1 /\ max = 255 \/ n = 2 /\ max = 65535)
  | Err TxBadPrefixSize => ~ valid_prefix_size n
  | Err _ => False
  end.
Proof.
  pose proof (zlen_nonneg payload) as Hlen. cbn [encode_tx].
  assert (Hrd : forall m, valid_prefix_size m -> forall r,
    read_length_prefix ((prefix_bytes (Z.to_nat m) e (zlen payload) ++ payload) ++ r) m e
      = zlen payload mod 256 ^ m).
  { intros m Hm r. rewrite <- (assoc_L (++)), prefix_bytes_mod.
    rewrite Z2Nat.id by (destruct Hm as [->|[-> | ->] ]; lia).
    apply read_length_prefix_bytes; [done|]. apply Z.mod_pos_bound. destruct Hm as [->|[-> | ->] ]; lia. }
  assert (Hpl : forall k, zlen (prefix_bytes k e (zlen payload)) = Z.of_nat k)
    by (intros k; unfold zlen; by rewrite length_prefix_bytes).
  unfold valid_prefix_size.
  destruct (Z.eqb_spec n 1) as [->|]; [|destruct (Z.eqb_spec n 2) as [->|];
    [|destruct (Z.eqb_spec n 4) as [->|]; [|lia] ] ].
  - destruct (Z.ltb_spec 255 (zlen payload)); [lia|]. split; [lia|]. split; [lia|].
    exists (prefix_bytes 1 e (zlen payload)). rewrite Hpl.
    replace (z2b (zlen payload) :: payload) with (prefix_bytes 1 e (zlen payload) ++ payload)
      by by destruct e.
    split; [done|]. split; [done|]. apply (Hrd 1). by left.
  - destruct (Z.ltb_spec 65535 (zlen payload)); [lia|]. split; [lia|]. split; [lia|].
    exists (prefix_bytes 2 e (zlen payload)). rewrite Hpl.
    split; [done|]. split; [done|]. apply (Hrd 2). by right; left.
  - split; [lia|]. split; [lia|].
    exists (prefix_bytes 4 e (zlen payload)). rewrite Hpl.
    split; [done|]. split; [done|]. apply (Hrd 4). by right; right.
Qed.

End Wire.
