(* ===== verification/Parsers.v ===== *)
(** * [src/framing/parsers/mod.rs]: frame-content parsers

    [ParsedFrame] and [FrameDecodeError] (declared in [decoder.rs]), the six
    parsers, the parser factory and the helpers they share. *)

From S2P Require Import Prelude RustStr Extern ExternModel Checksums Codec FramingConfig TxCodecs.

(** Runtime frame-decoding errors. *)
Inductive FrameDecodeError :=
  | SlipInvalidEscape (b : byte)
  | CobsInvalidCode (b : byte)
  | ChecksumMismatch (expected received : list byte).

Definition ASCII_COMMA : byte := x2c.
Definition ASCII_STAR : byte := x2a.

(** ** Helpers *)

Definition strip_trailing_newline (content : list byte) : list byte :=
  if ends_with content CRLF then take (length content - 2) content
  else if ends_with content [x0a] then take (length content - 1) content
  else content.

Definition strip_leading_if_any (content markers : list byte) : list byte :=
  match content with
  | first :: rest => if bool_decide (first ∈ markers) then rest else content
  | [] => content
  end.

Definition check_checksum (validate : bool) (computed_byte : byte)
    (received : option byte) (received_raw : list byte)
    : result FrameDecodeError (option bool) :=
  match received with
  | Some r =>
      if decide (r = computed_byte) then Ok (Some true)
      else if validate then Err (ChecksumMismatch [computed_byte] received_raw)
      else Ok (Some false)
  | None =>
      if validate then Err (ChecksumMismatch [computed_byte] received_raw)
      else Ok (Some false)
  end.

(** Split at the first [sep], dropping it. *)
Definition split_first (sep : byte) (l : list byte) : option (list byte * list byte) :=
  pos ← position (fun b => bool_decide (b = sep)) l;
  Some (take pos l, drop (S pos) l).

Section Parsers.
Context `{JsonCrate, RegexCrate}.

(** Structured field interpretation of a frame. *)
Inductive ParsedFrame :=
  | PFAtCommand (response_type : list byte) (command status : option (list byte))
      (fields : list (list byte))
  | PFJson (v : Value)
  | PFShellPrompt (prompt prompt_type : list byte)
  | PFRaw
  | PFNmea (talker_id sentence_type : list byte) (fields : list (list byte))
      (checksum_valid : option bool)
  | PFModbusAscii (address function_code : byte) (data : list byte)
      (checksum_valid : option bool).

(** The boxed parser implementations. *)
Inductive FrameParser :=
  | AtCommandParser
  | JsonLinesParser
  | ShellPromptParser (custom : option Regex)
  | RawParser
  | NmeaParser (validate : bool)
  | ModbusAsciiParser (validate : bool).

(** [build_parser]: only a custom prompt regex can fail. *)
Definition build_parser (config : ParserConfig) : result RegexError FrameParser :=
  match parser_type config with
  | AtCommand => Ok AtCommandParser
  | JsonLines => Ok JsonLinesParser
  | ShellPrompt =>
      match custom_prompt config with
      | Some s => re ← regex_new s; Ok (ShellPromptParser (Some re))
      | None => Ok (ShellPromptParser None)
      end
  | Raw => Ok RawParser
  | Nmea => Ok (NmeaParser (validate config))
  | ModbusAscii => Ok (ModbusAsciiParser (validate config))
  end.

(** ** AT command responses *)

Definition parse_at (data : list byte) : ParsedFrame :=
  let trimmed := trim (from_utf8_lossy data) in
  if bool_decide (trimmed = []) then PFRaw
  else
    match (if bool_decide (head trimmed = Some x2b)
           then split_first x3a (drop 1 trimmed) else None) with
    | Some (cmd_name, rest) =>
        PFAtCommand (bs "response") (Some cmd_name) None
          (trim <$> split_on (fun b => bool_decide (b = ASCII_COMMA)) rest)
    | None =>
        if bool_decide (trimmed = bs "OK")
        then PFAtCommand (bs "status") None (Some (bs "OK")) []
        else if bool_decide (trimmed = bs "ERROR")
        then PFAtCommand (bs "error") None (Some (bs "ERROR")) []
        else if starts_with trimmed (bs "+CME ERROR") || starts_with trimmed (bs "+CMS ERROR")
        then PFAtCommand (bs "error") None (Some trimmed) []
        else PFAtCommand (bs "data") None None [trimmed]
    end.

(** ** JSON lines *)

Definition parse_json (data : list byte) : ParsedFrame :=
  match from_slice data with
  | Some val => if is_object val then PFJson val else PFRaw
  | None => PFRaw
  end.

(** ** Shell prompts *)

Definition parse_shell (custom : option Regex) (data : list byte) : ParsedFrame :=
  let trimmed := trim_end (from_utf8_lossy data) in
  if bool_decide (trimmed = []) then PFRaw
  else if (match custom with Some re => regex_is_match re data | None => false end)
  then PFShellPrompt trimmed (bs "custom")
  else if ends_with trimmed (bs "$ ") || ends_with trimmed (bs "$")
  then PFShellPrompt trimmed (bs "user")
  else if ends_with trimmed (bs "# ") || ends_with trimmed (bs "#")
  then PFShellPrompt trimmed (bs "root")
  else if ends_with trimmed (bs "> ") || ends_with trimmed (bs ">")
  then PFShellPrompt trimmed (bs "generic")
  else PFRaw.

(** ** NMEA-0183 *)

(** Step 4: the checksum verdict on the bytes after the star. *)
Definition nmea_checksum (validate : bool) (body : list byte) (checksum_hex : option (list byte))
    : result FrameDecodeError (option bool) :=
  match checksum_hex with
  | Some hex =>
      let computed_byte := xor_checksum body in
      if (2 <=? length hex)%nat then
        match (if utf8_valid (take 2 hex) then u8_from_str_radix16 (take 2 hex) else None) with
        | Some received_val =>
            check_checksum validate computed_byte (Some received_val) [received_val]
        | None => check_checksum validate computed_byte None hex
        end
      else check_checksum validate computed_byte None hex
  | None => Ok None
  end.

(** Step 5: talker and sentence type of an address. *)
Definition nmea_address (address_part : list byte) : list byte * list byte :=
  if (2 <=? length address_part)%nat && bool_decide (head address_part = Some x50)
  then (bs "P", drop 1 address_part)
  else if (2 <=? length address_part)%nat
  then (take 2 address_part, drop 2 address_part)
  else (address_part, []).

Definition parse_nmea (validate : bool) (data : list byte) : result FrameDecodeError ParsedFrame :=
  let content := strip_trailing_newline (strip_leading_if_any data (bs "$!")) in
  if negb (bool_decide (ASCII_COMMA ∈ content)) then Ok PFRaw
  else
    let '(body, checksum_hex) :=
      match split_first ASCII_STAR content with
      | Some (body, hex) => (body, Some hex)
      | None => (content, None)
      end in
    checksum_valid ← nmea_checksum validate body checksum_hex;
    if negb (utf8_valid body) then Ok PFRaw
    else if negb (forallb is_ascii body) then Ok PFRaw
    else
      let '(address_part, fields_part) :=
        match split_first ASCII_COMMA body with
        | Some (a, f) => (a, f)
        | None => (body, [])
        end in
      let '(talker_id, sentence_type) := nmea_address address_part in
      let fields :=
        if bool_decide (fields_part = []) then []
        else split_on (fun b => bool_decide (b = ASCII_COMMA)) fields_part in
      Ok (PFNmea talker_id sentence_type fields checksum_valid).

(** ** Modbus ASCII *)

(** Decode a hex body two characters at a time; unparsable pairs count as 0. *)
Fixpoint modbus_hex_decode (body : list byte) : list byte :=
  match body with
  | a :: b :: body => default x00 (u8_from_str_radix16 [a; b]) :: modbus_hex_decode body
  | _ => []
  end.

Definition parse_modbus (validate : bool) (data : list byte) : result FrameDecodeError ParsedFrame :=
  let content := strip_trailing_newline (strip_leading_if_any data (bs ":")) in
  if negb (utf8_valid content) then Ok PFRaw
  else if bool_decide (content = []) || existsb (fun b => negb (is_ascii_hexdigit b)) content
  then Ok PFRaw
  else if negb (Nat.even (length content)) then Ok PFRaw
  else
    let decoded := modbus_hex_decode content in
    if (length decoded <? 3)%nat then Ok PFRaw
    else
      let lrc_received := default x00 (last decoded) in
      let pdu := take (length decoded - 1) decoded in
      let address := default x00 (pdu !! 0%nat) in
      let function_code := default x00 (pdu !! 1%nat) in
      let payload := drop 2 pdu in
      checksum_valid ← check_checksum validate (lrc pdu) (Some lrc_received) [lrc_received];
      Ok (PFModbusAscii address function_code payload checksum_valid).

(** [FrameParser::parse]. *)
Definition parse (p : FrameParser) (data : list byte) : result FrameDecodeError ParsedFrame :=
  match p with
  | AtCommandParser => Ok (parse_at data)
  | JsonLinesParser => Ok (parse_json data)
  | ShellPromptParser custom => Ok (parse_shell custom data)
  | RawParser => Ok PFRaw
  | NmeaParser validate => parse_nmea validate data
  | ModbusAsciiParser validate => parse_modbus validate data
  end.

(** ** Lemmas *)

(** Whether a parser enforces a checksum. *)
Definition parser_validates (p : FrameParser) : bool :=
  match p with
  | NmeaParser v | ModbusAsciiParser v => v
  | _ => false
  end.

Lemma check_checksum_err v c r raw e :
  check_checksum v c r raw = Err e -> v = true /\ e = ChecksumMismatch [c] raw.
Proof. unfold check_checksum. repeat case_match; naive_solver. Qed.

Lemma check_checksum_ok v c r raw o :
  check_checksum v c r raw = Ok o -> o = Some (bool_decide (r = Some c)).
Proof.
  unfold check_checksum. intros E. repeat case_match; simplify_eq;
    by first [rewrite bool_decide_eq_true_2 by done|rewrite bool_decide_eq_false_2 by congruence].
Qed.

Lemma nmea_checksum_err v body hex e :
  nmea_checksum v body hex = Err e -> v = true /\ exists a b, e = ChecksumMismatch a b.
Proof.
  unfold nmea_checksum. intros E. repeat case_match; simplify_eq;
    apply check_checksum_err in E as [? ->]; eauto.
Qed.

Lemma parse_err_inv p data e :
  parse p data = Err e -> parser_validates p = true /\ exists a b, e = ChecksumMismatch a b.
Proof.
  destruct p as [| | | |v|v]; simpl; try done.
  - unfold parse_nmea. intros E.
    destruct (negb _); [done|]. destruct (match split_first _ _ with Some _ => _ | None => _ end).
    destruct (nmea_checksum v _ _) eqn:Hc; simpl in E.
    + repeat case_match; done.
    + injection E as <-. by apply nmea_checksum_err in Hc.
  - unfold parse_modbus. intros E. repeat case_match; simplify_eq; try done.
    destruct (check_checksum _ _ _ _) eqn:Hc; simpl in E; [done|].
    injection E as <-. apply check_checksum_err in Hc as [? ->]. eauto.
Qed.

(** The built-in parsers never raise a
    stream-fatal error.  The only error a parser returns is a checksum mismatch,
    and only a parser configured with [validate] returns one; so a frame is
    dropped, and decoding goes on, exactly when validation is on. *)
Theorem parsers_only_checksum_errors (config : ParserConfig) p data e :
  build_parser config = Ok p -> parse p data = Err e ->
  validate config = true /\ (parser_type config = Nmea \/ parser_type config = ModbusAscii) /\
  exists expected received, e = ChecksumMismatch expected received.
Proof.
  intros Hb He. apply parse_err_inv in He as [Hv He].
  unfold build_parser in Hb. destruct (parser_type config), (custom_prompt config) as [s|];
    simpl in Hb; try (destruct (regex_new s); simpl in Hb); simplify_eq; simpl in Hv; auto.
Qed.

End Parsers.

Lemma parsers_only_checksum_errors_witness :
  true = true /\ (Nmea = Nmea \/ Nmea = ModbusAscii) /\
  exists expected received,
    ChecksumMismatch [x2c] [x00] = ChecksumMismatch expected received.
Proof.
  apply (parsers_only_checksum_errors (mkParser Nmea None true) (NmeaParser true) (bs ",*00"));
    reflexivity.
Defined.
