(* ===== verification/Decoder.v ===== *)
(** * [src/framing/decoder.rs]: the stateful frame decoder

    [FrameDecoder::new], [push] and [flush_partial] with the line, delimiter,
    length-prefixed, start/end, SLIP and COBS boundary detectors, and frame
    emission ([emit_frame]).  A loop of the source is a function with fuel; the
    fuel given by [push] is one more than the buffered bytes, and
    [DecoderTotal.push_total] shows that this is enough. *)

From S2P Require Import Prelude Util RustStr Extern Codec FramingConfig TxCodecs Parsers.

(** Internal line-decoder state. *)
Inductive LineState :=
  | LsLf | LsCr | LsCrlf
  | AutoLf
  | PendingCr (pos : nat)
  | CrMode.

(** SLIP decoder state. *)
Inductive SlipState :=
  | BeforeFirstEnd
  | SlipInFrame (buf : list byte) (escaped : bool).

(** COBS decoder state. *)
Inductive CobsState :=
  | BeforeFirstDelim
  | CobsInFrame (decoded : list byte) (remaining : nat) (pending_zero : bool).

Inductive DecoderMode :=
  | MLine (state : LineState)
  | MDelimiter (delim : list byte)
  | MLengthPrefixed (prefix_size : Z) (endianness : Endianness)
      (remaining_offset : Z) (next_payload_len : option Z)
  | MStartEnd (start : list (list byte)) (end_ : list byte) (include_markers in_frame : bool)
  | MSlip (state : SlipState)
  | MCobs (state : CobsState).

Section Decoder.
Context `{HexCrate, Base64Crate, JsonCrate, RegexCrate}.

(** A decoded frame with optional parsed content. *)
Record Frame := mkFrame {
  f_data : list byte;
  f_index : nat;
  f_type : string;
  f_parsed : option ParsedFrame;
}.

Record FrameDecoder := mkDecoder {
  d_buf : list byte;
  d_mode : DecoderMode;
  d_frame_count : nat;
  d_include_terminators : bool;
  d_skip_empty : bool;
  d_parser : option FrameParser;
}.

(** Result of pushing a chunk. *)
Record PushOutcome := mkOutcome {
  o_frames : list Frame;
  o_frames_dropped : nat;
  o_error : option FrameDecodeError;
}.

(** ** Frame emission *)

(** [emit_frame]: the emission result, the frame count and the drop count. *)
Definition emit_frame (data : list byte) (frame_type : string) (frame_count : nat)
    (skip_empty : bool) (parser : option FrameParser) (frames_dropped : nat)
    : result FrameDecodeError (option Frame) * nat * nat :=
  if skip_empty && is_blank_frame data then (Ok None, frame_count, frames_dropped)
  else
    match (fun p => parse p data) <$> parser with
    | Some (Err (ChecksumMismatch _ _)) => (Ok None, frame_count, S frames_dropped)
    | Some (Err e) => (Err e, frame_count, frames_dropped)
    | Some (Ok pf) =>
        (Ok (Some (mkFrame data frame_count frame_type (Some pf))), S frame_count, frames_dropped)
    | None =>
        (Ok (Some (mkFrame data frame_count frame_type None)), S frame_count, frames_dropped)
    end.

(** What the decoding loops thread through: the frame count, the frames of this
    call and the drops of this call. *)
Record EmitState := mkEmit { e_count : nat; e_frames : list Frame; e_dropped : nat }.

(** The emission parameters of one decoder. *)
Record EmitCfg := mkEmitCfg {
  c_type : string; c_skip_empty : bool; c_parser : option FrameParser;
}.

(** The [match emit_frame(..)] of every loop: push the frame, skip, or stop. *)
Definition emit (cfg : EmitCfg) (data : list byte) (st : EmitState)
    : EmitState * option FrameDecodeError :=
  match emit_frame data (c_type cfg) (e_count st) (c_skip_empty cfg) (c_parser cfg)
          (e_dropped st) with
  | (Ok (Some frame), n, dropped) => (mkEmit n (e_frames st ++ [frame]) dropped, None)
  | (Ok None, n, dropped) => (mkEmit n (e_frames st) dropped, None)
  | (Err e, n, dropped) => (mkEmit n (e_frames st) dropped, Some e)
  end.

(** ** SLIP *)

(** The byte loop inside a frame: the new state, the unread bytes, the emission
    state and the error that stopped the loop. *)
Fixpoint slip_in_frame (cfg : EmitCfg) (input buf : list byte) (escaped : bool) (st : EmitState)
    : SlipState * list byte * EmitState * option FrameDecodeError :=
  match input with
  | [] => (SlipInFrame buf escaped, [], st, None)
  | b :: input =>
      if escaped then
        if decide (b = SLIP_ESC_END) then slip_in_frame cfg input (buf ++ [SLIP_END]) false st
        else if decide (b = SLIP_ESC_ESC) then slip_in_frame cfg input (buf ++ [SLIP_ESC]) false st
        else (BeforeFirstEnd, input, st, Some (SlipInvalidEscape b))
      else if decide (b = SLIP_END) then
        match emit cfg buf st with
        | (st, None) => slip_in_frame cfg input [] false st
        | (st, Some e) => (BeforeFirstEnd, input, st, Some e)
        end
      else if decide (b = SLIP_ESC) then slip_in_frame cfg input buf true st
      else slip_in_frame cfg input (buf ++ [b]) false st
  end.

(** [slip_decode]. *)
Definition slip_decode (cfg : EmitCfg) (buf_outer : list byte) (state : SlipState) (st : EmitState)
    : SlipState * list byte * EmitState * option FrameDecodeError :=
  match state with
  | BeforeFirstEnd =>
      match position (fun b => bool_decide (b = SLIP_END)) buf_outer with
      | Some pos => slip_in_frame cfg (drop (S pos) buf_outer) [] false st
      | None => (BeforeFirstEnd, [], st, None)
      end
  | SlipInFrame buf escaped => slip_in_frame cfg buf_outer buf escaped st
  end.

(** ** COBS *)

(** How the byte loop inside a COBS frame ends. *)
Inductive CobsExit :=
  | CobsConsumed (state : CobsState)
  | CobsDelimiter (rest : list byte)
  | CobsFailed (rest : list byte) (e : FrameDecodeError).

(** Drop the phantom zero of the final code. *)
Definition pop_phantom (data : list byte) : list byte :=
  if bool_decide (last data = Some x00) then take (length data - 1) data else data.

Fixpoint cobs_in_frame (cfg : EmitCfg) (input decoded : list byte) (remaining : nat)
    (pending_zero : bool) (st : EmitState) : CobsExit * EmitState :=
  let flush := bool_decide (remaining = 0%nat) && pending_zero in
  let decoded := if flush then decoded ++ [x00] else decoded in
  let pending_zero := if flush then false else pending_zero in
  match input with
  | [] => (CobsConsumed (CobsInFrame decoded remaining pending_zero), st)
  | b :: input =>
      match remaining with
      | S r => cobs_in_frame cfg input (decoded ++ [b]) r pending_zero st
      | O =>
          if decide (b = x00) then
            match emit cfg (pop_phantom decoded) st with
            | (st, None) => (CobsDelimiter input, st)
            | (st, Some e) => (CobsFailed input e, st)
            end
          else if decide (b = xff) then cobs_in_frame cfg input decoded 254 false st
          else cobs_in_frame cfg input decoded (Z.to_nat (b2z b - 1)) true st
      end
  end.

(** The outer loop of [cobs_decode]. *)
Fixpoint cobs_loop (fuel : nat) (cfg : EmitCfg) (buf_outer : list byte) (state : CobsState)
    (st : EmitState) : option (CobsState * list byte * EmitState * option FrameDecodeError) :=
  match fuel with
  | O => None
  | S fuel =>
      match state with
      | BeforeFirstDelim =>
          match position (fun b => bool_decide (b = x00)) buf_outer with
          | Some pos => cobs_loop fuel cfg (drop (S pos) buf_outer) (CobsInFrame [] 0 false) st
          | None => Some (BeforeFirstDelim, [], st, None)
          end
      | CobsInFrame decoded remaining pending_zero =>
          match cobs_in_frame cfg buf_outer decoded remaining pending_zero st with
          | (CobsConsumed state, st) => Some (state, [], st, None)
          | (CobsDelimiter rest, st) => cobs_loop fuel cfg rest BeforeFirstDelim st
          | (CobsFailed rest e, st) => Some (BeforeFirstDelim, rest, st, Some e)
          end
      end
  end.

Definition cobs_decode (cfg : EmitCfg) (buf_outer : list byte) (state : CobsState) (st : EmitState) :=
  cobs_loop (S (S (length buf_outer))) cfg buf_outer state st.

(** ** Boundary detection on the buffer *)

(** What one round of the loop found: the frame bytes, if any, with the new
    buffer and mode. *)
Definition Found : Type := option (list byte) * list byte * DecoderMode.

(** [take_frame]. *)
Definition take_frame (inc : bool) (buf : list byte) (split_pos term_len : nat)
    : list byte * list byte :=
  (if inc then take (split_pos + term_len) buf else take split_pos buf,
   drop (split_pos + term_len) buf).

Definition match_line_byte (inc : bool) (b : byte) (buf : list byte) (state : LineState) : Found :=
  match position (fun x => bool_decide (x = b)) buf with
  | Some pos => let '(fb, buf) := take_frame inc buf pos 1 in (Some fb, buf, MLine state)
  | None => (None, buf, MLine state)
  end.

Definition match_line_crlf (inc : bool) (buf : list byte) : Found :=
  match find_subsequence buf CRLF with
  | Some pos => let '(fb, buf) := take_frame inc buf pos 2 in (Some fb, buf, MLine LsCrlf)
  | None => (None, buf, MLine LsCrlf)
  end.

(** [match_auto_lf]. *)
Definition match_auto_lf (inc : bool) (buf : list byte) : Found :=
  match position (fun x => bool_decide (x = x0a)) buf with
  | Some lf_pos =>
      let '(split_pos, term_len) :=
        if negb inc && (0 <? lf_pos)%nat && bool_decide (buf !! (lf_pos - 1)%nat = Some x0d)
        then ((lf_pos - 1)%nat, 2%nat) else (lf_pos, 1%nat) in
      let '(fb, buf) := take_frame inc buf split_pos term_len in
      (Some fb, buf, MLine AutoLf)
  | None =>
      match position (fun x => bool_decide (x = x0d)) buf with
      | Some cr_pos =>
          if bool_decide (buf !! S cr_pos = Some x0a) then
            let '(fb, buf) := take_frame inc buf cr_pos 2 in (Some fb, buf, MLine AutoLf)
          else if (S cr_pos <? length buf)%nat then
            let '(fb, buf) := take_frame inc buf cr_pos 1 in (Some fb, buf, MLine CrMode)
          else (None, buf, MLine (PendingCr cr_pos))
      | None => (None, buf, MLine AutoLf)
      end
  end.

(** [match_pending_cr]. *)
Definition match_pending_cr (inc : bool) (buf : list byte) (cr_pos : nat) : Found :=
  match buf !! S cr_pos with
  | None => (None, buf, MLine (PendingCr cr_pos))
  | Some next_byte =>
      if bool_decide (next_byte = x0a) then
        let '(fb, buf) := take_frame inc buf cr_pos 2 in (Some fb, buf, MLine AutoLf)
      else
        let '(fb, buf) := take_frame inc buf cr_pos 1 in (Some fb, buf, MLine CrMode)
  end.

(** The [LengthPrefixed] arm of the loop, after the initial offset: fix the
    payload length when the prefix is complete, then take the frame when the
    payload is. *)
Definition match_length_body (inc : bool) (prefix_size : Z) (e : Endianness)
    (remaining_offset : Z) (next_payload_len : option Z) (buf : list byte) : Found :=
  let next_payload_len :=
    match next_payload_len with
    | Some len => Some len
    | None =>
        if zlen buf <? prefix_size then None
        else Some (read_length_prefix (take (Z.to_nat prefix_size) buf) prefix_size e)
    end in
  match next_payload_len with
  | None => (None, buf, MLengthPrefixed prefix_size e remaining_offset None)
  | Some payload_len =>
      let total_needed := prefix_size + payload_len in
      if zlen buf <? total_needed
      then (None, buf, MLengthPrefixed prefix_size e remaining_offset (Some payload_len))
      else
        let body := take (Z.to_nat total_needed) buf in
        let frame_bytes := if inc then body else drop (Z.to_nat prefix_size) body in
        (Some frame_bytes, drop (Z.to_nat total_needed) buf,
         MLengthPrefixed prefix_size e remaining_offset None)
  end.

(** The [LengthPrefixed] arm: skip what is left of the initial offset first. *)
Definition match_length_prefixed (inc : bool) (prefix_size : Z) (e : Endianness)
    (remaining_offset : Z) (next_payload_len : option Z) (buf : list byte) : Found :=
  let n := if 0 <? remaining_offset then Z.min remaining_offset (zlen buf) else 0 in
  match_length_body inc prefix_size e (remaining_offset - n) next_payload_len
    (drop (Z.to_nat n) buf).

(** The earliest start marker: position and marker length; on equal positions
    the earlier marker of the list. *)
Definition best_start (start : list (list byte)) (buf : list byte) : option (nat * nat) :=
  foldl (fun best_pos marker =>
    match find_subsequence buf marker with
    | Some pos =>
        match best_pos with
        | Some (bp, _) => if (pos <? bp)%nat then Some (pos, length marker) else best_pos
        | None => Some (pos, length marker)
        end
    | None => best_pos
    end) None start.

(** The number of trailing bytes kept while no start marker is found. *)
Definition start_keep (start : list (list byte)) : nat :=
  foldr Nat.max 0%nat ((fun m => length m - 1)%nat <$> start).

(** The [StartEnd] arm of the loop. *)
Definition match_start_end (start : list (list byte)) (end_ : list byte)
    (include_markers in_frame : bool) (buf : list byte) : Found :=
  let entered :=
    if in_frame then Some buf
    else match best_start start buf with
         | Some (pos, marker_len) =>
             Some (if include_markers then drop pos buf else drop marker_len (drop pos buf))
         | None => None
         end in
  match entered with
  | None =>
      let keep := start_keep start in
      (None, if (keep <? length buf)%nat then drop (length buf - keep) buf else buf,
       MStartEnd start end_ include_markers false)
  | Some buf =>
      match find_subsequence buf end_ with
      | Some pos =>
          (Some (if include_markers then take (pos + length end_) buf else take pos buf),
           drop (pos + length end_) buf, MStartEnd start end_ include_markers false)
      | None => (None, buf, MStartEnd start end_ include_markers true)
      end
  end.

(** One round of the loop of [push], for the modes it handles itself. *)
Definition match_frame (inc : bool) (mode : DecoderMode) (buf : list byte) : Found :=
  match mode with
  | MLine LsLf => match_line_byte inc x0a buf LsLf
  | MLine LsCr => match_line_byte inc x0d buf LsCr
  | MLine LsCrlf => match_line_crlf inc buf
  | MLine AutoLf => match_auto_lf inc buf
  | MLine (PendingCr pos) => match_pending_cr inc buf pos
  | MLine CrMode => match_line_byte inc x0d buf CrMode
  | MDelimiter delim =>
      match extract_delimited buf delim inc with
      | Some (fb, buf) => (Some fb, buf, mode)
      | None => (None, buf, mode)
      end
  | MLengthPrefixed prefix_size e off next => match_length_prefixed inc prefix_size e off next buf
  | MStartEnd start end_ include_markers in_frame =>
      match_start_end start end_ include_markers in_frame buf
  | MSlip _ | MCobs _ => (None, buf, mode)
  end.

(** The ['outer] loop of [push]. *)
Fixpoint push_loop (fuel : nat) (cfg : EmitCfg) (inc : bool) (mode : DecoderMode)
    (buf : list byte) (st : EmitState)
    : option (DecoderMode * list byte * EmitState * option FrameDecodeError) :=
  match fuel with
  | O => None
  | S fuel =>
      match match_frame inc mode buf with
      | (None, buf, mode) => Some (mode, buf, st, None)
      | (Some data, buf, mode) =>
          match emit cfg data st with
          | (st, None) => push_loop fuel cfg inc mode buf st
          | (st, Some e) => Some (mode, buf, st, Some e)
          end
      end
  end.

(** [frame_type_str]. *)
Definition frame_type_str (mode : DecoderMode) : string :=
  match mode with
  | MLine _ => "line"
  | MDelimiter _ => "delimiter"
  | MLengthPrefixed _ _ _ _ => "length_prefixed"
  | MStartEnd _ _ _ _ => "start_end"
  | MSlip _ => "slip"
  | MCobs _ => "cobs"
  end.

(** The decoding of a buffer by mode. *)
Definition decode_buf (cfg : EmitCfg) (inc : bool) (mode : DecoderMode) (buf : list byte)
    (st : EmitState) : option (DecoderMode * list byte * EmitState * option FrameDecodeError) :=
  match mode with
  | MSlip state =>
      let '(state, rest, st, e) := slip_decode cfg buf state st in Some (MSlip state, rest, st, e)
  | MCobs state =>
      '(state, rest, st, e) ← cobs_decode cfg buf state st; Some (MCobs state, rest, st, e)
  | _ => push_loop (S (length buf)) cfg inc mode buf st
  end.

(** [FrameDecoder::push]. *)
Definition push (d : FrameDecoder) (chunk : list byte) : option (FrameDecoder * PushOutcome) :=
  let cfg := mkEmitCfg (frame_type_str (d_mode d)) (d_skip_empty d) (d_parser d) in
  '(mode, buf, st, e) ← decode_buf cfg (d_include_terminators d) (d_mode d) (d_buf d ++ chunk)
                          (mkEmit (d_frame_count d) [] 0);
  Some (mkDecoder buf mode (e_count st) (d_include_terminators d) (d_skip_empty d) (d_parser d),
        mkOutcome (e_frames st) (e_dropped st) e).

(** ** Construction *)

(** The error texts of [FrameDecoder::new]. *)
Inductive NewError :=
  | InvalidDelimiterEncoding (e : CodecError)
  | DelimiterEmpty
  | BadPrefixSize
  | StartMarkersEmpty
  | InvalidStartEncoding (e : CodecError)
  | MarkerEmpty
  | InvalidEndEncoding (e : CodecError)
  | InvalidPromptRegex (e : RegexError).

Fixpoint decode_start_markers (enc : PatternEncoding) (start : list (list byte))
    : result NewError (list (list byte)) :=
  match start with
  | [] => Ok []
  | s :: start =>
      sb ← map_err InvalidStartEncoding (decode (PatternEncoding_into enc) s);
      if bool_decide (sb = []) then Err MarkerEmpty
      else rest ← decode_start_markers enc start; Ok (sb :: rest)
  end.

Definition new_mode (mode : RxFramingMode) : result NewError DecoderMode :=
  match mode with
  | RxLine ending =>
      Ok (MLine (match ending with
                 | Auto => AutoLf | Lf => LsLf | Cr => LsCr | Crlf => LsCrlf
                 end))
  | RxDelimiter delimiter enc =>
      bytes ← map_err InvalidDelimiterEncoding (decode (PatternEncoding_into enc) delimiter);
      if bool_decide (bytes = []) then Err DelimiterEmpty else Ok (MDelimiter bytes)
  | RxLengthPrefixed prefix_size e initial_offset =>
      if decide (valid_prefix_size prefix_size)
      then Ok (MLengthPrefixed prefix_size e (default 0 initial_offset) None)
      else Err BadPrefixSize
  | RxStartEnd start end_ enc include_markers =>
      if bool_decide (start = []) then Err StartMarkersEmpty
      else
        start_bytes ← decode_start_markers enc start;
        end_bytes ← map_err InvalidEndEncoding (decode (PatternEncoding_into enc) end_);
        if bool_decide (end_bytes = []) then Err MarkerEmpty
        else Ok (MStartEnd start_bytes end_bytes include_markers false)
  | RxSlip => Ok (MSlip BeforeFirstEnd)
  | RxCobs => Ok (MCobs BeforeFirstDelim)
  end.

(** [FrameDecoder::new]. *)
Definition new (config : RxFramingConfig) (parser_config : option ParserConfig)
    : result NewError FrameDecoder :=
  mode ← new_mode (rx_mode config);
  parser ← match parser_config with
           | Some pc => p ← map_err InvalidPromptRegex (build_parser pc); Ok (Some p)
           | None => Ok None
           end;
  Ok (mkDecoder [] mode 0 (include_terminators config) (skip_empty config) parser).

(** ** Remaining operations *)

(** [pending_len]. *)
Definition pending_len (d : FrameDecoder) : nat := length (d_buf d).

(** [flush_partial]. *)
Definition flush_partial (d : FrameDecoder) : option Frame * FrameDecoder :=
  let emit_partial data mode buf :=
    if bool_decide (data = []) then (None, d)
    else (Some (mkFrame data (d_frame_count d) (frame_type_str (d_mode d)) None),
          mkDecoder buf mode (S (d_frame_count d)) (d_include_terminators d)
            (d_skip_empty d) (d_parser d)) in
  match d_mode d with
  | MSlip (SlipInFrame buf escaped) => emit_partial buf (MSlip (SlipInFrame [] escaped)) (d_buf d)
  | MCobs (CobsInFrame decoded r p) => emit_partial decoded (MCobs (CobsInFrame [] r p)) (d_buf d)
  | mode => emit_partial (d_buf d) mode []
  end.

(** Feeding a sequence of chunks, as the read pipeline does; it stops at the
    first error. *)
Fixpoint push_all (d : FrameDecoder) (chunks : list (list byte))
    : option (FrameDecoder * PushOutcome) :=
  match chunks with
  | [] => Some (d, mkOutcome [] 0 None)
  | c :: chunks =>
      '(d, o) ← push d c;
      match o_error o with
      | Some _ => Some (d, o)
      | None =>
          '(d, o') ← push_all d chunks;
          Some (d, mkOutcome (o_frames o ++ o_frames o') (o_frames_dropped o + o_frames_dropped o')
                     (o_error o'))
      end
  end.

End Decoder.
