(* ===== verification/DecoderTotal.v ===== *)
(** * Termination and accounting of the decoder

    Every [push] returns: the fuel of the loops is enough for every decoder that
    [new] can build and every state it can reach.  Emission never aborts a loop,
    and the frames of a decoder are numbered consecutively. *)

From S2P Require Import Prelude Util RustStr Extern ExternModel Codec FramingConfig TxCodecs Parsers Decoder.

Section Total.
Context `{HexCrate, Base64Crate, JsonCrate, RegexCrate}.

(** ** Emission *)

(** Emission of a list of raw frames. *)
Definition emit_all (cfg : EmitCfg) (datas : list (list byte)) (st : EmitState) : EmitState :=
  foldl (fun st data => (emit cfg data st).1) st datas.

Lemma emit_all_app cfg l k st : emit_all cfg (l ++ k) st = emit_all cfg k (emit_all cfg l st).
Proof. apply foldl_app. Qed.

(** No built-in parser error stops the decoder. *)
Lemma emit_never_fails cfg data st : (emit cfg data st).2 = None.
Proof.
  unfold emit, emit_frame. destruct (c_skip_empty cfg && is_blank_frame data); [done|].
  destruct (c_parser cfg) as [p|]; [|done]. simpl.
  destruct (parse p data) as [pf|e] eqn:E; [done|].
  by apply parse_err_inv in E as (_ & a & b & ->).
Qed.

Lemma emit_eq cfg data st : emit cfg data st = ((emit cfg data st).1, None).
Proof. pose proof (emit_never_fails cfg data st). destruct (emit cfg data st); naive_solver. Qed.

(** The frames a list of raw frames adds: those neither blank-skipped nor
    dropped, numbered from [n]. *)
Fixpoint emitted (cfg : EmitCfg) (n : nat) (datas : list (list byte)) : list Frame :=
  match datas with
  | [] => []
  | data :: datas =>
      match (emit_frame data (c_type cfg) n (c_skip_empty cfg) (c_parser cfg) 0).1.1 with
      | Ok (Some f) => f :: emitted cfg (S n) datas
      | _ => emitted cfg n datas
      end
  end.

(** The raw frames dropped for their checksum. *)
Fixpoint dropped (cfg : EmitCfg) (datas : list (list byte)) : nat :=
  match datas with
  | [] => 0
  | data :: datas =>
      (emit_frame data (c_type cfg) 0 (c_skip_empty cfg) (c_parser cfg) 0).2 + dropped cfg datas
  end.

Lemma emit_all_spec cfg datas : forall st,
  emit_all cfg datas st =
    mkEmit (e_count st + length (emitted cfg (e_count st) datas))
      (e_frames st ++ emitted cfg (e_count st) datas)
      (e_dropped st + dropped cfg datas).
Proof.
  induction datas as [|data datas IH]; intros [n fs k]; cbn [emit_all foldl emitted dropped].
  { simpl. by rewrite app_nil_r, !Nat.add_0_r. }
  fold (emit_all cfg datas (emit cfg data (mkEmit n fs k)).1). rewrite IH.
  unfold emit, emit_frame. cbn [e_count e_frames e_dropped].
  destruct (c_skip_empty cfg && is_blank_frame data); [done|].
  destruct (c_parser cfg) as [p|]; simpl; [destruct (parse p data) as [pf|[]]|]; simpl;
    rewrite <- ?(assoc_L (++)); f_equal; lia.
Qed.

Lemma emitted_index cfg datas : forall n i f,
  emitted cfg n datas !! i = Some f -> f_index f = (n + i)%nat.
Proof.
  induction datas as [|data datas IH]; intros n i f; [done|]. cbn [emitted].
  unfold emit_frame. destruct (c_skip_empty cfg && is_blank_frame data); [apply IH|].
  destruct (c_parser cfg) as [p|]; simpl; [destruct (parse p data) as [pf|[]]|]; simpl;
    try apply IH; (destruct i as [|i]; [intros [= <-]; simpl; lia|]);
    intros Hf; apply (IH (S n) i) in Hf; lia.
Qed.

(** ** Well-formed modes *)

(** States whose due zeros are appended, the only ones between two pushes. *)
Definition cobs_canonical (s : CobsState) : Prop :=
  match s with
  | CobsInFrame _ 0 true => False
  | _ => True
  end.

Definition wf_mode (mode : DecoderMode) : Prop :=
  match mode with
  | MLengthPrefixed n _ off next =>
      valid_prefix_size n /\ match next with Some len => 0 <= len | None => True end
  | MCobs s => cobs_canonical s
  | _ => True
  end.

Lemma from_le_bytes_nonneg l : 0 <= from_le_bytes l.
Proof. induction l as [|b l IH]; simpl; [lia|]. pose proof (b2z_range b). lia. Qed.

Lemma read_length_prefix_nonneg l n e : 0 <= read_length_prefix l n e.
Proof.
  unfold read_length_prefix, from_be_bytes. pose proof (b2z_range (default x00 (head l))).
  repeat case_match; try apply from_le_bytes_nonneg; lia.
Qed.

(** A round that finds a frame consumes at least one byte. *)
Definition progress (buf : list byte) (r : Found) : Prop :=
  wf_mode r.2 /\ (is_Some r.1.1 -> (length r.1.2 < length buf)%nat).

Lemma progress_none buf b mode : wf_mode mode -> progress buf (None, b, mode).
Proof. intros Hw. split; [done|]. by intros [? [=]]. Qed.

Lemma progress_take inc buf pos n mode :
  (pos < length buf)%nat -> (0 < n)%nat -> wf_mode mode ->
  progress buf (let '(fb, buf) := take_frame inc buf pos n in (Some fb, buf, mode)).
Proof. intros Hp Hn Hw. split; [done|]. intros _. simpl. rewrite length_drop. lia. Qed.

Lemma find_subsequence_nonempty l n i : find_subsequence l n = Some i -> (0 < length n)%nat.
Proof. intros [Hne _]%find_subsequence_Some. destruct n; simpl; [done|lia]. Qed.

(** The payload length is never negative. *)
Lemma next_len_nonneg n e next buf :
  match next with Some len => 0 <= len | None => True end ->
  match (match next with
         | Some len => Some len
         | None => if zlen buf <? n then None
                   else Some (read_length_prefix (take (Z.to_nat n) buf) n e)
         end) with Some len => 0 <= len | None => True end.
Proof.
  destruct next; [done|]. intros _. destruct (zlen buf <? n); [done|].
  apply read_length_prefix_nonneg.
Qed.

Lemma progress_length_body inc n e off next buf :
  wf_mode (MLengthPrefixed n e off next) ->
  progress buf (match_length_body inc n e off next buf).
Proof.
  intros [Hn Hnext]. unfold match_length_body.
  pose proof (next_len_nonneg n e next buf Hnext) as Hnn.
  destruct (match next with Some _ => _ | None => _ end) as [len|];
    [|by apply progress_none; split].
  destruct (Z.ltb_spec (zlen buf) (n + len)); [by apply progress_none; split|].
  split; [by split|]. intros _. simpl. rewrite length_drop. unfold zlen in *.
  destruct Hn as [->|[-> | ->] ]; lia.
Qed.

Lemma progress_length_prefixed inc n e off next buf :
  wf_mode (MLengthPrefixed n e off next) ->
  progress buf (match_length_prefixed inc n e off next buf).
Proof.
  intros Hw. unfold match_length_prefixed.
  destruct (progress_length_body inc n e (off - (if 0 <? off then Z.min off (zlen buf) else 0)) next
              (drop (Z.to_nat (if 0 <? off then Z.min off (zlen buf) else 0)) buf) Hw) as [Hw' Hp].
  split; [done|]. intros Hs. specialize (Hp Hs). rewrite length_drop in Hp. lia.
Qed.

Lemma progress_start_end start end_ inc_m in_frame buf :
  progress buf (match_start_end start end_ inc_m in_frame buf).
Proof.
  unfold match_start_end.
  assert (He : forall b, (if in_frame then Some buf else
                match best_start start buf with
                | Some (pos, marker_len) =>
                    Some (if inc_m then drop pos buf else drop marker_len (drop pos buf))
                | None => None end) = Some b -> (length b <= length buf)%nat).
  { intros b. repeat case_match; intros [= <-]; rewrite ?length_drop; lia. }
  destruct (if in_frame then _ else _) as [b|]; [|by apply progress_none]. specialize (He b eq_refl).
  destruct (find_subsequence b end_) as [pos|] eqn:Hf; [|by apply progress_none].
  split; [done|]. intros _. simpl. rewrite length_drop.
  pose proof (find_subsequence_bound _ _ _ Hf). pose proof (find_subsequence_nonempty _ _ _ Hf). lia.
Qed.

Lemma progress_line inc state buf : progress buf (match_frame inc (MLine state) buf).
Proof.
  destruct state; simpl; unfold match_line_byte, match_line_crlf, match_auto_lf, match_pending_cr.
  1,2,6: destruct (position _ buf) eqn:Hp; [|by apply progress_none];
    apply progress_take; [by eauto with serial|lia|done].
  - destruct (find_subsequence buf CRLF) as [pos|] eqn:Hf; [|by apply progress_none].
    pose proof (find_subsequence_bound _ _ _ Hf) as Hb. simpl in Hb.
    apply progress_take; [lia|lia|done].
  - destruct (position _ buf) as [lf|] eqn:Hp.
    + apply position_lt in Hp.
      destruct (negb inc && _ && _); apply progress_take; done || lia.
    + destruct (position (fun x => bool_decide (x = x0d)) buf) as [cr|] eqn:Hc; [|by apply progress_none].
      apply position_lt in Hc. destruct (bool_decide _); [apply progress_take; done || lia|].
      destruct (S cr <? length buf)%nat; [apply progress_take; done || lia|by apply progress_none].
  - destruct (buf !! S pos) eqn:Hl; [|by apply progress_none]. apply lookup_lt_Some in Hl.
    destruct (bool_decide _); apply progress_take; done || lia.
Qed.

Lemma match_frame_progress inc mode buf : wf_mode mode -> progress buf (match_frame inc mode buf).
Proof.
  intros Hw. destruct mode; try by apply progress_none.
  - apply progress_line.
  - simpl. unfold extract_delimited. destruct (find_subsequence buf delim) as [pos|] eqn:Hf; [|by apply progress_none].
    split; [done|]. intros _. simpl. rewrite length_drop.
    pose proof (find_subsequence_bound _ _ _ Hf). pose proof (find_subsequence_nonempty _ _ _ Hf). lia.
  - by apply progress_length_prefixed.
  - apply progress_start_end.
Qed.

(** The raw frames the buffer loop extracts, with the final mode and buffer. *)
Fixpoint raw_loop (fuel : nat) (inc : bool) (mode : DecoderMode) (buf : list byte)
    : option (list (list byte) * DecoderMode * list byte) :=
  match fuel with
  | O => None
  | S fuel =>
      match match_frame inc mode buf with
      | (None, buf, mode) => Some ([], mode, buf)
      | (Some data, buf, mode) =>
          '(ds, mode, buf) ← raw_loop fuel inc mode buf; Some (data :: ds, mode, buf)
      end
  end.

(** The buffer loop is raw extraction followed by emission. *)
Lemma push_loop_raw fuel cfg inc : forall mode buf st,
  push_loop fuel cfg inc mode buf st =
    '(ds, mode, buf) ← raw_loop fuel inc mode buf; Some (mode, buf, emit_all cfg ds st, None).
Proof.
  induction fuel as [|fuel IH]; intros mode buf st; [done|]. cbn [push_loop raw_loop].
  destruct (match_frame inc mode buf) as [[[data|] buf'] mode']; [|done].
  rewrite emit_eq, IH. by destruct (raw_loop fuel inc mode' buf') as [[[ds m] b]|].
Qed.

Lemma raw_loop_total fuel inc : forall mode buf,
  wf_mode mode -> (length buf < fuel)%nat ->
  exists ds mode' buf', raw_loop fuel inc mode buf = Some (ds, mode', buf') /\ wf_mode mode'.
Proof.
  induction fuel as [|fuel IH]; intros mode buf Hw Hlt; [lia|]. cbn [raw_loop].
  pose proof (match_frame_progress inc mode buf Hw) as [Hw' Hp].
  destruct (match_frame inc mode buf) as [[[data|] buf'] mode']; simpl in *; [|by eauto].
  destruct (IH mode' buf' Hw') as (ds & m & b & -> & Hm); [|simpl; eauto 10].
  specialize (Hp ltac:(done)). lia.
Qed.

(** More fuel changes nothing. *)
Lemma raw_loop_fuel fuel fuel' inc : forall mode buf r,
  (fuel <= fuel')%nat -> raw_loop fuel inc mode buf = Some r -> raw_loop fuel' inc mode buf = Some r.
Proof.
  revert fuel'. induction fuel as [|fuel IH]; intros fuel' mode buf r Hle Hr; [done|].
  destruct fuel' as [|fuel']; [lia|]. cbn [raw_loop] in *.
  destruct (match_frame inc mode buf) as [[[data|] buf'] mode']; [|done].
  destruct (raw_loop fuel inc mode' buf') as [[[ds m] b]|] eqn:E; [|done].
  by rewrite (IH fuel' _ _ _ ltac:(lia) E).
Qed.

(** ** SLIP as raw extraction *)

(** The raw frames of the SLIP byte loop, its final state, the unread bytes and
    the error. *)
Fixpoint slip_raw (input buf : list byte) (escaped : bool)
    : list (list byte) * SlipState * list byte * option FrameDecodeError :=
  match input with
  | [] => ([], SlipInFrame buf escaped, [], None)
  | b :: input =>
      if escaped then
        if decide (b = SLIP_ESC_END) then slip_raw input (buf ++ [SLIP_END]) false
        else if decide (b = SLIP_ESC_ESC) then slip_raw input (buf ++ [SLIP_ESC]) false
        else ([], BeforeFirstEnd, input, Some (SlipInvalidEscape b))
      else if decide (b = SLIP_END) then
        let '(ds, s, rest, e) := slip_raw input [] false in (buf :: ds, s, rest, e)
      else if decide (b = SLIP_ESC) then slip_raw input buf true
      else slip_raw input (buf ++ [b]) false
  end.

Definition slip_raw_decode (buf_outer : list byte) (state : SlipState)
    : list (list byte) * SlipState * list byte * option FrameDecodeError :=
  match state with
  | BeforeFirstEnd =>
      match position (fun b => bool_decide (b = SLIP_END)) buf_outer with
      | Some pos => slip_raw (drop (S pos) buf_outer) [] false
      | None => ([], BeforeFirstEnd, [], None)
      end
  | SlipInFrame buf escaped => slip_raw buf_outer buf escaped
  end.

Lemma slip_in_frame_raw cfg input : forall buf escaped st,
  slip_in_frame cfg input buf escaped st =
    let '(ds, s, rest, e) := slip_raw input buf escaped in (s, rest, emit_all cfg ds st, e).
Proof.
  induction input as [|b input IH]; intros buf escaped st; [done|].
  cbn [slip_in_frame slip_raw]. rewrite emit_eq.
  destruct escaped; repeat case_decide; rewrite ?IH; try done;
    by destruct (slip_raw input [] false) as [[[??]?]?].
Qed.

Lemma slip_decode_raw cfg buf_outer state st :
  slip_decode cfg buf_outer state st =
    let '(ds, s, rest, e) := slip_raw_decode buf_outer state in (s, rest, emit_all cfg ds st, e).
Proof.
  destruct state; simpl; [destruct (position _ _); [|done]|]; apply slip_in_frame_raw.
Qed.

(** ** COBS as a byte automaton *)

(** The state between two bytes: an implicit zero that is due is appended. *)
Definition cobs_flush (decoded : list byte) (remaining : nat) (pending_zero : bool) : CobsState :=
  if bool_decide (remaining = 0%nat) && pending_zero
  then CobsInFrame (decoded ++ [x00]) remaining false
  else CobsInFrame decoded remaining pending_zero.

Definition cobs_byte (s : CobsState) (b : byte) : list (list byte) * CobsState :=
  match s with
  | BeforeFirstDelim => ([], if decide (b = x00) then CobsInFrame [] 0 false else BeforeFirstDelim)
  | CobsInFrame decoded (S r) p => ([], cobs_flush (decoded ++ [b]) r p)
  | CobsInFrame decoded 0 p =>
      if decide (b = x00) then ([pop_phantom decoded], BeforeFirstDelim)
      else if decide (b = xff) then ([], CobsInFrame decoded 254 false)
      else ([], cobs_flush decoded (Z.to_nat (b2z b - 1)) true)
  end.

Fixpoint cobs_run (s : CobsState) (input : list byte) : list (list byte) * CobsState :=
  match input with
  | [] => ([], s)
  | b :: input =>
      let '(o, s) := cobs_byte s b in
      let '(ds, s) := cobs_run s input in (o ++ ds, s)
  end.

Lemma cobs_run_app input k : forall s,
  cobs_run s (input ++ k) =
    let '(ds, s) := cobs_run s input in
    let '(ds', s) := cobs_run s k in (ds ++ ds', s).
Proof.
  induction input as [|b input IH]; intros s; simpl; [by destruct (cobs_run s k)|].
  destruct (cobs_byte s b) as [o s1]. rewrite IH. destruct (cobs_run s1 input) as [ds s2].
  destruct (cobs_run s2 k). by rewrite (assoc_L (++)).
Qed.

Lemma cobs_flush_canonical d r p : cobs_canonical (cobs_flush d r p).
Proof. unfold cobs_flush. by destruct r, p. Qed.

Lemma cobs_run_canonical input : forall s, cobs_canonical s -> cobs_canonical (cobs_run s input).2.
Proof.
  induction input as [|b input IH]; intros s Hs; [done|]. simpl.
  assert (Hc : cobs_canonical (cobs_byte s b).2).
  { destruct s as [|d [|r] p]; simpl; repeat case_decide; try done; apply cobs_flush_canonical. }
  destruct (cobs_byte s b) as [o s1]. specialize (IH s1 Hc).
  by destruct (cobs_run s1 input).
Qed.

Lemma cobs_flush_false d r : cobs_flush d r false = CobsInFrame d r false.
Proof. unfold cobs_flush. by rewrite andb_false_r. Qed.

Lemma cobs_flush_S d r p : cobs_flush d (S r) p = CobsInFrame d (S r) p.
Proof. unfold cobs_flush. by rewrite bool_decide_eq_false_2 by done. Qed.

Lemma cobs_in_frame_run cfg input : forall d r p st,
  match cobs_in_frame cfg input d r p st with
  | (CobsConsumed s, st') => st' = st /\ cobs_run (cobs_flush d r p) input = ([], s)
  | (CobsDelimiter rest, st') =>
      (length rest < length input)%nat /\
      exists data, st' = (emit cfg data st).1 /\
        cobs_run (cobs_flush d r p) input =
          let '(ds, s) := cobs_run BeforeFirstDelim rest in (data :: ds, s)
  | (CobsFailed _ _, _) => False
  end.
Proof.
  induction input as [|b input IH]; intros d r p st; cbn [cobs_in_frame].
  { unfold cobs_flush. by destruct r, p. }
  assert (Hrec : forall d' r' p' s,
    cobs_byte s b = ([], cobs_flush d' r' p') ->
    match cobs_in_frame cfg input d' r' p' st with
    | (CobsConsumed s', st') => st' = st /\ cobs_run s (b :: input) = ([], s')
    | (CobsDelimiter rest, st') => (length rest < S (length input))%nat /\
        exists data, st' = (emit cfg data st).1 /\
        cobs_run s (b :: input) = let '(ds, s) := cobs_run BeforeFirstDelim rest in (data :: ds, s)
    | (CobsFailed _ _, _) => False
    end).
  { intros d' r' p' s Hb. specialize (IH d' r' p' st).
    destruct (cobs_in_frame cfg input d' r' p' st) as [[s'|rest|] st']; [|..|done].
    - destruct IH as [-> IH]. split; [done|]. cbn [cobs_run]. by rewrite Hb, IH.
    - destruct IH as (Hlt & data & -> & IH). split; [lia|]. exists data. split; [done|].
      cbn [cobs_run]. rewrite Hb, IH. by destruct (cobs_run BeforeFirstDelim rest). }
  destruct r as [|r].
  - assert (Hfl : cobs_flush d 0 p = CobsInFrame (if p then d ++ [x00] else d) 0 false)
      by by destruct p.
    rewrite Hfl. rewrite bool_decide_eq_true_2 by done. cbn [andb].
    replace (if p then false else p) with false by by destruct p.
    case_decide as Hz; [|case_decide as Hff].
    + rewrite emit_eq. split; [simpl; lia|]. eexists; split; [done|].
      cbn [cobs_run cobs_byte]. rewrite decide_True by done.
      by destruct (cobs_run BeforeFirstDelim input).
    + apply (Hrec (if p then d ++ [x00] else d) 254%nat false). cbn [cobs_byte].
      rewrite decide_False, decide_True by done. by rewrite cobs_flush_false.
    + apply (Hrec (if p then d ++ [x00] else d) (Z.to_nat (b2z b - 1)) true). cbn [cobs_byte].
      rewrite decide_False by done. rewrite decide_False by done. done.
  - rewrite bool_decide_eq_false_2 by done. cbn [andb].
    replace (cobs_flush d (S r) p) with (CobsInFrame d (S r) p) by (by rewrite cobs_flush_S).
    by apply (Hrec _ r p).
Qed.

Lemma cobs_run_before input :
  cobs_run BeforeFirstDelim input =
    match position (fun b => bool_decide (b = x00)) input with
    | Some pos => cobs_run (CobsInFrame [] 0 false) (drop (S pos) input)
    | None => ([], BeforeFirstDelim)
    end.
Proof.
  induction input as [|b input IH]; [done|]. cbn [cobs_run cobs_byte position].
  case_decide as Hb.
  - rewrite bool_decide_eq_true_2 by done. simpl. rewrite drop_0.
    by destruct (cobs_run (CobsInFrame [] 0 false) input).
  - rewrite bool_decide_eq_false_2 by done. rewrite IH.
    destruct (position _ input) as [n|]; [|done]. cbn [fmap option_fmap option_map].
    rewrite (skipn_cons (S n) b input). by destruct (cobs_run _ (drop (S n) input)).
Qed.

Lemma cobs_loop_run fuel cfg : forall input s st,
  cobs_canonical s -> (length input < fuel)%nat ->
  cobs_loop fuel cfg input s st =
    let '(ds, s') := cobs_run s input in Some (s', [], emit_all cfg ds st, None).
Proof.
  induction fuel as [|fuel IH]; intros input s st Hs Hlt; [lia|]. cbn [cobs_loop].
  destruct s as [|d r p].
  - rewrite cobs_run_before. destruct (position _ input) as [pos|] eqn:Hp; [|done].
    apply position_lt in Hp. apply IH; [done|]. rewrite length_drop. lia.
  - assert (Hfl : cobs_flush d r p = CobsInFrame d r p) by (by destruct r, p).
    pose proof (cobs_in_frame_run cfg input d r p st) as Hrun. rewrite Hfl in Hrun.
    destruct (cobs_in_frame cfg input d r p st) as [[s'|rest|] st']; [|..|done].
    + by destruct Hrun as [-> ->].
    + destruct Hrun as (Hr & data & -> & ->). rewrite IH; [|done|lia].
      by destruct (cobs_run BeforeFirstDelim rest).
Qed.

(** [cobs_decode] runs the automaton and emits its frames; it always returns. *)
Lemma cobs_decode_run cfg input s st :
  cobs_canonical s ->
  cobs_decode cfg input s st =
    let '(ds, s') := cobs_run s input in Some (s', [], emit_all cfg ds st, None).
Proof. intros Hs. apply cobs_loop_run; [done|lia]. Qed.

(** ** Pushing, at the level of raw frames *)

(** The raw frames of one decoding, the new mode, the remaining buffer and the
    error. *)
Definition raw_decode (inc : bool) (mode : DecoderMode) (buf : list byte)
    : option (list (list byte) * DecoderMode * list byte * option FrameDecodeError) :=
  match mode with
  | MSlip s => let '(ds, s, rest, e) := slip_raw_decode buf s in Some (ds, MSlip s, rest, e)
  | MCobs s => let '(ds, s) := cobs_run s buf in Some (ds, MCobs s, [], None)
  | _ => '(ds, mode, buf) ← raw_loop (S (length buf)) inc mode buf; Some (ds, mode, buf, None)
  end.

Definition cfg_of (d : FrameDecoder) : EmitCfg :=
  mkEmitCfg (frame_type_str (d_mode d)) (d_skip_empty d) (d_parser d).

Lemma decode_buf_raw cfg inc mode buf st :
  wf_mode mode ->
  decode_buf cfg inc mode buf st =
    '(ds, mode, buf, e) ← raw_decode inc mode buf; Some (mode, buf, emit_all cfg ds st, e).
Proof.
  intros Hw. destruct mode; cbn [decode_buf raw_decode]; try rewrite push_loop_raw.
  1-4: by destruct (raw_loop _ _ _ _) as [[[??]?]|].
  - rewrite slip_decode_raw. by destruct (slip_raw_decode _ _) as [[[??]?]?].
  - rewrite cobs_decode_run by done. by destruct (cobs_run _ _).
Qed.

Lemma raw_decode_total inc mode buf :
  wf_mode mode ->
  exists ds mode' rest e, raw_decode inc mode buf = Some (ds, mode', rest, e) /\ wf_mode mode'.
Proof.
  intros Hw. destruct mode; cbn [raw_decode].
  1-4: destruct (raw_loop_total (S (length buf)) inc _ buf Hw ltac:(lia))
         as (ds & m & b & Hr & Hm); rewrite Hr; simpl; eexists _, _, _, _; split; [done|];
       by destruct m.
  - destruct (slip_raw_decode _ _) as [[[??]?]?]. by eexists _, _, _, _.
  - pose proof (cobs_run_canonical buf _ Hw). destruct (cobs_run _ _). by eexists _, _, _, _.
Qed.

(** A push emits the raw frames of the buffered bytes and keeps the rest. *)
Lemma push_raw d chunk :
  wf_mode (d_mode d) ->
  push d chunk =
    '(ds, mode, rest, e) ← raw_decode (d_include_terminators d) (d_mode d) (d_buf d ++ chunk);
    Some (mkDecoder rest mode (d_frame_count d + length (emitted (cfg_of d) (d_frame_count d) ds))
            (d_include_terminators d) (d_skip_empty d) (d_parser d),
          mkOutcome (emitted (cfg_of d) (d_frame_count d) ds) (dropped (cfg_of d) ds) e).
Proof.
  intros Hw. unfold push. rewrite decode_buf_raw by done.
  destruct (raw_decode _ _ _) as [[[[ds m] rest] e]|]; [|done]. simpl.
  rewrite emit_all_spec. done.
Qed.

Lemma push_some d chunk :
  wf_mode (d_mode d) ->
  exists d' o, push d chunk = Some (d', o) /\ wf_mode (d_mode d') /\
    d_frame_count d' = (d_frame_count d + length (o_frames o))%nat /\
    forall i f, o_frames o !! i = Some f -> f_index f = (d_frame_count d + i)%nat.
Proof.
  intros Hw. rewrite push_raw by done.
  destruct (raw_decode_total (d_include_terminators d) _ (d_buf d ++ chunk) Hw)
    as (ds & m & rest & e & -> & Hm).
  eexists _, _. split; [done|]. split; [done|]. split; [done|].
  intros i f Hf. by eapply emitted_index.
Qed.

Lemma new_wf config pc d : new config pc = Ok d -> wf_mode (d_mode d) /\ d_frame_count d = 0%nat.
Proof.
  unfold new. intros Hn.
  apply result_bind_ok in Hn as (mode & Hmode & Hn).
  apply result_bind_ok in Hn as (p & _ & [= <-]). split; [|done]. simpl.
  unfold new_mode in Hmode. destruct (rx_mode config).
  - by injection Hmode as <-.
  - apply result_bind_ok in Hmode as (bytes & _ & Hm). case_match; simplify_eq. done.
  - case_decide; simplify_eq. done.
  - case_match; [done|]. apply result_bind_ok in Hmode as (a & _ & Hm).
    apply result_bind_ok in Hm as (b & _ & Hm). case_match; simplify_eq. done.
  - by injection Hmode as <-.
  - by injection Hmode as <-.
Qed.

Lemma push_all_some chunks : forall d,
  wf_mode (d_mode d) ->
  exists d' o, push_all d chunks = Some (d', o) /\
    d_frame_count d' = (d_frame_count d + length (o_frames o))%nat /\
    forall i f, o_frames o !! i = Some f -> f_index f = (d_frame_count d + i)%nat.
Proof.
  induction chunks as [|c chunks IH]; intros d Hw; cbn [push_all].
  { eexists _, _. split; [done|]. simpl. split; [lia|]. done. }
  destruct (push_some d c Hw) as (d1 & o1 & -> & Hw1 & Hc1 & Hi1). simpl.
  destruct (o_error o1); [eauto|].
  destruct (IH d1 Hw1) as (d2 & o2 & -> & Hc2 & Hi2). simpl.
  eexists _, _. split; [done|]. simpl. rewrite length_app. split; [lia|].
  intros i f. destruct (decide (i < length (o_frames o1))%nat).
  - rewrite lookup_app_l by done. apply Hi1.
  - rewrite lookup_app_r by lia. intros Hf%Hi2. lia.
Qed.

(** C23: decoding always terminates, and frames are numbered without
    gaps.  For every configuration that [FrameDecoder::new] accepts and every
    sequence of chunks, the fuel of the model is enough, that is, every loop of
    [push] ends; the [i]-th frame emitted has index [i], and the decoder's frame
    count is the number of frames emitted, whatever was skipped or dropped. *)
Theorem push_total config pc d chunks :
  new config pc = Ok d ->
  exists d' o, push_all d chunks = Some (d', o) /\
    d_frame_count d' = length (o_frames o) /\
    forall i f, o_frames o !! i = Some f -> f_index f = i.
Proof.
  intros [Hw Hc]%new_wf. destruct (push_all_some chunks d Hw) as (d' & o & Hp & Hn & Hi).
  rewrite Hc in *. eauto.
Qed.

End Total.

Lemma push_total_witness :
  exists d' o,
    push_all (mkDecoder [] (MCobs BeforeFirstDelim) 0 false false None) [[x00; x02]; [x41; x00; x07]]
      = Some (d', o) /\
    d_frame_count d' = length (o_frames o) /\
    forall i f, o_frames o !! i = Some f -> f_index f = i.
Proof. apply (push_total (mkRxFraming RxCobs None false false) None). reflexivity. Defined.
