(* ===== verification/DecoderChunks.v ===== *)
(** * Independence of the decoder from the chunking of the stream

    For every boundary detector whose verdict is local to the bytes of a frame,
    pushing two chunks is pushing their concatenation.  The [auto] line ending
    and start markers of different lengths are not of that kind; the concrete
    streams at the end show the dependence. *)

From S2P Require Import Prelude Util RustStr Extern ExternModel Codec FramingConfig TxCodecs Parsers Decoder DecoderTotal.

(** ** The earliest start marker *)

Section Markers.
Context (start : list (list byte)) (L : nat).
Hypothesis Hlen : Forall (fun m => m <> [] /\ length m = L) start.

(** [m] ranges over the start markers: one of them occurs at [i]. *)
Definition starts_at (l : list byte) (i : nat) : Prop :=
  Exists (fun m => occurs_at m l i) start.

Lemma starts_at_bound l i : starts_at l i -> (i + L <= length l)%nat.
Proof.
  intros (m & Hm & Ho)%Exists_exists. rewrite Forall_forall in Hlen.
  destruct (Hlen m Hm) as [Hne <-]. by apply occurs_at_bound.
Qed.

Lemma starts_at_app_l l k i : starts_at l i -> starts_at (l ++ k) i.
Proof. unfold starts_at. rewrite !Exists_exists. intros (m & ? & ?). eauto using occurs_at_app_l. Qed.

Lemma starts_at_app_inv l k i :
  (i + L <= length l)%nat -> starts_at (l ++ k) i -> starts_at l i.
Proof.
  unfold starts_at. rewrite !Exists_exists. intros Hle (m & Hm & Ho).
  rewrite Forall_forall in Hlen. destruct (Hlen m Hm) as [_ <-].
  eauto using occurs_at_app_inv.
Qed.

Lemma starts_at_drop l n i : starts_at (drop n l) i <-> starts_at l (n + i).
Proof. unfold starts_at. rewrite !Exists_exists. by setoid_rewrite occurs_at_drop. Qed.

(** The fold of the code computes the least position of any marker. *)
Lemma best_start_Some l p k :
  best_start start l = Some (p, k) <->
  k = L /\ starts_at l p /\ forall j, (j < p)%nat -> ~ starts_at l j.
Proof.
  unfold best_start, starts_at. clear -Hlen. revert p k.
  induction start as [|m ms IH] using rev_ind; intros p k.
  { split; [done|]. intros (_ & H & _). by apply Exists_nil in H. }
  apply Forall_app in Hlen as [Hms Hm]. inversion Hm as [|?? [Hne Hl] _]; subst.
  specialize (IH Hms). rewrite foldl_app. cbn [foldl].
  setoid_rewrite Exists_app. setoid_rewrite Exists_cons. setoid_rewrite Exists_nil.
  destruct (find_subsequence l m) as [q|] eqn:Hq.
  - apply find_subsequence_Some in Hq as (_ & Hoq & Hmin).
    destruct (foldl _ None ms) as [[bp bk]|] eqn:Hb.
    + destruct (proj1 (IH bp bk) eq_refl) as (-> & Hs & Hsmin).
      destruct (Nat.ltb_spec q bp); split.
      * intros [= <- <-]. split; [done|]. split; [eauto|].
        intros j Hj [Hx|[Hx|[]]]; [apply (Hsmin j); [lia|done]|by apply (Hmin j)].
      * intros (-> & Hp & Hpm). f_equal. f_equal. destruct (Nat.lt_trichotomy q p) as [|[|]]; [|done|].
        -- by destruct (Hpm q ltac:(done)); eauto.
        -- destruct Hp as [Hx|[Hx|[]]]; [by destruct (Hsmin p ltac:(lia))|by destruct (Hmin p)].
      * intros [= <- <-]. split; [done|]. split; [eauto|].
        intros j Hj [Hx|[Hx|[]]]; [by apply (Hsmin j)|apply (Hmin j); [lia|done]].
      * intros (-> & Hp & Hpm). f_equal. f_equal. destruct (Nat.lt_trichotomy bp p) as [|[|]]; [|done|].
        -- by destruct (Hpm bp ltac:(done)); eauto.
        -- destruct Hp as [Hx|[Hx|[]]]; [by destruct (Hsmin p)|by destruct (Hmin p ltac:(lia))].
    + assert (Hno : forall j, ~ Exists (fun m => occurs_at m l j) ms).
      { intros j. induction j as [j IHj] using lt_wf_ind. intros Hj.
        assert (None = Some (j, length m)) as [=]. apply IH. split; [done|]. split; [done|].
        intros i Hi. by apply IHj. }
      split.
      * intros [= <- <-]. split; [done|]. split; [eauto|].
        intros j Hj [Hx|[Hx|[]]]; [by apply (Hno j)|by apply (Hmin j)].
      * intros (-> & Hp & Hpm). f_equal. f_equal. destruct (Nat.lt_trichotomy q p) as [|[|]]; [|done|].
        -- by destruct (Hpm q ltac:(done)); eauto.
        -- destruct Hp as [Hx|[Hx|[]]]; [by destruct (Hno p)|by destruct (Hmin p)].
  - rewrite find_subsequence_None in Hq by done. rewrite IH. naive_solver.
Qed.

Lemma best_start_None l : best_start start l = None <-> forall j, ~ starts_at l j.
Proof.
  split.
  - intros Hb j. induction j as [j IH] using lt_wf_ind. intros Hj.
    assert (best_start start l = Some (j, L)); [|congruence]. by apply best_start_Some.
  - intros Hno. destruct (best_start start l) as [[p k]|] eqn:E; [|done].
    apply best_start_Some in E as (_ & Hp & _). by destruct (Hno p).
Qed.

Lemma best_start_app l k r : best_start start l = Some r -> best_start start (l ++ k) = Some r.
Proof.
  destruct r as [p n]. rewrite !best_start_Some. intros (-> & Hs & Hmin). split; [done|].
  split; [by apply starts_at_app_l|]. intros j Hj Hx. apply (Hmin j Hj).
  apply (starts_at_app_inv _ k); [|done]. apply starts_at_bound in Hs. lia.
Qed.

Lemma best_start_drop l n :
  (forall j, (j < n)%nat -> ~ starts_at l j) ->
  best_start start l = (fun r => (n + r.1, r.2)%nat) <$> best_start start (drop n l).
Proof.
  intros Hno. destruct (best_start start (drop n l)) as [[p k]|] eqn:E; simpl.
  - apply best_start_Some in E as (-> & Hs & Hmin). apply best_start_Some. split; [done|].
    split; [by apply starts_at_drop|]. intros j Hj Hx.
    destruct (decide (j < n)%nat); [by apply (Hno j)|].
    apply (Hmin (j - n)%nat); [lia|]. apply starts_at_drop. by replace (n + (j - n))%nat with j by lia.
  - rewrite best_start_None in *. intros j Hx.
    destruct (decide (j < n)%nat); [by apply (Hno j)|].
    apply (E (j - n)%nat). apply starts_at_drop. by replace (n + (j - n))%nat with j by lia.
Qed.

Lemma start_keep_eq : start <> [] -> start_keep start = (L - 1)%nat.
Proof.
  unfold start_keep. clear -Hlen. induction Hlen as [|m ms [Hm Hl] Hms IH]; [done|]. intros _.
  cbn [fmap list_fmap foldr]. destruct ms as [|m' ms]; [simpl; lia|].
  rewrite IH by done. lia.
Qed.

End Markers.

Section Chunks.
Context `{HexCrate, Base64Crate, JsonCrate, RegexCrate}.

(** ** Local boundary detectors *)

Definition local_mode (mode : DecoderMode) : Prop :=
  match mode with
  | MLine LsLf | MLine LsCr | MLine LsCrlf | MLine CrMode => True
  | MLine _ => False
  | MDelimiter _ | MSlip _ => True
  | MCobs s => cobs_canonical s
  | MLengthPrefixed n _ off next =>
      valid_prefix_size n /\ 0 <= off /\ match next with Some len => 0 <= len /\ off = 0 | None => True end
  | MStartEnd start _ _ _ =>
      start <> [] /\ exists L, Forall (fun m => m <> [] /\ length m = L) start
  end.

Lemma local_wf mode : local_mode mode -> wf_mode mode.
Proof.
  destruct mode; simpl; try done. intros (Hn & _ & Hnext). split; [done|].
  destruct next_payload_len; naive_solver.
Qed.

(** One round of the loop, on a longer buffer. *)
Definition local_round (inc : bool) (mode : DecoderMode) (buf x : list byte) : Prop :=
  match match_frame inc mode buf with
  | (Some data, buf', mode') =>
      local_mode mode' /\ match_frame inc mode (buf ++ x) = (Some data, buf' ++ x, mode')
  | (None, buf', mode') =>
      local_mode mode' /\ match_frame inc mode (buf ++ x) = match_frame inc mode' (buf' ++ x)
  end.

Lemma take_frame_app inc buf x p n :
  (p + n <= length buf)%nat ->
  take_frame inc (buf ++ x) p n = ((take_frame inc buf p n).1, (take_frame inc buf p n).2 ++ x).
Proof.
  intros Hle. unfold take_frame. simpl.
  rewrite drop_app_le, !take_app_le by lia. by destruct inc.
Qed.

Lemma local_round_byte inc b buf x state :
  local_mode (MLine state) ->
  (forall buf, match_frame inc (MLine state) buf = match_line_byte inc b buf state) ->
  local_round inc (MLine state) buf x.
Proof.
  intros Hl Heq. unfold local_round. rewrite !Heq. unfold match_line_byte.
  destruct (position _ buf) as [pos|] eqn:Hp.
  - rewrite (position_app_Some _ _ _ _ Hp). apply position_lt in Hp.
    rewrite take_frame_app by lia. by destruct (take_frame inc buf pos 1).
  - rewrite Heq. done.
Qed.

Lemma local_round_crlf inc buf x : local_round inc (MLine LsCrlf) buf x.
Proof.
  unfold local_round. cbn [match_frame]. unfold match_line_crlf.
  destruct (find_subsequence buf CRLF) as [pos|] eqn:Hf; [|done].
  rewrite (find_subsequence_app_Some _ _ _ _ Hf). apply find_subsequence_bound in Hf.
  rewrite take_frame_app by done. by destruct (take_frame inc buf pos 2).
Qed.

Lemma local_round_delimiter inc delim buf x : local_round inc (MDelimiter delim) buf x.
Proof.
  unfold local_round. cbn [match_frame]. unfold extract_delimited.
  destruct (find_subsequence buf delim) as [pos|] eqn:Hf; simpl; [|done].
  rewrite (find_subsequence_app_Some _ _ _ _ Hf). simpl. apply find_subsequence_bound in Hf.
  split; [done|]. rewrite drop_app_le, !take_app_le by lia. by destruct inc.
Qed.

(** After the offset, a longer buffer changes nothing that was decided. *)
Lemma length_body_app inc n e off next buf x :
  1 <= n -> match next with Some len => 0 <= len | None => True end ->
  match match_length_body inc n e off next buf with
  | (Some data, buf', mode') =>
      mode' = MLengthPrefixed n e off None /\
      match_length_body inc n e off next (buf ++ x) = (Some data, buf' ++ x, mode')
  | (None, buf', mode') => buf' = buf /\
      exists next', mode' = MLengthPrefixed n e off next' /\
        match next' with Some len => 0 <= len | None => True end /\
        match_length_body inc n e off next (buf ++ x) = match_length_body inc n e off next' (buf ++ x)
  end.
Proof.
  intros Hn Hnext. pose proof (next_len_nonneg n e next buf Hnext) as Hnn.
  unfold match_length_body at 1.
  destruct (match next with Some _ => _ | None => _ end) as [len|] eqn:Hnx.
  - assert (Hnx' : match_length_body inc n e off next (buf ++ x)
                   = match_length_body inc n e off (Some len) (buf ++ x)).
    { unfold match_length_body. destruct next; [by injection Hnx as ->|].
      rewrite zlen_app. pose proof (zlen_nonneg x).
      destruct (Z.ltb_spec (zlen buf) n); [done|].
      destruct (Z.ltb_spec (zlen buf + zlen x) n); [lia|].
      rewrite take_app_le by (unfold zlen in *; lia). by injection Hnx as ->. }
    destruct (Z.ltb_spec (zlen buf) (n + len)); [by eauto 10|]. split; [done|].
    rewrite Hnx'. unfold match_length_body. rewrite zlen_app. pose proof (zlen_nonneg x).
    destruct (Z.ltb_spec (zlen buf + zlen x) (n + len)); [lia|].
    rewrite drop_app_le, take_app_le by (unfold zlen in *; lia). done.
  - split; [done|]. exists None. destruct next; [done|]. done.
Qed.

Lemma local_round_length_prefixed inc n e off next buf x :
  local_mode (MLengthPrefixed n e off next) ->
  local_round inc (MLengthPrefixed n e off next) buf x.
Proof.
  intros (Hn & Hoff & Hnext). unfold local_round. cbn [match_frame].
  assert (Hn1 : 1 <= n) by (destruct Hn as [->|[-> | ->] ]; lia).
  pose proof (zlen_nonneg buf). pose proof (zlen_nonneg x).
  assert (Hmin : forall l : list byte, (if 0 <? off then Z.min off (zlen l) else 0) = Z.min off (zlen l)).
  { intros l. pose proof (zlen_nonneg l). destruct (Z.ltb_spec 0 off); lia. }
  unfold match_length_prefixed. rewrite !Hmin, zlen_app.
  destruct (decide (off <= zlen buf)) as [Hle|Hgt].
  - rewrite !Z.min_l, Z.sub_diag by lia. rewrite drop_app_le by (unfold zlen in *; lia).
    pose proof (length_body_app inc n e 0 next (drop (Z.to_nat off) buf) x Hn1
                  ltac:(destruct next; naive_solver)) as Hb.
    destruct (match_length_body inc n e 0 next (drop (Z.to_nat off) buf)) as [[[data|] b'] m'].
    + by destruct Hb as [-> ->].
    + destruct Hb as (-> & next' & -> & Hnn & ->). split; [by destruct next'|].
      cbn [match_frame]. unfold match_length_prefixed. simpl. by rewrite drop_0.
  - rewrite Z.min_r by lia. destruct next as [len|]; [naive_solver lia|].
    rewrite (drop_ge buf) by (unfold zlen; lia). unfold match_length_body at 1.
    rewrite zlen_nil. destruct (Z.ltb_spec 0 n); [|lia].
    split; [split; [done|]; split; [lia|done]|]. cbn [match_frame app].
    unfold match_length_prefixed. destruct (Z.ltb_spec 0 (off - zlen buf)); [|lia].
    rewrite drop_app_ge by (unfold zlen in *; lia).
    f_equal; [lia|]. f_equal. unfold zlen in *. lia.
Qed.

(** Inside a frame only the end marker matters. *)
Lemma start_end_inside start end_ inc_m buf x :
  match match_start_end start end_ inc_m true buf with
  | (Some data, buf', mode') => mode' = MStartEnd start end_ inc_m false /\
      match_start_end start end_ inc_m true (buf ++ x) = (Some data, buf' ++ x, mode')
  | (None, buf', mode') => mode' = MStartEnd start end_ inc_m true /\ buf' = buf
  end.
Proof.
  unfold match_start_end. destruct (find_subsequence buf end_) as [pos|] eqn:Hf; [|done].
  rewrite (find_subsequence_app_Some _ _ _ _ Hf). apply find_subsequence_bound in Hf.
  split; [done|]. rewrite drop_app_le, !take_app_le by lia. done.
Qed.

(** When no start marker is in the buffer, dropping all but the kept tail loses
    no marker that later bytes complete. *)
Lemma start_end_trim start end_ inc_m L buf x :
  start <> [] -> Forall (fun m => m <> [] /\ length m = L) start ->
  best_start start buf = None ->
  let n := (length buf - start_keep start)%nat in
  match_start_end start end_ inc_m false (buf ++ x)
  = match_start_end start end_ inc_m false (drop n buf ++ x).
Proof.
  intros Hne HL Hb n. rewrite <- drop_app_le by (unfold n; lia).
  assert (Hno : forall j, (j < n)%nat -> ~ starts_at start (buf ++ x) j).
  { intros j Hj Hx. rewrite (best_start_None start L HL) in Hb. apply (Hb j).
    apply (starts_at_app_inv start L HL _ x); [|done].
    unfold n in Hj. rewrite (start_keep_eq start L HL Hne) in Hj. lia. }
  unfold match_start_end. rewrite (best_start_drop start L HL (buf ++ x) n Hno).
  destruct (best_start start (drop n (buf ++ x))) as [[p k]|]; simpl.
  - by rewrite !drop_drop.
  - rewrite length_drop, drop_drop, length_app. unfold n in *. f_equal. f_equal.
    destruct (Nat.ltb_spec (start_keep start) (length buf + length x)),
      (Nat.ltb_spec (start_keep start) (length buf + length x - (length buf - start_keep start)));
      try lia.
    + f_equal. lia.
    + f_equal. lia.
    + by replace (length buf - start_keep start)%nat with 0%nat by lia.
Qed.

Lemma local_round_start_end inc start end_ inc_m in_frame buf x :
  local_mode (MStartEnd start end_ inc_m in_frame) ->
  local_round inc (MStartEnd start end_ inc_m in_frame) buf x.
Proof.
  intros Hloc. assert (Hloc' : forall f, local_mode (MStartEnd start end_ inc_m f)) by done.
  destruct Hloc as (Hne & L & HL). unfold local_round. cbn [match_frame].
  assert (Hentered : forall b,
    match_start_end start end_ inc_m in_frame buf = match_start_end start end_ inc_m true b ->
    match_start_end start end_ inc_m in_frame (buf ++ x)
      = match_start_end start end_ inc_m true (b ++ x) ->
    local_round inc (MStartEnd start end_ inc_m in_frame) buf x).
  { intros b Hb Hbx. unfold local_round. cbn [match_frame]. rewrite Hb, Hbx.
    pose proof (start_end_inside start end_ inc_m b x) as Hin.
    destruct (match_start_end start end_ inc_m true b) as [[[data|] b1] m1];
      by destruct Hin as [-> ->]. }
  destruct in_frame; [by apply (Hentered buf)|].
  destruct (best_start start buf) as [[p k]|] eqn:Hb.
  - pose proof (best_start_app start L HL _ x _ Hb) as Hbx.
    pose proof (proj1 (best_start_Some start L HL _ _ _) Hb) as (-> & Hs & _).
    apply (starts_at_bound start L HL) in Hs.
    apply (Hentered (if inc_m then drop p buf else drop L (drop p buf)));
      unfold match_start_end; rewrite ?Hb, ?Hbx; [done|].
    rewrite !drop_drop. destruct inc_m; by rewrite drop_app_le by lia.
  - rewrite (start_end_trim start end_ inc_m L) by done. unfold match_start_end at 1. rewrite Hb.
    split; [done|]. cbn [match_frame]. f_equal. f_equal.
    destruct (Nat.ltb_spec (start_keep start) (length buf)); [done|].
    by replace (length buf - start_keep start)%nat with 0%nat by lia.
Qed.

Lemma match_frame_local inc mode buf x : local_mode mode -> local_round inc mode buf x.
Proof.
  intros Hl. destruct mode as [[]| | | | |].
  1: by apply (local_round_byte inc x0a).
  1: by apply (local_round_byte inc x0d).
  1: apply local_round_crlf.
  1,2: done.
  1: by apply (local_round_byte inc x0d).
  1: apply local_round_delimiter.
  1: by apply local_round_length_prefixed.
  1: by apply local_round_start_end.
  all: by unfold local_round.
Qed.

(** ** Raw frames of a longer buffer *)

Lemma raw_loop_app inc x : forall fuel mode buf ds m r,
  local_mode mode -> raw_loop fuel inc mode buf = Some (ds, m, r) ->
  local_mode m /\
  forall fuel2 ds2 m2 r2, raw_loop fuel2 inc m (r ++ x) = Some (ds2, m2, r2) ->
    raw_loop (fuel + fuel2) inc mode (buf ++ x) = Some (ds ++ ds2, m2, r2).
Proof.
  induction fuel as [|fuel IH]; intros mode buf ds m r Hl Hr; [done|]. cbn [raw_loop] in Hr.
  pose proof (match_frame_local inc mode buf x Hl) as Hround. unfold local_round in Hround.
  destruct (match_frame inc mode buf) as [[[data|] buf'] mode'].
  - destruct Hround as [Hl' Hm]. destruct (raw_loop fuel inc mode' buf') as [[[ds' m'] r']|] eqn:E;
      simplify_eq/=. destruct (IH _ _ _ _ _ Hl' E) as [Hlm Happ]. split; [done|].
    intros fuel2 ds2 m2 r2 Hr2. rewrite Hm, (Happ _ _ _ _ Hr2). done.
  - destruct Hround as [Hl' Hm]. simplify_eq. split; [done|]. intros fuel2 ds2 m2 r2 Hr2.
    apply (raw_loop_fuel fuel2 (S (fuel + fuel2))) in Hr2; [|lia]. simpl app.
    cbn [raw_loop plus] in *. by rewrite Hm.
Qed.

Lemma raw_all_app inc mode buf x ds m r :
  local_mode mode -> raw_loop (S (length buf)) inc mode buf = Some (ds, m, r) ->
  local_mode m /\
  raw_loop (S (length (buf ++ x))) inc mode (buf ++ x) =
    '(ds2, m2, r2) ← raw_loop (S (length (r ++ x))) inc m (r ++ x); Some (ds ++ ds2, m2, r2).
Proof.
  intros Hl Hr. destruct (raw_loop_app inc x _ _ _ _ _ _ Hl Hr) as [Hm Happ]. split; [done|].
  destruct (raw_loop_total (S (length (r ++ x))) inc m (r ++ x) (local_wf _ Hm) ltac:(lia))
    as (ds2 & m2 & r2 & Hr2 & _).
  rewrite Hr2. cbn [mbind option_bind]. specialize (Happ _ _ _ _ Hr2).
  destruct (raw_loop_total (S (length (buf ++ x))) inc mode (buf ++ x) (local_wf _ Hl) ltac:(lia))
    as (ds3 & m3 & r3 & Hr3 & _).
  set (big := (S (length buf) + S (length (r ++ x)) + S (length (buf ++ x)))%nat).
  apply (raw_loop_fuel _ big) in Hr3 as Hb3; [|unfold big; lia].
  apply (raw_loop_fuel _ big) in Happ; [|unfold big; lia]. congruence.
Qed.

Lemma slip_raw_app input x : forall buf escaped,
  slip_raw (input ++ x) buf escaped =
    let '(ds, s, rest, e) := slip_raw input buf escaped in
    match e with
    | Some _ => (ds, s, rest ++ x, e)
    | None => let '(ds2, s2, rest2, e2) := slip_raw_decode x s in (ds ++ ds2, s2, rest2, e2)
    end.
Proof.
  induction input as [|b input IH]; intros buf escaped.
  { simpl. by destruct (slip_raw x buf escaped) as [[[??]?]?]. }
  cbn [app slip_raw]. destruct escaped; repeat case_decide; rewrite ?IH; try done.
  destruct (slip_raw input [] false) as [[[??]?] [e|]]; [done|].
  by destruct (slip_raw_decode x _) as [[[??]?]?].
Qed.

Lemma slip_raw_rest input : forall buf escaped,
  let '(ds, s, rest, e) := slip_raw input buf escaped in e = None -> rest = [].
Proof.
  induction input as [|b input IH]; intros buf escaped; [done|]. cbn [slip_raw].
  destruct escaped; repeat case_decide; try apply IH; try done.
  specialize (IH [] false). by destruct (slip_raw input [] false) as [[[??]?]?].
Qed.

Lemma slip_raw_decode_rest buf s ds s' rest e :
  slip_raw_decode buf s = (ds, s', rest, e) -> e = None -> rest = [].
Proof.
  destruct s; simpl.
  - destruct (position _ buf); [|naive_solver].
    pose proof (slip_raw_rest (drop (S n) buf) [] false). intros E. by rewrite E in *.
  - pose proof (slip_raw_rest buf buf0 escaped). intros E. by rewrite E in *.
Qed.

Lemma slip_raw_decode_app buf x s :
  slip_raw_decode (buf ++ x) s =
    let '(ds, s, rest, e) := slip_raw_decode buf s in
    match e with
    | Some _ => (ds, s, rest ++ x, e)
    | None => let '(ds2, s2, rest2, e2) := slip_raw_decode x s in (ds ++ ds2, s2, rest2, e2)
    end.
Proof.
  destruct s as [|b esc]; simpl; [|apply slip_raw_app].
  destruct (position _ buf) as [pos|] eqn:Hp.
  - rewrite (position_app_Some _ _ _ _ Hp). apply position_lt in Hp.
    rewrite drop_app_le by lia. apply slip_raw_app.
  - rewrite position_app_None by done. simpl.
    destruct (position _ x) as [pos|]; simpl; [|done].
    rewrite drop_app_ge by lia. replace (S (length buf + pos) - length buf)%nat with (S pos) by lia.
    by destruct (slip_raw _ _ _) as [[[??]?]?].
Qed.

(** ** Modes keep their kind *)

Lemma match_frame_type inc mode buf :
  frame_type_str (match_frame inc mode buf).2 = frame_type_str mode.
Proof.
  destruct mode as [[]| | | | |]; try done; cbn [match_frame];
    unfold match_line_byte, match_line_crlf, match_auto_lf, match_pending_cr,
      match_length_prefixed, match_length_body, match_start_end, take_frame;
    repeat case_match; simplify_eq/=; done.
Qed.

Lemma raw_loop_type fuel inc : forall mode buf ds m r,
  raw_loop fuel inc mode buf = Some (ds, m, r) -> frame_type_str m = frame_type_str mode.
Proof.
  induction fuel as [|fuel IH]; intros mode buf ds m r Hr; [done|]. cbn [raw_loop] in Hr.
  pose proof (match_frame_type inc mode buf) as Ht.
  destruct (match_frame inc mode buf) as [[[data|] buf'] mode']; simpl in Ht.
  - destruct (raw_loop fuel inc mode' buf') as [[[ds' m'] r']|] eqn:E; [|done];
      cbn [mbind option_bind] in Hr; simplify_eq.
    rewrite <- Ht. by eapply IH.
  - by simplify_eq.
Qed.

(** The modes that [push] decodes by its own loop. *)
Definition loop_mode (mode : DecoderMode) : Prop :=
  frame_type_str mode <> "slip"%string /\ frame_type_str mode <> "cobs"%string.

Lemma raw_decode_loop inc mode buf :
  loop_mode mode ->
  raw_decode inc mode buf =
    '(ds, m, r) ← raw_loop (S (length buf)) inc mode buf; Some (ds, m, r, None).
Proof. intros [Hs Hc]. by destruct mode. Qed.

Lemma raw_decode_type inc mode buf ds m r e :
  raw_decode inc mode buf = Some (ds, m, r, e) -> frame_type_str m = frame_type_str mode.
Proof.
  intros Hr. destruct mode; cbn [raw_decode] in Hr.
  1-4: destruct (raw_loop _ _ _ _) as [[[ds1 m1] r1]|] eqn:E; [|done]; cbn [mbind option_bind] in Hr; simplify_eq;
    by apply raw_loop_type in E.
  - destruct (slip_raw_decode _ _) as [[[??]?]?]. by simplify_eq.
  - destruct (cobs_run _ _). by simplify_eq.
Qed.

(** Decoding a longer buffer is decoding the first part, then the rest from the
    state it left; after an error the rest stays unread. *)
Lemma raw_decode_app inc mode buf x ds m r e :
  local_mode mode -> raw_decode inc mode buf = Some (ds, m, r, e) ->
  local_mode m /\
  raw_decode inc mode (buf ++ x) =
    match e with
    | Some _ => Some (ds, m, r ++ x, e)
    | None => '(ds2, m2, r2, e2) ← raw_decode inc m (r ++ x); Some (ds ++ ds2, m2, r2, e2)
    end.
Proof.
  intros Hl Hr. pose proof (raw_decode_type _ _ _ _ _ _ _ Hr) as Ht.
  destruct (decide (loop_mode mode)) as [Hm|Hm].
  - rewrite raw_decode_loop in Hr by done.
    destruct (raw_loop _ inc mode buf) as [[[ds1 m1] r1]|] eqn:E; [|done];
      cbn [mbind option_bind] in Hr; simplify_eq.
    destruct (raw_all_app _ _ _ x _ _ _ Hl E) as [Hlm Happ]. split; [done|].
    rewrite !raw_decode_loop by (unfold loop_mode in *; congruence). rewrite Happ.
    by destruct (raw_loop _ inc m (r ++ x)) as [[[??]?]|].
  - destruct mode as [| | | |s|s]; try (by destruct Hm); cbn [raw_decode] in *.
    + rewrite slip_raw_decode_app.
      destruct (slip_raw_decode buf s) as [[[ds1 s1] r1] e1] eqn:E. simplify_eq. split; [done|].
      destruct e as [er|]; [done|].
      rewrite (slip_raw_decode_rest _ _ _ _ _ _ E eq_refl). cbn [raw_decode app].
      by destruct (slip_raw_decode x s1) as [[[??]?]?].
    + pose proof (cobs_run_canonical buf s Hl) as Hc. rewrite cobs_run_app.
      destruct (cobs_run s buf) as [ds1 s1]. simplify_eq. split; [done|].
      cbn [raw_decode app]. by destruct (cobs_run s1 x).
Qed.

(** ** Pushes *)

Lemma emitted_app cfg l k : forall n,
  emitted cfg n (l ++ k) = emitted cfg n l ++ emitted cfg (n + length (emitted cfg n l)) k.
Proof.
  induction l as [|data l IH]; intros n; cbn [app emitted].
  { simpl. by rewrite Nat.add_0_r. }
  destruct (emit_frame _ _ _ _ _ _).1.1 as [[f|]|]; [|apply IH|apply IH].
  rewrite IH. simpl. do 2 f_equal. f_equal. lia.
Qed.

Lemma dropped_app cfg l k : dropped cfg (l ++ k) = (dropped cfg l + dropped cfg k)%nat.
Proof. induction l as [|data l IH]; [done|]. cbn [app dropped]. rewrite IH. lia. Qed.

(** The outcome of two pushes as one. *)
Definition merge_outcomes (o1 o2 : PushOutcome) : PushOutcome :=
  mkOutcome (o_frames o1 ++ o_frames o2) (o_frames_dropped o1 + o_frames_dropped o2) (o_error o2).

(** The emission parameters do not change from push to push. *)
Lemma cfg_of_next d r m n :
  frame_type_str m = frame_type_str (d_mode d) ->
  cfg_of (mkDecoder r m n (d_include_terminators d) (d_skip_empty d) (d_parser d)) = cfg_of d.
Proof. intros Hm. unfold cfg_of. simpl. by rewrite Hm. Qed.

Lemma push_app d c1 c2 :
  local_mode (d_mode d) ->
  exists d1 o1, push d c1 = Some (d1, o1) /\ local_mode (d_mode d1) /\
  match o_error o1 with
  | Some _ => exists d2, push d (c1 ++ c2) = Some (d2, o1)
  | None => push d (c1 ++ c2) = '(d2, o2) ← push d1 c2; Some (d2, merge_outcomes o1 o2)
  end.
Proof.
  intros Hl. pose proof (local_wf _ Hl) as Hw. rewrite !push_raw by done.
  destruct (raw_decode_total (d_include_terminators d) _ (d_buf d ++ c1) Hw)
    as (ds & m & r & e & Hr & _).
  destruct (raw_decode_app _ _ _ c2 _ _ _ _ Hl Hr) as [Hlm Happ].
  rewrite (assoc_L (++)), Happ, Hr. simpl. eexists _, _. split; [done|]. split; [done|]. simpl.
  destruct e as [er|]; [by eexists|]. rewrite push_raw by (by apply local_wf). simpl.
  destruct (raw_decode _ m (r ++ c2)) as [[[[ds2 m2] r2] e2]|]; [|done]. simpl.
  rewrite (cfg_of_next d) by (by eapply raw_decode_type).
  rewrite emitted_app, dropped_app, length_app. unfold merge_outcomes. simpl.
  by rewrite Nat.add_assoc.
Qed.

(** Chunks pushed one after the other against their concatenation. *)
Lemma push_all_concat d c chunks :
  local_mode (d_mode d) ->
  exists d1 d2 o, push_all d (c :: chunks) = Some (d1, o) /\
    push d (concat (c :: chunks)) = Some (d2, o) /\
    (o_error o = None -> d1 = d2).
Proof.
  revert d c. induction chunks as [|c2 chunks IH]; intros d c Hl.
  - destruct (push_app d c [] Hl) as (d1 & o1 & Hp & _). cbn [push_all concat].
    rewrite app_nil_r, Hp. simpl. destruct (o_error o1) eqn:E; [by eauto 10|].
    eexists _, _, _. split; [done|]. rewrite app_nil_r, Nat.add_0_r.
    destruct o1; simpl in *; subst. done.
  - destruct (push_app d c (concat (c2 :: chunks)) Hl) as (d1 & o1 & Hp & Hl1 & Hcat).
    destruct (IH d1 c2 Hl1) as (d3 & d4 & o & Ha & Hb & Heq).
    rewrite concat_cons. remember (c2 :: chunks) as cs. cbn [push_all]. rewrite Hp. simpl.
    destruct (o_error o1) eqn:E.
    + destruct Hcat as [d2 ->]. exists d1, d2, o1. rewrite E. done.
    + rewrite Hcat, Ha, Hb. simpl. eexists _, _, _. split; [done|]. split; [done|]. done.
Qed.

(** C2: the decoder does not depend on how the stream is cut into
    chunks.  For every configuration whose boundary detection is local (line
    endings [lf], [cr], [crlf]; delimiter; length prefix; SLIP; COBS; start/end
    with start markers of one length), pushing any chunks one after the other
    yields the frames, drops and error of pushing their concatenation at once,
    and, when there is no error, leaves the same decoder. *)
Theorem push_chunking config pc d c chunks :
  new config pc = Ok d -> local_mode (d_mode d) ->
  exists d1 d2 o, push_all d (c :: chunks) = Some (d1, o) /\
    push d (concat (c :: chunks)) = Some (d2, o) /\
    (o_error o = None -> d1 = d2).
Proof. intros _. apply push_all_concat. Qed.

End Chunks.

(** ** Concrete streams *)

(** The payloads of the frames that a fresh decoder emits for some chunks. *)
Definition run_chunks `{HexCrate, Base64Crate, JsonCrate, RegexCrate}
    (config : RxFramingConfig) (pc : option ParserConfig) (chunks : list (list byte))
    : option (list (list byte)) :=
  match new config pc with
  | Ok d => (fun r => f_data <$> o_frames r.2) <$> push_all d chunks
  | Err _ => None
  end.

(** The decoder that [new] builds. *)
Definition new_or `{HexCrate, Base64Crate, JsonCrate, RegexCrate}
    (config : RxFramingConfig) (pc : option ParserConfig) : FrameDecoder :=
  match new config pc with Ok d => d | Err _ => mkDecoder [] (MLine LsLf) 0 false false None end.

Definition nmea_config : RxFramingConfig := preset_rx_framing PNmea0183.

Lemma push_chunking_witness :
  exists d1 d2 o,
    push_all (new_or nmea_config None) [bs "xx$G"; bs "P,1"; CRLF; bs "!A,2"; [x0d]; [x0a]]
      = Some (d1, o) /\
    push (new_or nmea_config None) (concat [bs "xx$G"; bs "P,1"; CRLF; bs "!A,2"; [x0d]; [x0a]])
      = Some (d2, o) /\
    (o_error o = None -> d1 = d2).
Proof.
  apply (push_chunking nmea_config None); [reflexivity|].
  split; [discriminate|]. exists 1%nat. repeat constructor; discriminate.
Defined.

(** Line ending [auto] depends on the chunking.
    The bytes of a bare carriage return followed by text and a line feed decode
    to one line when they arrive together (the line feed is searched first and
    the carriage return stays inside the line), and to a different line when the
    chunk ends after the carriage return (the decoder then switches to
    carriage-return mode). *)
Theorem auto_line_depends_on_chunks :
  exists c1 c2,
    run_chunks RxFramingConfig_default None [c1 ++ c2] = Some [c1 ++ bs "B"] /\
    run_chunks RxFramingConfig_default None [c1; c2] = Some [bs "A"].
Proof. exists [x41; x0d], [x42; x0a]. split; vm_compute; reflexivity. Qed.

(** Start markers of different lengths depend on the chunking too: a short
    marker already complete wins over a longer one that started earlier. *)
Example mixed_markers_depend_on_chunks :
  let config := mkRxFraming (RxStartEnd [bs "abcd"; bs "c"] (bs ";") PUtf8 true) None false false in
  run_chunks config None [bs "abcd1;"] = Some [bs "abcd1;"] /\
  run_chunks config None [bs "abc"; bs "d1;"] = Some [bs "cd1;"].
Proof. split; vm_compute; reflexivity. Qed.

(** Flushing a partial line while a carriage return is pending leaves its old
    position in the state: the next push loses the byte at that position. *)
Example flush_partial_keeps_stale_position :
  match push (new_or RxFramingConfig_default None) [x41; x0d] with
  | Some (d, _) =>
      let '(f, d) := flush_partial d in
      f_data <$> f = Some [x41; x0d] /\
      (fun r => f_data <$> o_frames r.2) <$> push d (bs "XYZW") = Some [bs "X"] /\
      (fun r => d_buf r.1) <$> push d (bs "XYZW") = Some (bs "ZW")
  | None => False
  end.
Proof. vm_compute. repeat split. Qed.

(** A start marker that contains the end marker, kept in the frame data, ends
    its own frame. *)
Example end_marker_inside_start_marker :
  run_chunks (mkRxFraming (RxStartEnd [bs "~"] (bs "~") PUtf8 true) None false false) None
    [bs "~data~"] = Some [bs "~"; bs "~"].
Proof. vm_compute. reflexivity. Qed.
