(* ===== verification/DecoderRoundtrip.v ===== *)
(** * What one side frames, the other side recovers

    For each TX framing mode and the RX mode that corresponds to it, a fresh
    decoder applied to the concatenated frames returns the payloads; the Modbus
    and NMEA presets are followed through framing, checksum and parser. *)

From S2P Require Import Prelude Util RustStr Extern ExternModel Checksums Codec FramingConfig TxCodecs Parsers Decoder DecoderTotal DecoderChunks.

(** ** First occurrence of a terminator *)

(** [p] followed by [d] contains [d] at its end only. *)
Definition ends_only (d p : list byte) : Prop :=
  find_subsequence (p ++ d) d = Some (length p).

Lemma ends_only_find d p rest :
  ends_only d p -> find_subsequence (p ++ d ++ rest) d = Some (length p).
Proof. intros H. rewrite (assoc_L (++)). by apply find_subsequence_app_Some. Qed.

(** A payload without the first byte of the terminator qualifies. *)
Lemma ends_only_head b d p : b ∉ p -> ends_only (b :: d) p.
Proof.
  intros Hb. apply find_subsequence_Some. split; [done|]. split.
  - unfold occurs_at. by rewrite drop_app_length.
  - intros j Hj Ho. apply Hb. unfold occurs_at in Ho.
    rewrite drop_app_le in Ho by lia.
    destruct (drop j p) as [|c q] eqn:E; [apply (f_equal length) in E; rewrite length_drop in E; simpl in E; lia|].
    apply prefix_cons_inv_1 in Ho as <-.
    apply list_elem_of_lookup. exists j. rewrite <- (Nat.add_0_r j), <- lookup_drop. by rewrite E.
Qed.

Lemma position_not_elem (b : byte) p rest :
  b ∉ p -> position (fun x => bool_decide (x = b)) (p ++ b :: rest) = Some (length p).
Proof.
  induction p as [|c p IH]; intros Hb; simpl.
  - by rewrite bool_decide_eq_true_2.
  - apply not_elem_of_cons in Hb as [Hc Hp]. rewrite bool_decide_eq_false_2 by congruence.
    by rewrite IH.
Qed.

Section Roundtrip.
Context `{HexCrate, Base64Crate, JsonCrate, RegexCrate}.

(** ** Streams of frames *)

(** [mode] takes the frame [f] off the buffer as [p] and returns to itself. *)
Definition takes_as (inc : bool) (mode : DecoderMode) (p f : list byte) : Prop :=
  forall rest, match_frame inc mode (f ++ rest) = (Some p, rest, mode).

Definition takes (inc : bool) (mode : DecoderMode) (enc : list byte -> list byte) (p : list byte) : Prop :=
  takes_as inc mode p (enc p).

Lemma raw_loop_stream inc mode ps fs : forall fuel,
  match_frame inc mode [] = (None, [], mode) ->
  Forall2 (takes_as inc mode) ps fs -> (length ps < fuel)%nat ->
  raw_loop fuel inc mode (concat fs) = Some (ps, mode, []).
Proof.
  intros fuel Hnil Hps. revert fuel.
  induction Hps as [|p f ps fs Hp Hps IH]; intros fuel Hf; (destruct fuel as [|fuel]; [simpl in *; lia|]);
    cbn [raw_loop concat].
  - by rewrite Hnil.
  - rewrite Hp, IH; [done..|]. simpl in Hf. lia.
Qed.

Lemma raw_decode_stream inc mode ps fs :
  loop_mode mode -> wf_mode mode -> match_frame inc mode [] = (None, [], mode) ->
  Forall2 (takes_as inc mode) ps fs ->
  raw_decode inc mode (concat fs) = Some (ps, mode, [], None).
Proof.
  intros Hl Hw Hnil Hps. rewrite raw_decode_loop by done.
  assert (Hlen : (length ps <= length (concat fs))%nat).
  { clear -Hps Hw H H0 H1 H2. induction Hps as [|p f ps fs Hp Hps IH]; [done|]. cbn [concat length].
    rewrite length_app. pose proof (match_frame_progress inc mode (f ++ []) Hw) as [_ Hpr].
    rewrite Hp, app_nil_r in Hpr. specialize (Hpr ltac:(done)). simpl in Hpr. lia. }
  rewrite (raw_loop_stream inc mode ps fs) by (done || lia). done.
Qed.

Lemma takes_line inc b state p :
  (forall buf, match_frame inc (MLine state) buf = match_line_byte inc b buf state) ->
  inc = false -> b ∉ p -> takes inc (MLine state) (fun p => p ++ [b]) p.
Proof.
  intros Heq -> Hb rest. rewrite Heq. unfold match_line_byte.
  rewrite <- (assoc_L (++)). simpl. rewrite position_not_elem by done. simpl.
  rewrite take_app_length.
  replace (length p + 1)%nat with (length (p ++ [b])) by (rewrite length_app; done).
  rewrite <- (drop_app_length (p ++ [b]) rest) at 2. by rewrite <- (assoc_L (++)).
Qed.

Lemma drop_frame (p d rest : list byte) : drop (length p + length d) (p ++ d ++ rest) = rest.
Proof. by rewrite (assoc_L (++)), <- length_app, drop_app_length. Qed.

Lemma takes_crlf p :
  ends_only CRLF p -> takes false (MLine LsCrlf) (fun p => p ++ CRLF) p.
Proof.
  intros He rest. cbn [match_frame]. unfold match_line_crlf. rewrite <- (assoc_L (++)).
  rewrite ends_only_find by done. simpl. rewrite take_app_length. f_equal. f_equal.
  apply (drop_frame p CRLF).
Qed.

Lemma takes_delimiter delim p :
  ends_only delim p -> takes false (MDelimiter delim) (fun p => p ++ delim) p.
Proof.
  intros He rest. cbn [match_frame]. unfold extract_delimited. rewrite <- (assoc_L (++)).
  rewrite ends_only_find by done. simpl. rewrite take_app_length. by rewrite drop_frame.
Qed.

(** The bytes of one length-prefixed frame. *)
Definition lp_frame (n : Z) (e : Endianness) (p : list byte) : list byte :=
  prefix_bytes (Z.to_nat n) e (zlen p) ++ p.

Lemma takes_length_prefixed n e p :
  valid_prefix_size n -> zlen p < 256 ^ n ->
  takes false (MLengthPrefixed n e 0 None) (lp_frame n e) p.
Proof.
  intros Hn Hp rest. cbn [match_frame]. unfold match_length_prefixed, match_length_body, lp_frame.
  simpl Z.sub. cbn [Z.ltb Z.compare Z.to_nat]. rewrite drop_0.
  pose proof (zlen_nonneg p). pose proof (zlen_nonneg rest).
  assert (Hn0 : 0 <= n) by (destruct Hn as [->|[-> | ->] ]; lia).
  assert (Hl : zlen (prefix_bytes (Z.to_nat n) e (zlen p)) = n)
    by (unfold zlen; rewrite length_prefix_bytes; lia).
  rewrite !zlen_app, Hl. rewrite (proj2 (Z.ltb_ge _ n)) by lia.
  rewrite <- (assoc_L (++)), take_app_length' by (by rewrite length_prefix_bytes).
  replace (read_length_prefix _ n e) with (zlen p).
  2: { symmetry. rewrite <- (app_nil_r (prefix_bytes _ _ _)).
       apply read_length_prefix_bytes; [done|lia]. }
  rewrite (proj2 (Z.ltb_ge _ _)) by lia.
  assert (Hnat : Z.to_nat (n + zlen p) = (length (prefix_bytes (Z.to_nat n) e (zlen p)) + length p)%nat)
    by (rewrite length_prefix_bytes; unfold zlen; lia).
  rewrite Hnat, drop_frame. f_equal. f_equal. f_equal.
  rewrite (assoc_L (++)), <- length_app, take_app_length.
  apply drop_app_length'. by rewrite length_prefix_bytes.
Qed.

Lemma best_start_head s ss l :
  s <> [] -> best_start (s :: ss) (s ++ l) = Some (0%nat, length s).
Proof.
  intros Hs. unfold best_start. cbn [foldl].
  replace (find_subsequence (s ++ l) s) with (Some 0%nat).
  2: { symmetry. apply find_subsequence_Some. split; [done|]. split; [|lia].
       unfold occurs_at. by apply prefix_app_r. }
  induction ss as [|m ss IH]; [done|]. simpl.
  destruct (find_subsequence (s ++ l) m); done.
Qed.

Lemma best_start_nil ms : best_start ms [] = None.
Proof.
  unfold best_start. induction ms as [|m ms IH]; [done|]. cbn [foldl].
  by rewrite find_subsequence_nil.
Qed.

(** A frame of a start/end mode without markers. *)
Lemma takes_marked starts s end_ p :
  (forall l, best_start starts (s ++ l) = Some (0%nat, length s)) -> ends_only end_ p ->
  takes_as false (MStartEnd starts end_ false false) p (s ++ p ++ end_).
Proof.
  intros Hs He rest. cbn [match_frame]. unfold match_start_end.
  rewrite <- !(assoc_L (++)), Hs. simpl.
  rewrite drop_0, drop_app_length, ends_only_find by done.
  by rewrite take_app_length, drop_frame.
Qed.

Lemma takes_start_end s ss end_ p :
  s <> [] -> ends_only end_ p ->
  takes false (MStartEnd (s :: ss) end_ false false) (fun p => s ++ p ++ end_) p.
Proof. intros Hs He. apply takes_marked; [|done]. intros l. by apply best_start_head. Qed.

(** ** COBS blocks through the automaton *)

Lemma cobs_run_data run : forall d z,
  cobs_run (cobs_flush d (length run) z) run = ([], cobs_flush (d ++ run) 0 z).
Proof.
  induction run as [|b run IH]; intros d z; cbn [length cobs_run].
  { by rewrite app_nil_r. }
  rewrite cobs_flush_S. cbn [cobs_byte]. rewrite IH, <- (assoc_L (++)). done.
Qed.

(** A closed block of fewer than 254 bytes appends its data and a zero. *)
Lemma cobs_run_block d run :
  open_block run ->
  cobs_run (CobsInFrame d 0 false) (cobs_code run :: run)
  = ([], CobsInFrame (d ++ run ++ [x00]) 0 false).
Proof.
  intros [_ Hl]. pose proof (zlen_nonneg run). cbn [cobs_run cobs_byte].
  rewrite decide_False by (by apply cobs_code_nonzero).
  rewrite decide_False.
  2: { intros E%(f_equal b2z). rewrite cobs_code_z, b2z_xff in E by done. lia. }
  rewrite cobs_code_z by done.
  replace (Z.to_nat (zlen run + 1 - 1)) with (length run) by (unfold zlen; lia).
  rewrite cobs_run_data. unfold cobs_flush. simpl. by rewrite <- (assoc_L (++)).
Qed.

(** A full block appends its 254 bytes only. *)
Lemma cobs_run_full_block d run :
  length run = 254%nat ->
  cobs_run (CobsInFrame d 0 false) (xff :: run) = ([], CobsInFrame (d ++ run) 0 false).
Proof.
  intros Hl. cbn [cobs_run cobs_byte]. rewrite decide_False, decide_True by done.
  rewrite <- (cobs_flush_false d 254), <- Hl, cobs_run_data, cobs_flush_false. done.
Qed.

Lemma cobs_run_payload p : forall run d, open_block run ->
  cobs_run (CobsInFrame d 0 false) (cobs_blocks run p)
  = ([], CobsInFrame (d ++ run ++ p ++ [x00]) 0 false).
Proof.
  induction p as [|b p IH]; intros run d Hrun; cbn [cobs_blocks]; [by apply cobs_run_block|].
  case_decide as Hb; [|case_match eqn:Hn].
  - rewrite app_comm_cons, cobs_run_app, cobs_run_block, IH by (done || apply open_block_nil).
    subst b. by rewrite <- !(assoc_L (++)).
  - apply Z.eqb_eq in Hn. rewrite (assoc_L (++) run), app_comm_cons, cobs_run_app.
    rewrite cobs_run_full_block by (rewrite length_app; unfold zlen in Hn; simpl; lia).
    rewrite IH by apply open_block_nil. by rewrite <- !(assoc_L (++)).
  - apply Z.eqb_neq in Hn. rewrite IH by by apply open_block_snoc.
    by rewrite <- !(assoc_L (++)).
Qed.

Lemma pop_phantom_snoc p : pop_phantom (p ++ [x00]) = p.
Proof.
  unfold pop_phantom. rewrite last_snoc, bool_decide_eq_true_2 by done.
  apply take_app_length'. rewrite length_app. simpl. lia.
Qed.

Definition cobs_frame (p : list byte) : list byte := [x00] ++ cobs_stuff p ++ [x00].

Lemma cobs_run_stream ps :
  cobs_run BeforeFirstDelim (concat (cobs_frame <$> ps)) = (ps, BeforeFirstDelim).
Proof.
  induction ps as [|p ps IH]; [done|]. cbn [fmap list_fmap concat].
  rewrite cobs_run_app. unfold cobs_frame at 1. cbn [app cobs_run cobs_byte].
  rewrite decide_True by done. rewrite cobs_stuff_blocks, cobs_run_app.
  rewrite cobs_run_payload by apply open_block_nil. cbn [cobs_run cobs_byte app].
  rewrite decide_True, pop_phantom_snoc, IH by done. done.
Qed.

(** ** SLIP frames through the byte loop *)

Definition slip_frame (p : list byte) : list byte := [SLIP_END] ++ slip_stuff p ++ [SLIP_END].

Lemma slip_raw_payload p : forall rest buf,
  slip_raw (slip_stuff p ++ SLIP_END :: rest) buf false =
    let '(ds, s, r, e) := slip_raw rest [] false in ((buf ++ p) :: ds, s, r, e).
Proof.
  induction p as [|b p IH]; intros rest buf.
  { cbn [slip_stuff foldl app slip_raw]. rewrite decide_True by done. by rewrite app_nil_r. }
  rewrite slip_stuff_cons, <- (assoc_L (++)). unfold slip_stuff_byte.
  assert (Hb : forall r, (buf ++ [b]) ++ r = buf ++ b :: r) by (intros; by rewrite <- (assoc_L (++))).
  case_decide as He; [|case_decide as Hs]; cbn [app slip_raw].
  - rewrite decide_False, decide_True, decide_True by done. subst b. rewrite IH.
    by rewrite Hb.
  - rewrite decide_False, decide_True, decide_False, decide_True by done. subst b. rewrite IH.
    by rewrite Hb.
  - rewrite decide_False, decide_False by done. rewrite IH. by rewrite Hb.
Qed.

(** The frames of a SLIP stream: back-to-back [END] bytes delimit an empty
    frame. *)
Definition slip_frames (ps : list (list byte)) : list (list byte) :=
  drop 1 (concat ((fun p => [[]; p]) <$> ps)).

Lemma slip_raw_stream ps :
  slip_raw (concat (slip_frame <$> ps)) [] false =
    (concat ((fun p => [[]; p]) <$> ps), SlipInFrame [] false, [], None).
Proof.
  induction ps as [|p ps IH]; [done|]. cbn [fmap list_fmap concat]. unfold slip_frame at 1.
  rewrite <- !(assoc_L (++)). cbn [app slip_raw]. rewrite decide_True by done.
  rewrite slip_raw_payload. by rewrite IH.
Qed.

Lemma slip_raw_decode_stream p ps :
  slip_raw_decode (concat (slip_frame <$> p :: ps)) BeforeFirstEnd =
    (slip_frames (p :: ps), SlipInFrame [] false, [], None).
Proof.
  pose proof (slip_raw_stream (p :: ps)) as Hs. unfold slip_raw_decode.
  cbn [fmap list_fmap concat] in *.
  change (slip_frame p) with ([SLIP_END] ++ slip_stuff p ++ [SLIP_END]) in *.
  rewrite <- !(assoc_L (++)) in *. cbn [app slip_raw position skipn] in *.
  rewrite bool_decide_eq_true_2 by done. rewrite decide_True in Hs by done.
  unfold slip_frames. cbn [fmap list_fmap concat app skipn].
  rewrite ?drop_0. destruct (slip_raw _ [] false) as [[[??]?]?]. by simplify_eq/=.
Qed.

(** ** Both ends together *)

(** The RX framing that a TX framing mode is paired with; the NMEA preset is
    treated by [nmea_preset_roundtrip]. *)
Definition rx_of_tx (tx : TxFramingMode) : option RxFramingMode :=
  match tx with
  | TxLine TxLf => Some (RxLine Lf)
  | TxLine TxCr => Some (RxLine Cr)
  | TxLine TxCrlf => Some (RxLine Crlf)
  | TxDelimiter delim enc => Some (RxDelimiter delim enc)
  | TxLengthPrefixed n e => Some (RxLengthPrefixed n e None)
  | TxStartEnd start end_ enc => Some (RxStartEnd start end_ enc false)
  | TxSlip => Some RxSlip
  | TxCobs => Some RxCobs
  | TxNmea => None
  end.

(** The payloads that a framing can carry: the terminator does not occur before
    the end of the frame.  SLIP and COBS carry every payload, a length prefix
    every payload whose length fits the prefix. *)
Definition carries (tx : TxFramingMode) (p : list byte) : Prop :=
  match tx with
  | TxLine TxLf => x0a ∉ p
  | TxLine TxCr => x0d ∉ p
  | TxLine TxCrlf => ends_only CRLF p
  | TxDelimiter delim enc =>
      forall d, decode (PatternEncoding_into enc) delim = Ok d -> ends_only d p
  | TxStartEnd _ end_ enc =>
      forall d, decode (PatternEncoding_into enc) end_ = Ok d -> ends_only d p
  | TxLengthPrefixed n _ => zlen p < 256 ^ n
  | TxSlip | TxCobs | TxNmea => True
  end.

(** The frames the receiver reports for some payloads. *)
Definition received (tx : TxFramingMode) (ps : list (list byte)) : list (list byte) :=
  match tx with TxSlip => slip_frames ps | _ => ps end.

Definition plain_rx (mode : RxFramingMode) : RxFramingConfig := mkRxFraming mode None false false.

(** Emission without parser and without skipping keeps every raw frame. *)
Lemma emitted_plain type ds : forall n,
  f_data <$> emitted (mkEmitCfg type false None) n ds = ds /\
  dropped (mkEmitCfg type false None) ds = 0%nat.
Proof.
  induction ds as [|d ds IH]; intros n; [done|]. destruct (IH (S n)) as [I1 I2].
  simpl. split; [|done]. by f_equal.
Qed.

Lemma push_plain mode buf chunk ds m rest e n :
  wf_mode mode -> raw_decode false mode (buf ++ chunk) = Some (ds, m, rest, e) ->
  exists d o, push (mkDecoder buf mode n false false None) chunk = Some (d, o) /\
    d_buf d = rest /\ f_data <$> o_frames o = ds /\ o_frames_dropped o = 0%nat /\ o_error o = e.
Proof.
  intros Hw Hr. rewrite push_raw by done. cbn [d_include_terminators d_mode d_buf].
  rewrite Hr. eexists _, _. split; [done|]. cbn [d_buf o_frames o_frames_dropped o_error].
  unfold cfg_of. cbn [d_mode d_skip_empty d_parser].
  destruct (emitted_plain (frame_type_str mode) ds n) as [? ?]. done.
Qed.

Definition sends (tx : TxFramingMode) (p f : list byte) : Prop :=
  encode_tx tx p = Ok f /\ carries tx p.

Lemma sends_map tx (enc : list byte -> list byte) (P : list byte -> Prop) ps fs :
  (forall p f, sends tx p f -> f = enc p /\ P p) ->
  Forall2 (sends tx) ps fs -> fs = enc <$> ps /\ Forall P ps.
Proof.
  intros Hs. induction 1 as [|p f ps fs Hp Hf IH]; [done|].
  destruct (Hs _ _ Hp) as [-> ?], IH as [-> ?]. split; [done|]. by constructor.
Qed.

(** A paired loop mode returns the payloads. *)
Lemma raw_decode_sends tx mode (enc : list byte -> list byte) ps fs :
  loop_mode mode -> wf_mode mode -> match_frame false mode [] = (None, [], mode) ->
  (forall p f, sends tx p f -> f = enc p /\ takes false mode enc p) ->
  Forall2 (sends tx) ps fs ->
  raw_decode false mode (concat fs) = Some (ps, mode, [], None).
Proof.
  intros Hl Hw Hnil Hs Hf. destruct (sends_map _ enc (takes false mode enc) _ _ Hs Hf) as [-> Ht].
  apply raw_decode_stream; [done..|]. by apply Forall2_fmap_r, Forall_Forall2_diag.
Qed.

Lemma loop_mode_intro mode :
  match mode with MSlip _ | MCobs _ => False | _ => True end -> loop_mode mode.
Proof. by destruct mode. Qed.

Lemma raw_line tx b state ps fs :
  (forall buf, match_frame false (MLine state) buf = match_line_byte false b buf state) ->
  (forall p f, sends tx p f -> f = p ++ [b] /\ b ∉ p) ->
  Forall2 (sends tx) ps fs ->
  raw_decode false (MLine state) (concat fs) = Some (ps, MLine state, [], None).
Proof.
  intros Heq Hs. apply (raw_decode_sends _ _ (fun p => p ++ [b])); [done|done|by rewrite Heq|].
  intros p f [-> Hb]%Hs. split; [done|]. by apply takes_line.
Qed.

Lemma raw_decode_paired tx rx mode ps fs :
  rx_of_tx tx = Some rx -> new_mode rx = Ok mode -> Forall2 (sends tx) ps fs ->
  exists m, raw_decode false mode (concat fs) = Some (received tx ps, m, [], None).
Proof.
  intros Hrx Hnew Hs. destruct tx as [[]|delim enc|n e|start end_ enc| | |];
    cbn [rx_of_tx] in Hrx; simplify_eq; cbn [new_mode received] in *; simplify_eq.
  - eexists. apply (raw_line (TxLine TxLf) x0a); [done| |done].
    by intros p f [[= <-] Hc].
  - eexists. apply (raw_line (TxLine TxCr) x0d); [done| |done].
    by intros p f [[= <-] Hc].
  - eexists. eapply (raw_decode_sends _ _ (fun p => p ++ CRLF)); [done..| |done].
    intros p f [[= <-] Hc]. split; [done|]. by apply takes_crlf.
  - apply result_bind_ok in Hnew as (d & Hd & Hm). case_bool_decide; simplify_eq. eexists.
    destruct (decode (PatternEncoding_into enc) delim) as [d'|] eqn:Ed; cbn [map_err] in Hd; simplify_eq.
    eapply (raw_decode_sends _ _ (fun p => p ++ d)); [done|done| | |done].
    { cbn [match_frame]. unfold extract_delimited. by rewrite find_subsequence_nil. }
    intros p f [He Hc]. cbn [encode_tx] in He. rewrite Ed in He. simpl in He.
    rewrite bool_decide_eq_false_2 in He by done. injection He as <-.
    split; [done|]. by apply takes_delimiter, Hc.
  - case_decide as Hn; simplify_eq. eexists.
    eapply (raw_decode_sends _ _ (lp_frame n e)); [done|by split| | |done].
    + destruct Hn as [->|[-> | ->] ]; done.
    + intros p f [He Hc]. cbn [encode_tx carries] in *.
      assert (f = lp_frame n e p) as ->.
      { destruct Hn as [->|[-> | ->] ]; unfold lp_frame; simpl in He; repeat case_match; simplify_eq; by destruct e. }
      split; [done|]. by apply takes_length_prefixed.
  - case_bool_decide; [done|]. destruct start as [|s ss]; [done|]. cbn [decode_start_markers] in Hnew.
    apply result_bind_ok in Hnew as (sbs & Hsbs & Hnew).
    apply result_bind_ok in Hsbs as (sb & Hsb & Hsbs). case_bool_decide; [done|].
    apply result_bind_ok in Hsbs as (rest & Hrest & [= <-]).
    apply result_bind_ok in Hnew as (eb & Heb & Hm). case_bool_decide; simplify_eq. eexists.
    destruct (decode (PatternEncoding_into enc) s) as [s'|] eqn:Es; cbn [map_err] in Hsb; simplify_eq.
    destruct (decode (PatternEncoding_into enc) end_) as [e'|] eqn:Ee; cbn [map_err] in Heb; simplify_eq.
    eapply (raw_decode_sends _ _ (fun p => sb ++ p ++ eb)); [done|done| | |done].
    + cbn [match_frame]. unfold match_start_end. by rewrite best_start_nil.
    + intros p f [He Hc]. cbn [encode_tx] in He. rewrite Es, Ee in He. simpl in He.
      rewrite !bool_decide_eq_false_2 in He by done. injection He as <-.
      split; [done|]. apply takes_start_end; [done|]. by apply Hc.
  - destruct (sends_map TxSlip slip_frame (fun _ => True) ps fs) as [-> _]; [|done|].
    { by intros p f [[= <-] _]. }
    destruct ps as [|p ps]; [by eexists|]. cbn [raw_decode]. rewrite slip_raw_decode_stream. by eexists.
  - destruct (sends_map TxCobs cobs_frame (fun _ => True) ps fs) as [-> _]; [|done|].
    { by intros p f [[= <-] _]. }
    cbn [raw_decode]. rewrite cobs_run_stream. by eexists.
Qed.

(** All the frames in one chunk. *)
Lemma push_sent tx rx d ps fs :
  rx_of_tx tx = Some rx -> new (plain_rx rx) None = Ok d -> Forall2 (sends tx) ps fs ->
  exists d' o, push d (concat fs) = Some (d', o) /\ f_data <$> o_frames o = received tx ps /\
    o_frames_dropped o = 0%nat /\ o_error o = None /\ d_buf d' = [].
Proof.
  intros Hrx Hnew Hs. pose proof (new_wf _ _ _ Hnew) as [Hw _].
  apply result_bind_ok in Hnew as (mode & Hmode & [= <-]).
  destruct (raw_decode_paired _ _ _ _ _ Hrx Hmode Hs) as (m & Hraw).
  destruct (push_plain mode [] (concat fs) _ _ _ _ 0 Hw Hraw) as (d1 & o1 & Hp & Hb & Hf & Hd & He).
  by exists d1, o1.
Qed.

(** C3: what a TX framing mode sends, the paired RX framing
    recovers.  Let the payloads [ps] be encoded one by one into the frames [fs],
    each payload one that the framing can carry, and let the receiver be a fresh
    decoder of the paired configuration.  Then pushing the concatenated frames,
    in one chunk or, when boundary detection is local, cut into chunks anywhere,
    reports exactly the payloads, in order, drops nothing and leaves nothing
    buffered.  For SLIP the receiver also reports one empty frame between two
    consecutive frames, because both carry an [END] byte on either side. *)
Theorem tx_rx_roundtrip tx rx d ps fs c chunks :
  rx_of_tx tx = Some rx -> new (plain_rx rx) None = Ok d ->
  Forall2 (sends tx) ps fs ->
  concat (c :: chunks) = concat fs -> (chunks = [] \/ local_mode (d_mode d)) ->
  exists d' o, push_all d (c :: chunks) = Some (d', o) /\
    f_data <$> o_frames o = received tx ps /\ o_frames_dropped o = 0%nat /\
    o_error o = None /\ d_buf d' = [].
Proof.
  intros Hrx Hnew Hs Hcat Hch.
  destruct (push_sent tx rx d ps fs Hrx Hnew Hs) as (d1 & o1 & Hp & Hf & Hd & He & Hb).
  assert (exists d2, push_all d (c :: chunks) = Some (d2, o1) /\ d_buf d2 = []) as (d2 & Ha & Hb2).
  { destruct Hch as [->|Hl].
    - cbn [concat] in Hcat. rewrite app_nil_r in Hcat. cbn [push_all]. rewrite Hcat, Hp.
      cbn [mbind option_bind]. rewrite He. cbn [mbind option_bind]. exists d1.
      split; [|done]. f_equal. f_equal. rewrite app_nil_r, Nat.add_0_r.
      destruct o1; simpl in *; congruence.
    - destruct (push_all_concat d c chunks Hl) as (d2 & d3 & o & Ha & Hb' & Heq).
      rewrite Hcat, Hp in Hb'. simplify_eq. exists d2. split; [done|]. by rewrite Heq. }
  exists d2, o1. done.
Qed.

End Roundtrip.

Lemma tx_rx_roundtrip_witness :
  exists d' o,
    push_all (new_or (plain_rx (RxLengthPrefixed 2 Big None)) None)
      [[x00]; [x02; x41; x0a; x00]; [x00]; []] = Some (d', o) /\
    f_data <$> o_frames o = [[x41; x0a]; []] /\ o_frames_dropped o = 0%nat /\
    o_error o = None /\ d_buf d' = [].
Proof.
  apply (tx_rx_roundtrip (TxLengthPrefixed 2 Big) (RxLengthPrefixed 2 Big None) _
           [[x41; x0a]; []] [[x00; x02; x41; x0a]; [x00; x00]]);
    [reflexivity|reflexivity| |reflexivity|].
  - repeat constructor.
  - right. vm_compute. repeat split; auto; intros; discriminate.
Defined.
