(* ===== verification/Presets.v ===== *)
(** * The protocol presets, from payload to parsed frame

    The [modbus_ascii] and [nmea0183] presets of [src/framing/config.rs]: TX
    framing, RX framing, checksum and parser taken together. *)

From S2P Require Import Prelude Util RustStr Extern ExternModel Checksums Codec FramingConfig TxCodecs Parsers Decoder DecoderTotal DecoderChunks DecoderRoundtrip.

(** ** Hexadecimal text *)

Lemma hex_upper_cons b l : hex_upper (b :: l) = hex2 true b ++ hex_upper l.
Proof. done. Qed.

Lemma hex_upper_hexdigits l : Forall (fun c => is_ascii_hexdigit c = true) (hex_upper l).
Proof.
  induction l as [|b l IH]; [constructor|]. rewrite hex_upper_cons.
  apply Forall_app_2; [apply hex2_hexdigit|done].
Qed.

Lemma length_hex_upper l : length (hex_upper l) = (2 * length l)%nat.
Proof. induction l as [|b l IH]; [done|]. rewrite hex_upper_cons. simpl in *. lia. Qed.

Lemma modbus_hex_decode_upper l : modbus_hex_decode (hex_upper l) = l.
Proof.
  induction l as [|b l IH]; [done|]. rewrite hex_upper_cons. cbn [hex2 app modbus_hex_decode].
  rewrite IH. pose proof (from_str_radix16_hex2 true b) as Hb. unfold hex2 in Hb. by rewrite Hb.
Qed.

(** What a hex digit is not. *)
Lemma hexdigit_props c :
  is_ascii_hexdigit c = true ->
  c <> x0a /\ c <> x0d /\ c <> x3a /\ is_ascii c = true.
Proof. destruct c; simpl; done. Qed.

Lemma ends_with_snoc_false (l : list byte) (e : byte) suf :
  last l <> Some e -> ends_with l (suf ++ [e]) = false.
Proof.
  intros Hl. unfold ends_with. apply bool_decide_eq_false_2. intros E. apply Hl.
  rewrite <- (take_drop (length l - length (suf ++ [e])) l), E.
  by rewrite (assoc_L (++)), last_snoc.
Qed.

Lemma strip_trailing_id content : last content <> Some x0a -> strip_trailing_newline content = content.
Proof.
  intros Hl. unfold strip_trailing_newline.
  pose proof (ends_with_snoc_false content x0a [x0d] Hl) as Hcr.
  pose proof (ends_with_snoc_false content x0a [] Hl) as Hlf.
  simpl app in Hcr, Hlf. unfold CRLF. by rewrite Hcr, Hlf.
Qed.

Lemma strip_leading_id content markers :
  (forall c, head content = Some c -> c ∉ markers) -> strip_leading_if_any content markers = content.
Proof.
  intros Hh. destruct content as [|c content]; [done|]. simpl.
  by rewrite bool_decide_eq_false_2 by (by apply Hh).
Qed.

Lemma last_elem {A} (l : list A) x : last l = Some x -> x ∈ l.
Proof. intros [l' ->]%last_Some. set_solver. Qed.

Lemma head_elem {A} (l : list A) x : head l = Some x -> x ∈ l.
Proof. destruct l; [done|]. intros [= ->]. set_solver. Qed.

(** A CR/LF terminator after text without either byte. *)
Lemma ends_only_crlf p : x0d ∉ p -> ends_only CRLF p.
Proof. apply (ends_only_head x0d [x0a]). Qed.

Section Presets.
Context `{HexCrate, Base64Crate, JsonCrate, RegexCrate}.

(** ** Emission with a parser *)

Lemma emitted_parsed type p ps pfs : forall n,
  Forall2 (fun d r => parse p d = r) ps pfs ->
  Forall (fun r => match r with Err (ChecksumMismatch _ _) | Ok _ => True | _ => False end) pfs ->
  f_parsed <$> emitted (mkEmitCfg type false (Some p)) n ps
    = Some <$> omap (fun r : result FrameDecodeError ParsedFrame =>
                       match r with Ok f => Some f | Err _ => None end) pfs /\
  dropped (mkEmitCfg type false (Some p)) ps = length (filter (fun r => is_ok r = false) pfs).
Proof.
  intros n Hps. revert n. induction Hps as [|d r ps pfs <- Hps IH]; intros n Hok; [done|].
  apply Forall_cons in Hok as [Hr Hok].
  destruct (parse p d) as [pf|[b|b|e r]] eqn:Ep; [|done|done|].
  - destruct (IH (S n) Hok) as [I1 I2]. unfold emitted, dropped, emit_frame; simpl. rewrite Ep. simpl.
    split; [by f_equal|done].
  - destruct (IH n Hok) as [I1 I2]. unfold emitted, dropped, emit_frame; simpl. rewrite Ep. simpl.
    split; [done|by f_equal].
Qed.

(** A fresh decoder with a start/end framing and a parser, on a stream of whole
    frames cut into chunks anywhere. *)
Lemma push_all_parsed starts p ps fs pfs c chunks :
  local_mode (MStartEnd starts CRLF false false) ->
  Forall2 (takes_as false (MStartEnd starts CRLF false false)) ps fs ->
  Forall2 (fun d r => parse p d = r) ps pfs ->
  concat (c :: chunks) = concat fs ->
  exists d o,
    push_all (mkDecoder [] (MStartEnd starts CRLF false false) 0 false false (Some p)) (c :: chunks)
      = Some (d, o) /\
    f_parsed <$> o_frames o = Some <$> omap (fun r : result FrameDecodeError ParsedFrame =>
                       match r with Ok f => Some f | Err _ => None end) pfs /\
    o_frames_dropped o = length (filter (fun r => is_ok r = false) pfs) /\
    o_error o = None /\ d_buf d = [].
Proof.
  intros Hl Hps Hpfs Hcat. pose proof (local_wf _ Hl) as Hw.
  assert (Hraw : raw_decode false (MStartEnd starts CRLF false false) (concat fs) =
    Some (ps, MStartEnd starts CRLF false false, [], None)).
  { apply raw_decode_stream; [done|done| |done]. cbn [match_frame]. unfold match_start_end.
    by rewrite best_start_nil. }
  destruct (push_all_concat (mkDecoder [] (MStartEnd starts CRLF false false) 0 false false (Some p))
              c chunks Hl) as (d1 & d2 & o & Ha & Hb & Heq).
  rewrite Hcat in Hb. rewrite push_raw in Hb by done.
  cbn [d_include_terminators d_mode d_buf app] in Hb. rewrite Hraw in Hb.
  cbn [mbind option_bind] in Hb. injection Hb as <- <-.
  eexists _, _. split; [exact Ha|]. rewrite (Heq eq_refl). simpl.
  destruct (emitted_parsed "start_end" p ps pfs 0 Hpfs) as [I1 I2].
  { clear -Hpfs. induction Hpfs as [|d r ps pfs <- Hr]; constructor; [|done].
    destruct (parse p d) as [|e] eqn:E; [done|]. by apply parse_err_inv in E as (_ & a & b & ->). }
  done.
Qed.

(** ** Modbus ASCII *)

(** The text of a Modbus ASCII message: protocol data unit and LRC in hex. *)
Definition modbus_text (pdu : list byte) (check : byte) : list byte := hex_upper (pdu ++ [check]).

(** The fields of a protocol data unit. *)
Definition modbus_fields (pdu : list byte) : ParsedFrame :=
  PFModbusAscii (default x00 (pdu !! 0%nat)) (default x00 (pdu !! 1%nat)) (drop 2 pdu) (Some true).

Lemma hexdigits_last c l :
  Forall (fun c => is_ascii_hexdigit c = true) l -> last l = Some c -> is_ascii_hexdigit c = true.
Proof. rewrite Forall_forall. intros Hl Hc%last_elem. by apply Hl. Qed.

Lemma parse_modbus_text pdu check :
  (2 <= length pdu)%nat ->
  parse_modbus true (modbus_text pdu check) =
    if decide (check = lrc pdu) then Ok (modbus_fields pdu)
    else Err (ChecksumMismatch [lrc pdu] [check]).
Proof.
  intros Hlen. unfold parse_modbus, modbus_text.
  pose proof (hex_upper_hexdigits (pdu ++ [check])) as Hhex.
  assert (Hstrip : strip_trailing_newline (strip_leading_if_any (hex_upper (pdu ++ [check])) (bs ":"))
                   = hex_upper (pdu ++ [check])).
  { rewrite strip_leading_id.
    - apply strip_trailing_id. intros Hl%(hexdigits_last _ _ Hhex). by apply hexdigit_props in Hl as [? _].
    - intros c Hc%head_elem Hin. rewrite Forall_forall in Hhex. apply Hhex, hexdigit_props in Hc.
      destruct Hc as (_ & _ & Hc & _). apply Hc. by apply list_elem_of_singleton in Hin. }
  rewrite Hstrip, modbus_hex_decode_upper, utf8_valid_ascii
    by (eapply Forall_impl; [exact Hhex|]; intros c Hc; by apply hexdigit_props in Hc as (_&_&_&?)).
  simpl negb. cbn [negb].
  replace (bool_decide (hex_upper (pdu ++ [check]) = []) ||
           existsb (fun b => negb (is_ascii_hexdigit b)) (hex_upper (pdu ++ [check]))) with false.
  2: { symmetry. apply orb_false_iff. split.
       - apply bool_decide_eq_false_2. intros E%(f_equal length).
         rewrite length_hex_upper, length_app in E. simpl in E. lia.
       - clear -Hhex. induction Hhex as [|c l Hc _ IH]; [done|]. simpl. by rewrite Hc. }
  rewrite length_hex_upper, Nat.even_even. cbn [negb].
  rewrite last_snoc, length_app. cbn [length default].
  destruct (Nat.ltb_spec (length pdu + 1) 3); [lia|].
  replace (length pdu + 1 - 1)%nat with (length pdu) by lia.
  rewrite take_app_length. unfold check_checksum, modbus_fields. cbn [default from_option id].
  by destruct (decide (check = lrc pdu)).
Qed.

(** C30: the Modbus ASCII preset end to end.  Messages are
    written by the preset's TX framing, each with some LRC byte, good or bad, and
    arrive in chunks cut anywhere at a fresh decoder of the preset.  The frames
    reported are exactly the messages whose LRC is right, in order, with address,
    function code and data of the message and a valid checksum mark; the others
    are dropped and counted; nothing stays buffered and no error is raised. *)
Theorem modbus_preset_stream msgs fs d c chunks :
  new (preset_rx_framing PModbusAscii) (Some (preset_rx_parser PModbusAscii)) = Ok d ->
  Forall (fun m => (2 <= length m.1)%nat) msgs ->
  Forall2 (fun m f => encode_tx (tx_mode (preset_tx_framing PModbusAscii)) (modbus_text m.1 m.2) = Ok f)
    msgs fs ->
  concat (c :: chunks) = concat fs ->
  exists d' o, push_all d (c :: chunks) = Some (d', o) /\
    f_parsed <$> o_frames o
      = (fun m => Some (modbus_fields m.1)) <$> filter (fun m => m.2 = lrc m.1) msgs /\
    o_frames_dropped o = length (filter (fun m => m.2 <> lrc m.1) msgs) /\
    o_error o = None /\ d_buf d' = [].
Proof.
  intros [= <-] Hlen Hfs Hcat.
  destruct (push_all_parsed [bs ":"] (ModbusAsciiParser true) ((fun m => modbus_text m.1 m.2) <$> msgs) fs
    ((fun m => if decide (m.2 = lrc m.1) then Ok (modbus_fields m.1)
               else Err (ChecksumMismatch [lrc m.1] [m.2])) <$> msgs) c chunks)
    as (d' & o & Ha & Hf & Hd & He & Hb).
  - split; [done|]. exists 1%nat. by repeat constructor.
  - apply Forall2_fmap_l. eapply Forall2_impl; [exact Hfs|]. intros [pdu k] f [= <-]. simpl.
    apply (takes_start_end (bs ":") []); [done|]. apply ends_only_crlf. intros Hin.
    pose proof (hex_upper_hexdigits (pdu ++ [k])) as Hh. rewrite Forall_forall in Hh.
    apply Hh, hexdigit_props in Hin. naive_solver.
  - apply Forall2_fmap. apply Forall_Forall2_diag. eapply Forall_impl; [exact Hlen|].
    intros [pdu k] Hm. simpl. by apply parse_modbus_text.
  - done.
  - exists d', o. rewrite Hf, Hd. split_and!; try done; clear.
    + induction msgs as [|[pdu k] msgs IH]; [done|]. rewrite filter_cons. simpl.
      case_decide; simpl; [by f_equal|done].
    + induction msgs as [|[pdu k] msgs IH]; [done|]. cbn [fmap list_fmap]. rewrite !filter_cons.
      cbn [fst snd]. destruct (decide (k = lrc pdu)); cbn [is_ok].
      * rewrite decide_False by done. by rewrite decide_False by tauto.
      * rewrite decide_True by done. rewrite decide_True by done. simpl. by f_equal.
Qed.

(** ** NMEA-0183 *)

(** The leading byte the encoder writes, and the payload without it. *)
Definition nmea_marked (payload : list byte) : bool :=
  bool_decide (head payload = Some x24) || bool_decide (head payload = Some x21).
Definition nmea_lead (payload : list byte) : byte :=
  if nmea_marked payload then default x24 (head payload) else x24.
Definition nmea_body (payload : list byte) : list byte :=
  if nmea_marked payload then drop 1 payload else payload.

(** The part of a payload that the checksum covers. *)
Definition nmea_sentence (payload : list byte) : list byte :=
  match nmea_existing_checksum (nmea_body payload) with
  | Some (Ok _) => take (length (nmea_body payload) - 3) (nmea_body payload)
  | _ => nmea_body payload
  end.

(** The fields of a sentence with a valid checksum. *)
Definition nmea_fields (sentence : list byte) : ParsedFrame :=
  let '(address_part, fields_part) :=
    default (sentence, []) (split_first ASCII_COMMA sentence) in
  let '(talker_id, sentence_type) := nmea_address address_part in
  PFNmea talker_id sentence_type
    (if bool_decide (fields_part = []) then []
     else split_on (fun b => bool_decide (b = ASCII_COMMA)) fields_part) (Some true).

(** Printable ASCII, as the encoder requires of a payload. *)
Definition printable (l : list byte) : Prop := Forall (fun b => 32 <= b2z b <= 126) l.

Lemma printable_ascii l : printable l -> Forall (fun b => is_ascii b = true) l.
Proof.
  intros Hl. eapply Forall_impl; [exact Hl|]. intros b Hb. unfold is_ascii. apply Z.ltb_lt. simpl in Hb. lia.
Qed.

Lemma forallb_is_ascii l : Forall (fun b => is_ascii b = true) l -> forallb is_ascii l = true.
Proof. induction 1 as [|c l Hc _ IH]; [done|]. simpl. by rewrite Hc. Qed.

Lemma existsb_false_Forall {A} (f : A -> bool) l :
  existsb f l = false -> Forall (fun x => f x = false) l.
Proof. induction l as [|x l IH]; [done|]. simpl. intros [? ?]%orb_false_iff. by constructor; auto. Qed.

Lemma nmea_existing_inv body v :
  nmea_existing_checksum body = Some (Ok v) ->
  exists h1 h2, body = take (length body - 3) body ++ [x2a; h1; h2] /\
    is_ascii_hexdigit h1 = true /\ is_ascii_hexdigit h2 = true /\
    u8_from_str_radix16 [h1; h2] = Some v /\ utf8_valid [h1; h2] = true.
Proof.
  unfold nmea_existing_checksum.
  pose proof (take_drop (length body - 3) body) as Hb.
  destruct (drop _ body) as [|star [|h1 [|h2 [|]]]]; try done.
  intros E. case_match eqn:Hc; [|done]. apply andb_true_iff in Hc as [Hc H2'].
  apply andb_true_iff in Hc as [Hc H1']. apply andb_true_iff in Hc as [_ ->%bool_decide_eq_true].
  destruct (utf8_valid [h1; h2]) eqn:Hu; [|done].
  destruct (u8_from_str_radix16 [h1; h2]) eqn:Hr; simplify_eq. eauto 10.
Qed.

(** The shape of every frame the NMEA encoder accepts. *)
Lemma encode_nmea_inv payload f :
  encode_nmea payload = Ok f ->
  exists h1 h2,
    f = nmea_lead payload :: (nmea_sentence payload ++ [x2a; h1; h2]) ++ CRLF /\
    printable (nmea_sentence payload) /\
    is_ascii_hexdigit h1 = true /\ is_ascii_hexdigit h2 = true /\
    u8_from_str_radix16 [h1; h2] = Some (xor_checksum (nmea_sentence payload)) /\
    utf8_valid [h1; h2] = true.
Proof.
  unfold encode_nmea. intros E.
  destruct (existsb _ payload) eqn:Hnl; [done|].
  destruct (existsb (fun b => negb _) payload) eqn:Hpr; [done|].
  assert (Hp : printable payload).
  { eapply Forall_impl; [by apply existsb_false_Forall|]. unfold in_range. simpl. intros b Hb. lia. }
  assert (Hbody : printable (nmea_body payload))
    by (unfold nmea_body; destruct (nmea_marked payload); [by apply Forall_drop|done]).
  fold (nmea_marked payload) in E. fold (nmea_lead payload) in E. fold (nmea_body payload) in E.
  unfold nmea_sentence.
  destruct (nmea_existing_checksum (nmea_body payload)) as [[v|]|] eqn:Hex; cbn [mbind result_bind] in E.
  - apply nmea_existing_inv in Hex as (h1 & h2 & Hb & H1' & H2' & Hr & Hu).
    case_decide; [|done]. injection E as <-. subst v. exists h1, h2.
    rewrite <- Hb. split_and!; try done. by apply Forall_take.
  - done.
  - injection E as <-. pose proof (from_str_radix16_hex2 true (xor_checksum (nmea_body payload))) as Hr.
    pose proof (hex2_hexdigit true (xor_checksum (nmea_body payload))) as Hh.
    unfold hex2 in *. apply Forall_cons in Hh as [Hh1 Hh]. apply Forall_cons in Hh as [Hh2 _].
    eexists _, _. rewrite <- !(assoc_L (++)). split_and!; try done.
    apply utf8_valid_ascii. apply hexdigit_props in Hh1 as (_&_&_&?), Hh2 as (_&_&_&?).
    by repeat constructor.
Qed.

(** The sentences the RX parser reads back: an address separated by a comma, no
    second checksum mark, no second leading mark. *)
Definition nmea_plain (sentence : list byte) : Prop :=
  (ASCII_COMMA ∈ sentence) /\ (ASCII_STAR ∉ sentence) /\
  match head sentence with Some c => c ∉ bs "$!" | None => True end.

#[export] Instance nmea_plain_dec sentence : Decision (nmea_plain sentence).
Proof. unfold nmea_plain. destruct (head sentence); apply _. Defined.

Lemma split_first_app sep l rest :
  sep ∉ l -> split_first sep (l ++ sep :: rest) = Some (l, rest).
Proof.
  intros Hl. unfold split_first. rewrite position_not_elem by done. simpl.
  rewrite take_app_length. f_equal. f_equal.
  replace (S (length l)) with (length l + length [sep])%nat by (simpl; lia).
  apply (drop_frame l [sep] rest).
Qed.

Lemma parse_nmea_sentence sentence h1 h2 :
  nmea_plain sentence -> printable sentence ->
  is_ascii_hexdigit h2 = true ->
  u8_from_str_radix16 [h1; h2] = Some (xor_checksum sentence) -> utf8_valid [h1; h2] = true ->
  parse_nmea true (sentence ++ [x2a; h1; h2]) = Ok (nmea_fields sentence).
Proof.
  intros (Hcomma & Hstar & Hhead) Hpr Hh2 Hr Hu. unfold parse_nmea.
  rewrite strip_leading_id, strip_trailing_id.
  - rewrite bool_decide_eq_true_2 by (apply elem_of_app; by left). cbn [negb].
    rewrite split_first_app by done. unfold nmea_checksum. cbn [length Nat.leb take].
    rewrite Hu, Hr. unfold check_checksum. rewrite decide_True by done. cbn [mbind result_bind].
    rewrite utf8_valid_ascii by (by apply printable_ascii). cbn [negb].
    rewrite forallb_is_ascii by (by apply printable_ascii). cbn [negb]. unfold nmea_fields.
    destruct (split_first ASCII_COMMA sentence) as [[a fs]|]; cbn [default from_option id];
      by destruct (nmea_address _).
  - replace [x2a; h1; h2] with ([x2a; h1] ++ [h2]) by done.
    rewrite (assoc_L (++)), last_snoc. intros [= ->]. by apply hexdigit_props in Hh2 as [? _].
  - intros c Hc. destruct sentence; [by apply not_elem_of_nil in Hcomma|]. cbn [app head] in Hc. injection Hc as <-. exact Hhead.
Qed.

Lemma printable_no_cr l : printable l -> x0d ∉ l.
Proof. unfold printable. rewrite Forall_forall. intros Hl Hin%Hl. change (b2z x0d) with 13 in Hin. lia. Qed.

Lemma nmea_lead_marker payload l :
  best_start [bs "$"; bs "!"] ([nmea_lead payload] ++ l) = Some (0%nat, 1%nat).
Proof.
  apply (best_start_Some _ 1%nat); [by repeat constructor|].
  split; [done|]. split; [|lia]. unfold starts_at, occurs_at. rewrite drop_0.
  unfold nmea_lead, nmea_marked. destruct payload as [|c payload]; simpl.
  { left. by exists l. }
  destruct (decide (c = x24)) as [->|Hc].
  { left. by exists l. }
  destruct (decide (c = x21)) as [->|Hc'].
  { right. left. by exists l. }
  rewrite !bool_decide_eq_false_2 by congruence. left. by exists l.
Qed.

(** The NMEA-0183 preset end to end.  When every
    payload is accepted by the NMEA encoder (with or without its own leading
    mark and checksum) and its sentence is plain, the stream of encoded frames,
    cut into chunks anywhere, is reported by a fresh decoder of the preset as one
    parsed sentence per payload, with the talker, type and fields of that
    sentence and a valid checksum mark; nothing is dropped or left buffered. *)
Theorem nmea_preset_roundtrip payloads fs d c chunks :
  new (preset_rx_framing PNmea0183) (Some (preset_rx_parser PNmea0183)) = Ok d ->
  Forall (fun p => nmea_plain (nmea_sentence p)) payloads ->
  Forall2 (fun p f => encode_tx (tx_mode (preset_tx_framing PNmea0183)) p = Ok f) payloads fs ->
  concat (c :: chunks) = concat fs ->
  exists d' o, push_all d (c :: chunks) = Some (d', o) /\
    f_parsed <$> o_frames o = (fun p => Some (nmea_fields (nmea_sentence p))) <$> payloads /\
    o_frames_dropped o = 0%nat /\ o_error o = None /\ d_buf d' = [].
Proof.
  intros [= <-] Hplain Hfs Hcat.
  assert (exists raws,
    Forall2 (takes_as false (MStartEnd [bs "$"; bs "!"] CRLF false false)) raws fs /\
    Forall2 (fun d r => parse (NmeaParser true) d = r) raws
      ((fun p => Ok (nmea_fields (nmea_sentence p))) <$> payloads)) as (raws & Htake & Hparse).
  { clear Hcat. induction Hfs as [|p f payloads fs Hf Hfs IH]; [by exists []|].
    apply Forall_cons in Hplain as [Hp Hplain]. destruct (IH Hplain) as (raws & I1 & I2).
    apply encode_nmea_inv in Hf as (h1 & h2 & -> & Hpr & Hh1 & Hh2 & Hr & Hu).
    exists ((nmea_sentence p ++ [x2a; h1; h2]) :: raws). split; constructor; [|done| |done].
    - apply (takes_marked _ [nmea_lead p]); [apply nmea_lead_marker|]. apply ends_only_crlf.
      apply printable_no_cr in Hpr. apply hexdigit_props in Hh1 as (_&?&_), Hh2 as (_&?&_).
      rewrite not_elem_of_app, !not_elem_of_cons. split_and!; try done; try congruence.
      apply not_elem_of_nil.
    - by apply parse_nmea_sentence. }
  destruct (push_all_parsed [bs "$"; bs "!"] (NmeaParser true) _ _ _ c chunks
    ltac:(split; [done|]; exists 1%nat; by repeat constructor) Htake Hparse Hcat)
    as (d' & o & Ha & Hf & Hd & He & Hb).
  exists d', o. rewrite Hf, Hd. split_and!; try done; clear;
    (induction payloads as [|p payloads IH]; [done|]; cbn [fmap list_fmap omap list_omap]).
  - simpl. by f_equal.
  - rewrite filter_cons. by rewrite decide_False by done.
Qed.

End Presets.

Definition modbus_decoder : FrameDecoder :=
  new_or (preset_rx_framing PModbusAscii) (Some (preset_rx_parser PModbusAscii)).

Lemma modbus_preset_stream_witness :
  exists d' o, push_all modbus_decoder
      [bs ":0103F"; bs "C" ++ CRLF ++ bs ":01"; bs "0300" ++ [x0d]; [x0a]] = Some (d', o) /\
    f_parsed <$> o_frames o = [Some (PFModbusAscii x01 x03 [] (Some true))] /\
    o_frames_dropped o = 1%nat /\ o_error o = None /\ d_buf d' = [].
Proof.
  apply (modbus_preset_stream [([x01; x03], xfc); ([x01; x03], x00)]
    [bs ":0103FC" ++ CRLF; bs ":010300" ++ CRLF] modbus_decoder (bs ":0103F")
    [bs "C" ++ CRLF ++ bs ":01"; bs "0300" ++ [x0d]; [x0a]]);
    [reflexivity|repeat constructor|repeat constructor|reflexivity].
Defined.

Definition nmea_decoder : FrameDecoder :=
  new_or (preset_rx_framing PNmea0183) (Some (preset_rx_parser PNmea0183)).

Lemma nmea_preset_roundtrip_witness :
  exists d' o, push_all nmea_decoder
      [bs "$GPGLL,1"; bs "*4D" ++ CRLF ++ bs "!A"; bs "I,2*16" ++ CRLF] = Some (d', o) /\
    f_parsed <$> o_frames o =
      [Some (PFNmea (bs "GP") (bs "GLL") [bs "1"] (Some true));
       Some (PFNmea (bs "AI") [] [bs "2"] (Some true))] /\
    o_frames_dropped o = 0%nat /\ o_error o = None /\ d_buf d' = [].
Proof.
  apply (nmea_preset_roundtrip [bs "GPGLL,1"; bs "!AI,2"]
    [bs "$GPGLL,1*4D" ++ CRLF; bs "!AI,2*16" ++ CRLF] nmea_decoder);
    [reflexivity| |repeat constructor|reflexivity].
  apply (bool_decide_unpack _). vm_compute. exact I.
Defined.
