(* ===== verification/RxRing.v ===== *)
(** * [src/rx_ring.rs]: the receive ring

    [RxRing] with absolute 64-bit stream offsets: [append], [read_from], [clear]
    and [wait_for_data].  The ring refines a stream of all bytes ever appended,
    of which a suffix is retained. *)

From S2P Require Import Prelude.

(** The mutex-guarded state. *)
Record Inner := mkInner {
  ring_buf : list byte;
  start_offset : Z;
  end_offset : Z;
}.

Record RxRing := mkRing {
  ring_capacity : Z;
  inner : Inner;
  bytes_wrapped_total : Z;
}.

(** A slice of data read from the ring. *)
Record RingSlice := mkSlice {
  s_bytes : list byte;
  s_from_offset : Z;
  s_next_offset : Z;
  s_bytes_lost : Z;
}.

(** [RxRing::new]; [None] is the panic on a zero capacity. *)
Definition ring_new (capacity : Z) : option RxRing :=
  if 0 <? capacity
  then Some (mkRing capacity (mkInner (replicate (Z.to_nat capacity) x00) 0 0) 0)
  else None.

(** [buf[pos..pos + src.len()].copy_from_slice(src)]. *)
Definition copy_from_slice (buf : list byte) (pos : nat) (src : list byte) : list byte :=
  take pos buf ++ src ++ drop (pos + length src) buf.

Definition write_ring (buf : list byte) (phys : nat) (src : list byte) : list byte :=
  let cap := length buf in
  let end_ := (phys + length src)%nat in
  if (end_ <=? cap)%nat then copy_from_slice buf phys src
  else
    let first := (cap - phys)%nat in
    copy_from_slice (copy_from_slice buf phys (take first src)) 0 (drop first src).

Definition read_ring (buf : list byte) (phys n : nat) : list byte :=
  let cap := length buf in
  let end_ := (phys + n)%nat in
  if (end_ <=? cap)%nat then take n (drop phys buf)
  else
    let first := (cap - phys)%nat in
    drop phys buf ++ take (n - first) buf.

(** The part of [append] under the lock. *)
Definition append (r : RxRing) (bytes : list byte) : RxRing :=
  if bool_decide (bytes = []) then r
  else
    let n := zlen bytes in
    let cap := ring_capacity r in
    let old_end := end_offset (inner r) in
    let new_end := wrap64 (old_end + n) in
    let new_start := Z.max (start_offset (inner r)) (saturating_sub new_end cap) in
    let lost := saturating_sub new_start (start_offset (inner r)) in
    let total := if 0 <? lost then wrap64 (bytes_wrapped_total r + lost)
                 else bytes_wrapped_total r in
    let survive_start_logical := Z.max new_start old_end in
    let survive_len := new_end - survive_start_logical in
    let input_offset := survive_start_logical - old_end in
    let src := take (Z.to_nat survive_len) (drop (Z.to_nat input_offset) bytes) in
    let phys_start := Z.to_nat (survive_start_logical mod cap) in
    mkRing cap (mkInner (write_ring (ring_buf (inner r)) phys_start src) new_start new_end) total.

(** [read_from]. *)
Definition read_from (r : RxRing) (cursor max : Z) : RingSlice :=
  let start := start_offset (inner r) in
  let end_ := end_offset (inner r) in
  let bytes_lost := saturating_sub start cursor in
  let read from_offset :=
    if (end_ <=? from_offset) || (max =? 0)
    then mkSlice [] from_offset from_offset bytes_lost
    else
      let available := end_ - from_offset in
      let take := Z.min max available in
      let phys_start := Z.to_nat (from_offset mod ring_capacity r) in
      mkSlice (read_ring (ring_buf (inner r)) phys_start (Z.to_nat take))
        from_offset (from_offset + take) bytes_lost in
  if cursor <? start then read start
  else if end_ <? cursor then mkSlice [] end_ end_ bytes_lost
  else read cursor.

(** [clear]. *)
Definition ring_clear (r : RxRing) : RxRing :=
  mkRing (ring_capacity r)
    (mkInner (ring_buf (inner r)) (end_offset (inner r)) (end_offset (inner r)))
    (bytes_wrapped_total r).

(** ** The specification: the whole stream, and where retention starts *)

Record Spec := mkSpec { stream : list byte; retained_from : Z; wrapped : Z }.

Definition spec_new : Spec := mkSpec [] 0 0.

Definition spec_append (cap : Z) (s : Spec) (bytes : list byte) : Spec :=
  let stream' := stream s ++ bytes in
  let from := Z.max (retained_from s) (zlen stream' - cap) in
  mkSpec stream' from (wrapped s + (from - retained_from s)).

Definition spec_clear (s : Spec) : Spec := mkSpec (stream s) (zlen (stream s)) (wrapped s).

(** Reading clamps the cursor into the retained range and reports the gap. *)
Definition spec_read (s : Spec) (cursor max : Z) : RingSlice :=
  let from := Z.min (Z.max cursor (retained_from s)) (zlen (stream s)) in
  let n := Z.max 0 (Z.min max (zlen (stream s) - from)) in
  mkSlice (take (Z.to_nat n) (drop (Z.to_nat from) (stream s))) from (from + n)
    (Z.max 0 (retained_from s - cursor)).

(** ** The ring arithmetic *)

Lemma length_copy_from_slice buf pos src :
  (pos + length src <= length buf)%nat -> length (copy_from_slice buf pos src) = length buf.
Proof. intros Hb. unfold copy_from_slice. len. Qed.

Lemma lookup_copy_from_slice buf pos src q :
  (pos + length src <= length buf)%nat ->
  copy_from_slice buf pos src !! q =
    if decide (pos <= q < pos + length src)%nat then src !! (q - pos)%nat else buf !! q.
Proof.
  intros Hb. unfold copy_from_slice. case_decide as Hq.
  - rewrite lookup_app_r by (rewrite length_take; lia).
    rewrite length_take, Nat.min_l by lia. apply lookup_app_l. lia.
  - destruct (decide (q < pos)%nat).
    + rewrite lookup_app_l by (rewrite length_take; lia). by apply lookup_take_lt.
    + rewrite lookup_app_r by (rewrite length_take; lia). rewrite length_take, Nat.min_l by lia.
      rewrite lookup_app_r by lia. rewrite lookup_drop. f_equal. lia.
Qed.

(** The distance from [phys] to [q] going up, modulo the capacity. *)
Definition ahead (cap phys q : nat) : nat :=
  if (phys <=? q)%nat then (q - phys)%nat else (q + cap - phys)%nat.

Lemma lookup_write_ring buf phys src q :
  (phys < length buf)%nat -> (length src <= length buf)%nat -> (q < length buf)%nat ->
  write_ring buf phys src !! q =
    let j := ahead (length buf) phys q in
    if decide (j < length src)%nat then src !! j else buf !! q.
Proof.
  intros Hp Hs Hq. unfold write_ring, ahead.
  destruct (Nat.leb_spec (phys + length src) (length buf)) as [Hle|Hgt].
  - rewrite lookup_copy_from_slice by lia.
    destruct (Nat.leb_spec phys q); repeat case_decide; (done || lia || f_equal; lia).
  - assert (Ht : length (take (length buf - phys) src) = (length buf - phys)%nat)
      by (rewrite length_take; lia).
    assert (Hd : length (drop (length buf - phys) src) = (length src - (length buf - phys))%nat)
      by apply length_drop.
    assert (Hc : length (copy_from_slice buf phys (take (length buf - phys) src)) = length buf)
      by (apply length_copy_from_slice; lia).
    rewrite lookup_copy_from_slice by lia. rewrite lookup_copy_from_slice by lia.
    rewrite Ht, Hd, lookup_drop.
    destruct (Nat.leb_spec phys q); repeat case_decide; try lia; try done.
    + apply lookup_take_lt. lia.
    + f_equal. lia.
Qed.

Lemma length_write_ring buf phys src :
  (phys < length buf)%nat -> (length src <= length buf)%nat ->
  length (write_ring buf phys src) = length buf.
Proof.
  intros Hp Hs. unfold write_ring.
  destruct (Nat.leb_spec (phys + length src) (length buf)); [by apply length_copy_from_slice|].
  rewrite length_copy_from_slice, length_copy_from_slice; [done|..];
    rewrite ?length_copy_from_slice; rewrite ?length_take, ?length_drop; lia.
Qed.

Lemma length_read_ring buf phys n :
  (phys < length buf)%nat -> (n <= length buf)%nat -> length (read_ring buf phys n) = n.
Proof. intros Hp Hn. unfold read_ring. case_match eqn:E; [apply Nat.leb_le in E|apply Nat.leb_gt in E]; len. Qed.

Lemma lookup_read_ring buf phys n j :
  (phys < length buf)%nat -> (n <= length buf)%nat -> (j < n)%nat ->
  read_ring buf phys n !! j =
    buf !! (if (phys + j <? length buf)%nat then phys + j else phys + j - length buf)%nat.
Proof.
  intros Hp Hn Hj. unfold read_ring.
  destruct (Nat.leb_spec (phys + n) (length buf)); destruct (Nat.ltb_spec (phys + j) (length buf)); try lia.
  - rewrite lookup_take_lt by done. apply lookup_drop.
  - rewrite lookup_app_l by (rewrite length_drop; lia). apply lookup_drop.
  - rewrite lookup_app_r, lookup_take_lt by (rewrite length_drop; lia).
    rewrite length_drop. f_equal. lia.
Qed.

(** Physical positions of logical offsets. *)
Lemma mod_ahead cap a i :
  0 < cap -> 0 <= a <= i -> i < a + cap ->
  Z.of_nat (ahead (Z.to_nat cap) (Z.to_nat (a mod cap)) (Z.to_nat (i mod cap))) = i - a.
Proof.
  intros Hc Ha Hi. unfold ahead.
  pose proof (Z.mod_pos_bound a cap Hc). pose proof (Z.mod_pos_bound i cap Hc).
  pose proof (Z.div_mod a cap ltac:(lia)). pose proof (Z.div_mod i cap ltac:(lia)).
  set (ra := a mod cap) in *. set (ri := i mod cap) in *.
  set (qa := a / cap) in *. set (qi := i / cap) in *. clearbody ra ri qa qi.
  destruct (Nat.leb_spec (Z.to_nat ra) (Z.to_nat ri)).
  - assert (qi = qa) by nia. subst qi. lia.
  - assert (qi = qa + 1) by nia. subst qi. lia.
Qed.

(** ** Refinement *)

(** The ring holds the retained suffix of the stream at offset modulo capacity. *)
Record ring_rep (r : RxRing) (s : Spec) : Prop := {
  rep_cap : 0 < ring_capacity r;
  rep_len : zlen (ring_buf (inner r)) = ring_capacity r;
  rep_start : start_offset (inner r) = retained_from s;
  rep_end : end_offset (inner r) = zlen (stream s);
  rep_range : 0 <= retained_from s <= zlen (stream s);
  rep_retained : zlen (stream s) - retained_from s <= ring_capacity r;
  rep_wrapped : bytes_wrapped_total r = wrapped s;
  rep_wrapped_range : 0 <= wrapped s <= retained_from s;
  rep_bytes : forall i, retained_from s <= i < zlen (stream s) ->
    ring_buf (inner r) !! Z.to_nat (i mod ring_capacity r) = stream s !! Z.to_nat i;
}.

Lemma ring_new_rep capacity r : ring_new capacity = Some r -> ring_rep r spec_new.
Proof.
  unfold ring_new. destruct (Z.ltb_spec 0 capacity); intros; simplify_eq.
  split; simpl; try done; unfold zlen; rewrite ?length_replicate; simpl; lia.
Qed.

Lemma append_rep r s bytes :
  ring_rep r s -> zlen (stream s) + zlen bytes < 2 ^ 64 ->
  ring_rep (append r bytes) (spec_append (ring_capacity r) s bytes).
Proof.
  intros [Hcap Hlen Hstart Hend Hrange Hret Hw Hwr Hbytes] Hmax. unfold append.
  pose proof (zlen_nonneg bytes) as Hn0.
  destruct (decide (bytes = [])) as [->|Hne].
  { rewrite bool_decide_eq_true_2 by done. unfold spec_append.
    split; cbn [stream retained_from wrapped]; rewrite ?app_nil_r; try done;
      replace (Z.max (retained_from s) (zlen (stream s) - ring_capacity r)) with (retained_from s) by lia;
      try done; lia. }
  rewrite bool_decide_eq_false_2 by done. cbv zeta.
  rewrite Hend, Hstart. set (n := zlen bytes) in *. set (cap := ring_capacity r) in *.
  set (e := zlen (stream s)) in *. set (st := retained_from s) in *.
  rewrite (wrap64_small (e + n)) by lia. unfold saturating_sub.
  replace (Z.max st (Z.max 0 (e + n - cap))) with (Z.max st (e + n - cap)) by lia.
  set (ns := Z.max st (e + n - cap)).
  assert (Hnpos : 0 < n) by (unfold n; destruct bytes; [done|]; unfold zlen; simpl; lia).
  set (sv := Z.max ns e). assert (Hsv : e <= sv <= e + n) by lia.
  set (src := take _ _).
  assert (Hsrc : zlen src = e + n - sv).
  { unfold src, zlen. rewrite length_take, length_drop. unfold n, zlen in *. lia. }
  assert (Hsrcl : forall j, (j < length src)%nat -> src !! j = bytes !! (Z.to_nat (sv - e) + j)%nat).
  { intros j Hj. unfold src. rewrite lookup_take_lt, lookup_drop; [done|].
    unfold zlen in *. lia. }
  pose proof (Z.mod_pos_bound sv cap Hcap) as Hphys.
  assert (Hb : length (ring_buf (inner r)) = Z.to_nat cap) by (unfold zlen in Hlen; lia).
  assert (Hsl : (length src <= Z.to_nat cap)%nat) by (unfold zlen in *; lia).
  assert (Htot : (if 0 <? Z.max 0 (ns - st) then wrap64 (bytes_wrapped_total r + Z.max 0 (ns - st))
                  else bytes_wrapped_total r) = wrapped s + (ns - st)).
  { rewrite Hw. destruct (Z.ltb_spec 0 (Z.max 0 (ns - st))); [|lia].
    rewrite wrap64_small; lia. }
  unfold spec_append. rewrite zlen_app. fold n e st. fold ns.
  split; cbn [ring_capacity inner ring_buf start_offset end_offset bytes_wrapped_total
              stream retained_from wrapped]; rewrite ?zlen_app; fold n e;
    try done; try lia.
  - unfold zlen. rewrite length_write_ring; lia.
  - intros i Hi. pose proof (Z.mod_pos_bound i cap Hcap) as Hmi.
    rewrite lookup_write_ring by lia. rewrite Hb.
    destruct (Z.le_gt_cases sv i) as [Hge|Hlt].
    + pose proof (mod_ahead cap sv i Hcap ltac:(lia) ltac:(lia)) as Ha.
      rewrite decide_True by (unfold zlen in *; lia). rewrite Hsrcl by (unfold zlen in *; lia).
      rewrite lookup_app_r by (unfold e, zlen in *; lia).
      f_equal. unfold e, zlen in *. lia.
    + assert (sv = e) by lia.
      pose proof (mod_ahead cap sv (i + cap) Hcap ltac:(lia) ltac:(lia)) as Ha.
      replace (i + cap) with (i + 1 * cap) in Ha at 1 by lia. rewrite Z.mod_add in Ha by lia.
      rewrite decide_False by (unfold zlen in *; lia).
      rewrite lookup_app_l by (unfold e, zlen in *; lia). apply Hbytes. lia.
Qed.

Lemma clear_rep r s : ring_rep r s -> ring_rep (ring_clear r) (spec_clear s).
Proof.
  intros [Hcap Hlen Hstart Hend Hrange Hret Hw Hwr Hbytes].
  split; simpl; try done; try lia; intros; lia.
Qed.

Lemma read_ring_rep r s from n :
  ring_rep r s -> retained_from s <= from -> 0 <= n -> from + n <= zlen (stream s) ->
  read_ring (ring_buf (inner r)) (Z.to_nat (from mod ring_capacity r)) (Z.to_nat n)
  = take (Z.to_nat n) (drop (Z.to_nat from) (stream s)).
Proof.
  intros [Hcap Hlen Hstart Hend Hrange Hret Hw Hwr Hbytes] Hf Hn Hle.
  set (cap := ring_capacity r) in *. pose proof (Z.mod_pos_bound from cap Hcap) as Hm.
  assert (Hb : length (ring_buf (inner r)) = Z.to_nat cap) by (unfold zlen in Hlen; lia).
  apply list_eq. intros j. destruct (decide (j < Z.to_nat n)%nat) as [Hj|Hj].
  - rewrite lookup_read_ring, lookup_take_lt, lookup_drop by lia.
    replace (Z.to_nat from + j)%nat with (Z.to_nat (from + Z.of_nat j)) by lia.
    rewrite <- Hbytes by lia. f_equal. rewrite Hb.
    pose proof (mod_ahead cap from (from + Z.of_nat j) Hcap ltac:(lia) ltac:(lia)) as Ha.
    pose proof (Z.mod_pos_bound (from + Z.of_nat j) cap Hcap) as Hm2. unfold ahead in Ha.
    repeat case_match; rewrite ?Nat.leb_le, ?Nat.leb_gt, ?Nat.ltb_lt, ?Nat.ltb_ge in *; lia.
  - rewrite !lookup_ge_None_2; [done|..]; rewrite ?length_take, ?length_drop, ?length_read_ring; lia.
Qed.

Lemma read_from_rep r s cursor max :
  ring_rep r s -> 0 <= cursor -> 0 <= max -> read_from r cursor max = spec_read s cursor max.
Proof.
  intros Hr Hc Hm. pose proof Hr as [Hcap Hlen Hstart Hend Hrange Hret Hw Hwr Hbytes].
  unfold read_from, spec_read, saturating_sub. rewrite Hstart, Hend.
  set (e := zlen (stream s)) in *. set (st := retained_from s) in *.
  assert (Hread : forall from, st <= from <= e ->
    (if (e <=? from) || (max =? 0) then mkSlice [] from from (Z.max 0 (st - cursor))
     else mkSlice (read_ring (ring_buf (inner r)) (Z.to_nat (from mod ring_capacity r))
                     (Z.to_nat (Z.min max (e - from)))) from (from + Z.min max (e - from))
            (Z.max 0 (st - cursor)))
    = mkSlice (take (Z.to_nat (Z.max 0 (Z.min max (e - from)))) (drop (Z.to_nat from) (stream s)))
        from (from + Z.max 0 (Z.min max (e - from))) (Z.max 0 (st - cursor))).
  { intros from Hf. destruct (Z.leb_spec e from); [|destruct (Z.eqb_spec max 0)]; cbn [orb].
    1,2: replace (Z.max 0 (Z.min max (e - from))) with 0 by lia; by rewrite Z.add_0_r.
    rewrite read_ring_rep with (s := s) by (try done; lia).
    by replace (Z.max 0 (Z.min max (e - from))) with (Z.min max (e - from)) by lia. }
  destruct (Z.ltb_spec cursor st); [|destruct (Z.ltb_spec e cursor)].
  - rewrite Hread by lia. by replace (Z.min (Z.max cursor st) e) with st by lia.
  - replace (Z.min (Z.max cursor st) e) with e by lia. rewrite Z.sub_diag.
    replace (Z.max 0 (Z.min max 0)) with 0 by lia. by rewrite Z.add_0_r.
  - rewrite Hread by lia. by replace (Z.min (Z.max cursor st) e) with cursor by lia.
Qed.

(** ** Sequences of operations *)

Inductive RingOp :=
  | OpAppend (bytes : list byte)
  | OpClear
  | OpRead (cursor max : Z).

Fixpoint run_ops (r : RxRing) (ops : list RingOp) : list RingSlice :=
  match ops with
  | [] => []
  | OpAppend bytes :: ops => run_ops (append r bytes) ops
  | OpClear :: ops => run_ops (ring_clear r) ops
  | OpRead cursor max :: ops => read_from r cursor max :: run_ops r ops
  end.

Fixpoint spec_ops (cap : Z) (s : Spec) (ops : list RingOp) : list RingSlice :=
  match ops with
  | [] => []
  | OpAppend bytes :: ops => spec_ops cap (spec_append cap s bytes) ops
  | OpClear :: ops => spec_ops cap (spec_clear s) ops
  | OpRead cursor max :: ops => spec_read s cursor max :: spec_ops cap s ops
  end.

(** The bytes that a sequence appends. *)
Definition appended (ops : list RingOp) : list byte :=
  concat ((fun op => match op with OpAppend b => b | _ => [] end) <$> ops).

Definition valid_op (op : RingOp) : Prop :=
  match op with OpRead cursor max => 0 <= cursor /\ 0 <= max | _ => True end.

Lemma run_ops_rep ops : forall r s,
  ring_rep r s -> Forall valid_op ops -> zlen (stream s) + zlen (appended ops) < 2 ^ 64 ->
  run_ops r ops = spec_ops (ring_capacity r) s ops.
Proof.
  induction ops as [|op ops IH]; intros r s Hr Hv Hmax; [done|].
  apply Forall_cons in Hv as [Hop Hv]. unfold appended in Hmax. cbn [fmap list_fmap concat] in Hmax.
  fold (appended ops) in Hmax. rewrite zlen_app in Hmax. pose proof (zlen_nonneg (appended ops)).
  destruct op as [bytes| |cursor max]; cbn [run_ops spec_ops].
  - assert (Hcap : ring_capacity (append r bytes) = ring_capacity r)
      by (unfold append; by case_match).
    pose proof (IH (append r bytes) (spec_append (ring_capacity r) s bytes)) as IH'.
    rewrite Hcap in IH'. apply IH'; [|done|].
    + apply append_rep; [done|]. lia.
    + cbn [spec_append stream]. rewrite zlen_app. lia.
  - apply (IH (ring_clear r)); [by apply clear_rep|done|]. rewrite zlen_nil in Hmax. simpl. lia.
  - destruct Hop as [Hc Hm]. rewrite (read_from_rep _ s) by done.
    f_equal. apply IH; [done|done|]. rewrite zlen_nil in Hmax. lia.
Qed.

(** C1: the ring is a stream with a bounded memory.  For every
    positive capacity and every sequence of appends, clears and reads that
    appends fewer than [2^64] bytes in total, every read returns what the
    specification returns: the bytes of the stream of all appended bytes from
    the cursor on, the cursor clamped into the retained range, which after an
    append is at least the last [capacity] bytes back to the last clear, with the
    size of the gap reported as lost bytes. *)
Theorem ring_refines_stream capacity r ops :
  ring_new capacity = Some r -> Forall valid_op ops -> zlen (appended ops) < 2 ^ 64 ->
  run_ops r ops = spec_ops capacity spec_new ops.
Proof.
  intros Hr Hv Hmax. assert (ring_capacity r = capacity) as <-
    by (unfold ring_new in Hr; case_match; simplify_eq; done).
  apply run_ops_rep; [by eapply ring_new_rep|done|done].
Qed.

(** A four-byte ring and a stream of [n] distinct bytes, for the examples. *)
Definition bs_abc (n : nat) : list byte := (fun i => z2b (Z.of_nat i + 97)) <$> seq 0 n.
Definition small_ring : RxRing := default (mkRing 0 (mkInner [] 0 0) 0) (ring_new 4).

Lemma ring_refines_stream_witness :
  run_ops small_ring [OpAppend (bs_abc 3); OpAppend (bs_abc 3); OpRead 0 9; OpClear; OpRead 6 1; OpAppend (bs_abc 9); OpRead 6 2]
  = spec_ops 4 spec_new [OpAppend (bs_abc 3); OpAppend (bs_abc 3); OpRead 0 9; OpClear; OpRead 6 1; OpAppend (bs_abc 9); OpRead 6 2].
Proof. apply (ring_refines_stream 4); [reflexivity|repeat constructor; done|reflexivity]. Defined.

(** ** A reader that follows its cursor *)

(** What happens around one reader: the pump appends, a flush clears, the reader
    reads at its cursor and takes [next_offset] as its new cursor. *)
Inductive ReaderEvent :=
  | EvAppend (bytes : list byte)
  | EvClear
  | EvRead (max : Z).

Fixpoint follow (r : RxRing) (cursor : Z) (evs : list ReaderEvent) : list RingSlice * Z :=
  match evs with
  | [] => ([], cursor)
  | EvAppend bytes :: evs => follow (append r bytes) cursor evs
  | EvClear :: evs => follow (ring_clear r) cursor evs
  | EvRead max :: evs =>
      let s := read_from r cursor max in
      let '(ss, c) := follow r (s_next_offset s) evs in (s :: ss, c)
  end.

Definition ev_bytes (evs : list ReaderEvent) : list byte :=
  concat ((fun ev => match ev with EvAppend b => b | _ => [] end) <$> evs).

(** The slices of a reader that starts at [c] and ends at [c'] are pieces of the
    stream [all], each starting where the previous one ended plus the bytes it
    reports lost. *)
Fixpoint accounts (all : list byte) (c : Z) (slices : list RingSlice) (c' : Z) : Prop :=
  match slices with
  | [] => c = c'
  | s :: slices =>
      0 <= s_bytes_lost s /\ s_from_offset s = c + s_bytes_lost s /\
      s_next_offset s = s_from_offset s + zlen (s_bytes s) /\
      s_bytes s = take (length (s_bytes s)) (drop (Z.to_nat (s_from_offset s)) all) /\
      accounts all (s_next_offset s) slices c'
  end.

(** One read at a cursor inside the stream. *)
Lemma spec_read_accounts s cursor max rest :
  0 <= cursor <= zlen (stream s) -> 0 <= max -> 0 <= retained_from s <= zlen (stream s) ->
  let sl := spec_read s cursor max in
  0 <= s_bytes_lost sl /\ s_from_offset sl = cursor + s_bytes_lost sl /\
  s_next_offset sl = s_from_offset sl + zlen (s_bytes sl) /\
  cursor <= s_next_offset sl <= zlen (stream s) /\
  s_bytes sl = take (length (s_bytes sl)) (drop (Z.to_nat (s_from_offset sl)) (stream s ++ rest)).
Proof.
  intros Hc Hm Hr. unfold spec_read. cbn [s_bytes s_from_offset s_next_offset s_bytes_lost].
  set (from := Z.min (Z.max _ _) _). set (n := Z.max 0 (Z.min _ _)).
  assert (Hl : length (take (Z.to_nat n) (drop (Z.to_nat from) (stream s))) = Z.to_nat n)
    by (rewrite length_take, length_drop; assert (0 <= n <= zlen (stream s) - from) by lia;
        assert (0 <= from) by lia; clearbody n from; unfold zlen in *; lia).
  rewrite Hl. split; [lia|]. split; [lia|]. split; [unfold zlen in *; lia|]. split; [lia|].
  rewrite drop_app_le by (unfold zlen in *; lia).
  by rewrite take_app_le by (rewrite length_drop; unfold zlen in *; lia).
Qed.

Lemma follow_accounts evs : forall r s cursor,
  ring_rep r s -> 0 <= cursor <= zlen (stream s) ->
  Forall (fun ev => match ev with EvRead max => 0 <= max | _ => True end) evs ->
  zlen (stream s) + zlen (ev_bytes evs) < 2 ^ 64 ->
  let '(slices, c) := follow r cursor evs in
  accounts (stream s ++ ev_bytes evs) cursor slices c /\
  c <= zlen (stream s ++ ev_bytes evs).
Proof.
  induction evs as [|ev evs IH]; intros r s cursor Hr Hc Hv Hmax.
  { simpl. split; [done|]. rewrite zlen_app. pose proof (zlen_nonneg (ev_bytes [])). lia. }
  apply Forall_cons in Hv as [Hev Hv]. unfold ev_bytes in *. cbn [fmap list_fmap concat] in *.
  fold (ev_bytes evs) in *. rewrite zlen_app in Hmax. pose proof (zlen_nonneg (ev_bytes evs)).
  destruct ev as [bytes| |max]; cbn [follow].
  - specialize (IH (append r bytes) (spec_append (ring_capacity r) s bytes) cursor).
    cbn [spec_append stream] in IH. rewrite zlen_app in IH. pose proof (zlen_nonneg bytes).
    rewrite <- (assoc_L (++)) in IH. apply IH; [|lia|done|lia].
    apply append_rep; [done|lia].
  - rewrite zlen_nil in Hmax. apply (IH (ring_clear r) (spec_clear s)); [by apply clear_rep|done|done|].
    simpl. lia.
  - rewrite zlen_nil in Hmax. rewrite (read_from_rep r s) by (done || lia).
    pose proof (rep_range _ _ Hr) as Hrange.
    destruct (spec_read_accounts s cursor max (ev_bytes evs) Hc Hev Hrange)
      as (A1 & A2 & A3 & A4 & A5).
    specialize (IH r s (s_next_offset (spec_read s cursor max)) Hr ltac:(lia) Hv ltac:(lia)).
    simpl app. destruct (follow r _ evs) as [ss c]. destruct IH as [IH Hle].
    split; [|done]. cbn [accounts]. auto.
Qed.

Lemma accounts_total all : forall slices c c',
  accounts all c slices c' ->
  c' = c + zlen (concat (s_bytes <$> slices)) + foldr Z.add 0 (s_bytes_lost <$> slices).
Proof.
  induction slices as [|s slices IH]; intros c c'; [simpl; intros ->; rewrite zlen_nil; lia|].
  intros (H1 & H2 & H3 & _ & H%IH). rewrite !fmap_cons. cbn [concat foldr]. rewrite zlen_app. lia.
Qed.

Lemma accounts_lossless all : forall slices c c',
  0 <= c -> c' <= zlen all -> accounts all c slices c' ->
  Forall (fun s => s_bytes_lost s = 0) slices ->
  concat (s_bytes <$> slices) = take (Z.to_nat (c' - c)) (drop (Z.to_nat c) all).
Proof.
  induction slices as [|s slices IH]; intros c c' Hc Hc' Ha Hl; cbn [accounts] in Ha.
  { subst c'. rewrite Z.sub_diag. done. }
  apply Forall_cons in Hl as [Hl0 Hl]. destruct Ha as (H1 & H2 & H3 & H4 & Ha).
  cbn [fmap list_fmap concat]. pose proof (zlen_nonneg (s_bytes s)).
  pose proof (accounts_total _ _ _ _ Ha) as Ht.
  pose proof (zlen_nonneg (concat (s_bytes <$> slices))).
  assert (Hz : foldr Z.add 0 (s_bytes_lost <$> slices) = 0).
  { clear -Hl. induction Hl as [|x l Hx _ IHl]; [done|]. rewrite fmap_cons. cbn [foldr]. lia. }
  rewrite (IH (s_next_offset s) c' ltac:(lia) Hc' Ha Hl).
  assert (Hn : s_next_offset s = c + zlen (s_bytes s)) by lia. rewrite Hn.
  replace (s_from_offset s) with c in H4 by lia.
  replace (Z.to_nat (c + zlen (s_bytes s))) with (Z.to_nat c + length (s_bytes s))%nat
    by (unfold zlen; lia).
  rewrite <- drop_drop.
  replace (Z.to_nat (c' - c)) with (length (s_bytes s) + Z.to_nat (c' - (c + zlen (s_bytes s))))%nat
    by (unfold zlen in *; lia).
  rewrite take_plus. by f_equal.
Qed.

(** A reader that always continues at the
    [next_offset] of its last slice sees the stream with nothing lost in silence
    and nothing twice, whatever the pump appends and whenever the ring is cleared
    in between.  Each slice is the piece of the appended stream at its offsets
    and starts where the last one ended plus the bytes it reports lost; bytes
    returned and bytes reported lost add up to the final cursor; and a reader to
    which no loss was reported has read exactly the stream up to its cursor. *)
Theorem reader_loses_nothing_silently capacity r evs :
  ring_new capacity = Some r ->
  Forall (fun ev => match ev with EvRead max => 0 <= max | _ => True end) evs ->
  zlen (ev_bytes evs) < 2 ^ 64 ->
  let '(slices, c) := follow r 0 evs in
  accounts (ev_bytes evs) 0 slices c /\
  c = zlen (concat (s_bytes <$> slices)) + foldr Z.add 0 (s_bytes_lost <$> slices) /\
  (Forall (fun s => s_bytes_lost s = 0) slices ->
   concat (s_bytes <$> slices) = take (Z.to_nat c) (ev_bytes evs)).
Proof.
  intros Hr%ring_new_rep Hv Hmax.
  pose proof (follow_accounts evs r spec_new 0 Hr ltac:(done) Hv ltac:(done)) as Hf.
  destruct (follow r 0 evs) as [slices c]. destruct Hf as [Ha Hle]. cbn [stream spec_new app] in *.
  split; [done|]. split.
  - pose proof (accounts_total _ _ _ _ Ha). lia.
  - intros Hl. rewrite (accounts_lossless _ _ 0 c ltac:(done) Hle Ha Hl), Z.sub_0_r. done.
Qed.

Lemma reader_loses_nothing_silently_witness :
  let evs := [EvAppend (bs_abc 3); EvRead 2; EvAppend (bs_abc 7); EvRead 9] in
  let '(slices, c) := follow small_ring 0 evs in
  accounts (ev_bytes evs) 0 slices c /\
  c = zlen (concat (s_bytes <$> slices)) + foldr Z.add 0 (s_bytes_lost <$> slices) /\
  (Forall (fun s => s_bytes_lost s = 0) slices ->
   concat (s_bytes <$> slices) = take (Z.to_nat c) (ev_bytes evs)).
Proof.
  apply (reader_loses_nothing_silently 4 small_ring
    [EvAppend (bs_abc 3); EvRead 2; EvAppend (bs_abc 7); EvRead 9]);
    [reflexivity|repeat constructor; done|reflexivity].
Defined.
