(* ===== verification/RxWait.v ===== *)
(** * [RxRing::wait_for_data] against a concurrent pump

    The reader's loop (register, check under the lock, await) and the two halves
    of [append] (mutation under the lock, then [notify_waiters]) as a step
    relation; every interleaving of the two tasks is an execution.  A
    [Notified] future of [tokio::sync::Notify] completes exactly when
    [notify_waiters] was called after the future was created: it carries the
    number of calls at its creation. *)

From S2P Require Import Prelude RxRing.

(** Where the waiting reader is. *)
Inductive WaiterPc :=
  | WLoop
  | WRegistered (notified : nat)
  | WAwait (notified : nat)
  | WDone.

#[export] Instance WaiterPc_eq_dec : EqDecision WaiterPc.
Proof. solve_decision. Defined.

Record WaitState := mkWait {
  w_ring : RxRing;
  w_notify_calls : nat;
  w_pump_notifies : bool;
  w_waiter : WaiterPc;
}.

(** The steps of the waiter, and the second half of [append]. *)
Inductive internal_step (after : Z) : WaitState -> WaitState -> Prop :=
  | step_register r n p :
      internal_step after (mkWait r n p WLoop) (mkWait r n p (WRegistered n))
  | step_return r n p k :
      after < end_offset (inner r) ->
      internal_step after (mkWait r n p (WRegistered k)) (mkWait r n p WDone)
  | step_await r n p k :
      end_offset (inner r) <= after ->
      internal_step after (mkWait r n p (WRegistered k)) (mkWait r n p (WAwait k))
  | step_wake r n p k :
      (k < n)%nat ->
      internal_step after (mkWait r n p (WAwait k)) (mkWait r n p WLoop)
  | step_notify r n w :
      internal_step after (mkWait r n true w) (mkWait r (S n) false w).

(** New data and flushes come from outside. The stream never reaches [2^64]
    bytes. *)
Inductive wait_step (after : Z) : WaitState -> WaitState -> Prop :=
  | step_internal s s' : internal_step after s s' -> wait_step after s s'
  | step_append r n w bytes :
      bytes <> [] -> end_offset (inner r) + zlen bytes < 2 ^ 64 ->
      wait_step after (mkWait r n false w) (mkWait (append r bytes) n true w)
  | step_clear r n p w : wait_step after (mkWait r n p w) (mkWait (ring_clear r) n p w).

Definition wait_start (r : RxRing) : WaitState := mkWait r 0 false WLoop.

(** No registration is from the future, and a reader that awaits although data
    is there has a wake-up that is due or on its way. *)
Definition wait_inv (after : Z) (s : WaitState) : Prop :=
  0 <= end_offset (inner (w_ring s)) /\
  match w_waiter s with
  | WLoop => True
  | WRegistered k => (k <= w_notify_calls s)%nat
  | WAwait k => (k <= w_notify_calls s)%nat /\
      (after < end_offset (inner (w_ring s)) ->
       (k < w_notify_calls s)%nat \/ w_pump_notifies s = true)
  | WDone => after < end_offset (inner (w_ring s))
  end.

Lemma append_end r bytes :
  bytes <> [] -> 0 <= end_offset (inner r) -> end_offset (inner r) + zlen bytes < 2 ^ 64 ->
  end_offset (inner (append r bytes)) = end_offset (inner r) + zlen bytes.
Proof.
  intros Hne H0 Hm. unfold append. rewrite bool_decide_eq_false_2 by done. cbn [inner end_offset].
  apply wrap64_small. pose proof (zlen_nonneg bytes). lia.
Qed.

Lemma wait_step_inv after s s' : wait_inv after s -> wait_step after s s' -> wait_inv after s'.
Proof.
  intros [Hend Hinv] Hstep. destruct Hstep as [s s' Hi|r n w bytes Hne Hmax|r n p w].
  - destruct Hi; unfold wait_inv in *; simpl in *; split; try done; try lia.
    destruct w; simpl in *; try done; lia.
  - pose proof (zlen_nonneg bytes). simpl in Hend.
    pose proof (append_end r bytes Hne Hend Hmax) as He. unfold wait_inv in *.
    cbn [w_ring w_waiter w_notify_calls w_pump_notifies] in *.
    rewrite He. split; [lia|]. destruct w; try done; try lia; destruct Hinv; auto.
  - done.
Qed.

(** How many internal steps a state has left when data is there. *)
Definition wait_measure (s : WaitState) : nat :=
  (match w_waiter s with WLoop => 2 | WRegistered _ => 1 | WAwait _ => 3 | WDone => 0 end
   + if w_pump_notifies s then 1 else 0)%nat.

Lemma internal_step_measure after s s' :
  after < end_offset (inner (w_ring s)) -> internal_step after s s' ->
  (wait_measure s' < wait_measure s)%nat /\ w_ring s' = w_ring s.
Proof. intros Hd Hs. destruct Hs; simpl in *; unfold wait_measure; simpl; split; try done; lia. Qed.

Lemma internal_progress after s :
  wait_inv after s -> after < end_offset (inner (w_ring s)) -> w_waiter s <> WDone ->
  exists s', internal_step after s s'.
Proof.
  destruct s as [r n p w]. unfold wait_inv; simpl. intros [_ Hinv] Hd Hw. destruct w as [|k|k|].
  - eexists. apply step_register.
  - eexists. by apply step_return.
  - destruct Hinv as [_ Hi]. destruct (Hi Hd) as [Hk| ->].
    + exists (mkWait r n p WLoop). by apply step_wake.
    + exists (mkWait r (S n) false (WAwait k)). apply step_notify.
  - done.
Qed.

Lemma internal_run_measure after n : forall s s',
  after < end_offset (inner (w_ring s)) -> nsteps (internal_step after) n s s' ->
  (n + wait_measure s' <= wait_measure s)%nat /\ w_ring s' = w_ring s.
Proof.
  induction n as [|n IH]; intros s s' Hd Hn; inversion Hn as [|? ? s1 ? Hs Hr]; subst; [by split; [lia|]|].
  destruct (internal_step_measure _ _ _ Hd Hs) as [Hm Hr1].
  destruct (IH s1 s') as [Hm' Hr']; [by rewrite Hr1|done|]. split; [lia|congruence].
Qed.

(** C10: no wake-up is lost.  From a fresh reader, under every
    interleaving of the reader with appends and flushes: the reader returns only
    when the ring's end is past [after]; and in every reachable state in which it
    is, the reader returns after at most four more steps of its own and of an
    [append] under way, whichever of them run first, without any further data. *)
Theorem wait_for_data_wakes after r s :
  0 <= end_offset (inner r) -> rtc (wait_step after) (wait_start r) s ->
  (w_waiter s = WDone -> after < end_offset (inner (w_ring s))) /\
  (after < end_offset (inner (w_ring s)) ->
   forall n s', nsteps (internal_step after) n s s' ->
     (n <= 4)%nat /\ ((forall s'', ~ internal_step after s' s'') -> w_waiter s' = WDone)).
Proof.
  intros Hr Hreach.
  assert (Hinv : wait_inv after s).
  { eapply rtc_preserves; [apply wait_step_inv| |exact Hreach]. done. }
  split.
  - intros Hw. destruct Hinv as [_ Hinv]. by rewrite Hw in Hinv.
  - intros Hd n s' Hn. destruct (internal_run_measure _ _ _ _ Hd Hn) as [Hm Hring]. split.
    + unfold wait_measure in Hm. destruct (w_waiter s), (w_pump_notifies s); lia.
    + intros Hstuck. destruct (decide (w_waiter s' = WDone)) as [|Hw]; [done|].
      assert (Hinv' : wait_inv after s').
      { clear -Hn Hinv. induction Hn as [|n x y z Hs _ IH]; [done|].
        apply IH. eapply wait_step_inv; [done|by constructor]. }
      destruct (internal_progress after s' Hinv') as [s'' Hs]; [congruence|done|]. by apply Hstuck in Hs.
Qed.

Lemma wait_for_data_wakes_witness :
  (WAwait 0 = WDone -> 0 < 3) /\
  (0 < 3 -> forall n s', nsteps (internal_step 0) n
     (mkWait (append small_ring (bs_abc 3)) 0 true (WAwait 0)) s' ->
     (n <= 4)%nat /\ ((forall s'', ~ internal_step 0 s' s'') -> w_waiter s' = WDone)).
Proof.
  apply (wait_for_data_wakes 0 small_ring (mkWait (append small_ring (bs_abc 3)) 0 true (WAwait 0))).
  - vm_compute. discriminate.
  - eapply rtc_l; [constructor; constructor|]. eapply rtc_l; [constructor; apply step_await|].
    { vm_compute. discriminate. }
    eapply rtc_once. apply step_append; [discriminate|reflexivity].
Defined.
