(* ===== verification/BufferBudget.v ===== *)
(** * [src/buffer_budget.rs]: the shared buffer budget

    The [BufferBudget] trait with its three implementations as sequential
    objects, and the compare-exchange loop of [AtomicBudget::try_reserve] under
    arbitrary interleavings. *)

From S2P Require Import Prelude.

Inductive BufferBudgetError :=
  | OverToolLimit (requested tool_limit : Z)
  | ZeroRequest
  | InsufficientProgramBudget (requested available : Z).

(** ** The trait *)

(** A budget as an object with state [St]; a reservation is the number of bytes
    it holds, and [release] is what dropping it does. *)
Class BufferBudget (St : Type) := {
  try_reserve : St -> Z -> result BufferBudgetError Z * St;
  release : St -> Z -> St;
  tool_limit : St -> Z;
  program_limit : St -> Z;
  available : St -> Z;
}.

(** What the trait's documentation promises: requests are refused in the order
    zero, over the tool limit, over what is available; otherwise the whole
    request is reserved; and a dropped reservation gives its bytes back. *)
Class BudgetLaws (St : Type) `{BufferBudget St} := {
  budget_ok : St -> Prop;
  try_reserve_spec : forall s b, budget_ok s -> 0 <= b <= U64_MAX ->
    match try_reserve s b with
    | (Err e, s') => s' = s /\
        e = (if b =? 0 then ZeroRequest
             else if tool_limit s <? b then OverToolLimit b (tool_limit s)
             else InsufficientProgramBudget b (available s)) /\
        (b = 0 \/ tool_limit s < b \/ available s < b)
    | (Ok n, s') => n = b /\ 0 < b <= tool_limit s /\ b <= available s /\ budget_ok s' /\
        tool_limit s' = tool_limit s /\ program_limit s' = program_limit s /\
        available (release s' b) = available s /\ budget_ok (release s' b)
    end;
  available_range : forall s, budget_ok s -> 0 <= available s <= program_limit s;
}.

(** ** The implementations *)

Module AtomicB.
Record AtomicBudget := mk { program_limit : Z; tool_limit : Z; available : Z }.

(** [AtomicBudget::new]; [None] is the panic of its assertions. *)
Definition new (program_limit tool_limit : Z) : option AtomicBudget :=
  if (0 <? program_limit) && (0 <? tool_limit) && (tool_limit <=? program_limit)
  then Some (mk program_limit tool_limit program_limit) else None.

(** [try_reserve] without interference: the first exchange succeeds. *)
Definition try_reserve (s : AtomicBudget) (bytes : Z) : result BufferBudgetError Z * AtomicBudget :=
  if bytes =? 0 then (Err ZeroRequest, s)
  else if tool_limit s <? bytes then (Err (OverToolLimit bytes (tool_limit s)), s)
  else
    let current := available s in
    if current <? bytes then (Err (InsufficientProgramBudget bytes current), s)
    else
      let new := current - bytes in
      (Ok bytes, mk (program_limit s) (tool_limit s) new).

(** [Drop for AtomicReservation]: [fetch_add]. *)
Definition release (s : AtomicBudget) (bytes : Z) : AtomicBudget :=
  mk (program_limit s) (tool_limit s) (wrap64 (available s + bytes)).
End AtomicB.

Module FakeB.
Record FakeBudget := mk { tool_limit : Z; program_limit : Z; remaining : Z }.

Definition new (program_limit tool_limit : Z) : option FakeBudget :=
  if (0 <? program_limit) && (0 <? tool_limit) && (tool_limit <=? program_limit)
  then Some (mk tool_limit program_limit program_limit) else None.

Definition reset (s : FakeBudget) : FakeBudget :=
  mk (tool_limit s) (program_limit s) (program_limit s).

Definition try_reserve (s : FakeBudget) (bytes : Z) : result BufferBudgetError Z * FakeBudget :=
  if bytes =? 0 then (Err ZeroRequest, s)
  else if tool_limit s <? bytes then (Err (OverToolLimit bytes (tool_limit s)), s)
  else if remaining s <? bytes then (Err (InsufficientProgramBudget bytes (remaining s)), s)
  else (Ok bytes, mk (tool_limit s) (program_limit s) (remaining s - bytes)).

(** [Drop for FakeReservation]. *)
Definition release (s : FakeBudget) (bytes : Z) : FakeBudget :=
  mk (tool_limit s) (program_limit s) (wrap64 (remaining s + bytes)).
End FakeB.

Module UnlimitedB.
Record UnlimitedBudget := mk { tool_limit : Z }.

Definition try_reserve (s : UnlimitedBudget) (bytes : Z)
    : result BufferBudgetError Z * UnlimitedBudget :=
  if bytes =? 0 then (Err ZeroRequest, s)
  else if tool_limit s <? bytes then (Err (OverToolLimit bytes (tool_limit s)), s)
  else (Ok bytes, s).

(** A [NopReservation] gives nothing back. *)
Definition release (s : UnlimitedBudget) (bytes : Z) : UnlimitedBudget := s.
End UnlimitedB.

#[export] Instance atomic_budget : BufferBudget AtomicB.AtomicBudget :=
  {| try_reserve := AtomicB.try_reserve; release := AtomicB.release;
     tool_limit := AtomicB.tool_limit; program_limit := AtomicB.program_limit;
     available := AtomicB.available |}.

#[export] Instance fake_budget : BufferBudget FakeB.FakeBudget :=
  {| try_reserve := FakeB.try_reserve; release := FakeB.release;
     tool_limit := FakeB.tool_limit; program_limit := FakeB.program_limit;
     available := FakeB.remaining |}.

(** [program_limit] and [available] are [usize::MAX]. *)
#[export] Instance unlimited_budget : BufferBudget UnlimitedB.UnlimitedBudget :=
  {| try_reserve := UnlimitedB.try_reserve; release := UnlimitedB.release;
     tool_limit := UnlimitedB.tool_limit; program_limit := fun _ => U64_MAX;
     available := fun _ => U64_MAX |}.

Ltac budget_cases :=
  repeat match goal with
  | |- context [?a =? ?b] => destruct (Z.eqb_spec a b)
  | |- context [?a <? ?b] => destruct (Z.ltb_spec a b)
  end.

#[export] Instance atomic_budget_laws : BudgetLaws AtomicB.AtomicBudget.
Proof.
  refine {| budget_ok s := 0 <= AtomicB.available s <= AtomicB.program_limit s
                           /\ AtomicB.program_limit s <= U64_MAX |}; [|by intros s [? _] ].
  intros s b [Ha Hp] Hb. cbn. unfold AtomicB.try_reserve. unfold U64_MAX in *.
  budget_cases; simpl; repeat split; auto; try lia; rewrite ?wrap64_small; lia.
Defined.

#[export] Instance fake_budget_laws : BudgetLaws FakeB.FakeBudget.
Proof.
  refine {| budget_ok s := 0 <= FakeB.remaining s <= FakeB.program_limit s
                           /\ FakeB.program_limit s <= U64_MAX |}; [|by intros s [? _] ].
  intros s b [Ha Hp] Hb. cbn. unfold FakeB.try_reserve. unfold U64_MAX in *.
  budget_cases; simpl; repeat split; auto; try lia; rewrite ?wrap64_small; lia.
Defined.

#[export] Instance unlimited_budget_laws : BudgetLaws UnlimitedB.UnlimitedBudget.
Proof.
  refine {| budget_ok s := True |}; [|by intros].
  intros s b _ Hb. cbn. unfold UnlimitedB.try_reserve.
  budget_cases; simpl; repeat split; auto; lia.
Defined.

(** ** Sequences of reservations and drops *)

Inductive BudgetOp :=
  | Reserve (bytes : Z)
  | DropNth (i : nat).

(** What a caller can observe after each operation: the result of a reservation
    and the bytes available. *)
Definition Observation : Type := option (result BufferBudgetError Z) * Z.

Section Run.
Context {St} `{BufferBudget St}.

(** [held] are the live reservations; an operation on a reservation that does not
    exist does nothing, since a reservation drops once. *)
Fixpoint run_budget (s : St) (held : list Z) (ops : list BudgetOp) : list Observation :=
  match ops with
  | [] => []
  | Reserve b :: ops =>
      let '(r, s') := try_reserve s b in
      (Some r, available s')
        :: run_budget s' (match r with Ok n => held ++ [n] | Err _ => held end) ops
  | DropNth i :: ops =>
      let s' := match held !! i with Some n => release s n | None => s end in
      (None, available s') :: run_budget s' (delete i held) ops
  end.
End Run.

(** The specification: a ledger of live reservations under two limits. *)
Definition ledger_sum (held : list Z) : Z := foldr Z.add 0 held.

Definition ledger_reserve (program tool : Z) (held : list Z) (b : Z) : result BufferBudgetError Z :=
  if b =? 0 then Err ZeroRequest
  else if tool <? b then Err (OverToolLimit b tool)
  else if program <? ledger_sum held + b
  then Err (InsufficientProgramBudget b (program - ledger_sum held))
  else Ok b.

Fixpoint run_ledger (program tool : Z) (held : list Z) (ops : list BudgetOp) : list Observation :=
  match ops with
  | [] => []
  | Reserve b :: ops =>
      let r := ledger_reserve program tool held b in
      let held := match r with Ok n => held ++ [n] | Err _ => held end in
      (Some r, program - ledger_sum held) :: run_ledger program tool held ops
  | DropNth i :: ops =>
      let held := delete i held in
      (None, program - ledger_sum held) :: run_ledger program tool held ops
  end.

Lemma ledger_sum_app l k : ledger_sum (l ++ k) = ledger_sum l + ledger_sum k.
Proof. induction l as [|x l IH]; [done|]. unfold ledger_sum in *. simpl. lia. Qed.

Lemma ledger_sum_delete held i n :
  held !! i = Some n -> ledger_sum (delete i held) = ledger_sum held - n.
Proof.
  revert i. induction held as [|x held IH]; intros [|i] Hi; simplify_eq/=.
  - unfold ledger_sum. simpl. lia.
  - apply IH in Hi. unfold ledger_sum in *. simpl. lia.
Qed.

Lemma delete_none (held : list Z) i : held !! i = None -> delete i held = held.
Proof.
  revert i. induction held as [|x held IH]; intros [|i] Hi; try done. simpl. f_equal. by apply IH.
Qed.

Lemma ledger_sum_nonneg held : Forall (fun n => 0 <= n) held -> 0 <= ledger_sum held.
Proof. induction 1 as [|n held Hn _ IH]; [done|]. unfold ledger_sum in *. simpl. lia. Qed.

Lemma ledger_sum_elem held n : Forall (fun n => 0 <= n) held -> n ∈ held -> n <= ledger_sum held.
Proof.
  intros Hf (i & Hi)%list_elem_of_lookup. pose proof (ledger_sum_delete _ _ _ Hi) as Hd.
  assert (0 <= ledger_sum (delete i held)) by (by apply ledger_sum_nonneg, Forall_delete). lia.
Qed.

(** A budget state for a ledger, read through a projection of its three
    numbers. *)
Lemma run_budget_ledger {St} `{BufferBudget St} (rep : Z -> St) program tool :
  0 < program <= U64_MAX ->
  (forall a, available (rep a) = a) ->
  (forall a b, try_reserve (rep a) b =
     if b =? 0 then (Err ZeroRequest, rep a)
     else if tool <? b then (Err (OverToolLimit b tool), rep a)
     else if a <? b then (Err (InsufficientProgramBudget b a), rep a)
     else (Ok b, rep (a - b))) ->
  (forall a b, release (rep a) b = rep (wrap64 (a + b))) ->
  forall ops held,
    Forall (fun op => match op with Reserve b => 0 <= b | _ => True end) ops ->
    Forall (fun n => 0 <= n) held -> ledger_sum held <= program ->
    run_budget (rep (program - ledger_sum held)) held ops = run_ledger program tool held ops.
Proof.
  intros Hp Hav Htry Hrel. induction ops as [|op ops IH]; intros held Hops Hheld Hsum; [done|].
  apply Forall_cons in Hops as [Hop Hops]. pose proof (ledger_sum_nonneg _ Hheld) as Hnn.
  destruct op as [b|i]; cbn [run_budget run_ledger].
  - rewrite Htry. unfold ledger_reserve.
    destruct (Z.eqb_spec b 0); [by rewrite Hav, IH|].
    destruct (Z.ltb_spec tool b); [by rewrite Hav, IH|].
    destruct (Z.ltb_spec (program - ledger_sum held) b), (Z.ltb_spec program (ledger_sum held + b));
      try lia; [by rewrite Hav, IH|].
    assert (Hs : ledger_sum (held ++ [b]) = ledger_sum held + b)
      by (rewrite ledger_sum_app; unfold ledger_sum; simpl; lia).
    rewrite Hav. replace (program - ledger_sum held - b) with (program - ledger_sum (held ++ [b])) by lia.
    f_equal. apply IH; [done| |lia]. by apply Forall_app_2; repeat constructor.
  - destruct (held !! i) as [n|] eqn:Hi.
    + pose proof (ledger_sum_delete _ _ _ Hi) as Hd.
      pose proof (ledger_sum_elem held n Hheld ltac:(by eapply list_elem_of_lookup_2)) as Hn.
      assert (0 <= n) by (rewrite Forall_lookup in Hheld; eauto).
      unfold U64_MAX in Hp.
      rewrite Hrel, Hav, wrap64_small by lia.
      replace (program - ledger_sum held + n) with (program - ledger_sum (delete i held)) by lia.
      f_equal. apply IH; [done|by apply Forall_delete|lia].
    + rewrite Hav. rewrite (delete_none held i) by done.
      f_equal. by apply IH.
Qed.

(** C25: the production budget and the test budget are the
    same ledger.  For every pair of limits that the constructors accept and every
    sequence of reservations and drops, [AtomicBudget] and [FakeBudget] return the
    same results and show the same available bytes as a ledger that grants a
    request exactly when it is not zero, not over the tool limit, and fits in the
    program limit next to the reservations still alive; a drop gives back exactly
    the bytes of its reservation. *)
Theorem budgets_refine_ledger program tool a f ops :
  AtomicB.new program tool = Some a -> FakeB.new program tool = Some f -> program <= U64_MAX ->
  Forall (fun op => match op with Reserve b => 0 <= b | _ => True end) ops ->
  run_budget a [] ops = run_ledger program tool [] ops /\
  run_budget f [] ops = run_ledger program tool [] ops.
Proof.
  unfold AtomicB.new, FakeB.new. intros Ha Hf Hp Hops.
  destruct ((0 <? program) && (0 <? tool) && (tool <=? program)) eqn:E; [|done]. simplify_eq.
  apply andb_true_iff in E as [[E1%Z.ltb_lt E2%Z.ltb_lt]%andb_true_iff E3%Z.leb_le].
  split.
  - pose proof (run_budget_ledger (fun a => AtomicB.mk program tool a) program tool ltac:(lia)
      ltac:(done) ltac:(intros; cbn; unfold AtomicB.try_reserve; cbn; by budget_cases) ltac:(done)
      ops [] Hops ltac:(constructor) ltac:(cbn; lia)) as Hr.
    simpl in Hr. by rewrite Z.sub_0_r in Hr.
  - pose proof (run_budget_ledger (fun a => FakeB.mk tool program a) program tool ltac:(lia)
      ltac:(done) ltac:(intros; cbn; unfold FakeB.try_reserve; cbn; by budget_cases) ltac:(done)
      ops [] Hops ltac:(constructor) ltac:(cbn; lia)) as Hr.
    simpl in Hr. by rewrite Z.sub_0_r in Hr.
Qed.

Lemma budgets_refine_ledger_witness :
  let ops := [Reserve 6; Reserve 6; DropNth 0; Reserve 6; Reserve 0; Reserve 9] in
  run_budget (AtomicB.mk 10 8 10) [] ops = run_ledger 10 8 [] ops /\
  run_budget (FakeB.mk 8 10 10) [] ops = run_ledger 10 8 [] ops.
Proof.
  apply (budgets_refine_ledger 10 8); [reflexivity|reflexivity|discriminate|repeat constructor; discriminate].
Defined.
