(* ===== verification/BudgetConcurrency.v ===== *)
(** * [AtomicBudget] under concurrent tools

    Any number of threads run [try_reserve]'s compare-exchange loop and drop
    their reservations; every atomic access is one step of the relation. *)

From S2P Require Import Prelude BufferBudget.

(** Where a thread is in [try_reserve]. *)
Inductive ThreadPc :=
  | TIdle
  | TLoop (bytes : Z)
  | TLoaded (bytes current : Z)
  | TDone (r : result BufferBudgetError Z).

(** The shared counter, the threads, and the reservations alive. *)
Record BudgetSys := mkSys {
  b_available : Z;
  b_threads : gmap nat ThreadPc;
  b_held : list Z;
}.

Section Steps.
Context (program tool : Z).

Inductive budget_step : BudgetSys -> BudgetSys -> Prop :=
  (** The checks before the loop. *)
  | step_zero a ts held t :
      ts !! t = Some TIdle ->
      budget_step (mkSys a ts held) (mkSys a (<[t := TDone (Err ZeroRequest)]> ts) held)
  | step_over a ts held t b :
      ts !! t = Some TIdle -> b <> 0 -> tool < b ->
      budget_step (mkSys a ts held) (mkSys a (<[t := TDone (Err (OverToolLimit b tool))]> ts) held)
  | step_enter a ts held t b :
      ts !! t = Some TIdle -> 0 < b -> b <= tool ->
      budget_step (mkSys a ts held) (mkSys a (<[t := TLoop b]> ts) held)
  (** [self.available.load]. *)
  | step_load a ts held t b :
      ts !! t = Some (TLoop b) ->
      budget_step (mkSys a ts held) (mkSys a (<[t := TLoaded b a]> ts) held)
  | step_insufficient a ts held t b current :
      ts !! t = Some (TLoaded b current) -> current < b ->
      budget_step (mkSys a ts held)
        (mkSys a (<[t := TDone (Err (InsufficientProgramBudget b current))]> ts) held)
  (** [compare_exchange(current, current - bytes)]. *)
  | step_exchange a ts held t b :
      ts !! t = Some (TLoaded b a) -> b <= a ->
      budget_step (mkSys a ts held) (mkSys (a - b) (<[t := TDone (Ok b)]> ts) (b :: held))
  | step_retry a ts held t b current :
      ts !! t = Some (TLoaded b current) -> b <= current -> current <> a ->
      budget_step (mkSys a ts held) (mkSys a (<[t := TLoop b]> ts) held)
  (** A thread starts over, and a reservation is dropped ([fetch_add]), by
      whichever task owns it. *)
  | step_again a ts held t r :
      ts !! t = Some (TDone r) ->
      budget_step (mkSys a ts held) (mkSys a (<[t := TIdle]> ts) held)
  | step_drop a ts h1 b h2 :
      budget_step (mkSys a ts (h1 ++ b :: h2)) (mkSys (wrap64 (a + b)) ts (h1 ++ h2)).

(** What holds at every moment: the counter and the live reservations add up to
    the program limit; a request in flight has passed the checks. *)
Definition budget_inv (s : BudgetSys) : Prop :=
  b_available s + ledger_sum (b_held s) = program /\ 0 <= b_available s /\
  Forall (fun b => 0 < b <= tool) (b_held s) /\
  forall t pc, b_threads s !! t = Some pc ->
    match pc with
    | TLoop b | TLoaded b _ => 0 < b <= tool
    | TDone (Err (InsufficientProgramBudget b current)) => current < b <= tool
    | _ => True
    end.

Lemma ledger_sum_middle h1 b h2 : ledger_sum (h1 ++ b :: h2) = b + ledger_sum (h1 ++ h2).
Proof. rewrite !ledger_sum_app. unfold ledger_sum. simpl. lia. Qed.

Lemma budget_step_inv s s' :
  program <= U64_MAX -> budget_inv s -> budget_step s s' -> budget_inv s'.
Proof.
  intros Hp (Hsum & Ha & Hheld & Hts) Hstep. unfold budget_inv.
  assert (Hthreads : forall (ts : gmap nat ThreadPc) t pc0 (Q : ThreadPc -> Prop),
    (forall t pc, ts !! t = Some pc -> Q pc) -> Q pc0 ->
    forall t' pc, <[t := pc0]> ts !! t' = Some pc -> Q pc).
  { intros ts t pc0 Q HQ H0 t' pc [ [_ <-] | [_ Hl] ]%lookup_insert_Some; eauto. }
  destruct Hstep as [| | |a ts held t b Ht|a ts held t b current Ht Hlt|a ts held t b Ht Hle
                    |a ts held t b current Ht| |a ts h1 b h2]; cbn [b_available b_held b_threads] in *;
    try (split_and!; [done..|]; apply Hthreads; [exact Hts|]; try done; try lia).
  - specialize (Hts _ _ Ht). done.
  - specialize (Hts _ _ Ht). simpl in Hts. lia.
  - specialize (Hts _ _ Ht) as Hb. simpl in Hb.
    change (ledger_sum (b :: held)) with (b + ledger_sum held).
    split_and!; [lia|lia|by constructor|]. by apply Hthreads.
  - specialize (Hts _ _ Ht). done.
  - rewrite ledger_sum_middle in Hsum. apply Forall_app in Hheld as [Hh1 Hh2].
    apply Forall_cons in Hh2 as [Hb Hh2].
    assert (Hnn : 0 <= ledger_sum (h1 ++ h2)).
    { apply ledger_sum_nonneg. eapply Forall_impl; [by apply Forall_app_2|]. simpl. lia. }
    unfold U64_MAX in Hp. rewrite wrap64_small by lia.
    split_and!; [lia|lia|by apply Forall_app_2|done].
Qed.

Definition budget_start (ts : gmap nat ThreadPc) : BudgetSys := mkSys program ts [].
End Steps.

(** C11: the budget holds under concurrency.  Start with a full
    pool and any set of idle threads.  Whatever the interleaving of loads,
    exchanges, retries and drops, the available bytes plus the bytes of the live
    reservations equal the program limit at every moment, so the reservations
    never exceed it and no release pushes the pool past it; every live
    reservation is between one byte and the tool limit; and a thread refused for
    insufficient budget had seen less available than it asked for. *)
Theorem budget_conserved program tool (threads : gset nat) s :
  0 < program <= U64_MAX ->
  rtc (budget_step tool) (budget_start program (gset_to_gmap TIdle threads)) s ->
  b_available s + ledger_sum (b_held s) = program /\
  0 <= b_available s <= program /\
  Forall (fun b => 0 < b <= tool) (b_held s) /\
  forall t b current,
    b_threads s !! t = Some (TDone (Err (InsufficientProgramBudget b current))) -> current < b <= tool.
Proof.
  intros Hp Hreach.
  assert (Hinv : budget_inv program tool s).
  { eapply rtc_preserves; [|  |exact Hreach].
    - intros x y. apply budget_step_inv. lia.
    - split_and!; cbn; [unfold ledger_sum; simpl; lia|lia|constructor|].
      intros t pc [_ <-]%lookup_gset_to_gmap_Some. done. }
  destruct Hinv as (Hsum & Ha & Hheld & Hts). split; [done|].
  assert (0 <= ledger_sum (b_held s)).
  { apply ledger_sum_nonneg. eapply Forall_impl; [done|]. simpl. lia. }
  split; [lia|]. split; [done|]. intros t b current Ht. apply (Hts _ _ Ht).
Qed.

(** Two threads ask for 6 of 10 bytes; the second loads before the first
    exchanges, retries, and is refused. *)
Definition race_end : BudgetSys :=
  mkSys 4 (<[1%nat := TDone (Err (InsufficientProgramBudget 6 4))]>
           (<[1%nat := TLoaded 6 4]> (<[1%nat := TLoop 6]> (<[0%nat := TDone (Ok 6)]>
            (<[1%nat := TLoaded 6 10]> (<[1%nat := TLoop 6]> (<[0%nat := TLoaded 6 10]>
             (<[0%nat := TLoop 6]> (gset_to_gmap TIdle {[0%nat; 1%nat]}))))))))) [6].

Lemma budget_conserved_witness :
  b_available race_end + ledger_sum (b_held race_end) = 10 /\
  0 <= b_available race_end <= 10 /\
  Forall (fun b => 0 < b <= 8) (b_held race_end) /\
  forall t b current,
    b_threads race_end !! t = Some (TDone (Err (InsufficientProgramBudget b current))) -> current < b <= 8.
Proof.
  apply (budget_conserved 10 8 {[0%nat; 1%nat]}); [split; [reflexivity|discriminate]|].
  unfold race_end, budget_start.
  eapply rtc_l. { apply (step_enter 8 _ _ _ 0 6); [reflexivity|reflexivity|discriminate]. }
  eapply rtc_l. { apply (step_load 8 _ _ _ 0 6). reflexivity. }
  eapply rtc_l. { apply (step_enter 8 _ _ _ 1 6); [reflexivity|reflexivity|discriminate]. }
  eapply rtc_l. { apply (step_load 8 _ _ _ 1 6). reflexivity. }
  eapply rtc_l. { apply (step_exchange 8 _ _ _ 0 6); [reflexivity|discriminate]. }
  eapply rtc_l. { apply (step_retry 8 _ _ _ 1 6 10); [reflexivity|discriminate|discriminate]. }
  eapply rtc_l. { apply (step_load 8 _ _ _ 1 6). reflexivity. }
  eapply rtc_l. { apply (step_insufficient 8 _ _ _ 1 6 4); [reflexivity|reflexivity]. }
  apply rtc_refl.
Defined.
