(* ===== verification/LogBuffer.v ===== *)
(** * [src/log_buffer.rs]: the bounded event log of a connection *)

From S2P Require Import Prelude RustStr.

Inductive LogEvent :=
  | RxData (bytes : Z)
  | TxData (bytes : Z)
  | Open
  | Close
  | Disconnect (error : list byte)
  | ReconnectStart (attempt : Z)
  | ReconnectSuccess
  | ReconnectFailed (attempt : Z) (error : list byte)
  | ReconnectExhausted
  | MatchFound (pattern mode : list byte)
  | Truncated (observed returned : Z)
  | ReadStarted
  | ReadCompleted (bytes : Z)
  | WriteStarted
  | WriteCompleted (bytes : Z)
  | Error (message : list byte).

Record LogEntry := mkEntry {
  timestamp_ms : Z;
  direction : option (list byte);
  event : LogEvent;
}.

Record LogBuffer := mkLog {
  events : list LogEntry;
  log_capacity : nat;
  enabled : bool;
}.

Definition log_new (capacity : nat) (enabled : bool) : LogBuffer := mkLog [] capacity enabled.

Definition log_default : LogBuffer := log_new 1024 false.

(** [while events.len() > capacity { events.pop_front(); }]. *)
Fixpoint pop_excess (capacity : nat) (events : list LogEntry) : list LogEntry :=
  match events with
  | [] => []
  | _ :: rest => if (capacity <? length events)%nat then pop_excess capacity rest else events
  end.

(** [record]; [now] is the clock in milliseconds since the epoch. *)
Definition record (l : LogBuffer) (now : Z) (direction : option (list byte)) (event : LogEvent)
    : LogBuffer :=
  if negb (enabled l) then l
  else
    let entry := mkEntry now direction event in
    mkLog (pop_excess (log_capacity l) (events l ++ [entry])) (log_capacity l) (enabled l).

Definition snapshot (l : LogBuffer) : list LogEntry := events l.

Definition log_clear (l : LogBuffer) : LogBuffer := mkLog [] (log_capacity l) (enabled l).

(** The recording shorthands. *)
Definition rx_data (l : LogBuffer) (now bytes : Z) : LogBuffer :=
  record l now (Some (bs "rx")) (RxData bytes).
Definition tx_data (l : LogBuffer) (now bytes : Z) : LogBuffer :=
  record l now (Some (bs "tx")) (TxData bytes).
Definition opened (l : LogBuffer) (now : Z) : LogBuffer := record l now None Open.
Definition closed (l : LogBuffer) (now : Z) : LogBuffer := record l now None Close.
Definition log_match_found (l : LogBuffer) (now : Z) (pattern mode : list byte) : LogBuffer :=
  record l now None (MatchFound pattern mode).
Definition truncated (l : LogBuffer) (now observed returned : Z) : LogBuffer :=
  record l now None (Truncated observed returned).

(** ** JSONL snapshots *)

Record JsonlSnapshot := mkJsonl { jsonl_bytes : list byte; jsonl_events : Z }.

(** The error texts of [jsonl_snapshot]. *)
Inductive JsonlError (E : Type) :=
  | SerializeFailed (e : E)
  | SnapshotSizeOverflow
  | LineSizeOverflow
  | EventCountOverflow
  | ExceedsQuota (max_bytes : Z).
Arguments SerializeFailed {_} _.
Arguments SnapshotSizeOverflow {_}.
Arguments LineSizeOverflow {_}.
Arguments EventCountOverflow {_}.
Arguments ExceedsQuota {_} _.

Section Jsonl.
(** [serde_json::to_string] on an entry. *)
Context {SerdeError : Type} (to_string : LogEntry -> result SerdeError (list byte)).

(** The loop of [jsonl_snapshot] over the remaining entries. *)
Fixpoint jsonl_loop (max_bytes : Z) (entries : list LogEntry) (out : list byte) (count : Z)
    : result (JsonlError SerdeError) JsonlSnapshot :=
  match entries with
  | [] => Ok (mkJsonl out count)
  | entry :: entries =>
      line ← map_err SerializeFailed (to_string entry);
      needed ← ok_or (checked_add (zlen line) 1) LineSizeOverflow;
      projected ← ok_or (checked_add (zlen out) needed) SnapshotSizeOverflow;
      if max_bytes <? projected then Err (ExceedsQuota max_bytes)
      else
        count ← ok_or (checked_add count 1) EventCountOverflow;
        jsonl_loop max_bytes entries (out ++ line ++ [x0a]) count
  end.

Definition jsonl_snapshot (l : LogBuffer) (max_bytes : Z)
    : result (JsonlError SerdeError) JsonlSnapshot :=
  jsonl_loop max_bytes (events l) [] 0.

(** The whole file: one line per entry. *)
Definition jsonl_lines (entries : list LogEntry) : option (list byte) :=
  foldr (fun entry rest =>
    match to_string entry, rest with
    | Ok line, Some rest => Some (line ++ [x0a] ++ rest)
    | _, _ => None
    end) (Some []) entries.

Lemma jsonl_loop_spec max_bytes : max_bytes <= U64_MAX -> forall entries out count,
  0 <= count -> count <= zlen out -> zlen out <= max_bytes ->
  match jsonl_loop max_bytes entries out count with
  | Ok s => exists rest, jsonl_lines entries = Some rest /\
      jsonl_bytes s = out ++ rest /\ jsonl_events s = count + zlen entries /\
      zlen (jsonl_bytes s) <= max_bytes
  | Err (SerializeFailed e) => exists entry, entry ∈ entries /\ to_string entry = Err e
  | Err _ => forall rest, jsonl_lines entries = Some rest -> max_bytes < zlen (out ++ rest)
  end.
Proof.
  intros Hmax. induction entries as [|entry entries IH]; intros out count Hc Hco Hout.
  { simpl. exists []. rewrite app_nil_r, zlen_nil. split_and!; (done || lia). }
  cbn [jsonl_loop jsonl_lines foldr]. fold (jsonl_lines entries).
  destruct (to_string entry) as [line|e] eqn:Hl; cbn [map_err mbind result_bind];
    [|exists entry; split; [by left|done] ].
  pose proof (zlen_nonneg line). pose proof (zlen_nonneg out).
  assert (Hbig : max_bytes < zlen out + (zlen line + 1) -> forall rest,
    match jsonl_lines entries with Some rest => Some (line ++ [x0a] ++ rest) | None => None end
      = Some rest -> max_bytes < zlen (out ++ rest)).
  { intros Hlt rest Hr. destruct (jsonl_lines entries) as [r|]; simplify_eq.
    autorewrite with serial. pose proof (zlen_nonneg r). lia. }
  unfold checked_add. unfold U64_MAX in *.
  destruct (Z.ltb_spec (2 ^ 64 - 1) (zlen line + 1)); cbn [ok_or mbind result_bind]; [apply Hbig; lia|].
  destruct (Z.ltb_spec (2 ^ 64 - 1) (zlen out + (zlen line + 1))); cbn [ok_or mbind result_bind];
    [apply Hbig; lia|].
  destruct (Z.ltb_spec max_bytes (zlen out + (zlen line + 1))); [apply Hbig; lia|].
  destruct (Z.ltb_spec (2 ^ 64 - 1) (count + 1)); cbn [ok_or mbind result_bind]; [lia|].
  specialize (IH (out ++ line ++ [x0a]) (count + 1)). autorewrite with serial in IH.
  specialize (IH ltac:(lia) ltac:(lia) ltac:(lia)).
  assert (Hassoc : forall r, (out ++ line ++ [x0a]) ++ r = out ++ line ++ [x0a] ++ r)
    by (intros; by rewrite <- !(assoc_L (++))).
  destruct (jsonl_loop _ _ _ _) as [s|[e| | | |m] ].
  - destruct IH as (rest & -> & Hb & He & Hm). eexists. split; [done|].
    split_and!; [by rewrite Hb, Hassoc|rewrite He; autorewrite with serial; lia|done].
  - destruct IH as (en & Hin & He). exists en. split; [by right|done].
  - intros rest. destruct (jsonl_lines entries) as [r|]; intros [= <-].
    specialize (IH _ eq_refl). by rewrite Hassoc in IH.
  - intros rest. destruct (jsonl_lines entries) as [r|]; intros [= <-].
    specialize (IH _ eq_refl). by rewrite Hassoc in IH.
  - intros rest. destruct (jsonl_lines entries) as [r|]; intros [= <-].
    specialize (IH _ eq_refl). by rewrite Hassoc in IH.
  - intros rest. destruct (jsonl_lines entries) as [r|]; intros [= <-].
    specialize (IH _ eq_refl). by rewrite Hassoc in IH.
Qed.

(** A JSONL snapshot is exact or refused.  When it
    succeeds it is one newline-terminated line per entry, in order, of at most
    [max_bytes] bytes, with the number of entries; an error other than a failed
    serialisation is raised only if the complete snapshot is larger than
    [max_bytes].  No partial snapshot is ever returned. *)
Theorem jsonl_snapshot_exact l max_bytes :
  0 <= max_bytes <= U64_MAX ->
  match jsonl_snapshot l max_bytes with
  | Ok s => jsonl_lines (events l) = Some (jsonl_bytes s) /\
      jsonl_events s = zlen (events l) /\ zlen (jsonl_bytes s) <= max_bytes
  | Err (SerializeFailed e) => exists entry, entry ∈ events l /\ to_string entry = Err e
  | Err _ => forall file, jsonl_lines (events l) = Some file -> max_bytes < zlen file
  end.
Proof.
  intros Hm. pose proof (jsonl_loop_spec max_bytes ltac:(lia) (events l) [] 0 ltac:(lia)
    ltac:(done) ltac:(rewrite zlen_nil; lia)) as Hs. unfold jsonl_snapshot.
  destruct (jsonl_loop _ _ _ _) as [s|[] ]; try done.
  destruct Hs as (rest & Hr & Hb & He & Hle). cbn [app] in Hb. rewrite Hb in *.
  split_and!; try done; lia.
Qed.
End Jsonl.

Lemma jsonl_snapshot_exact_witness :
  let l := rx_data (opened (log_new 4 true) 7) 8 3 in
  let to_string := fun e : LogEntry => @Ok unit _ (bs "{}") in
  match jsonl_snapshot to_string l 6 with
  | Ok s => jsonl_lines to_string (events l) = Some (jsonl_bytes s) /\
      jsonl_events s = zlen (events l) /\ zlen (jsonl_bytes s) <= 6
  | Err (SerializeFailed e) => exists entry, entry ∈ events l /\ to_string entry = Err e
  | Err _ => forall file, jsonl_lines to_string (events l) = Some file -> 6 < zlen file
  end.
Proof.
  apply (jsonl_snapshot_exact (fun e => @Ok unit _ (bs "{}")) (rx_data (opened (log_new 4 true) 7) 8 3) 6).
  split; discriminate.
Defined.

(** ** The ring semantics *)

Lemma pop_excess_drop cap l : pop_excess cap l = drop (length l - cap) l.
Proof.
  induction l as [|e l IH]; [done|]. cbn [pop_excess].
  destruct (Nat.ltb_spec cap (length (e :: l))).
  - rewrite IH. cbn [length] in *. by replace (S (length l) - cap)%nat with (S (length l - cap)) by lia.
  - by replace (length (e :: l) - cap)%nat with 0%nat by lia.
Qed.

Inductive LogOp :=
  | LogRecord (now : Z) (direction : option (list byte)) (event : LogEvent)
  | LogClear.

Definition log_op (l : LogBuffer) (op : LogOp) : LogBuffer :=
  match op with
  | LogRecord now d e => record l now d e
  | LogClear => log_clear l
  end.

(** The entries recorded since the last clear. *)
Definition recorded (ops : list LogOp) : list LogEntry :=
  foldl (fun es op => match op with
                      | LogRecord now d e => es ++ [mkEntry now d e]
                      | LogClear => []
                      end) [] ops.

(** The log holds the latest entries.  After any sequence of
    records and clears, an enabled log holds exactly the last [capacity] entries
    recorded since the last clear, oldest first (all of them when they fit,
    nothing for capacity zero), and a disabled log holds none. *)
Theorem log_keeps_latest capacity enabled ops :
  snapshot (foldl log_op (log_new capacity enabled) ops) =
    if enabled then drop (length (recorded ops) - capacity) (recorded ops) else [].
Proof.
  assert (Hst : forall ops, foldl log_op (log_new capacity enabled) ops =
    mkLog (if enabled then drop (length (recorded ops) - capacity) (recorded ops) else [])
      capacity enabled).
  { clear ops. intros ops. induction ops as [|op ops IH] using rev_ind.
    { simpl. by destruct enabled. }
    rewrite foldl_snoc, IH. unfold recorded. rewrite foldl_snoc. fold (recorded ops).
    destruct op as [now d e|]; unfold log_op, record, log_clear; cbn [LogBuffer.enabled events log_capacity].
    - destruct enabled; cbn [negb]; [|done]. f_equal. rewrite pop_excess_drop.
      set (es := recorded ops). rewrite !length_app, length_drop. cbn [length].
      destruct (decide (length es <= capacity)%nat).
      + replace (length es - capacity)%nat with 0%nat by lia. by rewrite drop_0, Nat.sub_0_r.
      + rewrite <- drop_app_le by lia. rewrite drop_drop. f_equal. lia.
    - by destruct enabled. }
  by rewrite Hst.
Qed.
