(* ===== verification/MatchConfig.v ===== *)
(** * [src/match_config.rs]: pattern matching on the receive stream

    The [Matcher] with its three modes, the bounded window of [push_bounded] and
    the shaping of pre-match context. *)

From S2P Require Import Prelude Util RustStr Extern Codec FramingConfig.

Definition LF : byte := x0a.

(** [REGEX_GLOB_OVERLAP_ALLOWANCE]. *)
Definition REGEX_GLOB_OVERLAP_ALLOWANCE : Z := 256.

Inductive MatchMode := LiteralSubstring | RegexMode | GlobMode.

Record MatchConfig := mkMatchConfig {
  mode : MatchMode;
  pattern_encoding : PatternEncoding;
  context_amount_of_matched_bytes : option Z;
}.

(** [Default for MatchConfig]. *)
Definition MatchConfig_default : MatchConfig := mkMatchConfig LiteralSubstring PUtf8 None.

Record MatchRequest := mkMatchRequest { pattern : list byte; config : MatchConfig }.

(** The result of shaping a matched payload. *)
Record ShapedMatchPayload := mkShaped {
  sh_data : list byte;
  sh_match_index : nat;
  sh_needle_len : nat;
}.

Record SavedMatchContext := mkSaved { global_index : nat; payload : ShapedMatchPayload }.

(** Offsets are relative to the bytes fed since the last [reset_window]. *)
Inductive MatchResult := NoMatch | Found (i : nat).

#[export] Instance MatchResult_eq_dec : EqDecision MatchResult.
Proof. solve_decision. Defined.

Section Matcher.
Context `{HexCrate, Base64Crate, RegexCrate, GlobCrate}.

Inductive Matcher :=
  | Literal (needle window : list byte) (context_amount : option Z) (base : nat)
      (last_match_context : option SavedMatchContext)
  | MRegex (re : Regex) (window : list byte) (context_amount : option Z) (base : nat)
  | Glob (pat : Pattern) (window : list byte) (context_amount : option Z) (base : nat)
      (first_line_partial : bool).

(** [Matcher::new_literal]. *)
Definition new_literal (needle : list byte) : option Matcher :=
  if bool_decide (needle = []) then None else Some (Literal needle [] None 0 None).

Definition with_context (m : Matcher) (context_amount : option Z) : Matcher :=
  match m with
  | Literal needle window _ base last => Literal needle window context_amount base last
  | MRegex re window _ base => MRegex re window context_amount base
  | Glob pat window _ base partial => Glob pat window context_amount base partial
  end.

Definition context_amount_of (m : Matcher) : option Z :=
  match m with
  | Literal _ _ context _ _ | MRegex _ _ context _ | Glob _ _ context _ _ => context
  end.

(** [needle_len]: the match length, known for literals only. *)
Definition needle_len (m : Matcher) : option nat :=
  match m with
  | Literal needle _ _ _ _ => Some (length needle)
  | _ => None
  end.

Definition window_of (m : Matcher) : list byte :=
  match m with
  | Literal _ window _ _ _ | MRegex _ window _ _ | Glob _ window _ _ _ => window
  end.

Definition base_of (m : Matcher) : nat :=
  match m with
  | Literal _ _ _ base _ | MRegex _ _ _ base | Glob _ _ _ base _ => base
  end.

Definition matcher_len (m : Matcher) : nat := length (window_of m).

(** [line.strip_suffix('\r').unwrap_or(line)]. *)
Definition strip_cr (line : list byte) : list byte :=
  if ends_with line [x0d] then take (length line - 1) line else line.

(** The loop of the glob arm of [check] over the lines of the decoded window. *)
Fixpoint glob_lines (pat : Pattern) (skip : bool) (byte_offset : nat) (lines : list (list byte))
    : option nat :=
  match lines with
  | [] => None
  | line :: lines =>
      if negb skip && pattern_matches pat (strip_cr line) then Some byte_offset
      else glob_lines pat false (byte_offset + (length line + 1)) lines
  end.

(** [Matcher::check]. *)
Definition check (m : Matcher) : MatchResult :=
  match m with
  | Literal needle window _ base _ =>
      match find_subsequence window needle with
      | Some i => Found (base + i)
      | None => NoMatch
      end
  | MRegex re window _ base =>
      match regex_find re window with
      | Some start => Found (base + start)
      | None => NoMatch
      end
  | Glob pat window _ base first_line_partial =>
      let decoded := from_utf8_lossy window in
      match glob_lines pat first_line_partial 0 (split_on (fun b => bool_decide (b = LF)) decoded) with
      | Some byte_offset => Found (base + byte_offset)
      | None => NoMatch
      end
  end.

(** [save_literal_context]. *)
Definition save_literal_context (m : Matcher) (global_index : nat) (context_cap : option Z) : Matcher :=
  match m with
  | Literal needle window (Some context) base _ =>
      let effective_context :=
        match context_cap with Some cap => Z.min context cap | None => context end in
      let local := (global_index - base)%nat in
      let pre_start := Z.to_nat (saturating_sub (Z.of_nat local) effective_context) in
      let match_end := Nat.min (local + length needle) (length window) in
      let payload := mkShaped (take (match_end - pre_start) (drop pre_start window))
                       (local - pre_start) (length needle) in
      Literal needle window (Some context) base (Some (mkSaved global_index payload))
  | _ => m
  end.

(** [window.extend_from_slice(chunk)], any saved context forgotten. *)
Definition extend_window (m : Matcher) (chunk : list byte) : Matcher :=
  match m with
  | Literal needle window context base _ => Literal needle (window ++ chunk) context base None
  | MRegex re window context base => MRegex re (window ++ chunk) context base
  | Glob pat window context base partial => Glob pat (window ++ chunk) context base partial
  end.

(** [Matcher::push]. *)
Definition match_push (m : Matcher) (chunk : list byte) : MatchResult * Matcher :=
  let m := extend_window m chunk in
  match check m with
  | Found i => (Found i, save_literal_context m i None)
  | NoMatch => (NoMatch, m)
  end.

(** [retained_window_limit]. *)
Definition retained_window_limit (m : Matcher) (max_buffered_bytes : Z) : Z :=
  let allowance :=
    match m with
    | Literal needle _ _ _ _ => saturating_sub (zlen needle) 1
    | MRegex _ _ _ _ | Glob _ _ _ _ _ => REGEX_GLOB_OVERLAP_ALLOWANCE
    end in
  saturating_add max_buffered_bytes allowance.

(** [truncate_front]; the name [drop] is the number of bytes removed. *)
Definition truncate_front (m : Matcher) (keep : Z) : Matcher :=
  let n := Z.to_nat (saturating_sub (zlen (window_of m)) keep) in
  if (0 <? n)%nat then
    match m with
    | Literal needle window context base last => Literal needle (drop n window) context (base + n) last
    | MRegex re window context base => MRegex re (drop n window) context (base + n)
    | Glob pat window context base _ =>
        Glob pat (drop n window) context (base + n)
          (negb (bool_decide (window !! (n - 1)%nat = Some LF)))
    end
  else m.

(** [Matcher::push_bounded]. *)
Definition push_bounded (m : Matcher) (chunk : list byte) (max_buffered_bytes : Z)
    : MatchResult * Matcher :=
  let '(result, m) := match_push m chunk in
  let m := match result with
           | Found i => save_literal_context m i (Some max_buffered_bytes)
           | NoMatch => m
           end in
  let limit := retained_window_limit m max_buffered_bytes in
  (result, if limit <? zlen (window_of m) then truncate_front m limit else m).

(** [reset_window]. *)
Definition reset_window (m : Matcher) : Matcher :=
  match m with
  | Literal needle _ context _ _ => Literal needle [] context 0 None
  | MRegex re _ context _ => MRegex re [] context 0
  | Glob pat _ context _ _ => Glob pat [] context 0 false
  end.

(** [shape_literal_match_context]. *)
Definition shape_literal_match_context (m : Matcher) (global_match_index : nat)
    : option ShapedMatchPayload :=
  match m with
  | Literal _ _ (Some _) _ (Some ctx) =>
      if decide (global_index ctx = global_match_index) then Some (payload ctx) else None
  | _ => None
  end.

(** ** Request validation *)

Inductive MatchRequestError :=
  | PatternDecoding (e : CodecError)
  | PatternEmpty
  | InvalidRegex (e : RegexError)
  | InvalidGlob (e : PatternError).

(** [validate_match_request]. *)
Definition validate_match_request (req : MatchRequest) : result MatchRequestError Matcher :=
  let c := config req in
  decoded ← map_err PatternDecoding (decode (PatternEncoding_into (pattern_encoding c)) (pattern req));
  if bool_decide (decoded = []) then Err PatternEmpty
  else
    let context := context_amount_of_matched_bytes c in
    match mode c with
    | LiteralSubstring =>
        match new_literal decoded with
        | Some m => Ok (with_context m context)
        | None => Err PatternEmpty
        end
    | RegexMode =>
        re ← map_err InvalidRegex (regex_new (from_utf8_lossy decoded));
        Ok (MRegex re [] context 0)
    | GlobMode =>
        pat ← map_err InvalidGlob (pattern_new (from_utf8_lossy decoded));
        Ok (Glob pat [] context 0 false)
    end.

End Matcher.

(** [shape_match_context]; a slice out of range is the panic, [None]. *)
Definition shape_match_context (accumulated : list byte) (match_index needle_len : nat)
    (context_amount : option Z) : option ShapedMatchPayload :=
  match context_amount with
  | None => Some (mkShaped accumulated match_index needle_len)
  | Some n =>
      let pre_start := Z.to_nat (saturating_sub (Z.of_nat match_index) n) in
      let match_end := (match_index + needle_len)%nat in
      if (match_end <=? length accumulated)%nat
      then Some (mkShaped (take (match_end - pre_start) (drop pre_start accumulated))
                   (match_index - pre_start) needle_len)
      else None
  end.
