(* ===== verification/MatchWindow.v ===== *)
(** * The bounded match window against the whole stream

    [push_bounded] keeps a bounded suffix of the stream only; a literal search
    over the chunks is nevertheless a search over the whole stream, the saved
    context is a piece of the stream, and a glob never matches a line whose
    start was cut off. *)

From S2P Require Import Prelude Util RustStr Extern ExternModel Codec FramingConfig MatchConfig.

Section Window.
Context `{HexCrate, Base64Crate, RegexCrate, GlobCrate}.

(** Feeding chunks until a match: the result, the matcher, and the bytes fed. *)
Fixpoint push_until (m : Matcher) (max : Z) (chunks : list (list byte))
    : MatchResult * Matcher * list byte :=
  match chunks with
  | [] => (NoMatch, m, [])
  | c :: chunks =>
      match push_bounded m c max with
      | (Found g, m) => (Found g, m, c)
      | (NoMatch, m) =>
          let '(r, m, fed) := push_until m max chunks in (r, m, c ++ fed)
      end
  end.

(** ** The retained window never exceeds its limit *)

Lemma save_literal_context_window m i cap :
  window_of (save_literal_context m i cap) = window_of m /\
  forall max, retained_window_limit (save_literal_context m i cap) max = retained_window_limit m max.
Proof. by destruct m as [? ? []| |]. Qed.

Lemma truncate_front_window m keep :
  0 <= keep -> zlen (window_of (truncate_front m keep)) <= keep \/
               window_of (truncate_front m keep) = window_of m /\ zlen (window_of m) <= keep.
Proof.
  intros Hk. unfold truncate_front, saturating_sub.
  destruct (Nat.ltb_spec 0 (Z.to_nat (Z.max 0 (zlen (window_of m) - keep)))).
  - left. destruct m; cbn [window_of] in *; unfold zlen in *; rewrite length_drop; lia.
  - right. split; [done|]. lia.
Qed.

Lemma retained_limit_nonneg m max : 0 <= max -> 0 <= retained_window_limit m max.
Proof.
  intros Hm. unfold retained_window_limit, saturating_add, saturating_sub, U64_MAX.
  destruct m; unfold REGEX_GLOB_OVERLAP_ALLOWANCE; lia.
Qed.

Lemma truncate_front_limit m keep max :
  retained_window_limit (truncate_front m keep) max = retained_window_limit m max.
Proof. unfold truncate_front. destruct (_ <? _)%nat; by destruct m. Qed.

Lemma push_bounded_window m chunk max :
  0 <= max ->
  zlen (window_of (push_bounded m chunk max).2) <= retained_window_limit m max.
Proof.
  intros Hm. unfold push_bounded. destruct (match_push m chunk) as [r m1] eqn:Hp.
  assert (Hl1 : forall k, retained_window_limit m1 k = retained_window_limit m k).
  { unfold match_push in Hp. destruct (check _); simplify_eq; intros k.
    - by destruct m.
    - destruct (save_literal_context_window (extend_window m chunk) i None) as [_ ->]. by destruct m. }
  set (m2 := match r with Found i => save_literal_context m1 i (Some max) | NoMatch => m1 end).
  assert (Hl2 : forall k, retained_window_limit m2 k = retained_window_limit m k).
  { intros k. unfold m2. destruct r; [done|].
    by destruct (save_literal_context_window m1 i (Some max)) as [_ ->]. }
  cbn [snd]. rewrite Hl2. destruct (Z.ltb_spec (retained_window_limit m max) (zlen (window_of m2))); [|done].
  pose proof (retained_limit_nonneg m max Hm).
  destruct (truncate_front_window m2 (retained_window_limit m max)) as [|[-> ?] ]; lia.
Qed.

(** ** Literal patterns *)

(** A literal matcher that has seen [seen] without a match. *)
Definition lit_state (needle : list byte) (ctx : option Z) (max : Z) (seen : list byte) (m : Matcher)
    : Prop :=
  exists base saved, m = Literal needle (drop base seen) ctx base saved /\
    (base <= length seen)%nat /\
    (base = 0%nat \/ max + zlen needle - 1 <= zlen (drop base seen)) /\
    find_subsequence seen needle = None.

(** What the bytes just fed add: a match is the first occurrence in the stream. *)
Lemma window_search needle max seen chunk base :
  needle <> [] -> 0 <= max -> (base <= length seen)%nat ->
  (base = 0%nat \/ max + zlen needle - 1 <= zlen (drop base seen)) ->
  find_subsequence seen needle = None ->
  find_subsequence (seen ++ chunk) needle
    = (fun i => base + i)%nat <$> find_subsequence (drop base (seen ++ chunk)) needle.
Proof.
  intros Hne Hm Hb Hret Hno. rewrite find_subsequence_None in Hno by done.
  assert (Hlow : forall j, (j < base)%nat -> ~ occurs_at needle (seen ++ chunk) j).
  { intros j Hj Ho. destruct Hret as [->|Hret]; [lia|].
    unfold zlen in Hret. rewrite length_drop in Hret.
    apply (Hno j), (occurs_at_app_inv _ _ chunk); [lia|done]. }
  destruct (find_subsequence (drop base (seen ++ chunk)) needle) as [i|] eqn:Hf; simpl.
  - apply find_subsequence_Some in Hf as (_ & Ho & Hmin). apply find_subsequence_Some.
    split; [done|]. split; [by apply occurs_at_drop|]. intros j Hj Hoj.
    destruct (decide (j < base)%nat); [by apply (Hlow j)|].
    apply (Hmin (j - base)%nat); [lia|]. apply occurs_at_drop.
    by replace (base + (j - base))%nat with j by lia.
  - apply find_subsequence_None; [done|]. intros j Ho. rewrite find_subsequence_None in Hf by done.
    destruct (decide (j < base)%nat); [by apply (Hlow j)|].
    apply (Hf (j - base)%nat), occurs_at_drop. by replace (base + (j - base))%nat with j by lia.
Qed.

(** The context kept for a match at [g]. *)
Definition kept_context (ctx max : Z) (g : nat) : nat :=
  Nat.min (Z.to_nat (Z.min ctx max)) g.

Definition stream_context (stream needle : list byte) (ctx max : Z) (g : nat) : ShapedMatchPayload :=
  let k := kept_context ctx max g in
  mkShaped (take (k + length needle) (drop (g - k) stream)) k (length needle).

(** Cutting the window to its limit keeps the state, when nothing matched. *)
Lemma truncated_lit_state needle ctx max seen base :
  needle <> [] -> 0 <= max -> zlen seen <= U64_MAX -> (base <= length seen)%nat ->
  (base = 0%nat \/ max + zlen needle - 1 <= zlen (drop base seen)) ->
  find_subsequence seen needle = None ->
  let m := Literal needle (drop base seen) ctx base None in
  let limit := retained_window_limit m max in
  lit_state needle ctx max seen (if limit <? zlen (window_of m) then truncate_front m limit else m).
Proof.
  intros Hne Hm Hlen Hb Hret Hno m limit. assert (Hgoal : lit_state needle ctx max seen m) by (by exists base, None).
  subst m limit. unfold retained_window_limit, saturating_add, saturating_sub. cbn [window_of].
  pose proof (zlen_nonneg needle).
  assert (0 < zlen needle) by (unfold zlen; destruct needle; [done|simpl; lia]).
  destruct (Z.ltb_spec (Z.min U64_MAX (max + Z.max 0 (zlen needle - 1))) (zlen (drop base seen)))
    as [Hlt|]; [|done].
  assert (Hnomax : zlen (drop base seen) <= U64_MAX) by (unfold zlen in *; rewrite length_drop; lia).
  unfold truncate_front, saturating_sub. cbn [window_of]. case_match eqn:Hd; [|done].
  apply Nat.ltb_lt in Hd.
  set (n := Z.to_nat _) in *. exists (base + n)%nat, None. rewrite drop_drop. split; [done|].
  assert (n <= length (drop base seen))%nat by (unfold n, zlen; lia).
  rewrite length_drop in *. split; [lia|]. split; [|done]. right.
  rewrite <- drop_drop. unfold zlen at 2. rewrite length_drop. unfold n, zlen in *. lia.
Qed.

Lemma push_bounded_literal needle ctx max seen m chunk :
  needle <> [] -> 0 <= max -> (forall c, ctx = Some c -> 0 <= c) ->
  zlen needle <= U64_MAX -> zlen (seen ++ chunk) <= U64_MAX ->
  lit_state needle ctx max seen m ->
  match push_bounded m chunk max with
  | (NoMatch, m') => lit_state needle ctx max (seen ++ chunk) m'
  | (Found g, m') =>
      find_subsequence (seen ++ chunk) needle = Some g /\
      shape_literal_match_context m' g
        = (fun c => stream_context (seen ++ chunk) needle c max g) <$> ctx
  end.
Proof.
  intros Hne Hm Hctx Hn Hlen (base & saved & -> & Hb & Hret & Hno).
  pose proof (window_search _ _ _ chunk _ Hne Hm Hb Hret Hno) as Hs.
  assert (Hw : drop base seen ++ chunk = drop base (seen ++ chunk)) by (by rewrite drop_app_le).
  unfold push_bounded, match_push. cbn [extend_window check]. rewrite Hw.
  destruct (find_subsequence (drop base (seen ++ chunk)) needle) as [i|] eqn:Hf; simpl in Hs.
  - (* a match at [base + i] *)
    set (g := (base + i)%nat) in *.
    pose proof (find_subsequence_bound _ _ _ Hf) as Hbound. rewrite length_drop in Hbound.
    assert (Hlate : (length seen < g + length needle)%nat).
    { destruct (decide (g + length needle <= length seen)%nat); [|lia].
      apply find_subsequence_Some in Hs as (_ & Ho & _).
      rewrite find_subsequence_None in Hno by done.
      exfalso. apply (Hno g). by apply (occurs_at_app_inv _ _ chunk). }
    split; [done|].
    destruct ctx as [c|]; cbn [save_literal_context].
    2: { unfold truncate_front. by repeat case_match. }
    specialize (Hctx c eq_refl).
    match goal with |- shape_literal_match_context (if _ then truncate_front ?m _ else _) _ = _ =>
      assert (Hsh : forall keep, shape_literal_match_context (truncate_front m keep) g
                                 = shape_literal_match_context m g)
        by (intros keep; unfold truncate_front; by destruct (_ <? _)%nat) end.
    case_match; rewrite ?Hsh; clear Hsh; cbn [shape_literal_match_context global_index payload fmap option_fmap option_map].
    all: rewrite decide_True by done; f_equal; unfold stream_context; cbv zeta.
    all: replace (g - base)%nat with i by lia; rewrite length_drop.
    all: assert (Hk : kept_context c max g = (i - Z.to_nat (saturating_sub (Z.of_nat i) (Z.min c max)))%nat)
      by (unfold kept_context, saturating_sub; unfold zlen in *; rewrite ?length_drop in Hret; lia).
    all: rewrite Hk; clear -Hbound Hctx Hm; f_equal; rewrite drop_drop; unfold saturating_sub, g; f_equal; [lia|f_equal; lia].
  - (* no match: truncate *)
    apply truncated_lit_state; [done..|rewrite length_app; lia| |done].
    destruct Hret as [?|Hret]; [by left|]. right. rewrite <- Hw, zlen_app.
    pose proof (zlen_nonneg chunk). lia.
Qed.

Lemma push_until_literal needle ctx max : forall chunks seen m,
  needle <> [] -> 0 <= max -> (forall c, ctx = Some c -> 0 <= c) ->
  zlen needle <= U64_MAX -> zlen (seen ++ concat chunks) <= U64_MAX ->
  lit_state needle ctx max seen m ->
  let '(r, m', fed) := push_until m max chunks in
  match r with
  | NoMatch => fed = concat chunks /\ find_subsequence (seen ++ fed) needle = None
  | Found g => fed `prefix_of` concat chunks /\ find_subsequence (seen ++ fed) needle = Some g /\
      shape_literal_match_context m' g
        = (fun c => stream_context (seen ++ fed) needle c max g) <$> ctx
  end.
Proof.
  induction chunks as [|c chunks IH]; intros seen m Hne Hm Hctx Hn Hlen Hst; cbn [push_until concat].
  { destruct Hst as (base & saved & _ & _ & _ & Hno). by rewrite app_nil_r. }
  cbn [concat] in Hlen.
  assert (Hlen1 : zlen (seen ++ c) <= U64_MAX).
  { rewrite !zlen_app in *. pose proof (zlen_nonneg (concat chunks)). lia. }
  pose proof (push_bounded_literal _ _ _ _ _ c Hne Hm Hctx Hn Hlen1 Hst) as Hp.
  destruct (push_bounded m c max) as [ [|g] m1].
  - specialize (IH (seen ++ c) m1 Hne Hm Hctx Hn ltac:(by rewrite <- (assoc_L (++))) Hp).
    destruct (push_until m1 max chunks) as [ [r m2] fed]. rewrite <- (assoc_L (++)) in IH.
    destruct r; [by destruct IH as [-> ?]|]. destruct IH as [Hpre IH]. split; [by apply prefix_app|done].
  - destruct Hp as [Hf Hsh]. split; [by apply prefix_app_r|done].
Qed.

(** C18: a literal match on the live stream.  A
    fresh literal matcher is fed chunks under any buffer cap until it reports a
    match.  It reports one exactly when the concatenation of the chunks contains
    the needle, whatever the cap and the cut into chunks; the reported index is
    the first occurrence in the whole stream.  With context configured, the
    shaped payload is the matched bytes preceded by the
    [min (context, cap, index)] bytes of the stream before them. *)
Theorem literal_match_is_stream_search needle ctx max chunks m :
  new_literal needle = Some m ->
  0 <= max -> (forall c, ctx = Some c -> 0 <= c) ->
  zlen needle <= U64_MAX -> zlen (concat chunks) <= U64_MAX ->
  let '(r, m', fed) := push_until (with_context m ctx) max chunks in
  find_subsequence (concat chunks) needle = (match r with Found g => Some g | NoMatch => None end) /\
  forall g, r = Found g -> fed `prefix_of` concat chunks /\
    shape_literal_match_context m' g
      = (fun c => stream_context fed needle c max g) <$> ctx.
Proof.
  unfold new_literal. case_bool_decide as Hne; [done|]. intros [= <-] Hm Hctx Hn Hlen.
  cbn [with_context].
  assert (Hst : lit_state needle ctx max [] (Literal needle [] ctx 0 None)).
  { exists 0%nat, None. split; [done|]. split; [done|]. split; [by left|]. apply find_subsequence_nil. }
  pose proof (push_until_literal needle ctx max chunks [] _ Hne Hm Hctx Hn Hlen Hst) as Hp.
  destruct (push_until _ max chunks) as [ [r m'] fed]. cbn [app] in Hp. destruct r as [|g].
  - destruct Hp as [-> Hf]. by split.
  - destruct Hp as ([k Hk] & Hf & Hsh). split.
    + rewrite Hk. by apply find_subsequence_app_Some.
    + intros g' [= <-]. split; [by exists k|done].
Qed.

(** Any sequence of bounded pushes. *)
Definition push_all_bounded (m : Matcher) (max : Z) (chunks : list (list byte)) : Matcher :=
  foldl (fun m c => (push_bounded m c max).2) m chunks.

Lemma push_bounded_limit m c max k :
  retained_window_limit (push_bounded m c max).2 k = retained_window_limit m k.
Proof.
  unfold push_bounded, match_push. destruct (check _); cbn [snd]; case_match;
    rewrite ?truncate_front_limit; try by destruct m.
  all: rewrite !(proj2 (save_literal_context_window _ _ _)); by destruct m.
Qed.

(** Memory is bounded.  In every mode, after any
    non-empty sequence of chunks of any size, match or no match, the retained
    window holds at most [max_buffered_bytes] plus the allowance of the mode (one
    less than the needle for literals, 256 bytes for regex and glob). *)
Theorem match_window_bounded m max c chunks :
  0 <= max ->
  zlen (window_of (push_all_bounded m max (c :: chunks))) <= retained_window_limit m max.
Proof.
  intros Hm. unfold push_all_bounded. cbn [foldl].
  assert (Hgen : forall cs m', zlen (window_of m') <= retained_window_limit m' max ->
    zlen (window_of (foldl (fun m c => (push_bounded m c max).2) m' cs)) <= retained_window_limit m' max).
  { induction cs as [|x cs IH]; intros m' Hm'; [done|]. cbn [foldl].
    rewrite <- (push_bounded_limit m' x max max). apply IH.
    rewrite push_bounded_limit. by apply push_bounded_window. }
  rewrite <- (push_bounded_limit m c max max). apply Hgen.
  rewrite push_bounded_limit. by apply push_bounded_window.
Qed.

(** ** Glob patterns *)

Lemma split_on_inv (l : list byte) sep p ps :
  split_on sep l = p :: ps ->
  Forall (fun x => sep x = false) p /\
  (ps = [] /\ l = p \/ exists x rest, sep x = true /\ l = p ++ x :: rest /\ split_on sep rest = ps).
Proof.
  revert p ps. induction l as [|x l IH]; intros p ps; simpl.
  { intros [= <- <-]. split; [constructor|]. by left. }
  destruct (sep x) eqn:Hx.
  - intros [= <- <-]. split; [constructor|]. right. by exists x, l.
  - destruct (split_on sep l) as [|q qs] eqn:E.
    + exfalso. destruct l; simpl in E; [done|]. repeat case_match; done.
    + intros [= <- <-]. destruct (IH q qs eq_refl) as [Hq Hr]. split; [by constructor|].
      destruct Hr as [ [-> ->]|(y & rest & Hy & -> & Hs)]; [by left|]. right. by exists y, rest.
Qed.

Lemma split_on_nonempty (l : list byte) sep : split_on sep l <> [].
Proof. destruct l; simpl; [done|]. repeat case_match; done. Qed.

(** [line] is a complete line of [l] that starts at [j]: it ends at a line feed
    or at the end of [l]. *)
Definition line_from (l : list byte) (j : nat) (line : list byte) : Prop :=
  (LF ∉ line) /\ (drop j l = line \/ exists rest, drop j l = line ++ LF :: rest).

(** Position [j] begins a line. *)
Definition line_start (l : list byte) (j : nat) : Prop :=
  j = 0%nat \/ l !! (j - 1)%nat = Some LF.

Lemma glob_lines_spec pat : forall l skip off o,
  glob_lines pat skip off (split_on (fun b => bool_decide (b = LF)) l) = Some o ->
  exists j line, o = (off + j)%nat /\ (j = 0%nat /\ skip = false \/ (0 < j)%nat /\ l !! (j - 1)%nat = Some LF) /\
    line_from l j line /\ pattern_matches pat (strip_cr line) = true.
Proof.
  intros l. remember (length l) as n eqn:Hn. revert l Hn.
  induction n as [n IH] using lt_wf_ind. intros l -> skip off o.
  destruct (split_on _ l) as [|p ps] eqn:E; [by apply split_on_nonempty in E|].
  destruct (split_on_inv _ _ _ _ E) as [Hp Hr]. cbn [glob_lines].
  assert (Hlf : LF ∉ p).
  { rewrite Forall_forall in Hp. intros Hin%Hp. by rewrite bool_decide_eq_true_2 in Hin. }
  destruct (negb skip && pattern_matches pat (strip_cr p)) eqn:Hm.
  - intros [= <-]. apply andb_true_iff in Hm as [Hs Hm]. exists 0%nat, p.
    split; [lia|]. split; [left; by destruct skip|]. split; [|done]. split; [done|]. rewrite drop_0.
    destruct Hr as [ [_ ->]|(x & rest & ->%bool_decide_eq_true & -> & _)]; [by left|]. right. by exists rest.
  - destruct Hr as [ [-> ->]|(x & rest & ->%bool_decide_eq_true & -> & Hs)]; [done|].
    rewrite <- Hs. intros Hg.
    apply (IH (length rest)) in Hg; [|rewrite length_app; simpl; lia|done].
    destruct Hg as (j & line & -> & Hj & [Hl1 Hl2] & Hmatch).
    assert (Hdrop : drop (length p + 1 + j) (p ++ LF :: rest) = drop j rest).
    { rewrite <- drop_drop. f_equal. replace (length p + 1)%nat with (length (p ++ [LF])) by (rewrite length_app; done).
      change (p ++ LF :: rest) with (p ++ [LF] ++ rest). by rewrite (assoc_L (++)), drop_app_length. }
    exists (length p + 1 + j)%nat, line. split; [lia|]. split.
    + right. split; [lia|]. destruct Hj as [ [-> _]|[Hj1 Hj2] ].
      * rewrite lookup_app_r by lia. by replace (length p + 1 + 0 - 1 - length p)%nat with 0%nat by lia.
      * rewrite lookup_app_r by lia.
        replace (length p + 1 + j - 1 - length p)%nat with (S (j - 1)) by lia. done.
    + split; [|done]. split; [done|]. by rewrite Hdrop.
Qed.

#[local] Instance line_start_dec l j : Decision (line_start l j).
Proof. unfold line_start. apply _. Defined.

(** A glob matcher whose window is the end of [seen], with the first line marked
    when its start was cut off. *)
Definition glob_state (pat : Pattern) (seen : list byte) (m : Matcher) : Prop :=
  exists ctx base, m = Glob pat (drop base seen) ctx base (negb (bool_decide (line_start seen base))) /\
    (base <= length seen)%nat.

Lemma line_start_app l k j : (j <= length l)%nat -> line_start (l ++ k) j <-> line_start l j.
Proof.
  intros Hj. unfold line_start. destruct j as [|j]; [by split; left|].
  rewrite lookup_app_l by lia. done.
Qed.

Lemma push_bounded_glob pat seen m chunk max :
  glob_state pat seen m -> 0 <= max ->
  glob_state pat (seen ++ chunk) (push_bounded m chunk max).2.
Proof.
  intros (ctx & base & -> & Hb) Hm.
  assert (Hw : drop base seen ++ chunk = drop base (seen ++ chunk)) by (by rewrite drop_app_le).
  assert (Hls : bool_decide (line_start seen base) = bool_decide (line_start (seen ++ chunk) base))
    by (by apply bool_decide_ext; symmetry; apply line_start_app).
  set (m1 := Glob pat (drop base (seen ++ chunk)) ctx base
               (negb (bool_decide (line_start (seen ++ chunk) base)))).
  assert (Hsnd : (push_bounded (Glob pat (drop base seen) ctx base
                    (negb (bool_decide (line_start seen base)))) chunk max).2
    = if retained_window_limit m1 max <? zlen (window_of m1)
      then truncate_front m1 (retained_window_limit m1 max) else m1).
  { unfold push_bounded, match_push. cbn [extend_window]. rewrite Hw, Hls. fold m1.
    by destruct (check m1). }
  rewrite Hsnd. clear Hsnd.
  assert (Hm1 : glob_state pat (seen ++ chunk) m1)
    by (exists ctx, base; split; [done|rewrite length_app; lia]).
  destruct (_ <? _); [|done]. unfold truncate_front. cbn [window_of m1].
  set (n := Z.to_nat _). destruct (Nat.ltb_spec 0 n) as [Hn|]; [|done].
  assert (n <= length (drop base (seen ++ chunk)))%nat.
  { pose proof (retained_limit_nonneg m1 max Hm). unfold n, saturating_sub, zlen. cbn [window_of m1]. lia. }
  rewrite length_drop in *. exists ctx, (base + n)%nat. rewrite drop_drop. split; [|lia].
  f_equal. f_equal. apply bool_decide_ext. rewrite lookup_drop. unfold line_start.
  replace (base + (n - 1))%nat with (base + n - 1)%nat by lia. split; [by right|].
  intros [?|?]; [lia|done].
Qed.

(** A match of a window is a line of the stream. *)
Lemma check_glob pat seen m g :
  glob_state pat seen m -> Forall (fun b => is_ascii b = true) seen -> check m = Found g ->
  line_start seen g /\ exists line, line_from seen g line /\ pattern_matches pat (strip_cr line) = true.
Proof.
  intros (ctx & base & -> & Hb) Hascii Hc. cbn [check] in Hc.
  rewrite from_utf8_lossy_valid in Hc by (by apply utf8_valid_ascii, Forall_drop).
  destruct (glob_lines _ _ _ _) as [o|] eqn:Hg; [|done]. injection Hc as <-.
  apply glob_lines_spec in Hg as (j & line & -> & Hj & [Hl1 Hl2] & Hm). simpl.
  split.
  - destruct Hj as [ [-> Hp]|[Hj Hlf] ].
    + rewrite Nat.add_0_r. apply negb_false_iff in Hp. by apply bool_decide_eq_true in Hp.
    + right. rewrite lookup_drop in Hlf. by replace (base + j - 1)%nat with (base + (j - 1))%nat by lia.
  - exists line. split; [|done]. split; [done|]. by rewrite drop_drop in Hl2.
Qed.

(** The result of a bounded push is the verdict on the extended window. *)
Lemma push_bounded_check m chunk max : (push_bounded m chunk max).1 = check (extend_window m chunk).
Proof. unfold push_bounded, match_push. by destruct (check (extend_window m chunk)). Qed.

Lemma extend_glob pat seen m chunk :
  glob_state pat seen m -> glob_state pat (seen ++ chunk) (extend_window m chunk).
Proof.
  intros (ctx & base & -> & Hb). exists ctx, base. split; [|rewrite length_app; lia].
  cbn [extend_window]. rewrite drop_app_le by done. f_equal. f_equal.
  apply bool_decide_ext. symmetry. by apply line_start_app.
Qed.

(** Truncation never invents a line.  A fresh glob
    matcher is fed chunks of an ASCII stream under any buffer cap.  Whenever a
    push reports a match at [g], position [g] begins a line of the whole stream
    fed so far (the start of the stream, or right after a line feed), even when
    the start of the retained window is in the middle of a line; and the pattern
    matches that line, up to its line feed or the end of the stream, without its
    carriage return. *)
Theorem glob_matches_whole_lines pat ctx max chunks chunk g :
  0 <= max -> Forall (fun b => is_ascii b = true) (concat chunks ++ chunk) ->
  (push_bounded (push_all_bounded (Glob pat [] ctx 0 false) max chunks) chunk max).1 = Found g ->
  line_start (concat chunks ++ chunk) g /\
  exists line, line_from (concat chunks ++ chunk) g line /\ pattern_matches pat (strip_cr line) = true.
Proof.
  intros Hm Hascii Hf.
  assert (Hst : glob_state pat (concat chunks) (push_all_bounded (Glob pat [] ctx 0 false) max chunks)).
  { clear Hascii Hf. unfold push_all_bounded. induction chunks as [|c chunks IH] using rev_ind.
    - exists ctx, 0%nat. by split.
    - rewrite foldl_snoc, concat_app. cbn [concat]. rewrite app_nil_r. by apply push_bounded_glob. }
  rewrite push_bounded_check in Hf. by apply (check_glob pat _ _ _ (extend_glob _ _ _ chunk Hst)).
Qed.

End Window.

(** ** Concrete matchers *)

Lemma literal_match_is_stream_search_witness :
  let '(r, m', fed) := push_until (with_context (default (Literal [] [] None 0 None)
      (new_literal (bs "OK"))) (Some 2)) 3 [bs "hello wO"; bs "K"; bs "x"] in
  find_subsequence (concat [bs "hello wO"; bs "K"; bs "x"]) (bs "OK")
    = (match r with Found g => Some g | NoMatch => None end) /\
  forall g, r = Found g -> fed `prefix_of` concat [bs "hello wO"; bs "K"; bs "x"] /\
    shape_literal_match_context m' g
      = (fun c => stream_context fed (bs "OK") c 3 g) <$> Some 2.
Proof.
  apply (literal_match_is_stream_search (bs "OK") (Some 2) 3 [bs "hello wO"; bs "K"; bs "x"]);
    [reflexivity|discriminate|intros c [= <-]; discriminate|discriminate|discriminate].
Defined.

Lemma match_window_bounded_witness :
  zlen (window_of (push_all_bounded (Literal (bs "zz") [] None 0 None) 3 (bs "hello" :: [bs " world"])))
    <= retained_window_limit (Literal (bs "zz") [] None 0 None) 3.
Proof. apply match_window_bounded. discriminate. Defined.

Lemma glob_matches_whole_lines_witness :
  let stream := concat [bs "boot" ++ [LF]] ++ bs "READY" ++ [x0d; LF] in
  line_start stream 5 /\
  exists line, line_from stream 5 line /\ @pattern_matches glob_reference (bs "READY") (strip_cr line) = true.
Proof.
  apply (glob_matches_whole_lines (H2 := glob_reference) (bs "READY") None 16 [bs "boot" ++ [LF]] (bs "READY" ++ [x0d; LF]) 5);
    [discriminate|repeat constructor|reflexivity].
Defined.

(** Offsets in glob mode count the decoded text: an invalid byte shifts them. *)
Example glob_offset_counts_decoded_text :
  (match_push (Glob (bs "OK" : @Pattern glob_reference) [] None 0 false) ([xff; LF] ++ bs "OK")).1 = Found 4.
Proof. vm_compute. reflexivity. Qed.
