(* ===== verification/StopController.v ===== *)
(** * [src/rx_metadata.rs] and [src/stop_controller.rs]: why a read stops

    The stop reasons and metadata shared by the receive tools, and the stateful
    controller that decides when an operation ends.  [Instant::now()] is an
    argument [now] in milliseconds; sums of byte counts wrap like [usize]. *)

From S2P Require Import Prelude MatchConfig.

(** ** Metadata *)

Inductive RxStopReason :=
  | DataComplete | Timeout | RMatchFound | RMaxBufferedBytes | NoNewRxTimeout
  | ConnectionClosed | Cancelled | MaxFrames | FramingError | Drained.

#[export] Instance RxStopReason_eq_dec : EqDecision RxStopReason.
Proof. solve_decision. Defined.

Record RxStopMetadata := mkMeta {
  stop_reason : RxStopReason;
  m_truncated : bool;
  m_bytes_observed : Z;
  m_bytes_returned : Z;
}.

Definition meta_data_complete (observed returned : Z) : RxStopMetadata :=
  mkMeta DataComplete (returned <? observed) observed returned.
Definition meta_timeout (observed : Z) : RxStopMetadata := mkMeta Timeout false observed observed.
Definition meta_match_found (observed returned : Z) : RxStopMetadata :=
  mkMeta RMatchFound (returned <? observed) observed returned.
Definition meta_max_buffered_bytes (observed returned : Z) : RxStopMetadata :=
  mkMeta RMaxBufferedBytes (returned <? observed) observed returned.
Definition meta_connection_closed (observed returned : Z) : RxStopMetadata :=
  mkMeta ConnectionClosed (returned <? observed) observed returned.
Definition meta_cancelled : RxStopMetadata := mkMeta Cancelled false 0 0.
Definition meta_no_new_rx_timeout (observed : Z) : RxStopMetadata :=
  mkMeta NoNewRxTimeout false observed observed.
Definition meta_max_frames (observed returned : Z) : RxStopMetadata :=
  mkMeta MaxFrames false observed returned.
Definition meta_framing_error (observed : Z) : RxStopMetadata := mkMeta FramingError false observed 0.
Definition meta_drained (end_offset observed returned : Z) : RxStopMetadata :=
  mkMeta Drained false returned returned.
Definition meta_new (reason : RxStopReason) (observed returned : Z) (truncated : bool) : RxStopMetadata :=
  mkMeta reason truncated observed returned.

(** [with_bytes]. *)
Definition with_bytes (m : RxStopMetadata) (observed returned : Z) : RxStopMetadata :=
  mkMeta (stop_reason m) (returned <? observed) observed returned.

(** ** The controller *)

Record RxStopOutcome := mkStop {
  meta : RxStopMetadata;
  o_matched : bool;
  o_match_index : option nat;
}.

Inductive RxStopDecision :=
  | Continue
  | Stop (outcome : RxStopOutcome).

Record RxStopController := mkCtl {
  deadline : option Z;
  silence_duration : option Z;
  silence_deadline : option Z;
  max_bytes : Z;
  bytes_observed : Z;
  bytes_returned : Z;
  matched : bool;
  match_index : option nat;
}.

(** [RxStopController::new]. *)
Definition ctl_new (start : Z) (timeout_ms : option Z) (max_bytes : Z)
    (no_new_rx_timeout_ms : option Z) : RxStopController :=
  mkCtl ((fun ms => start + ms) <$> timeout_ms) no_new_rx_timeout_ms
    ((fun d => start + d) <$> no_new_rx_timeout_ms) max_bytes 0 0 false None.

Definition ctl_outcome (c : RxStopController) (m : RxStopMetadata) : RxStopOutcome :=
  mkStop m (matched c) (match_index c).

Definition check_timeout (c : RxStopController) (now : Z) : RxStopDecision :=
  match deadline c with
  | Some dl =>
      if dl <=? now
      then Stop (ctl_outcome c (with_bytes (meta_timeout (bytes_observed c))
                                  (bytes_observed c) (bytes_returned c)))
      else Continue
  | None => Continue
  end.

Definition check_silence_timeout (c : RxStopController) (now : Z) : RxStopDecision :=
  match silence_deadline c with
  | Some dl =>
      if dl <=? now
      then Stop (ctl_outcome c (with_bytes (meta_no_new_rx_timeout (bytes_observed c))
                                  (bytes_observed c) (bytes_returned c)))
      else Continue
  | None => Continue
  end.

Definition set_silence (c : RxStopController) (dl : option Z) : RxStopController :=
  mkCtl (deadline c) (silence_duration c) dl (max_bytes c) (bytes_observed c) (bytes_returned c)
    (matched c) (match_index c).

Definition notify_data_received (c : RxStopController) (now : Z) : RxStopController :=
  match silence_duration c with
  | Some dur => set_silence c (Some (now + dur))
  | None => c
  end.

Definition reset_silence_timer (c : RxStopController) (now : Z) : RxStopController :=
  set_silence c ((fun dur => now + dur) <$> silence_duration c).

(** [push_data]. *)
Definition push_data (c : RxStopController) (chunk_len buffered_len : Z)
    (match_result : option MatchResult) : RxStopDecision * RxStopController :=
  let observed := wrap64 (bytes_observed c + chunk_len) in
  let returned := buffered_len in
  let upd matched match_index :=
    mkCtl (deadline c) (silence_duration c) (silence_deadline c) (max_bytes c) observed returned
      matched match_index in
  match match_result with
  | Some (Found idx) =>
      let c := upd true (Some idx) in
      (Stop (ctl_outcome c (meta_match_found observed returned)), c)
  | _ =>
      let c := upd (matched c) (match_index c) in
      if (0 <? max_bytes c) && (max_bytes c <=? buffered_len)
      then (Stop (ctl_outcome c (meta_max_buffered_bytes observed returned)), c)
      else (Continue, c)
  end.

Definition ctl_connection_closed (c : RxStopController) : RxStopOutcome :=
  ctl_outcome c (meta_connection_closed (bytes_observed c) (bytes_returned c)).

Definition ctl_cancelled (c : RxStopController) : RxStopOutcome :=
  ctl_outcome c (with_bytes meta_cancelled (bytes_observed c) (bytes_returned c)).

Definition ctl_framing_error (c : RxStopController) : RxStopOutcome :=
  mkStop (meta_framing_error (bytes_observed c)) false None.

Definition ctl_data_complete (c : RxStopController) : RxStopOutcome :=
  mkStop (meta_data_complete (bytes_observed c) (bytes_returned c)) false None.

(** [is_normal_stop]. *)
Definition is_normal_stop (reason : RxStopReason) : bool :=
  match reason with
  | DataComplete | Timeout | RMaxBufferedBytes | RMatchFound | NoNewRxTimeout => true
  | _ => false
  end.

(** ** Sequences of events *)

(** What an operation tells the controller: data, a periodic check of both
    timers, or a pause of the silence timer while the device is disconnected. *)
Inductive CtlEvent :=
  | CtlData (now chunk_len buffered_len : Z) (r : option MatchResult)
  | CtlTick (now : Z)
  | CtlPause (now : Z).

Definition ctl_step (c : RxStopController) (ev : CtlEvent) : RxStopDecision * RxStopController :=
  match ev with
  | CtlData now n len r => push_data (notify_data_received c now) n len r
  | CtlTick now =>
      (match check_timeout c now with
       | Stop o => Stop o
       | Continue => check_silence_timeout c now
       end, c)
  | CtlPause now => (Continue, reset_silence_timer c now)
  end.

(** Events until the first stop, or the end. *)
Fixpoint ctl_run (c : RxStopController) (evs : list CtlEvent) : option RxStopOutcome * list CtlEvent :=
  match evs with
  | [] => (None, [])
  | ev :: evs =>
      match ctl_step c ev with
      | (Stop o, _) => (Some o, [ev])
      | (Continue, c) => let '(r, used) := ctl_run c evs in (r, ev :: used)
      end
  end.


Definition ev_observed (evs : list CtlEvent) : Z :=
  foldr (fun ev s => match ev with CtlData _ n _ _ => n + s | _ => s end) 0 evs.

(** The time from which the silence timer of a run counts: the last data or
    pause, or the start. *)
Definition silence_from (start : Z) (evs : list CtlEvent) : Z :=
  foldl (fun t ev => match ev with CtlData now _ _ _ | CtlPause now => now | CtlTick _ => t end) start evs.

(** The buffered length of the last data. *)
Definition last_returned (evs : list CtlEvent) : Z :=
  foldl (fun r ev => match ev with CtlData _ _ len _ => len | _ => r end) 0 evs.

(** The controller after events that did not stop it. *)
Definition ctl_after (start : Z) (timeout : option Z) (max : Z) (silence : option Z)
    (evs : list CtlEvent) : RxStopController :=
  mkCtl ((fun ms => start + ms) <$> timeout) silence
    ((fun d => silence_from start evs + d) <$> silence) max (ev_observed evs) (last_returned evs)
    false None.

Definition data_len_ok (ev : CtlEvent) : Prop :=
  match ev with CtlData _ n _ _ => 0 <= n | _ => True end.

Lemma ev_observed_app l k : ev_observed (l ++ k) = ev_observed l + ev_observed k.
Proof. induction l as [|[] l IH]; unfold ev_observed in *; simpl; lia. Qed.

Lemma ev_observed_nonneg l : Forall data_len_ok l -> 0 <= ev_observed l.
Proof.
  induction 1 as [|[now n len r|now|now] l Hev _ IH]; unfold ev_observed in *; simpl in *; try lia.
Qed.

(** The stop that the documentation prescribes for the last of some events. *)
Definition spec_stop (start : Z) (timeout : option Z) (max : Z) (silence : option Z)
    (before : list CtlEvent) (ev : CtlEvent) : option RxStopOutcome :=
  let observed := ev_observed (before ++ [ev]) in
  match ev with
  | CtlData _ _ len (Some (Found idx)) =>
      Some (mkStop (mkMeta RMatchFound (len <? observed) observed len) true (Some idx))
  | CtlData _ _ len _ =>
      if (0 <? max) && (max <=? len)
      then Some (mkStop (mkMeta RMaxBufferedBytes (len <? observed) observed len) false None)
      else None
  | CtlTick now =>
      let r := last_returned before in
      if match timeout with Some ms => start + ms <=? now | None => false end
      then Some (mkStop (mkMeta Timeout (r <? observed) observed r) false None)
      else if match silence with Some d => silence_from start before + d <=? now | None => false end
      then Some (mkStop (mkMeta NoNewRxTimeout (r <? observed) observed r) false None)
      else None
  | CtlPause _ => None
  end.

Lemma ctl_step_spec start timeout max silence before ev :
  Forall data_len_ok before -> data_len_ok ev -> ev_observed (before ++ [ev]) < 2 ^ 64 ->
  match ctl_step (ctl_after start timeout max silence before) ev with
  | (Stop o, _) => spec_stop start timeout max silence before ev = Some o
  | (Continue, c) => spec_stop start timeout max silence before ev = None /\
      c = ctl_after start timeout max silence (before ++ [ev])
  end.
Proof.
  intros Hb Hev Hobs. pose proof (ev_observed_nonneg _ Hb) as Hnn.
  assert (Hsf : silence_from start (before ++ [ev]) =
    match ev with CtlData now _ _ _ | CtlPause now => now | CtlTick _ => silence_from start before end)
    by (unfold silence_from; rewrite foldl_snoc; by destruct ev).
  assert (Hlr : last_returned (before ++ [ev]) =
    match ev with CtlData _ _ len _ => len | _ => last_returned before end)
    by (unfold last_returned; rewrite foldl_snoc; by destruct ev).
  unfold spec_stop, ctl_after. rewrite ev_observed_app in *. rewrite Hsf, Hlr.
  destruct ev as [now n len r|now|now]; cbn [ctl_step ev_observed foldr] in *.
  - unfold notify_data_received, push_data. cbn in *. rewrite Z.add_0_r in *.
    destruct silence as [d|]; cbn; rewrite wrap64_small by lia;
      (destruct r as [ [|idx]|]; cbn; [|done|]; by destruct (_ && _)).
  - unfold check_timeout, check_silence_timeout, ctl_outcome, with_bytes. cbn.
    rewrite !Z.add_0_r. destruct timeout as [ms|]; cbn; [destruct (_ <=? _); [done|] |];
      (destruct silence as [d|]; cbn; [by destruct (_ <=? _)|done]).
  - cbn. rewrite Z.add_0_r. done.
Qed.

(** C17: when a read stops, and with which numbers.  Run a fresh
    controller over any events.  It stops at the first event for which a stop is
    prescribed, and reports exactly that stop: a match wins over the byte limit,
    the byte limit is reached at [max_bytes] buffered bytes and never fires when
    it is zero, the total timeout wins over the silence timeout, silence is
    counted from the last data or pause, [bytes_observed] is the sum of all chunk
    lengths, [bytes_returned] the last buffered length, and [truncated] says that
    fewer bytes are returned than were observed.  If it never stops, no event
    prescribed a stop. *)
Theorem stop_controller_spec start timeout max silence evs :
  Forall data_len_ok evs -> ev_observed evs < 2 ^ 64 ->
  match ctl_run (ctl_new start timeout max silence) evs with
  | (Some o, used) => exists before ev rest, used = before ++ [ev] /\ evs = used ++ rest /\
      spec_stop start timeout max silence before ev = Some o /\
      forall pre e post, before = pre ++ e :: post -> spec_stop start timeout max silence pre e = None
  | (None, used) => used = evs /\
      forall pre e post, evs = pre ++ e :: post -> spec_stop start timeout max silence pre e = None
  end.
Proof.
  intros Hok Hobs.
  assert (Hgen : forall evs before,
    Forall data_len_ok (before ++ evs) -> ev_observed (before ++ evs) < 2 ^ 64 ->
    (forall pre e post, before = pre ++ e :: post -> spec_stop start timeout max silence pre e = None) ->
    match ctl_run (ctl_after start timeout max silence before) evs with
    | (Some o, used) => exists mid ev rest, used = mid ++ [ev] /\ evs = used ++ rest /\
        spec_stop start timeout max silence (before ++ mid) ev = Some o /\
        forall pre e post, before ++ mid = pre ++ e :: post -> spec_stop start timeout max silence pre e = None
    | (None, used) => used = evs /\
        forall pre e post, before ++ evs = pre ++ e :: post -> spec_stop start timeout max silence pre e = None
    end).
  { clear. induction evs as [|ev evs IH]; intros before Hok Hobs Hpre; cbn [ctl_run].
    { rewrite app_nil_r. done. }
    assert (Hcat : before ++ ev :: evs = (before ++ [ev]) ++ evs) by (by rewrite <- (assoc_L (++))).
    rewrite Hcat in *. pose proof Hok as Hok'. apply Forall_app in Hok' as [Hok1 Hok2].
    pose proof Hok1 as Hok1'. apply Forall_app in Hok1' as [Hb Hev]. apply Forall_cons in Hev as [Hev _].
    assert (Hobs1 : ev_observed (before ++ [ev]) < 2 ^ 64).
    { rewrite ev_observed_app in Hobs. pose proof (ev_observed_nonneg _ Hok2). lia. }
    pose proof (ctl_step_spec start timeout max silence before ev Hb Hev Hobs1) as Hs.
    destruct (ctl_step _ ev) as [ [|o] c].
    - destruct Hs as [Hnone ->]. specialize (IH (before ++ [ev]) Hok Hobs).
      assert (Hpre' : forall pre e post, before ++ [ev] = pre ++ e :: post ->
        spec_stop start timeout max silence pre e = None).
      { intros pre e post Heq. destruct post as [|x post _] using rev_ind.
        - apply app_inj_tail in Heq as [<- <-]. done.
        - rewrite app_comm_cons, (assoc_L (++)) in Heq. apply app_inj_tail in Heq as [-> _]. by eapply Hpre. }
      specialize (IH Hpre'). destruct (ctl_run _ evs) as [ [o|] used].
      + destruct IH as (mid & e & rest & -> & Heq & Hstop & Hmin).
        rewrite <- (assoc_L (++)) in Hstop. setoid_rewrite <- (assoc_L (++)) in Hmin.
        exists (ev :: mid), e, rest. split; [done|]. split; [by rewrite Heq|]. done.
      + destruct IH as [-> Hmin]. by split.
    - exists [], ev, evs. rewrite app_nil_r. done. }
  specialize (Hgen evs [] Hok Hobs ltac:(by intros [] ? ?)).
  assert (Hnew : ctl_new start timeout max silence = ctl_after start timeout max silence [])
    by (unfold ctl_new, ctl_after; simpl; by destruct silence).
  rewrite Hnew. destruct (ctl_run _ evs) as [ [o|] used]; [|done].
  destruct Hgen as (mid & ev & rest & ? & ? & ? & ?). by exists mid, ev, rest.
Qed.

Lemma stop_controller_spec_witness :
  let evs := [CtlData 5 3 3 (Some NoMatch); CtlTick 9; CtlTick 15; CtlTick 99] in
  match ctl_run (ctl_new 0 (Some 50) 8 (Some 10)) evs with
  | (Some o, used) => exists before ev rest, used = before ++ [ev] /\ evs = used ++ rest /\
      spec_stop 0 (Some 50) 8 (Some 10) before ev = Some o /\
      forall pre e post, before = pre ++ e :: post -> spec_stop 0 (Some 50) 8 (Some 10) pre e = None
  | (None, used) => used = evs /\
      forall pre e post, evs = pre ++ e :: post -> spec_stop 0 (Some 50) 8 (Some 10) pre e = None
  end.
Proof.
  apply (stop_controller_spec 0 (Some 50) 8 (Some 10)
    [CtlData 5 3 3 (Some NoMatch); CtlTick 9; CtlTick 15; CtlTick 99]);
    [repeat constructor; discriminate|reflexivity].
Defined.
