(* ===== verification/RxConsume.v ===== *)
(** * [src/tools/rx_consume.rs]: framed consumption of a chunk

    [consume_frames] (decode, match each frame on its own, hand it to a sink,
    check [max_frames]), the read sink of [src/tools/read_loop.rs], the
    disconnect check and the translation of an outcome into a stop. *)

From S2P Require Import Prelude Util RustStr Extern ExternModel Codec FramingConfig TxCodecs Parsers Decoder DecoderTotal MatchConfig StopController.

(** [serial::ConnectionState]. *)
Inductive ConnectionState := CsOpen | CsDisconnected | CsReconnecting | CsClosed.

Inductive DisconnectState := Active | Reconnecting | Closed.

(** [disconnect_state]: resets the silence timer while reconnecting. *)
Definition disconnect_state (state : ConnectionState) (reconnect_enabled : bool) (now : Z)
    (ctrl : RxStopController) : DisconnectState * RxStopController :=
  match state with
  | CsClosed => (Closed, ctrl)
  | CsDisconnected | CsReconnecting =>
      if reconnect_enabled then (Reconnecting, reset_silence_timer ctrl now) else (Closed, ctrl)
  | CsOpen => (Active, ctrl)
  end.

Section Consume.
Context `{HexCrate, Base64Crate, JsonCrate, RegexCrate, GlobCrate}.

Inductive SinkFlow := SinkContinue | SinkStopFlow (reason : RxStopReason).

Inductive FrameOutcome :=
  | FContinue
  | FMaxFrames
  | FSinkStop (reason : RxStopReason)
  | FDecodeError (e : FrameDecodeError).

(** [RxFrameSink]: the per-frame output action, as a state machine. *)
Class RxFrameSink (S : Type) :=
  on_frame : S -> Frame -> bool -> option nat -> SinkFlow * S.

(** The per-frame matcher run. *)
Definition match_one_frame (matcher : option Matcher) (frame : Frame) : option nat * option Matcher :=
  match matcher with
  | Some m =>
      let '(r, m) := match_push (reset_window m) (f_data frame) in
      (match r with Found idx => Some idx | NoMatch => None end, Some m)
  | None => (None, None)
  end.

(** The dispatch loop over the decoded frames. *)
Fixpoint dispatch_frames {S} `{RxFrameSink S} (frames : list Frame) (matcher : option Matcher)
    (frames_seen : nat) (sink : S) : option RxStopReason * option Matcher * nat * S :=
  match frames with
  | [] => (None, matcher, frames_seen, sink)
  | frame :: frames =>
      let frames_seen := (frames_seen + 1)%nat in
      let '(match_index, matcher) := match_one_frame matcher frame in
      match on_frame sink frame (bool_decide (match_index <> None)) match_index with
      | (SinkStopFlow reason, sink) => (Some reason, matcher, frames_seen, sink)
      | (SinkContinue, sink) => dispatch_frames frames matcher frames_seen sink
      end
  end.

(** What [consume_frames] changes. *)
Record ConsumeState (S : Type) := mkConsume {
  cs_decoder : FrameDecoder;
  cs_matcher : option Matcher;
  cs_frames_seen : nat;
  cs_sink : S;
  cs_frames_dropped : nat;
}.
Arguments mkConsume {_} _ _ _ _ _.
Arguments cs_decoder {_} _.
Arguments cs_matcher {_} _.
Arguments cs_frames_seen {_} _.
Arguments cs_sink {_} _.
Arguments cs_frames_dropped {_} _.

(** [consume_frames]; [None] is a decoder loop that has not ended. *)
Definition consume_frames {S} `{RxFrameSink S} (chunk : list byte) (max_frames : option Z)
    (st : ConsumeState S) : option (FrameOutcome * ConsumeState S) :=
  '(decoder, outcome) ← push (cs_decoder st) chunk;
  let dropped := (cs_frames_dropped st + o_frames_dropped outcome)%nat in
  let '(stop, matcher, seen, sink) :=
    dispatch_frames (o_frames outcome) (cs_matcher st) (cs_frames_seen st) (cs_sink st) in
  let st := mkConsume decoder matcher seen sink dropped in
  Some (match stop with
        | Some reason => FSinkStop reason
        | None =>
            match o_error outcome with
            | Some e => FDecodeError e
            | None =>
                match max_frames with
                | Some limit => if limit <=? Z.of_nat seen then FMaxFrames else FContinue
                | None => FContinue
                end
            end
        end, st).

(** [frame_outcome_to_stop]: the stop, and the error text to record. *)
Definition frame_outcome_to_stop (outcome : FrameOutcome) (ctrl : RxStopController)
    (total_returned : Z) (match_offset : option nat) (frame_error : option FrameDecodeError)
    : option RxStopOutcome * option FrameDecodeError :=
  match outcome with
  | FContinue => (None, frame_error)
  | FMaxFrames =>
      (Some (mkStop (meta_max_frames (bytes_observed ctrl) total_returned) false None), frame_error)
  | FDecodeError e => (Some (ctl_framing_error ctrl), Some e)
  | FSinkStop RMatchFound =>
      (Some (mkStop (meta_match_found (bytes_observed ctrl) total_returned) true match_offset),
       frame_error)
  | FSinkStop _ => (Some (ctl_connection_closed ctrl), frame_error)
  end.

(** ** The read sink of [read_loop.rs] *)

Record ReadFrameSink := mkSink {
  collected : list Frame;
  match_data : option (list byte);
  sink_match_index : option nat;
  match_frame_index : option nat;
}.

(** [ReadFrameSink::new]. *)
Definition sink_new (collected : list Frame) : ReadFrameSink := mkSink collected None None None.

(** Collect every frame, remember the first match, never stop. *)
#[export] Instance read_frame_sink : RxFrameSink ReadFrameSink :=
  fun s frame matched match_index =>
    let s := if matched && bool_decide (match_data s = None)
             then mkSink (collected s) (Some (f_data frame)) match_index (Some (f_index frame))
             else s in
    (SinkContinue,
     mkSink (collected s ++ [frame]) (match_data s) (sink_match_index s) (match_frame_index s)).

(** ** What the pipeline computes *)

(** Whether a frame matches, on its own. *)
Definition frame_match (m : Matcher) (frame : Frame) : option nat :=
  match check (extend_window (reset_window m) (f_data frame)) with
  | Found i => Some i
  | NoMatch => None
  end.

Lemma reset_window_push m c : reset_window (match_push m c).2 = reset_window m.
Proof.
  unfold match_push. destruct (check _) as [|i]; cbn [snd]; destruct m as [? ? []| |]; done.
Qed.

Lemma reset_window_idem m : reset_window (reset_window m) = reset_window m.
Proof. by destruct m. Qed.

(** The first frame that matches, with its index in the frame. *)
Fixpoint first_match (m : Matcher) (frames : list Frame) : option (Frame * nat) :=
  match frames with
  | [] => None
  | f :: frames => match frame_match m f with Some i => Some (f, i) | None => first_match m frames end
  end.

(** The sink after some frames, the first of which may match. *)
Definition sink_after (s : ReadFrameSink) (frames : list Frame) (first : option (Frame * nat))
    : ReadFrameSink :=
  match match_data s, first with
  | None, Some (f, i) =>
      mkSink (collected s ++ frames) (Some (f_data f)) (Some i) (Some (f_index f))
  | _, _ => mkSink (collected s ++ frames) (match_data s) (sink_match_index s) (match_frame_index s)
  end.

Lemma dispatch_read_sink m0 frames : forall m seen s,
  reset_window m = reset_window m0 ->
  exists m', dispatch_frames frames (Some m) seen s
    = (None, Some m', (seen + length frames)%nat, sink_after s frames (first_match m0 frames)).
Proof.
  induction frames as [|f frames IH]; intros m seen s Hm; cbn [dispatch_frames first_match].
  { exists m. rewrite Nat.add_0_r. unfold sink_after. rewrite app_nil_r. destruct s as [? []]; done. }
  unfold match_one_frame.
  assert (Hr : (match_push (reset_window m) (f_data f)).1
             = check (extend_window (reset_window m0) (f_data f)))
    by (rewrite Hm; unfold match_push; by destruct (check _)).
  pose proof (reset_window_push (reset_window m) (f_data f)) as Hreset.
  destruct (match_push (reset_window m) (f_data f)) as [r m1]. cbn [fst snd] in *.
  rewrite reset_window_idem, Hm in Hreset. unfold frame_match. rewrite <- Hr.
  assert (Happ : forall (c : list Frame), (c ++ [f]) ++ frames = c ++ f :: frames)
    by (intros; by rewrite <- (assoc_L (++))).
  destruct r as [|i]; cbn [on_frame read_frame_sink andb].
  - destruct (IH m1 (seen + 1)%nat (mkSink (collected s ++ [f]) (match_data s) (sink_match_index s)
      (match_frame_index s)) Hreset) as [m2 Hd].
    exists m2. rewrite bool_decide_eq_false_2 by naive_solver. cbn [andb]. rewrite Hd.
    unfold sink_after. cbn [match_data collected sink_match_index match_frame_index length].
    rewrite !Happ. f_equal. f_equal. lia.
  - rewrite bool_decide_eq_true_2 by done. cbn [andb].
    set (s1 := mkSink _ _ _ _).
    destruct (IH m1 (seen + 1)%nat s1 Hreset) as [m2 Hd].
    exists m2. rewrite Hd. f_equal; [f_equal; simpl; lia|].
    unfold sink_after, s1. destruct (match_data s) as [d|] eqn:Ed;
      rewrite ?bool_decide_eq_true_2, ?bool_decide_eq_false_2 by done;
      cbn [match_data collected sink_match_index match_frame_index]; rewrite ?Ed, ?Happ; done.
Qed.

(** C24: framed matching is per frame.  For every decoder
    built by [FrameDecoder::new] after any chunks, every matcher whatever its
    window holds, and every chunk, [consume_frames] with the read sink ends and
    hands over every frame the decoder emits, in order, also those after a match
    and those before a decode error; the match it records is the first frame
    whose own bytes match from an empty window, with the index inside that frame
    and the frame's number, so no match ever spans two frames; and the outcome is
    the decode error if there is one, otherwise [MaxFrames] exactly when the
    limit is reached after all of the chunk's frames. *)
Theorem consume_frames_first_match config pc chunks d0 chunk m max_frames seen collected0 dropped :
  new config pc = Ok d0 ->
  exists d dout, push_all d0 chunks = Some (d, dout) /\ exists d' o m',
    push d chunk = Some (d', o) /\
    consume_frames chunk max_frames (mkConsume d (Some m) seen (sink_new collected0) dropped) =
      Some (match o_error o, max_frames with
            | Some e, _ => FDecodeError e
            | None, Some limit =>
                if limit <=? Z.of_nat (seen + length (o_frames o)) then FMaxFrames else FContinue
            | None, None => FContinue
            end,
            mkConsume d' (Some m') (seen + length (o_frames o))
              (match first_match m (o_frames o) with
               | Some (f, i) =>
                   mkSink (collected0 ++ o_frames o) (Some (f_data f)) (Some i) (Some (f_index f))
               | None => mkSink (collected0 ++ o_frames o) None None None
               end) (dropped + o_frames_dropped o)).
Proof.
  intros [Hw _]%new_wf.
  assert (exists d dout, push_all d0 chunks = Some (d, dout) /\ wf_mode (d_mode d))
    as (d & dout & Hd & Hwd).
  { clear -Hw. revert d0 Hw. induction chunks as [|c chunks IH]; intros d0 Hw; cbn [push_all]; [eauto|].
    destruct (push_some d0 c Hw) as (d1 & o1 & -> & Hw1 & _). simpl. destruct (o_error o1); [eauto|].
    destruct (IH d1 Hw1) as (d2 & o2 & -> & Hw2). simpl. eauto. }
  exists d, dout. split; [done|].
  destruct (push_some d chunk Hwd) as (d' & o & Hp & _).
  destruct (dispatch_read_sink m (o_frames o) m seen (sink_new collected0) eq_refl) as [m' Hdis].
  exists d', o, m'. split; [done|]. unfold consume_frames. cbn [cs_decoder]. rewrite Hp. simpl.
  rewrite Hdis. unfold sink_after. cbn [match_data sink_new collected sink_match_index match_frame_index].
  destruct (o_error o), max_frames, (first_match m (o_frames o)) as [ [fr i]|]; reflexivity.
Qed.

End Consume.

Arguments mkConsume {_ _ _} _ _ _ _ _.
Arguments cs_decoder {_ _ _} _.
Arguments cs_matcher {_ _ _} _.
Arguments cs_frames_seen {_ _ _} _.
Arguments cs_sink {_ _ _} _.
Arguments cs_frames_dropped {_ _ _} _.

Lemma consume_frames_first_match_witness :
  exists d dout, push_all (mkDecoder [] (MLine LsLf) 0 false false None) [bs "ab"] = Some (d, dout) /\
  exists d' o m', push d (bs "c" ++ [x0a] ++ bs "OK" ++ [x0a]) = Some (d', o) /\
    consume_frames (bs "c" ++ [x0a] ++ bs "OK" ++ [x0a]) (Some 2)
      (mkConsume d (Some (Literal (bs "OK") (bs "O") None 0 None)) 0 (sink_new []) 0) =
      Some (match o_error o, Some 2 with
            | Some e, _ => FDecodeError e
            | None, Some limit =>
                if limit <=? Z.of_nat (0 + length (o_frames o)) then FMaxFrames else FContinue
            | None, None => FContinue
            end,
            mkConsume d' (Some m') (0 + length (o_frames o))
              (match first_match (Literal (bs "OK") (bs "O") None 0 None) (o_frames o) with
               | Some (f, i) =>
                   mkSink ([] ++ o_frames o) (Some (f_data f)) (Some i) (Some (f_index f))
               | None => mkSink ([] ++ o_frames o) None None None
               end) (0 + o_frames_dropped o)).
Proof.
  apply (consume_frames_first_match (mkRxFraming (RxLine Lf) None false false) None). reflexivity.
Defined.
