(* ===== verification/ReadLoop.v ===== *)
(** * [src/tools/read_loop.rs]: the read pipeline

    One private read over the ring: the accumulator, the initial slice, live
    slices, the wait loop and the shared-cursor wrapper.  What happens around the
    read (clock, connection state, cancellation, bytes appended by the pump) is a
    list of iterations of the wait loop, given as an argument. *)

From S2P Require Import Prelude Util RustStr Extern ExternModel Codec FramingConfig TxCodecs Parsers Decoder DecoderTotal MatchConfig StopController RxRing RxConsume.

(** How a piece of the pipeline ends: a value, a configuration error, a slice out
    of range (panic), or a decoder loop without end. *)
Inductive Run (E A : Type) :=
  | Done (a : A)
  | Failed (e : E)
  | Panicked
  | Diverged.
Arguments Done {_ _} _.
Arguments Failed {_ _} _.
Arguments Panicked {_ _}.
Arguments Diverged {_ _}.

#[export] Instance run_bind {E} : MBind (Run E) := fun _ _ f m =>
  match m with
  | Done a => f a
  | Failed e => Failed e
  | Panicked => Panicked
  | Diverged => Diverged
  end.

(** [slice[..n]]. *)
Definition slice_to {E} (l : list byte) (n : nat) : Run E (list byte) :=
  if (n <=? length l)%nat then Done (take n l) else Panicked.

(** [DEFAULT_READ_TIMEOUT_MS]. *)
Definition DEFAULT_READ_TIMEOUT_MS : Z := 1000.

Section ReadLoop.
Context `{HexCrate, Base64Crate, JsonCrate, RegexCrate, GlobCrate}.

Record ReadOutcome := mkOut {
  r_bytes : list byte;
  r_elapsed_ms : Z;
  r_meta : RxStopMetadata;
  r_matched : bool;
  r_match_index : option nat;
  r_match_frame_index : option nat;
  r_frames : list Frame;
  r_frames_dropped : nat;
  r_error : option FrameDecodeError;
  r_from_offset : option Z;
  r_next_offset : option Z;
  r_bytes_lost : Z;
  r_buffered_remaining : Z;
  r_start_offset : Z;
  r_end_offset : Z;
}.

(** [advance_private_cursor]. *)
Definition advance_private_cursor (base consumed : Z) (ring : RxRing) : Z :=
  Z.min (saturating_add base consumed) (end_offset (inner ring)).

(** [wrapping_add] followed by the clamp to the live edge. *)
Definition wrapping_cursor (base consumed : Z) (ring : RxRing) : Z :=
  Z.min (wrap64 (base + consumed)) (end_offset (inner ring)).

Record ReadAccumulator := mkAcc {
  consumed_offset : Z;
  returned_bytes : list byte;
  frames : list Frame;
  frames_seen : nat;
  frames_dropped : nat;
  frame_error : option FrameDecodeError;
}.

Definition acc_new : ReadAccumulator := mkAcc 0 [] [] 0 0 None.

Record ReadCompletion := mkComp {
  c_meta : RxStopMetadata;
  c_matched : bool;
  c_match_index : option nat;
  c_match_frame_index : option nat;
  c_payload_override : option (list byte);
  c_final_cursor : Z;
}.

(** [ReadAccumulator::into_outcome] and [complete_read]. *)
Definition into_outcome (acc : ReadAccumulator) (ring : RxRing) (original_cursor max_bytes elapsed : Z)
    (c : ReadCompletion) : ReadOutcome * Z :=
  let start_off := start_offset (inner ring) in
  let end_off := end_offset (inner ring) in
  let clamped_from := Z.min (Z.max original_cursor start_off) end_off in
  let bytes_lost := saturating_sub start_off original_cursor in
  let used := Z.min (consumed_offset acc) max_bytes in
  let next_off := wrap64 (clamped_from + used) in
  let nothing := bool_decide (returned_bytes acc = []) && (consumed_offset acc =? 0) in
  (mkOut (default (returned_bytes acc) (c_payload_override c)) elapsed (c_meta c) (c_matched c)
     (c_match_index c) (c_match_frame_index c) (frames acc) (frames_dropped acc) (frame_error acc)
     (if nothing then None else Some clamped_from) (if nothing then None else Some next_off)
     bytes_lost (saturating_sub end_off next_off) start_off end_off,
   c_final_cursor c).

(** ** Framed chunks *)

Inductive FramedChunkDecision :=
  | FcContinue
  | FcMatch (data : list byte) (match_index match_frame_index : option nat)
  | FcStop (outcome : RxStopOutcome) (match_frame_index : option nat).

(** The mutable part of a [ReadDriver]. *)
Record ReadDriver := mkDriver {
  ctrl : RxStopController;
  matcher : option Matcher;
  decoder : option FrameDecoder;
  acc : ReadAccumulator;
}.

Definition set_acc (d : ReadDriver) (a : ReadAccumulator) : ReadDriver :=
  mkDriver (ctrl d) (matcher d) (decoder d) a.
Definition set_ctrl (d : ReadDriver) (c : RxStopController) : ReadDriver :=
  mkDriver c (matcher d) (decoder d) (acc d).

(** [process_framed_chunk]. *)
Definition process_framed_chunk (chunk : list byte) (max_frames : option Z) (dec : FrameDecoder)
    (d : ReadDriver) : Run NewError (FramedChunkDecision * ReadDriver) :=
  let a := acc d in
  match consume_frames chunk max_frames
          (mkConsume dec (matcher d) (frames_seen a) (sink_new (frames a)) (frames_dropped a)) with
  | None => Diverged
  | Some (outcome, cs) =>
      let sink := cs_sink cs in
      let a := mkAcc (consumed_offset a) (returned_bytes a) (collected sink) (cs_frames_seen cs)
                 (cs_frames_dropped cs) (frame_error a) in
      let d := mkDriver (ctrl d) (cs_matcher cs) (Some (cs_decoder cs)) a in
      match match_data sink with
      | Some data => Done (FcMatch data (sink_match_index sink) (match_frame_index sink), d)
      | None =>
          let '(stop, err) := frame_outcome_to_stop outcome (ctrl d) (zlen (returned_bytes a))
                                (sink_match_index sink) (frame_error a) in
          let d := set_acc d (mkAcc (consumed_offset a) (returned_bytes a) (frames a) (frames_seen a)
                                (frames_dropped a) err) in
          Done (match stop with
                | Some s => FcStop s (match_frame_index sink)
                | None => FcContinue
                end, d)
      end
  end.

(** ** The initial slice *)

Inductive InitialDecision :=
  | InitContinue
  | InitCompletion (c : ReadCompletion)
  | HistoricalContextMatch (outcome : ReadOutcome) (final_cursor : Z).

(** What a read is called with. *)
Record ReadConfig := mkReadConfig {
  original_cursor : Z;
  cfg_max_bytes : Z;
  framing : option RxFramingConfig;
  parser : option ParserConfig;
}.

Definition cfg_max_frames (cfg : ReadConfig) : option Z := framing cfg ≫= max_frames.

(** The construction of the frame decoder. *)
Definition build_decoder (cfg : ReadConfig) : Run NewError (option FrameDecoder) :=
  match framing cfg with
  | Some f => match new f (parser cfg) with Ok d => Done (Some d) | Err e => Failed e end
  | None => Done None
  end.

(** The match of the buffered bytes; [ring] is the ring at this moment. *)
Definition match_history (cfg : ReadConfig) (m : Matcher) (s : RingSlice) (ring : RxRing)
    (elapsed now : Z) (d : ReadDriver) : Run NewError (InitialDecision * ReadDriver) :=
  let max_bytes := cfg_max_bytes cfg in
  let n := Z.min (zlen (s_bytes s)) max_bytes in
  let hist := take (Z.to_nat n) (s_bytes s) in
  let '(result, m') := push_bounded m hist max_bytes in
  let d := mkDriver (ctrl d) (Some m') (decoder d) (acc d) in
  let a := acc d in
  match result with
  | Found idx =>
      let match_end := (idx + default 0%nat (needle_len m))%nat in
      let consumed := Z.of_nat match_end in
      returned ← slice_to hist match_end;
      let final_cursor := advance_private_cursor (s_from_offset s) consumed ring in
      match context_amount_of m with
      | Some context =>
          match shape_match_context hist idx (default 0%nat (needle_len m)) (Some context) with
          | None => Panicked
          | Some shaped =>
              let next := wrap64 (s_from_offset s + consumed) in
              Done (HistoricalContextMatch
                (mkOut (sh_data shaped) elapsed (meta_match_found consumed (zlen (sh_data shaped))) true
                   (Some (sh_match_index shaped)) None [] 0 None (Some (s_from_offset s)) (Some next)
                   (s_bytes_lost s) (saturating_sub (end_offset (inner ring)) next)
                   (start_offset (inner ring)) (end_offset (inner ring)))
                final_cursor, d)
          end
      | None =>
          Done (InitCompletion (mkComp (meta_match_found consumed consumed) true (Some idx) None None
                  final_cursor),
                set_acc d (mkAcc (consumed_offset a) returned (frames a) (frames_seen a)
                             (frames_dropped a) (frame_error a)))
      end
  | NoMatch =>
      let c := notify_data_received (ctrl d) now in
      let '(_, c) := push_data c n n (Some NoMatch) in
      Done (InitContinue,
            mkDriver c (Some m') (decoder d)
              (mkAcc n hist (frames a) (frames_seen a) (frames_dropped a) (frame_error a)))
  end.

(** The framed treatment of the buffered bytes. *)
Definition frame_history (cfg : ReadConfig) (dec : FrameDecoder) (s : RingSlice) (ring : RxRing)
    (d : ReadDriver) : Run NewError (InitialDecision * ReadDriver) :=
  let n := Z.min (zlen (s_bytes s)) (cfg_max_bytes cfg) in
  let chunk := take (Z.to_nat n) (s_bytes s) in
  let a := acc d in
  let d := set_acc d (mkAcc (wrap64 (consumed_offset a + n)) (returned_bytes a ++ chunk) (frames a)
                        (frames_seen a) (frames_dropped a) (frame_error a)) in
  '(decision, d) ← process_framed_chunk chunk (cfg_max_frames cfg) dec d;
  let final_cursor := wrapping_cursor (s_from_offset s) (consumed_offset (acc d)) ring in
  Done (match decision with
        | FcContinue => InitContinue
        | FcMatch data match_index match_frame_index =>
            InitCompletion (mkComp
              (meta_match_found (bytes_observed (ctrl d)) (zlen (returned_bytes (acc d))))
              true match_index match_frame_index (Some data) final_cursor)
        | FcStop outcome match_frame_index =>
            InitCompletion (mkComp (meta outcome) (o_matched outcome) (o_match_index outcome)
              match_frame_index None final_cursor)
        end, d).

(** [process_initial]. *)
Definition process_initial (cfg : ReadConfig) (s : RingSlice) (ring : RxRing) (elapsed now : Z)
    (d : ReadDriver) : Run NewError (InitialDecision * ReadDriver) :=
  dec ← build_decoder cfg;
  let d := mkDriver (ctrl d) (matcher d) dec (acc d) in
  let a := acc d in
  match s_bytes s, matcher d, decoder d with
  | [], _, _ => Done (InitContinue, d)
  | _, None, None =>
      let n := Z.min (zlen (s_bytes s)) (cfg_max_bytes cfg) in
      let returned := take (Z.to_nat n) (s_bytes s) in
      let consumed := zlen returned in
      Done (InitCompletion (mkComp
              (meta_drained (wrap64 (original_cursor cfg + consumed)) consumed consumed)
              false None None None (advance_private_cursor (s_from_offset s) consumed ring)),
            set_acc d (mkAcc consumed returned (frames a) (frames_seen a) (frames_dropped a)
                         (frame_error a)))
  | _, None, Some dec => frame_history cfg dec s ring d
  | _, Some m, None => match_history cfg m s ring elapsed now d
  | _, Some m, Some dec =>
      '(decision, d) ← match_history cfg m s ring elapsed now d;
      match decision with
      | InitContinue => frame_history cfg dec s ring d
      | _ => Done (decision, d)
      end
  end.

(** ** Live slices *)

Inductive LiveChunkDecision :=
  | LiveContinue (next_clocked_cursor : Z)
  | LiveCompletion (c : ReadCompletion).

(** The raw matcher path of [process_live_chunk]: [None] when nothing stops. *)
Definition raw_live_chunk (cfg : ReadConfig) (chunk : list byte) (final_cursor : Z) (d : ReadDriver)
    : option ReadCompletion * ReadDriver :=
  let a := acc d in
  let '(match_result, matcher') :=
    match matcher d with
    | Some m => let '(r, m) := push_bounded m chunk (cfg_max_bytes cfg) in (Some r, Some m)
    | None => (None, None)
    end in
  let '(decision, c) :=
    push_data (ctrl d) (zlen chunk) (zlen (returned_bytes a)) match_result in
  let d := mkDriver c matcher' (decoder d) a in
  match decision with
  | Continue => (None, d)
  | Stop outcome =>
      let '(match_bytes, match_index) :=
        match o_match_index outcome with
        | Some idx =>
            match matcher' ≫= (fun m => shape_literal_match_context m idx) with
            | Some shaped => (sh_data shaped, Some (sh_match_index shaped))
            | None => (returned_bytes a, Some idx)
            end
        | None => (returned_bytes a, None)
        end in
      (Some (mkComp (meta outcome) (o_matched outcome) match_index None (Some match_bytes) final_cursor), d)
  end.

(** The end of [process_live_chunk]: the byte limit, or the next cursor. *)
Definition live_limit (cfg : ReadConfig) (s : RingSlice) (ring : RxRing) (d : ReadDriver)
    : LiveChunkDecision :=
  let a := acc d in
  let len := zlen (returned_bytes a) in
  if cfg_max_bytes cfg <=? len
  then LiveCompletion (mkComp
         (meta_drained (wrap64 (original_cursor cfg + consumed_offset a)) len len)
         false None None None (advance_private_cursor (original_cursor cfg) (consumed_offset a) ring))
  else LiveContinue (s_next_offset s).

(** [process_live_chunk]. *)
Definition process_live_chunk (cfg : ReadConfig) (s : RingSlice) (ring : RxRing) (now : Z)
    (d : ReadDriver) : Run NewError (LiveChunkDecision * ReadDriver) :=
  let max_bytes := cfg_max_bytes cfg in
  let d := set_ctrl d (notify_data_received (ctrl d) now) in
  let a := acc d in
  let n := Z.min (zlen (s_bytes s)) (saturating_sub max_bytes (zlen (returned_bytes a))) in
  let chunk := take (Z.to_nat n) (s_bytes s) in
  let d := set_acc d (mkAcc (Z.min (wrap64 (consumed_offset a + n)) max_bytes)
                        (returned_bytes a ++ chunk) (frames a) (frames_seen a) (frames_dropped a)
                        (frame_error a)) in
  let final_cursor := wrapping_cursor (s_from_offset s) n ring in
  match decoder d with
  | Some dec =>
      '(decision, d) ← process_framed_chunk chunk (cfg_max_frames cfg) dec d;
      Done (match decision with
            | FcContinue => live_limit cfg s ring d
            | FcMatch data match_index match_frame_index =>
                LiveCompletion (mkComp
                  (meta_match_found (bytes_observed (ctrl d)) (zlen (returned_bytes (acc d))))
                  true match_index match_frame_index (Some data) final_cursor)
            | FcStop outcome match_frame_index =>
                LiveCompletion (mkComp (meta outcome) (o_matched outcome) (o_match_index outcome)
                  match_frame_index None final_cursor)
            end, d)
  | None =>
      let '(stop, d) := raw_live_chunk cfg chunk final_cursor d in
      Done (match stop with
            | Some c => LiveCompletion c
            | None => live_limit cfg s ring d
            end, d)
  end.

(** ** The wait loop *)

Inductive WaitWake := WakeCancelled | WakeData | WakePoll.

(** What one round of the loop meets: the connection (if the read has one) with
    its reconnect policy, the clock, what wakes the wait, and the ring. *)
Record Round := mkRound {
  rd_conn : option (ConnectionState * bool);
  rd_now : Z;
  rd_wake : WaitWake;
  rd_ring : RxRing;
  rd_elapsed : Z;
}.

(** What a round decides: go on, or complete at a cursor. *)
Definition stop_completion (o : RxStopOutcome) (final_cursor : Z) : ReadCompletion :=
  mkComp (meta o) (o_matched o) (o_match_index o) None None final_cursor.

(** The second half of a round: the wait, and the slice it brings. *)
Definition wake_round (cfg : ReadConfig) (clocked_cursor : Z) (rd : Round) (d : ReadDriver)
    : Run NewError (LiveChunkDecision * ReadDriver) :=
  let ring := rd_ring rd in
  match rd_wake rd with
  | WakeCancelled =>
      Done (LiveCompletion (stop_completion (ctl_cancelled (ctrl d))
              (wrapping_cursor (original_cursor cfg) (consumed_offset (acc d)) ring)), d)
  | WakePoll => Done (LiveContinue clocked_cursor, d)
  | WakeData =>
      let slice := read_from ring clocked_cursor
                     (saturating_sub (cfg_max_bytes cfg) (zlen (returned_bytes (acc d)))) in
      if bool_decide (s_bytes slice = []) then Done (LiveContinue clocked_cursor, d)
      else process_live_chunk cfg slice ring (rd_now rd) d
  end.

(** One round of [run_wait]: the connection, the two timers, the wait. *)
Definition wait_round (cfg : ReadConfig) (clocked_cursor : Z) (rd : Round) (d : ReadDriver)
    : Run NewError (LiveChunkDecision * ReadDriver) :=
  let ring := rd_ring rd in
  let '(state, c) :=
    match rd_conn rd with
    | Some (st, enabled) => disconnect_state st enabled (rd_now rd) (ctrl d)
    | None => (Active, ctrl d)
    end in
  let d := set_ctrl d c in
  let timed_out o :=
    Done (LiveCompletion (stop_completion o
            (advance_private_cursor (original_cursor cfg) (consumed_offset (acc d)) ring)), d) in
  match state with
  | Closed =>
      Done (LiveCompletion (stop_completion (ctl_connection_closed c)
              (wrapping_cursor (original_cursor cfg) (consumed_offset (acc d)) ring)), d)
  | Reconnecting => Done (LiveContinue clocked_cursor, d)
  | Active =>
      match check_timeout c (rd_now rd) with
      | Stop o => timed_out o
      | Continue =>
          match check_silence_timeout c (rd_now rd) with
          | Stop o => timed_out o
          | Continue => wake_round cfg clocked_cursor rd d
          end
      end
  end.

(** [run_wait] over the rounds that happen; [None] when the read is still waiting
    after them. *)
Fixpoint run_wait (cfg : ReadConfig) (clocked_cursor : Z) (rounds : list Round) (d : ReadDriver)
    : Run NewError (option (ReadOutcome * Z)) :=
  match rounds with
  | [] => Done None
  | rd :: rounds =>
      '(decision, d) ← wait_round cfg clocked_cursor rd d;
      match decision with
      | LiveContinue next => run_wait cfg next rounds d
      | LiveCompletion c =>
          Done (Some (into_outcome (acc d) (rd_ring rd) (original_cursor cfg) (cfg_max_bytes cfg)
                        (rd_elapsed rd) c))
      end
  end.

(** [read_from_private_cursor]; [ring] is the ring of the initial slice, [start]
    the clock. *)
Definition read_from_private_cursor (cfg : ReadConfig) (timeout_ms no_new_rx_timeout_ms : option Z)
    (m : option Matcher) (start elapsed now : Z) (ring : RxRing) (rounds : list Round)
    : Run NewError (option (ReadOutcome * Z)) :=
  let slice := read_from ring (original_cursor cfg) (cfg_max_bytes cfg) in
  let d := mkDriver (ctl_new start timeout_ms (cfg_max_bytes cfg) no_new_rx_timeout_ms) m None acc_new in
  '(decision, d) ← process_initial cfg slice ring elapsed now d;
  match decision with
  | InitContinue => run_wait cfg (s_next_offset slice) rounds d
  | InitCompletion c =>
      Done (Some (into_outcome (acc d) ring (original_cursor cfg) (cfg_max_bytes cfg) elapsed c))
  | HistoricalContextMatch outcome final_cursor => Done (Some (outcome, final_cursor))
  end.

(** [read_bytes_from_ring]: the read starts at the session's shared cursor and
    sets it to the final cursor; the cursor stays when the read fails. *)
Definition read_bytes_from_ring (read_cursor max_bytes : Z) (framing : option RxFramingConfig)
    (parser : option ParserConfig) (timeout_ms no_new_rx_timeout_ms : option Z) (m : option Matcher)
    (start elapsed now : Z) (ring : RxRing) (rounds : list Round)
    : Run NewError (option (ReadOutcome * Z)) :=
  read_from_private_cursor (mkReadConfig read_cursor max_bytes framing parser) timeout_ms
    no_new_rx_timeout_ms m start elapsed now ring rounds.

(** [wait_for_ring_data]: the length of the adaptive poll. *)
Definition poll_ms (c : RxStopController) (read_start effective_timeout_ms now : Z) : Z :=
  let dl := default (read_start + effective_timeout_ms) (deadline c) in
  let remaining := saturating_sub dl now in
  Z.max 1 (Z.min 250 (saturating_sub remaining 1)).

End ReadLoop.
