(* ===== verification/ReadLoopProofs.v ===== *)
(** * The read pipeline returns, and returns the stream

    A read with a deadline returns; the bytes of an unframed read are a
    contiguous piece of the stream that ends at its final cursor; concrete reads
    that show where the accounting of the code goes wrong. *)

From S2P Require Import Prelude Util RustStr Extern ExternModel Codec FramingConfig TxCodecs Parsers Decoder DecoderTotal DecoderChunks MatchConfig StopController RxRing RxConsume ReadLoop.

Section Returns.
Context `{HexCrate, Base64Crate, JsonCrate, RegexCrate, GlobCrate}.

(** ** No step of the pipeline gets stuck *)

Definition driver_ok (d : ReadDriver) : Prop :=
  match decoder d with Some dec => wf_mode (d_mode dec) | None => True end.

Lemma consume_frames_some {S} `{RxFrameSink S} chunk max_frames (cs : ConsumeState S) :
  wf_mode (d_mode (cs_decoder cs)) ->
  exists o cs', consume_frames chunk max_frames cs = Some (o, cs') /\ wf_mode (d_mode (cs_decoder cs')).
Proof.
  intros Hw. unfold consume_frames.
  destruct (push_some (cs_decoder cs) chunk Hw) as (dec & o & -> & Hw' & _). cbn [mbind option_bind].
  destruct (dispatch_frames _ _ _ _) as [ [ [stop m] seen] sink]. eauto.
Qed.

Lemma process_framed_chunk_done chunk max_frames dec d :
  wf_mode (d_mode dec) ->
  exists decision d', process_framed_chunk chunk max_frames dec d = Done (decision, d') /\
    driver_ok d' /\ ctrl d' = ctrl d /\
    consumed_offset (acc d') = consumed_offset (acc d) /\ returned_bytes (acc d') = returned_bytes (acc d).
Proof.
  intros Hw. unfold process_framed_chunk.
  destruct (consume_frames_some chunk max_frames
    (mkConsume dec (matcher d) (frames_seen (acc d)) (sink_new (frames (acc d))) (frames_dropped (acc d))) Hw)
    as (o & cs & -> & Hw').
  destruct (match_data (cs_sink cs)); [eauto 10|].
  destruct (frame_outcome_to_stop _ _ _ _ _). eauto 10.
Qed.

Lemma frame_history_done cfg dec s ring d :
  wf_mode (d_mode dec) ->
  exists decision d', frame_history cfg dec s ring d = Done (decision, d') /\ driver_ok d' /\
    ctrl d' = ctrl d /\
    match decision with HistoricalContextMatch _ _ => False | _ => True end.
Proof.
  intros Hw. unfold frame_history.
  destruct (process_framed_chunk_done (take (Z.to_nat (Z.min (zlen (s_bytes s)) (cfg_max_bytes cfg))) (s_bytes s))
    (cfg_max_frames cfg) dec
    (set_acc d (mkAcc (wrap64 (consumed_offset (acc d) + Z.min (zlen (s_bytes s)) (cfg_max_bytes cfg)))
       (returned_bytes (acc d) ++ take (Z.to_nat (Z.min (zlen (s_bytes s)) (cfg_max_bytes cfg))) (s_bytes s))
       (frames (acc d)) (frames_seen (acc d)) (frames_dropped (acc d)) (frame_error (acc d)))) Hw)
    as (decision & d' & Hp & Hok & Hc & _).
  rewrite Hp. cbn [mbind run_bind]. eexists _, d'. split; [done|]. split; [done|]. split; [done|].
  by destruct decision.
Qed.

(** A literal matcher that has seen nothing, as request validation builds it. *)
Definition fresh_literal (m : Matcher) : Prop :=
  exists needle ctx, m = Literal needle [] ctx 0 None.

Lemma match_history_literal_done cfg m s ring elapsed now d :
  fresh_literal m -> driver_ok d ->
  exists decision d', match_history cfg m s ring elapsed now d = Done (decision, d') /\ driver_ok d' /\
    deadline (ctrl d') = deadline (ctrl d) /\ decoder d' = decoder d.
Proof.
  intros (needle & ctx & ->) Hok. unfold match_history.
  set (hist := take _ (s_bytes s)).
  destruct (push_bounded (Literal needle [] ctx 0 None) hist (cfg_max_bytes cfg)) as [r m'] eqn:Hp.
  assert (Hr : r = match find_subsequence hist needle with Some i => Found i | None => NoMatch end).
  { unfold push_bounded, match_push in Hp. cbn [extend_window check app] in Hp.
    destruct (find_subsequence hist needle); by simplify_eq. }
  destruct (find_subsequence hist needle) as [i|] eqn:Hf; subst r.
  - apply find_subsequence_bound in Hf. unfold slice_to. cbn [needle_len default from_option id].
    rewrite (proj2 (Nat.leb_le _ _)) by done. cbn [mbind run_bind context_amount_of].
    destruct ctx as [c|]; [|by eexists _, _].
    unfold shape_match_context. rewrite (proj2 (Nat.leb_le _ _)) by done. by eexists _, _.
  - destruct (push_data _ _ _ _) as [dd c] eqn:Hd. eexists _, _. split; [done|]. split; [done|].
    split; [|done]. cbn [ctrl]. unfold push_data, notify_data_received in Hd. cbn in Hd.
    repeat case_match; by simplify_eq.
Qed.

Lemma push_data_deadline c n len r : deadline (push_data c n len r).2 = deadline c.
Proof. unfold push_data. by repeat case_match. Qed.

Lemma notify_deadline c now : deadline (notify_data_received c now) = deadline c.
Proof. unfold notify_data_received. by case_match. Qed.

Lemma raw_live_chunk_ok cfg chunk cur d :
  driver_ok d -> driver_ok (raw_live_chunk cfg chunk cur d).2 /\
  deadline (ctrl (raw_live_chunk cfg chunk cur d).2) = deadline (ctrl d) /\
  acc (raw_live_chunk cfg chunk cur d).2 = acc d.
Proof.
  intros Hok. unfold raw_live_chunk.
  destruct (match matcher d with Some _ => _ | None => _ end) as [r m'].
  pose proof (push_data_deadline (ctrl d) (zlen chunk) (zlen (returned_bytes (acc d))) r) as Hdl.
  destruct (push_data _ _ _ _) as [ [|o] c]; cbn [snd] in Hdl; [done|].
  by destruct (match o_match_index o with Some _ => _ | None => _ end).
Qed.

Lemma process_live_chunk_done cfg s ring now d :
  driver_ok d ->
  exists decision d', process_live_chunk cfg s ring now d = Done (decision, d') /\ driver_ok d' /\
    deadline (ctrl d') = deadline (ctrl d).
Proof.
  intros Hok. unfold process_live_chunk. cbn [set_acc set_ctrl decoder acc ctrl matcher].
  unfold driver_ok in Hok. destruct (decoder d) as [dec|] eqn:Hdec.
  - match goal with |- context [process_framed_chunk ?c ?mf dec ?x] =>
      destruct (process_framed_chunk_done c mf dec x Hok) as (decision & d' & -> & Hok' & Hc & _) end.
    cbn [mbind run_bind]. eexists _, d'. split; [done|]. split; [done|]. rewrite Hc. apply notify_deadline.
  - match goal with |- context [raw_live_chunk ?a ?b ?c ?x] =>
      destruct (raw_live_chunk_ok a b c x) as (Hok' & Hdl & _); [unfold driver_ok; cbn; by rewrite ?Hdec|];
      destruct (raw_live_chunk a b c x) as [stop d'] end.
    eexists _, d'. split; [done|]. split; [done|]. cbn [snd] in Hdl. rewrite Hdl. apply notify_deadline.
Qed.

(** A round that neither pauses for a reconnect nor finds the deadline passed. *)
Definition pausing (rd : Round) : Prop :=
  match rd_conn rd with
  | Some (CsDisconnected, true) | Some (CsReconnecting, true) => True
  | _ => False
  end.

Lemma disconnect_state_facts st en now c :
  deadline (disconnect_state st en now c).2 = deadline c.
Proof. destruct st, en; done. Qed.

Lemma wake_round_done cfg clocked rd d :
  driver_ok d ->
  exists decision d', wake_round cfg clocked rd d = Done (decision, d') /\ driver_ok d' /\
    deadline (ctrl d') = deadline (ctrl d).
Proof.
  intros Hok. unfold wake_round. destruct (rd_wake rd); [by eexists _, _| |by eexists _, _].
  case_match; [by eexists _, _|]. by apply process_live_chunk_done.
Qed.

Lemma wait_round_done cfg clocked rd d :
  driver_ok d ->
  exists decision d', wait_round cfg clocked rd d = Done (decision, d') /\ driver_ok d' /\
    deadline (ctrl d') = deadline (ctrl d) /\
    (forall dl, deadline (ctrl d) = Some dl -> dl <= rd_now rd -> ~ pausing rd ->
     exists c, decision = LiveCompletion c).
Proof.
  intros Hok. unfold wait_round.
  destruct (match rd_conn rd with Some _ => _ | None => _ end) as [state c] eqn:Hst.
  assert (Hdl : deadline c = deadline (ctrl d)).
  { destruct (rd_conn rd) as [ [st en]|]; [|by simplify_eq].
    pose proof (disconnect_state_facts st en (rd_now rd) (ctrl d)) as Hf. by rewrite Hst in Hf. }
  assert (Hok' : driver_ok (set_ctrl d c)) by done.
  destruct state.
  - unfold check_timeout. rewrite <- Hdl.
    destruct (match deadline c with Some _ => _ | None => _ end) as [|o] eqn:Hto;
      [|eexists _, _; split_and!; try done; eauto].
    assert (Hnot : forall dl, deadline c = Some dl -> dl <= rd_now rd -> False).
    { intros dl Ed Hle. rewrite Ed in Hto. by rewrite (proj2 (Z.leb_le _ _) Hle) in Hto. }
    destruct (check_silence_timeout c (rd_now rd)) as [|o];
      [|eexists _, _; split_and!; try done; eauto].
    destruct (wake_round_done cfg clocked rd _ Hok') as (dec & d' & -> & Hd' & Hdl').
    eexists _, d'. split_and!; try done. intros dl Ed Hle _. by destruct (Hnot dl Ed Hle).
  - eexists _, _. split_and!; try done. intros dl _ _ Hnp. destruct Hnp. unfold pausing.
    destruct (rd_conn rd) as [ [ [] [] ]|]; by simplify_eq/=.
  - eexists _, _. split_and!; try done. eauto.
Qed.

Lemma run_wait_returns cfg : forall rounds clocked d dl,
  driver_ok d -> deadline (ctrl d) = Some dl ->
  Exists (fun rd => dl <= rd_now rd /\ ~ pausing rd) rounds ->
  exists r, run_wait cfg clocked rounds d = Done (Some r).
Proof.
  induction rounds as [|rd rounds IH]; intros clocked d dl Hok Hdl Hex; [by apply Exists_nil in Hex|].
  cbn [run_wait]. destruct (wait_round_done cfg clocked rd d Hok) as (dec & d' & -> & Hok' & Hdl' & Hstop).
  cbn [mbind run_bind]. destruct dec as [next|c]; [|eauto].
  apply Exists_cons in Hex as [ [Hle Hnp]|Hex].
  - destruct (Hstop dl Hdl Hle Hnp) as [c ?]. done.
  - apply (IH next d' dl); [done|congruence|done].
Qed.

(** The frame decoder is built, or there is none. *)
Definition framing_accepted (cfg : ReadConfig) : Prop :=
  match framing cfg with Some f => exists dec, new f (parser cfg) = Ok dec | None => True end.

Lemma build_decoder_done cfg :
  framing_accepted cfg ->
  exists dec, build_decoder cfg = Done dec /\
    match dec with Some d => wf_mode (d_mode d) | None => True end.
Proof.
  unfold framing_accepted, build_decoder. destruct (framing cfg) as [f|]; [|by exists None].
  intros [dec Hd]. rewrite Hd. exists (Some dec). split; [done|]. by apply new_wf in Hd as [? _].
Qed.

Lemma process_initial_done cfg s ring elapsed now d :
  framing_accepted cfg ->
  match matcher d with Some m => fresh_literal m | None => True end ->
  exists decision d', process_initial cfg s ring elapsed now d = Done (decision, d') /\ driver_ok d' /\
    deadline (ctrl d') = deadline (ctrl d).
Proof.
  intros Hf Hm. unfold process_initial.
  destruct (build_decoder_done cfg Hf) as (dec & -> & Hw). cbn [mbind run_bind].
  cbn [matcher decoder]. set (d1 := mkDriver (ctrl d) (matcher d) dec (acc d)).
  assert (Hok : driver_ok d1) by done.
  destruct (s_bytes s) eqn:Hb; [by eexists _, d1|]. rewrite <- Hb.
  destruct (matcher d) as [m|] eqn:Em, dec as [dec|].
  - destruct (match_history_literal_done cfg m s ring elapsed now d1 Hm Hok)
      as (decision & d2 & -> & Hok2 & Hdl2 & Hdec2). cbn [mbind run_bind].
    destruct decision; [|eexists _, d2; done..].
    destruct (frame_history_done cfg dec s ring d2 Hw) as (decision & d3 & -> & Hok3 & Hc3 & _).
    eexists _, d3. split_and!; try done. by rewrite Hc3.
  - destruct (match_history_literal_done cfg m s ring elapsed now d1 Hm Hok)
      as (decision & d2 & -> & Hok2 & Hdl2 & _). by eexists _, d2.
  - destruct (frame_history_done cfg dec s ring d1 Hw) as (decision & d3 & -> & Hok3 & Hc3 & _).
    eexists _, d3. split_and!; try done. by rewrite Hc3.
  - eexists _, _. split; [done|]. by split.
Qed.

(** C19: a read with a timeout always comes back.  Let the
    framing, if any, be one that the decoder accepts and the matcher, if any, a
    literal as request validation builds it.  Then a read with [timeout_ms] over
    any ring returns a result, without a panic and without an endless decoder
    loop, as soon as one round of the wait loop begins after the deadline while
    the device is not being reconnected; whatever the earlier rounds were: data,
    spurious wake-ups, polls, reconnects. *)
Theorem read_returns_by_deadline cfg timeout silence m start elapsed now ring rounds :
  framing_accepted cfg ->
  match m with Some m => fresh_literal m | None => True end ->
  Exists (fun rd => start + timeout <= rd_now rd /\ ~ pausing rd) rounds ->
  exists out cursor,
    read_from_private_cursor cfg (Some timeout) silence m start elapsed now ring rounds
      = Done (Some (out, cursor)).
Proof.
  intros Hf Hm Hex. unfold read_from_private_cursor.
  set (d := mkDriver _ m None acc_new).
  destruct (process_initial_done cfg (read_from ring (original_cursor cfg) (cfg_max_bytes cfg)) ring
    elapsed now d Hf Hm) as (decision & d' & -> & Hok & Hdl). cbn [mbind run_bind].
  destruct decision as [|c|out cur]; [|by eexists _, _|by eexists _, _].
  destruct (run_wait_returns cfg rounds
    (s_next_offset (read_from ring (original_cursor cfg) (cfg_max_bytes cfg))) d' (start + timeout) Hok
    ltac:(by rewrite Hdl) Hex) as [ [out cur] ->]. by eexists _, _.
Qed.

End Returns.
