(* ===== verification/ReadStream.v ===== *)
(** * An unframed read returns a piece of the stream

    Bytes, cursor and limit of a raw read, and concrete reads that show where
    the accounting of the code loses track. *)

From S2P Require Import Prelude Util RustStr Extern ExternModel Codec FramingConfig TxCodecs Parsers Decoder DecoderTotal DecoderChunks MatchConfig StopController RxRing RxConsume ReadLoop ReadLoopProofs.

Section Raw.
Context `{HexCrate, Base64Crate, JsonCrate, RegexCrate, GlobCrate}.
Context (cursor max : Z) (full : list byte).
Hypothesis Hcursor : 0 <= cursor.
Hypothesis Hmax : 0 <= max.
Hypothesis Hfull : zlen full < 2 ^ 64.

Definition raw_config : ReadConfig := mkReadConfig cursor max None None.

(** A ring that still holds everything from the read's cursor on. *)
Definition ring_at (ring : RxRing) (s : Spec) : Prop :=
  ring_rep ring s /\ stream s `prefix_of` full /\ retained_from s <= cursor.

(** The rings of the rounds: the pump only appends. *)
Fixpoint rings_grow (s : Spec) (rounds : list Round) : Prop :=
  match rounds with
  | [] => True
  | rd :: rounds =>
      exists s', ring_at (rd_ring rd) s' /\ stream s `prefix_of` stream s' /\ rings_grow s' rounds
  end.

(** What has been returned so far is the stream from the cursor on. *)
Definition raw_inv (s : Spec) (clocked : Z) (d : ReadDriver) : Prop :=
  let returned := returned_bytes (acc d) in
  decoder d = None /\
  match matcher d with Some m => context_amount_of m = None | None => True end /\
  clocked = cursor + zlen returned /\ consumed_offset (acc d) = zlen returned /\
  returned = take (length returned) (drop (Z.to_nat cursor) full) /\
  zlen returned <= max /\ clocked <= zlen (stream s).

(** A result: [n] bytes of the stream, and the cursor after them. *)
Definition raw_result (bytes : list byte) (final_cursor : Z) : Prop :=
  bytes = take (length bytes) (drop (Z.to_nat cursor) full) /\
  final_cursor = cursor + zlen bytes /\ zlen bytes <= max.

Lemma context_save m i cap : context_amount_of (save_literal_context m i cap) = context_amount_of m.
Proof. by destruct m as [? ? []| |]. Qed.

Lemma context_push_bounded m chunk k :
  context_amount_of (push_bounded m chunk k).2 = context_amount_of m.
Proof.
  unfold push_bounded, match_push.
  assert (He : context_amount_of (extend_window m chunk) = context_amount_of m) by by destruct m.
  assert (Ht : forall x keep, context_amount_of (truncate_front x keep) = context_amount_of x)
    by (intros x keep; unfold truncate_front; destruct (_ <? _)%nat; by destruct x).
  destruct (check _); cbn [snd]; case_match; rewrite ?Ht, ?context_save; done.
Qed.

Lemma shape_none m i : context_amount_of m = None -> shape_literal_match_context m i = None.
Proof. destruct m as [? ? [] | |]; try done. Qed.

Lemma ring_end ring s : ring_at ring s -> end_offset (inner ring) = zlen (stream s).
Proof. intros [Hr _]. apply (rep_end _ _ Hr). Qed.

Lemma stream_bound ring s : ring_at ring s -> zlen (stream s) <= zlen full.
Proof. intros (_ & Hp & _). apply prefix_length in Hp. unfold zlen. lia. Qed.

(** Cursors inside the stream are not clamped and do not wrap. *)
Lemma cursor_exact ring s base n :
  ring_at ring s -> 0 <= base -> 0 <= n -> base + n <= zlen (stream s) ->
  wrapping_cursor base n ring = base + n /\ advance_private_cursor base n ring = base + n.
Proof.
  intros Hr Hb Hn Hle. pose proof (stream_bound _ _ Hr).
  unfold wrapping_cursor, advance_private_cursor, saturating_add, U64_MAX.
  rewrite (ring_end _ _ Hr), wrap64_small by lia. lia.
Qed.

(** A slice read at the end of what was returned. *)
Lemma slice_extends ring s returned k :
  ring_at ring s -> 0 <= k -> cursor + zlen returned <= zlen (stream s) ->
  returned = take (length returned) (drop (Z.to_nat cursor) full) ->
  let sl := read_from ring (cursor + zlen returned) k in
  s_from_offset sl = cursor + zlen returned /\
  s_next_offset sl = cursor + zlen (returned ++ s_bytes sl) /\
  zlen (s_bytes sl) <= k /\ s_next_offset sl <= zlen (stream s) /\
  forall j, (j <= length (s_bytes sl))%nat ->
    returned ++ take j (s_bytes sl)
      = take (length (returned ++ take j (s_bytes sl))) (drop (Z.to_nat cursor) full).
Proof.
  intros (Hr & [tail Htail] & Hret) Hk Hle Hpre sl. pose proof (zlen_nonneg returned).
  unfold sl. rewrite (read_from_rep ring s) by (done || lia). unfold spec_read.
  cbn [s_from_offset s_next_offset s_bytes].
  replace (Z.min (Z.max (cursor + zlen returned) (retained_from s)) (zlen (stream s)))
    with (cursor + zlen returned) by lia.
  set (n := Z.max 0 (Z.min k (zlen (stream s) - (cursor + zlen returned)))).
  assert (Hn : 0 <= n <= zlen (stream s) - (cursor + zlen returned)) by lia.
  assert (Hlen : length (take (Z.to_nat n) (drop (Z.to_nat (cursor + zlen returned)) (stream s)))
    = Z.to_nat n) by (rewrite length_take, length_drop; unfold zlen in *; lia).
  assert (Hzl : zlen (take (Z.to_nat n) (drop (Z.to_nat (cursor + zlen returned)) (stream s))) = n)
    by (unfold zlen at 1; rewrite Hlen; lia).
  split; [done|]. split; [rewrite zlen_app, Hzl; lia|]. split; [rewrite Hzl; lia|]. split; [lia|]. intros j Hj. rewrite Hlen in Hj.
  rewrite take_take, Nat.min_l by lia. rewrite length_app, length_take, length_drop.
  rewrite Nat.min_l by (unfold zlen in *; lia).
  rewrite take_plus, <- Hpre. f_equal. rewrite drop_drop, Htail.
  rewrite drop_app_le by (unfold zlen in *; lia).
  rewrite take_app_le by (rewrite length_drop; unfold zlen in *; lia).
  f_equal. f_equal. unfold zlen. lia.
Qed.

Lemma raw_live_result cfg chunk cur d :
  match matcher d with Some m => context_amount_of m = None | None => True end ->
  let '(stop, d') := raw_live_chunk cfg chunk cur d in
  acc d' = acc d /\ decoder d' = decoder d /\
  match matcher d' with Some m => context_amount_of m = None | None => True end /\
  match stop with
  | Some c => c_payload_override c = Some (returned_bytes (acc d)) /\ c_final_cursor c = cur
  | None => True
  end.
Proof.
  intros Hm. unfold raw_live_chunk.
  set (mr := match matcher d with Some m => _ | None => _ end).
  assert (Hm' : match mr.2 with Some m => context_amount_of m = None | None => True end).
  { unfold mr. destruct (matcher d) as [m|]; [|done].
    pose proof (context_push_bounded m chunk (cfg_max_bytes cfg)) as Hc.
    destruct (push_bounded m chunk (cfg_max_bytes cfg)). cbn in *. by rewrite Hc. }
  destruct mr as [r m']. cbn [snd] in Hm'.
  destruct (push_data _ _ _ _) as [ [|o] c]; [done|].
  assert (Hshape : (match o_match_index o with
    | Some idx => match m' ≫= (fun m => shape_literal_match_context m idx) with
                  | Some shaped => (sh_data shaped, Some (sh_match_index shaped))
                  | None => (returned_bytes (acc d), Some idx)
                  end
    | None => (returned_bytes (acc d), None)
    end).1 = returned_bytes (acc d)).
  { destruct (o_match_index o); [|done]. destruct m' as [m1|]; [|done].
    cbn [mbind option_bind]. by rewrite shape_none. }
  destruct (match o_match_index o with Some _ => _ | None => _ end) as [mb mi]. cbn [fst] in Hshape.
  subst mb. done.
Qed.

Lemma process_live_raw ring s s0 clocked now d :
  ring_at ring s -> stream s0 `prefix_of` stream s -> raw_inv s0 clocked d ->
  match process_live_chunk raw_config
          (read_from ring clocked (saturating_sub max (zlen (returned_bytes (acc d))))) ring now d with
  | Done (LiveContinue next, d') => raw_inv s next d'
  | Done (LiveCompletion c, d') =>
      raw_result (default (returned_bytes (acc d')) (c_payload_override c)) (c_final_cursor c)
  | _ => False
  end.
Proof.
  intros Hr Hgrow (Hdec & Hm & -> & Hcons & Hpre & Hlim & Hle).
  assert (Hle' : cursor + zlen (returned_bytes (acc d)) <= zlen (stream s)).
  { apply prefix_length in Hgrow. unfold zlen in *. lia. }
  set (returned := returned_bytes (acc d)) in *. pose proof (zlen_nonneg returned) as Hnn.
  unfold saturating_sub. set (k := Z.max 0 (max - zlen returned)).
  destruct (slice_extends ring s returned k Hr ltac:(lia) Hle' Hpre) as (Hfrom & Hnext & Hk & Hend & Htake).
  set (sl := read_from ring (cursor + zlen returned) k) in *.
  pose proof (stream_bound _ _ Hr) as Hsb. pose proof (zlen_nonneg (s_bytes sl)) as Hnb.
  rewrite zlen_app in Hnext.
  unfold process_live_chunk. cbn [set_acc set_ctrl decoder acc ctrl matcher returned_bytes
    consumed_offset cfg_max_bytes raw_config]. rewrite Hdec. fold returned.
  assert (Hn : Z.min (zlen (s_bytes sl)) (saturating_sub max (zlen returned)) = zlen (s_bytes sl))
    by (unfold saturating_sub; lia).
  rewrite Hn, Hcons.
  assert (Hall : take (Z.to_nat (zlen (s_bytes sl))) (s_bytes sl) = s_bytes sl)
    by (apply take_ge; unfold zlen; lia).
  rewrite Hall, wrap64_small by lia.
  replace (Z.min (zlen returned + zlen (s_bytes sl)) max) with (zlen returned + zlen (s_bytes sl)) by lia.
  specialize (Htake (length (s_bytes sl)) ltac:(lia)). rewrite firstn_all in Htake.
  rewrite Hfrom.
  destruct (cursor_exact ring s (cursor + zlen returned) (zlen (s_bytes sl)) Hr ltac:(lia) ltac:(lia) ltac:(lia))
    as [Hw _].
  rewrite Hw. clear Hw.
  match goal with |- context [raw_live_chunk ?a ?b ?c ?x] =>
    pose proof (raw_live_result a b c x) as Hlive;
    destruct (raw_live_chunk a b c x) as [stop d'] end.
  cbn [set_acc set_ctrl matcher acc decoder returned_bytes] in Hlive. destruct (Hlive Hm) as (Hacc & Hd' & Hm' & Hstop).
  assert (Hlen : zlen (returned ++ s_bytes sl) = zlen returned + zlen (s_bytes sl)) by apply zlen_app.
  destruct stop as [c|].
  - destruct Hstop as [-> ->]. cbn [default from_option id]. split; [done|]. rewrite Hlen. lia.
  - unfold live_limit. rewrite Hacc. cbn [returned_bytes consumed_offset cfg_max_bytes original_cursor raw_config].
    rewrite Hlen. destruct (Z.leb_spec max (zlen returned + zlen (s_bytes sl))).
    + cbn [c_payload_override c_final_cursor default from_option id].
      destruct (cursor_exact ring s cursor (zlen returned + zlen (s_bytes sl)) Hr ltac:(lia) ltac:(lia) ltac:(lia))
        as [_ ->]. split; [done|]. rewrite Hlen. lia.
    + unfold raw_inv. rewrite Hacc, Hd'. cbn [returned_bytes consumed_offset].
      split_and!; try done; lia.
Qed.

(** ** The wait loop

    An invariant of the loop that does not look at the controller, survives the
    growth of the stream and live slices, and fixes the cursor, and what it gives when
    the loop completes. *)

Section Waiting.
Context (cfg : ReadConfig) (Inv : Spec -> Z -> ReadDriver -> Prop) (Res : ReadDriver -> ReadCompletion -> Prop).
Hypothesis Hcfg : original_cursor cfg = cursor.
Hypothesis Inv_ctrl : forall s c d k, Inv s c d -> Inv s c (set_ctrl d k).
Hypothesis Inv_grow : forall s s' c d, stream s `prefix_of` stream s' -> Inv s c d -> Inv s' c d.
Hypothesis Inv_cursor : forall s c d, Inv s c d ->
  0 <= consumed_offset (acc d) /\ c = cursor + consumed_offset (acc d) /\ c <= zlen (stream s).
Hypothesis Inv_stop : forall s c d o, Inv s c d -> Res d (stop_completion o c).
Hypothesis Inv_live : forall ring s clocked now d, ring_at ring s -> Inv s clocked d ->
  match process_live_chunk cfg (read_from ring clocked (saturating_sub (cfg_max_bytes cfg) (zlen (returned_bytes (acc d)))))
          ring now d with
  | Done (LiveContinue next, d') => Inv s next d'
  | Done (LiveCompletion c, d') => Res d' c
  | _ => False
  end.

Lemma wait_round_inv rd s clocked d :
  ring_at (rd_ring rd) s -> Inv s clocked d ->
  match wait_round cfg clocked rd d with
  | Done (LiveContinue next, d') => Inv s next d'
  | Done (LiveCompletion c, d') => Res d' c
  | _ => False
  end.
Proof.
  intros Hr Hinv. unfold wait_round.
  destruct (match rd_conn rd with Some _ => _ | None => _ end) as [state c]. apply (Inv_ctrl _ _ _ c) in Hinv.
  set (d' := set_ctrl d c) in *. clearbody d'. destruct (Inv_cursor _ _ _ Hinv) as (Hnn & Hcl & Hle).
  destruct (cursor_exact (rd_ring rd) s cursor (consumed_offset (acc d')) Hr ltac:(lia) ltac:(lia) ltac:(lia))
    as [Hwr Hadv].
  rewrite Hcfg, Hwr, Hadv, <- Hcl.
  destruct state; [destruct (check_timeout c (rd_now rd)); [destruct (check_silence_timeout c (rd_now rd))|]|..];
    try (by apply (Inv_stop s)); [|done].
  unfold wake_round. rewrite Hcfg, Hwr, <- Hcl.
  destruct (rd_wake rd); [by apply (Inv_stop s)|destruct (bool_decide _); [done|by apply Inv_live]|done].
Qed.

Lemma run_wait_inv : forall rounds s0 clocked d,
  rings_grow s0 rounds -> Inv s0 clocked d ->
  match run_wait cfg clocked rounds d with
  | Done (Some result) => exists d' c ring elapsed, Res d' c /\
      result = into_outcome (acc d') ring (original_cursor cfg) (cfg_max_bytes cfg) elapsed c
  | Done None => True
  | _ => False
  end.
Proof.
  induction rounds as [|rd rounds IH]; intros s0 clocked d Hg Hinv; [done|].
  destruct Hg as (s & Hr & Hgrow & Hg). cbn [run_wait].
  pose proof (wait_round_inv rd s clocked d Hr (Inv_grow _ _ _ _ Hgrow Hinv)) as Hstep.
  destruct (wait_round cfg clocked rd d) as [ [ [next|c] d']| | |]; try done; cbn [mbind run_bind].
  - by apply (IH s).
  - by exists d', c, (rd_ring rd), (rd_elapsed rd).
Qed.
End Waiting.

Lemma run_wait_raw rounds s0 clocked d :
  rings_grow s0 rounds -> raw_inv s0 clocked d ->
  match run_wait raw_config clocked rounds d with
  | Done (Some (out, final)) => raw_result (r_bytes out) final
  | Done None => True
  | _ => False
  end.
Proof.
  intros Hg Hinv.
  set (Res := fun (d : ReadDriver) c =>
    raw_result (default (returned_bytes (acc d)) (c_payload_override c)) (c_final_cursor c)).
  assert (Hw : match run_wait raw_config clocked rounds d with
    | Done (Some result) => exists d' c ring elapsed, Res d' c /\
        result = into_outcome (acc d') ring (original_cursor raw_config) (cfg_max_bytes raw_config) elapsed c
    | Done None => True
    | _ => False
    end).
  { apply (run_wait_inv raw_config raw_inv Res) with (s0 := s0); try done.
    - intros s s' c d1 Hgrow (? & ? & ? & ? & ? & ? & Hle). split_and!; try done.
      apply prefix_length in Hgrow. unfold zlen in *. lia.
    - intros s c d1 (_ & _ & -> & -> & _ & _ & Hle). split_and!; [apply zlen_nonneg|done|done].
    - intros s c d1 o (_ & _ & -> & _ & Hpre & Hlim & _). by split_and!.
    - intros ring s c now d1 Hr Hi. by apply (process_live_raw ring s s). }
  destruct (run_wait raw_config clocked rounds d) as [ [ [out final]|]| | |]; try done.
  destruct Hw as (d' & c & ring & elapsed & Hres & [= -> ->]). exact Hres.
Qed.

(** The first slice, whatever the matcher makes of it. *)
Lemma process_initial_raw ring s elapsed now d :
  ring_at ring s -> cursor <= zlen (stream s) ->
  match matcher d with Some m => context_amount_of m = None | None => True end ->
  decoder d = None -> acc d = acc_new ->
  let sl := read_from ring cursor max in
  match process_initial raw_config sl ring elapsed now d with
  | Done (InitContinue, d') => raw_inv s (s_next_offset sl) d'
  | Done (InitCompletion c, d') =>
      raw_result (default (returned_bytes (acc d')) (c_payload_override c)) (c_final_cursor c)
  | Done (HistoricalContextMatch _ _, _) => False
  | Panicked => True
  | _ => False
  end.
Proof.
  intros Hr Hc Hm Hdec Hacc sl.
  pose proof (slice_extends ring s [] max Hr Hmax ltac:(rewrite zlen_nil; lia) eq_refl) as Hsl.
  rewrite zlen_nil, Z.add_0_r in Hsl. fold sl in Hsl. cbn [app] in Hsl.
  destruct Hsl as (Hfrom & Hnext & Hk & Hend & Htake). pose proof (zlen_nonneg (s_bytes sl)) as Hnn.
  assert (Hmin : Z.min (zlen (s_bytes sl)) max = zlen (s_bytes sl)) by lia.
  assert (Hall : take (Z.to_nat (zlen (s_bytes sl))) (s_bytes sl) = s_bytes sl)
    by (apply take_ge; unfold zlen; lia).
  pose proof (Htake (length (s_bytes sl)) ltac:(lia)) as Hpre. rewrite firstn_all in Hpre.
  unfold process_initial, build_decoder. cbn [raw_config framing mbind run_bind matcher decoder acc].
  rewrite Hacc.
  destruct (s_bytes sl) as [|b0 rest] eqn:Hb.
  - rewrite zlen_nil, Z.add_0_r in Hnext. unfold raw_inv. cbn. rewrite zlen_nil. split_and!; try done; lia.
  - rewrite <- Hb in *. destruct (matcher d) as [m|] eqn:Em.
    + unfold match_history. cbn [cfg_max_bytes raw_config]. rewrite Hmin, Hall.
      pose proof (context_push_bounded m (s_bytes sl) max) as Hctx.
      destruct (push_bounded m (s_bytes sl) max) as [ [|idx] m']; cbn [snd] in Hctx.
      * destruct (push_data _ _ _ _) as [dd c].
        unfold raw_inv. cbn [decoder matcher acc returned_bytes consumed_offset acc_new frames].
        rewrite Hctx. split_and!; try done; lia.
      * unfold slice_to. destruct (Nat.leb_spec (idx + default 0%nat (needle_len m)) (length (s_bytes sl)))
          as [Hle|]; cbn [mbind run_bind]; [|done].
        rewrite Hm. cbn [c_payload_override c_final_cursor default from_option set_acc acc returned_bytes].
        split; [by apply Htake|].
        assert (Hl : zlen (take (idx + default 0%nat (needle_len m)) (s_bytes sl))
          = Z.of_nat (idx + default 0%nat (needle_len m))) by (unfold zlen; rewrite length_take; lia).
        rewrite Hl, Hfrom.
        destruct (cursor_exact ring s cursor (Z.of_nat (idx + default 0%nat (needle_len m))) Hr
          ltac:(lia) ltac:(lia) ltac:(unfold zlen in *; lia)) as [_ ->].
        split; [done|]. unfold zlen in *. lia.
    + cbn [c_payload_override c_final_cursor default from_option set_acc acc returned_bytes cfg_max_bytes raw_config].
      rewrite Hmin, Hall, Hfrom.
      destruct (cursor_exact ring s cursor (zlen (s_bytes sl)) Hr ltac:(lia) ltac:(lia) ltac:(lia)) as [_ ->].
      split; [done|]. split; [done|]. lia.
Qed.

(** The read itself, for every reader that starts at [cursor]. *)
Lemma raw_private_read timeout silence m start elapsed now ring s rounds :
  ring_at ring s -> cursor <= zlen (stream s) -> rings_grow s rounds ->
  match m with Some m => context_amount_of m = None | None => True end ->
  match read_from_private_cursor raw_config timeout silence m start elapsed now ring rounds with
  | Done (Some (out, final)) => raw_result (r_bytes out) final
  | Done None => True
  | Panicked => exists m', m = Some m'
  | Failed _ | Diverged => False
  end.
Proof.
  intros Hr Hc Hg Hm. unfold read_from_private_cursor.
  set (d := mkDriver _ m None acc_new).
  pose proof (process_initial_raw ring s elapsed now d Hr Hc Hm eq_refl eq_refl) as Hi.
  cbn [original_cursor cfg_max_bytes raw_config] in *.
  destruct (process_initial raw_config (read_from ring cursor max) ring elapsed now d)
    as [ [ [|c|out cur] d']|e| |] eqn:Ep; cbn [mbind run_bind]; try done.
  - pose proof (run_wait_raw rounds s _ d' Hg Hi) as Hw.
    destruct (run_wait raw_config _ rounds d') as [ [ [out final]|]| | |]; try done.
  - destruct m as [m|]; [by exists m|]. exfalso. unfold process_initial, build_decoder in Ep.
    cbn in Ep. by destruct (s_bytes (read_from ring cursor max)).
Qed.

(** C4: an unframed read returns a contiguous piece of the
    stream.  Take a read without framing, with no matcher or any matcher without
    context, whose cursor is inside the stream, over rings to which the pump only
    appends and which do not drop bytes at or past the cursor while the read runs.
    Whatever stops it (buffered bytes, a match, the byte limit, either timeout,
    cancellation, a closed connection), the bytes it returns are the stream
    starting at its cursor, at most [max_bytes] of them, and the final cursor is
    the position after the last byte returned, so the next read continues exactly
    there. *)
Theorem raw_read_returns_stream timeout silence m start elapsed now ring s rounds :
  ring_at ring s -> cursor <= zlen (stream s) -> rings_grow s rounds ->
  match m with Some m => context_amount_of m = None | None => True end ->
  match read_bytes_from_ring cursor max None None timeout silence m start elapsed now ring rounds with
  | Done (Some (out, final)) =>
      r_bytes out = take (length (r_bytes out)) (drop (Z.to_nat cursor) full) /\
      final = cursor + zlen (r_bytes out) /\ zlen (r_bytes out) <= max
  | Done None => True
  | Panicked => exists m', m = Some m'
  | Failed _ | Diverged => False
  end.
Proof.
  intros Hr Hc Hg Hm.
  exact (raw_private_read timeout silence m start elapsed now ring s rounds Hr Hc Hg Hm).
Qed.

End Raw.

(** ** Concrete reads *)

(** A ring of [cap] bytes that has received [bytes]. *)
Definition ring_with (cap : Z) (bytes : list byte) : RxRing :=
  append (default small_ring (ring_new cap)) bytes.

Lemma ring_with_at cap bytes full cursor :
  0 < cap -> zlen bytes <= cap -> zlen bytes < 2 ^ 64 -> 0 <= cursor -> bytes `prefix_of` full ->
  ring_at cursor full (ring_with cap bytes) (mkSpec bytes 0 0).
Proof.
  intros Hc Hb Hl Hcur Hp. unfold ring_with.
  destruct (ring_new cap) as [r|] eqn:Hr; [|by unfold ring_new in Hr; rewrite (proj2 (Z.ltb_lt _ _)) in Hr].
  assert (Hcap : ring_capacity r = cap) by (unfold ring_new in Hr; case_match; by simplify_eq).
  pose proof (append_rep r spec_new bytes (ring_new_rep _ _ Hr) ltac:(cbn [stream spec_new]; rewrite zlen_nil; lia)) as Ha.
  unfold spec_append in Ha. cbn [stream spec_new retained_from wrapped app] in Ha.
  replace (Z.max 0 (zlen bytes - ring_capacity r)) with 0 in Ha by lia.
  split; [exact Ha|]. by split.
Qed.

Definition data_round (now : Z) (ring : RxRing) : Round := mkRound None now WakeData ring now.
Definition poll_round (now : Z) (ring : RxRing) : Round := mkRound None now WakePoll ring now.

Lemma raw_read_returns_stream_witness :
  match read_bytes_from_ring 2 3 None None (Some 50) None (Some (Literal (bs "zz") [] None 0 None)) 0 0 0
          (ring_with 8 (bs "abc")) [poll_round 1 (ring_with 8 (bs "abc")); data_round 2 (ring_with 8 (bs "abcdefg"))] with
  | Done (Some (out, final)) =>
      r_bytes out = take (length (r_bytes out)) (drop (Z.to_nat 2) (bs "abcdefg")) /\
      final = 2 + zlen (r_bytes out) /\ zlen (r_bytes out) <= 3
  | Done None => True
  | Panicked => exists m', Some (Literal (bs "zz") [] None 0 None) = Some m'
  | Failed _ | Diverged => False
  end.
Proof.
  apply (raw_read_returns_stream 2 3 (bs "abcdefg") ltac:(discriminate) ltac:(discriminate) ltac:(reflexivity)
    (Some 50) None (Some (Literal (bs "zz") [] None 0 None)) 0 0 0 (ring_with 8 (bs "abc")) (mkSpec (bs "abc") 0 0)).
  - apply ring_with_at; try reflexivity; try discriminate. exists (bs "defg"). reflexivity.
  - discriminate.
  - exists (mkSpec (bs "abc") 0 0). split; [|split; [reflexivity|] ].
    + apply ring_with_at; try reflexivity; try discriminate. exists (bs "defg"). reflexivity.
    + exists (mkSpec (bs "abcdefg") 0 0). split; [|split; [exists (bs "defg"); reflexivity|exact I] ].
      apply ring_with_at; try reflexivity; try discriminate.
  - reflexivity.
Defined.

Lemma read_returns_by_deadline_witness :
  exists out cursor,
    read_from_private_cursor (mkReadConfig 0 64 (Some (mkRxFraming RxSlip None false false)) None)
      (Some 50) (Some 20) (Some (Literal (bs "OK") [] None 0 None)) 0 0 0
      (ring_with 8 []) [poll_round 10 (ring_with 8 []); poll_round 60 (ring_with 8 [])]
      = Done (Some (out, cursor)).
Proof.
  apply (read_returns_by_deadline (mkReadConfig 0 64 (Some (mkRxFraming RxSlip None false false)) None) 50).
  - eexists. reflexivity.
  - exists (bs "OK"), None. reflexivity.
  - right. left. split; [discriminate|]. intros Hp. exact Hp.
Defined.

(** What the reads below show of a result. *)
Definition summary (r : Run NewError (option (ReadOutcome * Z)))
    : option (list byte * option Z * Z * Z) :=
  match r with
  | Done (Some (out, cur)) => Some (r_bytes out, r_next_offset out, m_bytes_observed (r_meta out), cur)
  | _ => None
  end.

Definition plain_read (cursor max : Z) (f : option RxFramingConfig) (m : option Matcher)
    (timeout : option Z) (ring : RxRing) (rounds : list Round) :=
  read_bytes_from_ring cursor max f None timeout None m 0 0 0 ring rounds.

(** A match in the buffered bytes moves the cursor, but [next_offset] stays. *)
Example history_match_next_offset :
  summary (plain_read 0 16 None (Some (Literal (bs "OK") [] None 0 None)) None (ring_with 16 (bs "aOKb")) [])
    = Some (bs "aOK", Some 0, 3, 3).
Proof. vm_compute. reflexivity. Qed.

(** A regex match in the buffered bytes returns the bytes before it only, and the
    cursor stays in front of it: the same match is found again. *)
Example history_regex_match_is_not_consumed :
  summary (plain_read 1 16 None (Some (MRegex (bs "OK" : @Regex regex_reference) [] None 0)) None
             (ring_with 16 (bs "aOKb")) [])
    = Some ([], None, 0, 1).
Proof. vm_compute. reflexivity. Qed.

(** A glob match behind an invalid byte is a slice out of range: its index counts
    the decoded text. *)
Example history_glob_match_panics :
  plain_read 0 16 None (Some (Glob (bs "OK" : @Pattern glob_reference) [] None 0 false)) None
    (ring_with 16 ([xff; xff; xff; LF] ++ bs "OK")) [] = Panicked.
Proof. vm_compute. reflexivity. Qed.

(** With a matcher and framing, buffered bytes that do not match are counted
    twice: the returned bytes are doubled and the cursor skips bytes that arrive
    later. *)
Example framed_history_counted_twice :
  summary (plain_read 0 16 (Some (mkRxFraming (RxLine Lf) None false false))
             (Some (Literal (bs "OK") [] None 0 None)) (Some 50)
             (ring_with 16 (bs "ab")) [poll_round 60 (ring_with 16 (bs "abcdef"))])
    = Some (bs "abab", Some 4, 2, 4).
Proof. vm_compute. reflexivity. Qed.

(** Bytes lost to ring wrap: the bytes are returned, but the final cursor counts
    from the old cursor, so the next read returns them again. *)
Example lost_bytes_are_returned_twice :
  let ring := ring_with 4 (bs "abcdefgh") in
  summary (plain_read 0 16 None (Some (Literal (bs "zz") [] None 0 None)) (Some 50) ring [poll_round 60 ring])
    = Some (bs "efgh", Some 8, 4, 4) /\
  summary (plain_read 4 16 None None None ring []) = Some (bs "efgh", Some 8, 4, 8).
Proof. split; vm_compute; reflexivity. Qed.

(** Buffered bytes that fill [max_bytes] without a match do not end the read:
    later data wakes it, and it reads zero bytes again and again. *)
Example full_history_never_completes :
  plain_read 0 2 None (Some (Literal (bs "zz") [] None 0 None)) None (ring_with 8 (bs "abcd"))
    (repeat (data_round 9 (ring_with 8 (bs "abcdefg"))) 50) = Done None.
Proof. vm_compute. reflexivity. Qed.

(** A framed read without a matcher reports zero observed bytes. *)
Example framed_read_observes_nothing :
  summary (plain_read 0 16 (Some (mkRxFraming (RxLine Lf) (Some 1) false false)) None None
             (ring_with 16 (bs "ab" ++ [LF])) [])
    = Some (bs "ab" ++ [LF], Some 3, 0, 3).
Proof. vm_compute. reflexivity. Qed.
