(* ===== verification/FramedStream.v ===== *)
(** * A framed read returns the frames of a piece of the stream

    What a read with framing and without a matcher returns, and what a peer that
    sends frames gets across: [read_from_private_cursor] of
    [src/tools/read_loop.rs] with the decoder of [src/framing/decoder.rs]. *)

From S2P Require Import Prelude Util RustStr Extern ExternModel Codec FramingConfig TxCodecs Parsers Decoder DecoderTotal DecoderChunks DecoderRoundtrip MatchConfig StopController RxRing RxConsume ReadLoop ReadLoopProofs ReadStream.

Section Decoded.
Context `{HexCrate, Base64Crate, JsonCrate, RegexCrate, GlobCrate}.

Lemma push_all_snoc chunks c : forall d d1 o1 d2 o2,
  push_all d chunks = Some (d1, o1) -> o_error o1 = None -> push d1 c = Some (d2, o2) ->
  push_all d (chunks ++ [c]) = Some (d2, merge_outcomes o1 o2).
Proof.
  induction chunks as [|c0 chunks IH]; intros d d1 o1 d2 o2 Hall He Hp; cbn [push_all app] in *.
  - injection Hall as <- <-. rewrite Hp. cbn [mbind option_bind]. unfold merge_outcomes.
    destruct o2 as [fs n [e|] ]; cbn; [done|]. by rewrite app_nil_r, Nat.add_0_r.
  - destruct (push d c0) as [ [d' o']|]; cbn [mbind option_bind] in *; [|done].
    destruct (o_error o') as [e|] eqn:He'; [injection Hall as <- <-; congruence|].
    destruct (push_all d' chunks) as [ [d'' o'']|] eqn:Hrest; cbn [mbind option_bind] in *; [|done].
    injection Hall as <- <-. cbn [o_error] in He. rewrite (IH _ _ _ _ _ Hrest He Hp). cbn [mbind option_bind].
    unfold merge_outcomes. cbn. by rewrite app_assoc, Nat.add_assoc.
Qed.

(** [o] is what a decoder that starts as [d0] reports for [bytes], cut somehow. *)
Definition decoded (d0 : FrameDecoder) (bytes : list byte) (dec : FrameDecoder) (o : PushOutcome) : Prop :=
  exists chunks, concat chunks = bytes /\ push_all d0 chunks = Some (dec, o).

Lemma decoded_start d0 : decoded d0 [] d0 (mkOutcome [] 0 None).
Proof. by exists []. Qed.

Lemma decoded_push d0 bytes dec o chunk dec' o' :
  decoded d0 bytes dec o -> o_error o = None -> push dec chunk = Some (dec', o') ->
  decoded d0 (bytes ++ chunk) dec' (merge_outcomes o o').
Proof.
  intros (chunks & <- & Hall) He Hp. exists (chunks ++ [chunk]).
  split; [by rewrite concat_app; cbn [concat]; rewrite app_nil_r|by eapply push_all_snoc].
Qed.

(** Where boundaries are local, the cuts do not matter. *)
Lemma decoded_local d0 bytes dec o :
  local_mode (d_mode d0) -> decoded d0 bytes dec o ->
  (bytes = [] /\ o = mkOutcome [] 0 None) \/ exists dec', push d0 bytes = Some (dec', o).
Proof.
  intros Hl (chunks & <- & Hall). destruct chunks as [|c chunks].
  - left. cbn in Hall. by injection Hall as <- <-.
  - right. destruct (push_all_concat d0 c chunks Hl) as (d1 & d2 & o' & Ha & Hb & _).
    rewrite Ha in Hall. injection Hall as -> ->. by exists d2.
Qed.

(** What has been decoded so far is the beginning of what will be. *)
Lemma decoded_prefix d0 bytes more dec o dec' o' :
  local_mode (d_mode d0) -> decoded d0 bytes dec o ->
  push d0 (bytes ++ more) = Some (dec', o') -> o_error o' = None ->
  o_error o = None /\ (exists later, o_frames o' = o_frames o ++ later /\ (more = [] -> bytes <> [] -> later = [])) /\
  (o_frames_dropped o <= o_frames_dropped o')%nat.
Proof.
  intros Hl Hd Hp He. destruct (decoded_local _ _ _ _ Hl Hd) as [ [-> ->]|(dec1 & Hp1)].
  { cbn. split; [done|]. split; [by exists (o_frames o')|lia]. }
  destruct (push_app d0 bytes more Hl) as (d1 & o1 & Hp1' & _ & Happ). rewrite Hp1 in Hp1'.
  injection Hp1' as <- <-. destruct (o_error o) as [e|] eqn:Heo.
  { destruct Happ as [d2 Hd2]. rewrite Hp in Hd2. injection Hd2 as -> ->. congruence. }
  split; [done|]. destruct (push dec1 more) as [ [d2 o2]|] eqn:Hp2; cbn [mbind option_bind] in Happ;
    rewrite Hp in Happ; [|done]. injection Happ as -> ->. cbn [merge_outcomes o_frames o_frames_dropped].
  split; [|lia]. exists (o_frames o2). split; [done|]. intros -> Hne. rewrite app_nil_r, Hp1 in Hp.
  injection Hp as _ Ho. apply (f_equal (length ∘ o_frames)) in Ho. cbn in Ho. rewrite length_app in Ho.
  apply nil_length_inv. lia.
Qed.

(** Without a matcher every frame is collected and nothing matches. *)
Lemma dispatch_unmatched frames : forall seen s,
  dispatch_frames frames None seen s
  = (None, None, (seen + length frames)%nat,
     mkSink (collected s ++ frames) (match_data s) (sink_match_index s) (match_frame_index s)).
Proof.
  induction frames as [|f frames IH]; intros seen s; cbn [dispatch_frames length].
  - rewrite Nat.add_0_r, app_nil_r. by destruct s.
  - unfold match_one_frame. cbn [on_frame read_frame_sink]. rewrite bool_decide_eq_false_2 by naive_solver.
    cbn [andb]. rewrite IH. cbn [collected match_data sink_match_index match_frame_index].
    rewrite <- (assoc_L (++)). by replace (seen + 1 + length frames)%nat with (seen + S (length frames))%nat by lia.
Qed.

(** The accumulator has what the decoder reported. *)
Definition acc_holds (a : ReadAccumulator) (o : PushOutcome) : Prop :=
  frames a = o_frames o /\ frames_seen a = length (o_frames o) /\
  frames_dropped a = o_frames_dropped o /\ frame_error a = o_error o.

Lemma process_framed_decodes d0 chunk max_frames bytes dec o d :
  decoded d0 bytes dec o -> o_error o = None -> wf_mode (d_mode dec) -> matcher d = None ->
  acc_holds (acc d) o ->
  exists decision d' dec' o', process_framed_chunk chunk max_frames dec d = Done (decision, d') /\
    decoder d' = Some dec' /\ matcher d' = None /\ wf_mode (d_mode dec') /\
    decoded d0 (bytes ++ chunk) dec' o' /\ acc_holds (acc d') o' /\
    returned_bytes (acc d') = returned_bytes (acc d) /\ consumed_offset (acc d') = consumed_offset (acc d) /\
    match decision with FcContinue => o_error o' = None | FcMatch _ _ _ => False | FcStop _ _ => True end.
Proof.
  intros Hdec He Hw Hm (Hf & Hs & Hn & Herr). unfold process_framed_chunk, consume_frames.
  cbn [cs_decoder cs_matcher cs_frames_seen cs_sink cs_frames_dropped].
  destruct (push_some dec chunk Hw) as (dec' & o' & Hp & Hw' & _). rewrite Hp. cbn [mbind option_bind].
  rewrite Hm, dispatch_unmatched. cbn [cs_sink match_data sink_new cs_decoder cs_matcher cs_frames_seen
    cs_frames_dropped collected sink_match_index match_frame_index].
  pose proof (decoded_push _ _ _ _ _ _ _ Hdec He Hp) as Hdec'.
  assert (Hmerged : frames (acc d) ++ o_frames o' = o_frames (merge_outcomes o o') /\
    (frames_seen (acc d) + length (o_frames o'))%nat = length (o_frames (merge_outcomes o o')) /\
    (frames_dropped (acc d) + o_frames_dropped o')%nat = o_frames_dropped (merge_outcomes o o')).
  { cbn. by rewrite Hf, Hs, Hn, length_app. }
  destruct Hmerged as (Hf' & Hs' & Hn'). rewrite He in Herr. unfold frame_outcome_to_stop, acc_holds.
  destruct (o_error o') as [e|] eqn:He'; [|destruct max_frames as [limit|]; [destruct (limit <=? _)|] ];
    eexists _, _, dec', (merge_outcomes o o'); (split; [done|]); split_and!; try done; cbn; congruence.
Qed.
End Decoded.

Section FramedRead.
Context `{HexCrate, Base64Crate, JsonCrate, RegexCrate, GlobCrate}.
Context (cursor max : Z) (full : list byte).
Hypothesis Hcursor : 0 <= cursor.
Hypothesis Hmax : 0 <= max.
Hypothesis Hfull : zlen full < 2 ^ 64.
Context (config : RxFramingConfig) (pc : option ParserConfig) (d0 : FrameDecoder).
Hypothesis Hnew : new config pc = Ok d0.

Definition framed_config : ReadConfig := mkReadConfig cursor max (Some config) pc.

(** The accumulator after some bytes of the stream: the decoder has had them all. *)
Definition framed_acc (d : ReadDriver) (o : PushOutcome) : Prop :=
  let returned := returned_bytes (acc d) in
  matcher d = None /\ acc_holds (acc d) o /\ consumed_offset (acc d) = zlen returned /\
  returned = take (length returned) (drop (Z.to_nat cursor) full) /\ zlen returned <= max /\
  exists dec, decoder d = Some dec /\ wf_mode (d_mode dec) /\ decoded d0 returned dec o.

Definition framed_inv (s : Spec) (clocked : Z) (d : ReadDriver) : Prop :=
  exists o, framed_acc d o /\ o_error o = None /\
    clocked = cursor + zlen (returned_bytes (acc d)) /\ clocked <= zlen (stream s).

Definition framed_res (d : ReadDriver) (c : ReadCompletion) : Prop :=
  c_payload_override c = None /\ c_final_cursor c = cursor + zlen (returned_bytes (acc d)) /\
  exists o, framed_acc d o.

(** One more chunk: the bytes are appended, the decoder gets them. *)
Lemma framed_chunk d o chunk dec max_frames :
  framed_acc d o -> o_error o = None -> decoder d = Some dec ->
  let returned := returned_bytes (acc d) ++ chunk in
  returned = take (length returned) (drop (Z.to_nat cursor) full) -> zlen returned <= max ->
  exists decision d' o',
    process_framed_chunk chunk max_frames dec
      (set_acc d (mkAcc (zlen returned) returned (frames (acc d)) (frames_seen (acc d))
                    (frames_dropped (acc d)) (frame_error (acc d)))) = Done (decision, d') /\
    returned_bytes (acc d') = returned /\ framed_acc d' o' /\
    match decision with FcContinue => o_error o' = None | FcMatch _ _ _ => False | FcStop _ _ => True end.
Proof.
  intros (Hm & Hacc & _ & _ & _ & dec' & Hdec & Hw & Hd) He Hdec' returned Hpre Hlim.
  rewrite Hdec in Hdec'. injection Hdec' as ->.
  destruct (process_framed_decodes d0 chunk max_frames (returned_bytes (acc d)) dec o
    (set_acc d (mkAcc (zlen returned) returned (frames (acc d)) (frames_seen (acc d))
                  (frames_dropped (acc d)) (frame_error (acc d)))) Hd He Hw Hm Hacc)
    as (decision & d' & dec' & o' & -> & Hdec' & Hm' & Hw' & Hd' & Hacc' & Hr & Hc & Hdecision).
  cbn [set_acc acc returned_bytes consumed_offset] in Hr, Hc. exists decision, d', o'. split; [done|]. split; [done|].
  split; [|done]. unfold framed_acc. rewrite Hr, Hc. split_and!; try done. by exists dec'.
Qed.

Lemma process_live_framed ring s clocked now d :
  ring_at cursor full ring s -> framed_inv s clocked d ->
  match process_live_chunk framed_config
          (read_from ring clocked (saturating_sub max (zlen (returned_bytes (acc d))))) ring now d with
  | Done (LiveContinue next, d') => framed_inv s next d'
  | Done (LiveCompletion c, d') => framed_res d' c
  | _ => False
  end.
Proof.
  intros Hr (o & Hacc & He & -> & Hle).
  pose proof Hacc as (Hm & _ & Hcons & Hpre & Hlim & dec & Hdec & _ & _).
  set (returned := returned_bytes (acc d)) in *. pose proof (zlen_nonneg returned) as Hnn.
  unfold saturating_sub. set (k := Z.max 0 (max - zlen returned)).
  destruct (slice_extends cursor full Hcursor ring s returned k Hr ltac:(lia) Hle Hpre) as (Hfrom & Hnext & Hk & Hend & Htake).
  set (sl := read_from ring (cursor + zlen returned) k) in *.
  pose proof (stream_bound cursor full _ _ Hr) as Hsb. pose proof (zlen_nonneg (s_bytes sl)) as Hnb.
  specialize (Htake (length (s_bytes sl)) ltac:(lia)). rewrite firstn_all in Htake.
  pose proof (zlen_app returned (s_bytes sl)) as Hlen. rewrite Hlen in Hnext.
  unfold process_live_chunk. cbn [set_acc set_ctrl decoder acc ctrl matcher returned_bytes
    consumed_offset cfg_max_bytes framed_config]. rewrite Hdec. fold returned.
  replace (Z.min (zlen (s_bytes sl)) (saturating_sub max (zlen returned))) with (zlen (s_bytes sl))
    by (unfold saturating_sub; lia).
  replace (take (Z.to_nat (zlen (s_bytes sl))) (s_bytes sl)) with (s_bytes sl)
    by (symmetry; apply take_ge; unfold zlen; lia).
  rewrite Hcons, wrap64_small by lia.
  replace (Z.min (zlen returned + zlen (s_bytes sl)) max) with (zlen (returned ++ s_bytes sl)) by lia.
  rewrite Hfrom. destruct (cursor_exact cursor full Hfull ring s (cursor + zlen returned) (zlen (s_bytes sl)) Hr
    ltac:(lia) ltac:(lia) ltac:(lia)) as [-> _].
  assert (Hlimit : zlen (returned ++ s_bytes sl) <= max) by lia.
  destruct (framed_chunk (set_ctrl d (notify_data_received (ctrl d) now)) o (s_bytes sl) dec
    (cfg_max_frames framed_config) Hacc He Hdec Htake Hlimit)
    as (decision & d' & o' & Hp & Hret & Hacc' & Hdecision).
  cbn [set_acc set_ctrl acc ctrl matcher decoder] in Hp, Hret. fold returned in Hp, Hret. rewrite Hp. cbn [mbind run_bind].
  destruct decision as [|? ? ?|outcome mfi]; [|done|].
  - unfold live_limit. rewrite Hret. pose proof Hacc' as (_ & _ & Hcons' & _). rewrite Hret in Hcons'.
    rewrite Hcons'. cbn [cfg_max_bytes original_cursor framed_config].
    destruct (Z.leb_spec max (zlen (returned ++ s_bytes sl))).
    + destruct (cursor_exact cursor full Hfull ring s cursor (zlen (returned ++ s_bytes sl)) Hr ltac:(lia) ltac:(lia)
        ltac:(lia)) as [_ ->].
      split_and!; [done|by rewrite Hret|by exists o'].
    + exists o'. split_and!; [done|done|rewrite Hret; lia|lia].
  - split_and!; [done|rewrite Hret; cbn; lia|by exists o'].
Qed.

Lemma run_wait_framed rounds s clocked d :
  rings_grow cursor full s rounds -> framed_inv s clocked d ->
  match run_wait framed_config clocked rounds d with
  | Done (Some result) => exists d' c ring elapsed, framed_res d' c /\
      result = into_outcome (acc d') ring cursor max elapsed c
  | Done None => True
  | _ => False
  end.
Proof.
  intros Hg Hinv. apply (run_wait_inv cursor full Hcursor Hfull framed_config framed_inv framed_res) with (s0 := s); try done.
  - intros s1 s2 c d1 Hgrow (o & Hacc & He & Hc & Hle). exists o. split_and!; try done.
    apply prefix_length in Hgrow. unfold zlen in *. lia.
  - intros s1 c d1 (o & (_ & _ & -> & _) & _ & -> & Hle). split_and!; [apply zlen_nonneg|done|done].
  - intros s1 c d1 o1 (o & Hacc & _ & -> & _). split_and!; [done|done|by exists o].
  - intros. by apply process_live_framed.
Qed.

Lemma process_initial_framed ring s elapsed now d :
  ring_at cursor full ring s -> cursor <= zlen (stream s) -> matcher d = None -> acc d = acc_new ->
  let sl := read_from ring cursor max in
  match process_initial framed_config sl ring elapsed now d with
  | Done (InitContinue, d') => framed_inv s (s_next_offset sl) d'
  | Done (InitCompletion c, d') => framed_res d' c
  | _ => False
  end.
Proof.
  intros Hr Hc Hm Hacc sl.
  pose proof (slice_extends cursor full Hcursor ring s [] max Hr Hmax ltac:(rewrite zlen_nil; lia) eq_refl) as Hsl.
  rewrite zlen_nil, Z.add_0_r in Hsl. fold sl in Hsl. cbn [app] in Hsl.
  destruct Hsl as (Hfrom & Hnext & Hk & Hend & Htake). pose proof (zlen_nonneg (s_bytes sl)) as Hnn.
  pose proof (stream_bound cursor full _ _ Hr) as Hsb.
  specialize (Htake (length (s_bytes sl)) ltac:(lia)). rewrite firstn_all in Htake.
  unfold process_initial, build_decoder. cbn [framed_config framing parser mbind run_bind]. rewrite Hnew.
  cbn [mbind run_bind matcher decoder]. rewrite Hm, Hacc.
  set (d1 := mkDriver (ctrl d) None (Some d0) acc_new).
  pose proof (new_wf _ _ _ Hnew) as [Hw _].
  assert (Hstart : framed_acc d1 (mkOutcome [] 0 None)).
  { split_and!; try done. exists d0. split_and!; [done|done|apply decoded_start]. }
  destruct (s_bytes sl) as [|b0 rest] eqn:Hb.
  { rewrite zlen_nil, Z.add_0_r in Hnext. exists (mkOutcome [] 0 None).
    cbn [d1 acc returned_bytes acc_new]. rewrite zlen_nil, Hnext. split_and!; try done; lia. }
  rewrite <- Hb in *. unfold frame_history. change (cfg_max_bytes framed_config) with max. change (acc d1) with acc_new.
  replace (Z.min (zlen (s_bytes sl)) max) with (zlen (s_bytes sl)) by lia.
  replace (take (Z.to_nat (zlen (s_bytes sl))) (s_bytes sl)) with (s_bytes sl)
    by (symmetry; apply take_ge; unfold zlen; lia).
  cbn [consumed_offset acc_new returned_bytes app]. rewrite Z.add_0_l, wrap64_small by lia.
  destruct (framed_chunk d1 (mkOutcome [] 0 None) (s_bytes sl) d0 (cfg_max_frames framed_config) Hstart eq_refl
    eq_refl Htake Hk) as (decision & d' & o' & Hp & Hret & Hacc' & Hdecision).
  change (acc d1) with acc_new in Hp, Hret. cbn [returned_bytes acc_new app] in Hp, Hret.
  rewrite Hp. cbn [mbind run_bind].
  pose proof Hacc' as (_ & _ & Hcons' & _). rewrite Hcons', Hret, Hfrom.
  destruct (cursor_exact cursor full Hfull ring s cursor (zlen (s_bytes sl)) Hr ltac:(lia) ltac:(lia) ltac:(lia))
    as [-> _].
  destruct decision as [|? ? ?|outcome mfi]; [|done|].
  - exists o'. rewrite Hret. split_and!; done || lia.
  - split_and!; [done|by rewrite Hret|by exists o'].
Qed.

(** What a framed read returns: a piece of the stream, and what the decoder makes of
    it. *)
Definition framed_result (out : ReadOutcome) (final : Z) : Prop :=
  raw_result cursor max full (r_bytes out) final /\
  exists dec o, decoded d0 (r_bytes out) dec o /\
    r_frames out = o_frames o /\ r_frames_dropped out = o_frames_dropped o /\ r_error out = o_error o.

Lemma framed_res_result d c ring elapsed :
  framed_res d c ->
  let '(out, final) := into_outcome (acc d) ring cursor max elapsed c in framed_result out final.
Proof.
  intros (Hover & Hfinal & o & _ & (Hf & _ & Hn & Herr) & _ & Hpre & Hlim & dec & _ & _ & Hd).
  unfold into_outcome, framed_result. cbn [r_bytes r_frames r_frames_dropped r_error]. rewrite Hover.
  cbn [default from_option]. split; [by split_and!|]. by exists dec, o.
Qed.

(** The read itself, for every reader that starts at [cursor]. *)
Lemma framed_private_read timeout silence start elapsed now ring s rounds :
  ring_at cursor full ring s -> cursor <= zlen (stream s) -> rings_grow cursor full s rounds ->
  match read_from_private_cursor framed_config timeout silence None start elapsed now ring rounds with
  | Done (Some (out, final)) => framed_result out final
  | Done None => True
  | _ => False
  end.
Proof.
  intros Hr Hc Hg. unfold read_from_private_cursor. cbn [original_cursor cfg_max_bytes framed_config].
  set (d := mkDriver _ None None acc_new).
  pose proof (process_initial_framed ring s elapsed now d Hr Hc eq_refl eq_refl) as Hi. cbv zeta in Hi.
  destruct (process_initial framed_config (read_from ring cursor max) ring elapsed now d)
    as [ [ [|c|out cur] d']|e| |]; cbn [mbind run_bind]; try done.
  - pose proof (run_wait_framed rounds s _ d' Hg Hi) as Hw.
    destruct (run_wait framed_config _ rounds d') as [ [ [out final]|]| | |]; try done.
    destruct Hw as (d2 & c & ring' & elapsed' & Hres & Heq).
    pose proof (framed_res_result d2 c ring' elapsed' Hres) as Hout. by rewrite <- Heq in Hout.
  - pose proof (framed_res_result d' c ring elapsed Hi) as Hout. by destruct (into_outcome _ _ _ _ _ _).
Qed.

(** C7: a framed read without a matcher returns a contiguous
    piece of the stream, decoded.  Over rings to which the pump only appends and which
    do not drop bytes at or past the cursor while the read runs, and whatever stops the
    read, the bytes are the stream starting at its cursor, at most [max_bytes] of them;
    the final cursor is the position after them; and the frames, the number of dropped
    frames and the decode error are those of a fresh decoder of the configuration that
    was given exactly these bytes, cut into chunks in some way, or, where boundary
    detection is local, in one piece. *)
Theorem framed_read_returns_frames timeout silence start elapsed now ring s rounds :
  ring_at cursor full ring s -> cursor <= zlen (stream s) -> rings_grow cursor full s rounds ->
  match read_bytes_from_ring cursor max (Some config) pc timeout silence None start elapsed now ring rounds with
  | Done (Some (out, final)) =>
      r_bytes out = take (length (r_bytes out)) (drop (Z.to_nat cursor) full) /\
      final = cursor + zlen (r_bytes out) /\ zlen (r_bytes out) <= max /\
      exists chunks dec o, concat chunks = r_bytes out /\ push_all d0 chunks = Some (dec, o) /\
        r_frames out = o_frames o /\ r_frames_dropped out = o_frames_dropped o /\ r_error out = o_error o /\
        (local_mode (d_mode d0) -> r_bytes out <> [] -> exists dec', push d0 (r_bytes out) = Some (dec', o))
  | Done None => True
  | _ => False
  end.
Proof.
  intros Hr Hc Hg.
  pose proof (framed_private_read timeout silence start elapsed now ring s rounds Hr Hc Hg) as Hread.
  unfold read_bytes_from_ring. fold framed_config.
  destruct (read_from_private_cursor _ _ _ _ _ _ _ _ _) as [ [ [out final]|]|e| |]; try done.
  destruct Hread as ((Hb & Hf & Hm) & dec & o & Hd & Hfr & Hdr & Herr). split_and!; [done..|].
  pose proof Hd as (chunks & Hcat & Hall). exists chunks, dec, o. split_and!; [done..|].
  intros Hl Hne. by destruct (decoded_local _ _ _ _ Hl Hd) as [ [? _]|?].
Qed.
End FramedRead.

(** ** A peer that sends frames *)

Section Peer.
Context `{HexCrate, Base64Crate, JsonCrate, RegexCrate, GlobCrate}.

(** Frames that were decoded from the beginning of what a peer sends. *)
Lemma sent_prefix tx rx d0 ps fs bytes dec o :
  rx_of_tx tx = Some rx -> new (plain_rx rx) None = Ok d0 -> local_mode (d_mode d0) ->
  Forall2 (sends tx) ps fs -> bytes `prefix_of` concat fs -> decoded d0 bytes dec o ->
  f_data <$> o_frames o `prefix_of` received tx ps /\ o_frames_dropped o = 0%nat /\ o_error o = None /\
  (bytes = concat fs -> bytes <> [] -> f_data <$> o_frames o = received tx ps).
Proof.
  intros Hrx Hnew Hl Hs [more Hmore] Hd.
  destruct (push_sent tx rx d0 ps fs Hrx Hnew Hs) as (d1 & o1 & Hp & Hf & Hdr & He & _). rewrite Hmore in Hp.
  destruct (decoded_prefix d0 bytes more dec o d1 o1 Hl Hd Hp He) as (Heo & (later & Hlater & Hnil) & Hle).
  rewrite <- Hf, Hlater, fmap_app. split_and!; [by apply prefix_app_r|lia|done|].
  intros Hall Hne. rewrite (Hnil (app_inv_head bytes more [] ltac:(rewrite app_nil_r; congruence)) Hne).
  by rewrite fmap_nil, app_nil_r.
Qed.

(** C6: frames a peer sends arrive in order.  The peer sends, from
    the cursor of the read on, the encodings of some payloads under a TX framing; the
    read uses the paired RX framing, whose boundary detection is local, no parser and
    no matcher.  However the bytes trickle in and whatever stops the read, it reports
    no error and drops nothing; the frames it returns are the first ones of those sent,
    in order and with their payloads; and a read that returns all the bytes, of which
    there are some, returns all the frames. *)
Theorem sent_frames_arrive tx rx d0 ps fs cursor max full timeout silence start elapsed now ring s rounds :
  rx_of_tx tx = Some rx -> new (plain_rx rx) None = Ok d0 -> local_mode (d_mode d0) ->
  Forall2 (sends tx) ps fs -> 0 <= cursor -> 0 <= max -> zlen full < 2 ^ 64 ->
  drop (Z.to_nat cursor) full = concat fs ->
  ring_at cursor full ring s -> cursor <= zlen (stream s) -> rings_grow cursor full s rounds ->
  match read_bytes_from_ring cursor max (Some (plain_rx rx)) None timeout silence None start elapsed now
          ring rounds with
  | Done (Some (out, final)) =>
      r_error out = None /\ r_frames_dropped out = 0%nat /\
      f_data <$> r_frames out `prefix_of` received tx ps /\
      (r_bytes out = concat fs -> r_bytes out <> [] -> f_data <$> r_frames out = received tx ps)
  | Done None => True
  | _ => False
  end.
Proof.
  intros Hrx Hnew Hl Hs Hcur Hmax Hfull Hsent Hr Hc Hg.
  pose proof (framed_private_read cursor max full Hcur Hmax Hfull (plain_rx rx) None d0 Hnew timeout silence start
    elapsed now ring s rounds Hr Hc Hg) as Hread.
  unfold read_bytes_from_ring. fold (framed_config cursor max (plain_rx rx) None).
  destruct (read_from_private_cursor _ _ _ _ _ _ _ _ _) as [ [ [out final]|]|e| |]; try done.
  destruct Hread as ((Hb & _) & dec & o & Hd & -> & -> & ->). rewrite Hsent in Hb.
  assert (Hpre : r_bytes out `prefix_of` concat fs) by (rewrite Hb; apply prefix_take).
  destruct (sent_prefix tx rx d0 ps fs _ _ _ Hrx Hnew Hl Hs Hpre Hd) as (Hf & Hdr & He & Hall).
  by split_and!.
Qed.
End Peer.

(** ** Concrete reads *)

(** Two lines, of which the second is cut by the end of the buffered bytes when the
    first read completes, at its timeout.  The read has consumed the first half of the
    second line without reporting it; the next read starts behind it and reports the
    second half as a line of its own. *)
Definition line_config : RxFramingConfig := plain_rx (RxLine Lf).
Definition sent_lines : list byte := bs "one" ++ [x0a] ++ bs "two" ++ [x0a].

Definition framed_read (cursor : Z) (ring : RxRing) (rounds : list Round) : option (list (list byte) * Z) :=
  match read_bytes_from_ring cursor 100 (Some line_config) None (Some 50) None None 0 0 0 ring rounds with
  | Done (Some (out, final)) => Some (f_data <$> r_frames out, final)
  | _ => None
  end.

Example frame_cut_by_a_read_is_torn :
  framed_read 0 (ring_with 16 (take 6 sent_lines)) [poll_round 60 (ring_with 16 (take 6 sent_lines))]
    = Some ([bs "one"], 6) /\
  framed_read 6 (ring_with 16 sent_lines) [poll_round 60 (ring_with 16 sent_lines)] = Some ([bs "o"], 8) /\
  framed_read 0 (ring_with 16 sent_lines) [poll_round 60 (ring_with 16 sent_lines)]
    = Some ([bs "one"; bs "two"], 8).
Proof. vm_compute. done. Qed.

(** The two lines arrive in two pieces. *)
Definition second_piece : list Round :=
  [data_round 10 (ring_with 16 sent_lines); poll_round 60 (ring_with 16 sent_lines)].

#[local] Notation two_piece_read :=
  (read_bytes_from_ring 0 100 (Some line_config) None (Some 50) None None 0 0 0
    (ring_with 16 (take 6 sent_lines)) second_piece).

Lemma sent_lines_at s : s `prefix_of` sent_lines -> ring_at 0 sent_lines (ring_with 16 s) (mkSpec s 0 0).
Proof.
  intros Hp. pose proof (prefix_length _ _ Hp) as Hl. change (length sent_lines) with 8%nat in Hl.
  apply ring_with_at; unfold zlen; try done; lia.
Qed.

Lemma second_piece_grows : rings_grow 0 sent_lines (mkSpec (take 6 sent_lines) 0 0) second_piece.
Proof.
  pose proof (sent_lines_at sent_lines (reflexivity _)) as Hfull.
  exists (mkSpec sent_lines 0 0). split; [exact Hfull|]. split; [exists (drop 6 sent_lines); reflexivity|].
  exists (mkSpec sent_lines 0 0). split; [exact Hfull|]. split; [reflexivity|exact I].
Qed.

Lemma framed_read_returns_frames_witness :
  match two_piece_read with
  | Done (Some (out, final)) => r_bytes out = sent_lines /\ final = 8 /\
      exists dec', push (new_or line_config None) (r_bytes out) = Some (dec', mkOutcome (r_frames out) 0 None)
  | _ => False
  end.
Proof.
  assert (Hout : match two_piece_read with
    | Done (Some (out, final)) => r_bytes out = sent_lines /\ r_frames_dropped out = 0%nat /\ r_error out = None
    | _ => False end) by (vm_compute; repeat split).
  pose proof (framed_read_returns_frames 0 100 sent_lines ltac:(discriminate) ltac:(discriminate) ltac:(reflexivity)
    line_config None (new_or line_config None) eq_refl (Some 50) None 0 0 0 (ring_with 16 (take 6 sent_lines))
    (mkSpec (take 6 sent_lines) 0 0) second_piece) as Hthm.
  destruct (read_bytes_from_ring _ _ _ _ _ _ _ _ _ _ _ _) as [ [ [out final]|]| | |]; try (exfalso; exact Hout).
  destruct Hout as (Hb & Hd & He).
  destruct Hthm as (_ & Hf & _ & chunks & dec & o & _ & _ & Hfr & Hdr & Herr & Hpush).
  - apply sent_lines_at, prefix_take.
  - discriminate.
  - apply second_piece_grows.
  - rewrite Hb in *. split; [reflexivity|]. split; [exact Hf|].
    assert (Ho : mkOutcome (r_frames out) 0 None = o) by (rewrite Hfr; destruct o; cbn in *; congruence).
    rewrite Ho. apply Hpush; [vm_compute; auto|discriminate].
Defined.

(** The peer sends two lines; the second arrives in two pieces. *)
Lemma sent_frames_arrive_witness :
  match two_piece_read with
  | Done (Some (out, _)) => f_data <$> r_frames out = [bs "one"; bs "two"] /\ r_error out = None
  | _ => False
  end.
Proof.
  assert (Hout : match two_piece_read with
    | Done (Some (out, final)) => r_bytes out = sent_lines
    | _ => False end) by (vm_compute; reflexivity).
  pose proof (sent_frames_arrive (TxLine TxLf) (RxLine Lf) (new_or line_config None) [bs "one"; bs "two"]
    [bs "one" ++ [x0a]; bs "two" ++ [x0a]] 0 100 sent_lines (Some 50) None 0 0 0 (ring_with 16 (take 6 sent_lines))
    (mkSpec (take 6 sent_lines) 0 0) second_piece eq_refl eq_refl) as Hthm.
  fold line_config in Hthm.
  destruct (read_bytes_from_ring _ _ _ _ _ _ _ _ _ _ _ _) as [ [ [out final]|]| | |]; try (exfalso; exact Hout).
  destruct Hthm as (He & _ & _ & Hall); try discriminate; try reflexivity.
  - apply Forall2_cons. split; [split; [reflexivity|]|apply Forall2_cons; split; [split; [reflexivity|]|by apply Forall2_nil] ].
    + apply (bool_decide_eq_false_1 (x0a ∈ bs "one")). reflexivity.
    + apply (bool_decide_eq_false_1 (x0a ∈ bs "two")). reflexivity.
  - apply sent_lines_at, prefix_take.
  - apply second_piece_grows.
  - split; [|exact He]. apply Hall; rewrite Hout; [reflexivity|discriminate].
Defined.
