(* ===== verification/Tools.v ===== *)
(** * Tool-level policy

    [src/precedence.rs], [src/security.rs], [src/tools/rx_validate.rs] and the
    parts of [src/tools/helpers.rs] and [src/tools/io_ops.rs] that decide what is
    sent, where a read starts and what a flush discards. *)

From S2P Require Import Prelude Util RustStr Extern ExternModel Codec FramingConfig TxCodecs MatchConfig RxRing.

(** ** [src/limits.rs] *)

Definition MIN_READ_BYTES : Z := 1.
Definition MAX_READ_BYTES : Z := 1024 * 1024.
Definition MAX_TIMEOUT_MS : Z := 5 * 60 * 1000.
Definition MAX_WRITE_BYTES : Z := 1024 * 1024.

(** ** Precedence *)

(** [resolve_field]. *)
Definition resolve_field {T} (explicit : option T) (call_protocol : option ProtocolPreset)
    (apply_preset : ProtocolPreset -> T) (conn_default : option T)
    (conn_protocol : option ProtocolPreset) : option T :=
  match explicit with
  | Some e => Some e
  | None =>
      match call_protocol with
      | Some p => Some (apply_preset p)
      | None =>
          match conn_default with
          | Some d => Some d
          | None => apply_preset <$> conn_protocol
          end
      end
  end.

(** ** Argument checks *)

(** The error texts of the checks: the field, its value, and the bound. *)
Inductive ArgError :=
  | ExceedsMaximum (field : string) (value max : Z)
  | BelowMinimum (field : string) (value min : Z)
  | MustBePositive (field : string)
  | ConnectionNotFound.

Definition clamp_or_err (field : string) (value max : Z) : result ArgError Z :=
  if max <? value then Err (ExceedsMaximum field value max) else Ok value.

Definition require_min_or_err (field : string) (value min : Z) : result ArgError Z :=
  if value <? min then Err (BelowMinimum field value min) else Ok value.

Definition clamp_timeout_or_err (field : string) (value max : Z) : result ArgError Z :=
  if max <? value then Err (ExceedsMaximum field value max) else Ok value.

Section Tools.
Context `{HexCrate, Base64Crate, RegexCrate, GlobCrate}.

(** ** Port allowlist *)

Record SecurityManager := mkSecurity { allowlist : list Pattern }.

(** [from_patterns]: invalid patterns are left out. *)
Definition from_patterns (patterns : list (list byte)) : SecurityManager :=
  mkSecurity (omap (fun s => match pattern_new s with Ok p => Some p | Err _ => None end) patterns).

Definition is_port_allowed (s : SecurityManager) (port : list byte) : bool :=
  match allowlist s with
  | [] => true
  | l => existsb (fun p => pattern_matches p port) l
  end.

Definition allowlist_summary (s : SecurityManager) : list byte :=
  match allowlist s with
  | [] => bs "(all ports allowed)"
  | l => join (bs ", ") (pattern_as_str <$> l)
  end.

(** ** Validation of a read request *)

Record RxLimits := mkLimits { min_buffered : Z; max_buffered : Z }.

Record RxRequestArgs := mkRxArgs {
  a_encoding : list byte;
  a_timeout_ms : option Z;
  a_no_new_rx_timeout_ms : option Z;
  a_match : option MatchRequest;
}.

Inductive RxRequestError :=
  | UnsupportedEncoding (e : CodecError)
  | BadArg (e : ArgError)
  | BadMatch (e : MatchRequestError).

Record ResolvedRxArgs := mkResolved {
  rx_encoding : Encoding;
  rx_max_buffered_bytes : Z;
  rx_matcher : option Matcher;
}.

(** [parse_encoding]. *)
Definition parse_encoding (raw : list byte) : result RxRequestError Encoding :=
  map_err UnsupportedEncoding (Encoding_from_str raw).

(** [validate_rx_request]; [found] says whether the connection id is known. *)
Definition validate_rx_request (found : bool) (args : RxRequestArgs) (limits : RxLimits)
    (max_buffered_bytes : Z) : result RxRequestError ResolvedRxArgs :=
  encoding ← parse_encoding (a_encoding args);
  if negb found then Err (BadArg ConnectionNotFound)
  else
    n ← map_err BadArg (require_min_or_err "max_buffered_bytes" max_buffered_bytes (min_buffered limits));
    n ← map_err BadArg (clamp_or_err "max_buffered_bytes" n (max_buffered limits));
    _ ← match a_timeout_ms args with
        | Some t => map_err BadArg (clamp_timeout_or_err "timeout_ms" t MAX_TIMEOUT_MS)
        | None => Ok 0
        end;
    _ ← match a_no_new_rx_timeout_ms args with
        | Some t =>
            if t =? 0 then Err (BadArg (MustBePositive "no_new_rx_timeout_ms"))
            else map_err BadArg (clamp_timeout_or_err "no_new_rx_timeout_ms" t MAX_TIMEOUT_MS)
        | None => Ok 0
        end;
    matcher ← match a_match args with
              | Some m => m ← map_err BadMatch (validate_match_request m); Ok (Some m)
              | None => Ok None
              end;
    Ok (mkResolved encoding n matcher).

(** ** The write half *)

Inductive WriteError :=
  | DataDecoding (e : CodecError)
  | TooLarge (e : ArgError)
  | TxEncode (e : TxError).

(** [decode_tx_payload]. *)
Definition decode_tx_payload (encoding : Encoding) (input : list byte) : result WriteError (list byte) :=
  bytes ← map_err DataDecoding (decode encoding input);
  _ ← map_err TooLarge (clamp_or_err "data.len()" (zlen bytes) MAX_WRITE_BYTES);
  Ok bytes.

(** [apply_tx_framing]. *)
Definition apply_tx_framing (decoded : list byte) (framing : option TxFramingConfig)
    : result WriteError (list byte) :=
  match framing with
  | Some cfg =>
      framed ← map_err TxEncode (encode_tx (tx_mode cfg) decoded);
      _ ← map_err TooLarge (clamp_or_err "framed_len()" (zlen framed) MAX_WRITE_BYTES);
      Ok framed
  | None => Ok decoded
  end.

(** What [write] and [transact] put on the wire: the call's own fields and the
    connection's defaults, then decoding and framing. *)
Definition wire_bytes (encoding : Encoding) (input : list byte)
    (tx_framing : option TxFramingConfig) (protocol : option ProtocolPreset)
    (tx_framing_default : option TxFramingConfig) (protocol_default : option ProtocolPreset)
    : result WriteError (list byte) :=
  decoded ← decode_tx_payload encoding input;
  apply_tx_framing decoded
    (resolve_field tx_framing protocol preset_tx_framing tx_framing_default protocol_default).

(** What goes on the wire.  When a write is
    accepted, its bytes are the decoded input framed by the first framing among
    the call's field, the call's protocol preset, the connection's default and
    the connection's preset (unframed when there is none); neither the decoded
    input nor the frame is longer than 1 MiB.  It is refused for its size only if
    one of the two is longer. *)
Theorem write_is_bounded_and_framed encoding input f p fd pd :
  match wire_bytes encoding input f p fd pd with
  | Ok wire => exists decoded, decode encoding input = Ok decoded /\
      zlen decoded <= MAX_WRITE_BYTES /\ zlen wire <= MAX_WRITE_BYTES /\
      match head (omap id [f; preset_tx_framing <$> p; fd; preset_tx_framing <$> pd]) with
      | Some cfg => encode_tx (tx_mode cfg) decoded = Ok wire
      | None => wire = decoded
      end
  | Err (TooLarge _) => exists decoded, decode encoding input = Ok decoded /\
      (MAX_WRITE_BYTES < zlen decoded \/
       exists cfg wire, encode_tx (tx_mode cfg) decoded = Ok wire /\ MAX_WRITE_BYTES < zlen wire)
  | Err (DataDecoding e) => decode encoding input = Err e
  | Err (TxEncode e) => exists decoded cfg, decode encoding input = Ok decoded /\
      head (omap id [f; preset_tx_framing <$> p; fd; preset_tx_framing <$> pd]) = Some cfg /\
      encode_tx (tx_mode cfg) decoded = Err e
  end.
Proof.
  unfold wire_bytes, decode_tx_payload, clamp_or_err.
  assert (Hres : resolve_field f p preset_tx_framing fd pd
    = head (omap id [f; preset_tx_framing <$> p; fd; preset_tx_framing <$> pd]))
    by (by destruct f, p, fd, pd).
  rewrite Hres. destruct (decode encoding input) as [decoded|e]; cbn [map_err mbind result_bind]; [|done].
  destruct (Z.ltb_spec MAX_WRITE_BYTES (zlen decoded)); cbn [map_err mbind result_bind]; [eauto|].
  unfold apply_tx_framing, clamp_or_err.
  destruct (head _) as [cfg|]; [|by exists decoded].
  destruct (encode_tx (tx_mode cfg) decoded) as [wire|e] eqn:He; cbn [map_err mbind result_bind]; [|eauto 10].
  destruct (Z.ltb_spec MAX_WRITE_BYTES (zlen wire)); cbn [map_err mbind result_bind]; eauto 10.
Qed.

(** The port allowlist.  A port is allowed exactly when no
    pattern of the list compiles, or one that compiles matches it; so a list of
    invalid patterns only allows every port, like an empty one. *)
Theorem allowlist_semantics patterns port :
  is_port_allowed (from_patterns patterns) port = true <->
  (forall s p, s ∈ patterns -> pattern_new s <> Ok p) \/
  exists s p, s ∈ patterns /\ pattern_new s = Ok p /\ pattern_matches p port = true.
Proof.
  assert (Hin : forall p, p ∈ allowlist (from_patterns patterns) <->
    exists s, s ∈ patterns /\ pattern_new s = Ok p).
  { intros p. unfold from_patterns. cbn [allowlist]. rewrite list_elem_of_omap.
    split; intros (s & Hs & Hp); exists s; (split; [done|]); destruct (pattern_new s); naive_solver. }
  unfold is_port_allowed. destruct (allowlist (from_patterns patterns)) as [|q l].
  - split; [intros _|done]. left. intros s p Hs Hp.
    assert (Hp' : p ∈ []) by (apply Hin; eauto). by apply not_elem_of_nil in Hp'.
  - split.
    + intros (p & Hp & Hm)%existsb_exists. right. apply list_elem_of_In, Hin in Hp as (s & Hs & Hp). eauto.
    + intros [Hnone|(s & p & Hs & Hp & Hm)].
      * assert (Hq : q ∈ q :: l) by by left. apply Hin in Hq as (s & Hs & Hp). by destruct (Hnone s q Hs).
      * apply existsb_exists. exists p. split; [|done]. apply list_elem_of_In, Hin. eauto.
Qed.

Lemma clamp_ok f v m r : clamp_or_err f v m = Ok r -> r = v /\ v <= m.
Proof. unfold clamp_or_err. destruct (Z.ltb_spec m v); naive_solver. Qed.

Lemma require_min_ok f v m r : require_min_or_err f v m = Ok r -> r = v /\ m <= v.
Proof. unfold require_min_or_err. destruct (Z.ltb_spec v m); naive_solver. Qed.

Lemma clamp_timeout_ok f v m r : clamp_timeout_or_err f v m = Ok r -> r = v /\ v <= m.
Proof. unfold clamp_timeout_or_err. destruct (Z.ltb_spec m v); naive_solver. Qed.

Lemma validate_match_request_fresh req m :
  validate_match_request req = Ok m -> window_of m = [] /\ base_of m = 0%nat.
Proof.
  unfold validate_match_request. intros (decoded & _ & Hm)%result_bind_ok.
  case_bool_decide; [done|]. destruct (mode (config req)).
  - unfold new_literal in Hm. destruct decoded; [done|]. by simplify_eq/=.
  - apply result_bind_ok in Hm as (re & _ & [= <-]). done.
  - apply result_bind_ok in Hm as (re & _ & [= <-]). done.
Qed.

(** A validated request keeps the size it was given, which is in bounds. *)
Lemma validate_rx_request_size found args limits n r :
  validate_rx_request found args limits n = Ok r ->
  rx_max_buffered_bytes r = n /\ min_buffered limits <= n <= max_buffered limits.
Proof.
  unfold validate_rx_request. intros Hv.
  apply result_bind_ok in Hv as (enc & _ & Hv). destruct found; [|done]. cbn [negb] in Hv.
  apply result_bind_ok in Hv as (n1 & [-> Hmin]%map_err_ok%require_min_ok & Hv).
  apply result_bind_ok in Hv as (n2 & [-> Hmax]%map_err_ok%clamp_ok & Hv).
  apply result_bind_ok in Hv as (t1 & _ & Hv). apply result_bind_ok in Hv as (t2 & _ & Hv).
  by apply result_bind_ok in Hv as (m & _ & [= <-]).
Qed.

(** A read request that passes validation is
    within the documented bounds, and its matcher, if any, is fresh. *)
Theorem validated_request_is_in_bounds found args n r :
  validate_rx_request found args (mkLimits MIN_READ_BYTES MAX_READ_BYTES) n = Ok r ->
  found = true /\ rx_max_buffered_bytes r = n /\ 1 <= n <= 1048576 /\
  (forall t, a_timeout_ms args = Some t -> t <= 300000) /\
  (forall t, a_no_new_rx_timeout_ms args = Some t -> t <> 0 /\ t <= 300000) /\
  (rx_matcher r = None <-> a_match args = None) /\
  forall m, rx_matcher r = Some m -> window_of m = [] /\ base_of m = 0%nat.
Proof.
  unfold validate_rx_request. intros Hv.
  apply result_bind_ok in Hv as (enc & _ & Hv). destruct found; [|done]. cbn [negb] in Hv.
  apply result_bind_ok in Hv as (n1 & [-> Hmin]%map_err_ok%require_min_ok & Hv).
  apply result_bind_ok in Hv as (n2 & [-> Hmax]%map_err_ok%clamp_ok & Hv).
  apply result_bind_ok in Hv as (t1 & Ht & Hv). apply result_bind_ok in Hv as (t2 & Hs & Hv).
  apply result_bind_ok in Hv as (m & Hm & [= <-]).
  cbn [min_buffered max_buffered rx_max_buffered_bytes rx_matcher] in *.
  split; [done|]. split; [done|]. split; [done|].
  split; [|split].
  - intros t E. rewrite E in Ht. by apply map_err_ok, clamp_timeout_ok in Ht as [_ ?].
  - intros t E. rewrite E in Hs. destruct (Z.eqb_spec t 0); [done|].
    by apply map_err_ok, clamp_timeout_ok in Hs as [_ ?].
  - destruct (a_match args) as [req|]; [|by simplify_eq].
    apply result_bind_ok in Hm as (m1 & Hm%map_err_ok & [= <-]).
    split; [by split|]. intros m2 [= <-]. by apply (validate_match_request_fresh req).
Qed.

End Tools.

(** ** Where a read starts, and what a flush discards *)

Inductive ReadFrom := FromNow | FromCursor | FromBufferStart | FromOffset (offset : Z).

(** The initial cursor of [read] and [transact]. *)
Definition initial_cursor (ring : RxRing) (read_cursor : Z) (from : ReadFrom) : Z :=
  match from with
  | FromNow => end_offset (inner ring)
  | FromCursor => read_cursor
  | FromBufferStart => start_offset (inner ring)
  | FromOffset offset => offset
  end.

(** [discard_rx_backlog]: the ring and the shared cursor afterwards. *)
Definition discard_rx_backlog (ring : RxRing) : RxRing * Z :=
  let ring := ring_clear ring in (ring, end_offset (inner ring)).

(** A flush discards everything that was received and
    nothing else.  After [discard_rx_backlog], a read at the shared cursor, or from
    the start of the buffer, returns nothing; and once more bytes have arrived
    that fit the ring, both return exactly those, with no loss reported. *)
Theorem flush_discards_backlog ring s bytes max :
  ring_rep ring s -> zlen (stream s) + zlen bytes < 2 ^ 64 -> zlen bytes <= ring_capacity ring ->
  zlen bytes <= max ->
  let '(flushed, cursor) := discard_rx_backlog ring in
  let later := append flushed bytes in
  forall from, from = FromCursor \/ from = FromBufferStart ->
    s_bytes (read_from flushed (initial_cursor flushed cursor from) max) = [] /\
    s_bytes (read_from later (initial_cursor later cursor from) max) = bytes /\
    s_bytes_lost (read_from later (initial_cursor later cursor from) max) = 0.
Proof.
  intros Hr Hlen Hcap Hmax. pose proof (zlen_nonneg bytes). pose proof (zlen_nonneg (stream s)).
  unfold discard_rx_backlog. intros from Hfrom.
  pose proof (clear_rep _ _ Hr) as Hc.
  pose proof (append_rep _ _ bytes Hc ltac:(cbn [spec_clear stream]; lia)) as Ha.
  assert (Hend : end_offset (inner (ring_clear ring)) = zlen (stream s)) by apply (rep_end _ _ Hc).
  assert (Hret : retained_from (spec_append (ring_capacity (ring_clear ring)) (spec_clear s) bytes)
    = zlen (stream s)).
  { unfold spec_append. cbn [spec_clear stream retained_from]. rewrite zlen_app. simpl. lia. }
  assert (Hi1 : initial_cursor (ring_clear ring) (end_offset (inner (ring_clear ring))) from = zlen (stream s)).
  { destruct Hfrom as [-> | ->]; cbn [initial_cursor]; [done|]. apply (rep_start _ _ Hc). }
  assert (Hi2 : initial_cursor (append (ring_clear ring) bytes) (end_offset (inner (ring_clear ring))) from
    = zlen (stream s)).
  { destruct Hfrom as [-> | ->]; cbn [initial_cursor]; [done|]. by rewrite (rep_start _ _ Ha). }
  rewrite Hi1, Hi2.
  rewrite (read_from_rep _ _ _ _ Hc), (read_from_rep _ _ _ _ Ha) by lia.
  unfold spec_read. rewrite Hret. cbn [s_bytes s_bytes_lost spec_clear spec_append stream retained_from].
  rewrite !zlen_app. split; [|split; [|lia] ].
  - by replace (Z.max 0 _) with 0 by lia.
  - replace (Z.min (Z.max (zlen (stream s)) (zlen (stream s))) (zlen (stream s) + zlen bytes))
      with (zlen (stream s)) by lia.
    replace (Z.max 0 (Z.min max (zlen (stream s) + zlen bytes - zlen (stream s)))) with (zlen bytes) by lia.
    unfold zlen at 2. rewrite Nat2Z.id, drop_app_length. apply take_ge. unfold zlen. lia.
Qed.

Lemma flush_discards_backlog_witness :
  let '(flushed, cursor) := discard_rx_backlog (append small_ring (bs_abc 3)) in
  let later := append flushed (bs "xyz") in
  forall from, from = FromCursor \/ from = FromBufferStart ->
    s_bytes (read_from flushed (initial_cursor flushed cursor from) 8) = [] /\
    s_bytes (read_from later (initial_cursor later cursor from) 8) = bs "xyz" /\
    s_bytes_lost (read_from later (initial_cursor later cursor from) 8) = 0.
Proof.
  apply (flush_discards_backlog (append small_ring (bs_abc 3)) (spec_append 4 spec_new (bs_abc 3)) (bs "xyz") 8).
  - apply (append_rep small_ring spec_new (bs_abc 3)); [|reflexivity]. by apply (ring_new_rep 4).
  - reflexivity.
  - discriminate.
  - discriminate.
Defined.

Lemma validated_request_is_in_bounds_witness :
  true = true /\ 64 = 64 /\ 1 <= 64 <= 1048576 /\
  (forall t, Some 50 = Some t -> t <= 300000) /\
  (forall t, None = Some t -> t <> 0 /\ t <= 300000) /\
  (Some (Literal (bs "OK") [] None 0 None) = None <->
   Some (mkMatchRequest (bs "OK") MatchConfig_default) = None) /\
  forall m, Some (Literal (bs "OK") [] None 0 None) = Some m -> window_of m = [] /\ base_of m = 0%nat.
Proof.
  apply (validated_request_is_in_bounds true
    (mkRxArgs (bs "utf8") (Some 50) None (Some (mkMatchRequest (bs "OK") MatchConfig_default))) 64
    (mkResolved Utf8 64 (Some (Literal (bs "OK") [] None 0 None)))).
  reflexivity.
Defined.
