(* ===== verification/Profiles.v ===== *)
(** * [src/profiles.rs]: named device profiles

    Port identity ([src/serial/port_info.rs]), selectors, the reconnect policy and
    the defaults a profile carries, and the pure helpers behind automatic
    profile sessions. *)

From Stdlib Require Import Floats.SpecFloat.
From stdpp Require Import pretty.
From S2P Require Import Prelude RustStr Extern ExternModel Codec FramingConfig.

(** ** Ports *)

Inductive PortTransport := Usb | Pci | Bluetooth | UnknownTransport.

#[export] Instance PortTransport_eq_dec : EqDecision PortTransport.
Proof. solve_decision. Defined.

(** [Display for PortTransport]. *)
Definition transport_to_string (t : PortTransport) : list byte :=
  match t with
  | Usb => bs "usb" | Pci => bs "pci" | Bluetooth => bs "bluetooth" | UnknownTransport => bs "unknown"
  end.

Record PortInfo := mkPort {
  pi_name : list byte;
  pi_display_name : list byte;
  pi_description : list byte;
  pi_hardware_id : option (list byte);
  pi_transport : PortTransport;
  pi_vid : option Z;
  pi_pid : option Z;
  pi_serial_number : option (list byte);
  pi_manufacturer : option (list byte);
  pi_product : option (list byte);
  pi_interface : option Z;
}.

(** ** Profiles *)

Record ProfileSelector := mkSelector {
  sel_vid : option Z;
  sel_pid : option Z;
  sel_serial_number : option (list byte);
  sel_manufacturer : option (list byte);
  sel_product : option (list byte);
  sel_interface : option Z;
  sel_port_pattern : option (list byte);
  sel_description_pattern : option (list byte);
  sel_transport : option (list byte);
  sel_hardware_id : option (list byte);
}.

#[export] Instance ProfileSelector_eq_dec : EqDecision ProfileSelector.
Proof. solve_decision. Defined.

(** [ProfileSelector::default]. *)
Definition ProfileSelector_default : ProfileSelector :=
  mkSelector None None None None None None None None None None.

Definition selector_is_empty (s : ProfileSelector) : bool :=
  bool_decide (sel_vid s = None) && bool_decide (sel_pid s = None)
  && bool_decide (sel_serial_number s = None) && bool_decide (sel_manufacturer s = None)
  && bool_decide (sel_product s = None) && bool_decide (sel_interface s = None)
  && bool_decide (sel_port_pattern s = None) && bool_decide (sel_description_pattern s = None)
  && bool_decide (sel_transport s = None) && bool_decide (sel_hardware_id s = None).

(** The backoff multiplier is an [f64]; its comparison is the IEEE one, where a
    NaN differs from itself. *)
Record ReconnectPolicy := mkPolicy {
  rp_enabled : bool;
  rp_max_attempts : Z;
  rp_initial_delay_ms : Z;
  rp_max_delay_ms : Z;
  rp_backoff_multiplier : spec_float;
}.

(** [2.0] as an [f64]. *)
Definition f64_two : spec_float := S754_finite false 4503599627370496 (-51).

Definition ReconnectPolicy_default : ReconnectPolicy := mkPolicy false 10 500 30000 f64_two.

(** [PartialEq for ReconnectPolicy]. *)
Definition policy_eqb (a b : ReconnectPolicy) : bool :=
  Bool.eqb (rp_enabled a) (rp_enabled b) && (rp_max_attempts a =? rp_max_attempts b)
  && (rp_initial_delay_ms a =? rp_initial_delay_ms b) && (rp_max_delay_ms a =? rp_max_delay_ms b)
  && SFeqb (rp_backoff_multiplier a) (rp_backoff_multiplier b).

Record ProfileDefaults := mkDefaults {
  pd_baud_rate : Z;
  pd_data_bits : list byte;
  pd_stop_bits : list byte;
  pd_parity : list byte;
  pd_flow_control : list byte;
  pd_name : option (list byte);
  pd_tx_framing : option TxFramingConfig;
  pd_rx_framing : option RxFramingConfig;
  pd_rx_parser : option ParserConfig;
  pd_protocol : option ProtocolPreset;
  pd_rx_buffer_size : Z;
  pd_max_buffered_bytes : Z;
  pd_reconnect_policy : ReconnectPolicy;
  pd_log_capacity : Z;
  pd_log_enabled : bool;
}.

(** [ProfileDefaults::default]. *)
Definition ProfileDefaults_default : ProfileDefaults :=
  mkDefaults 115200 (bs "8") (bs "1") (bs "none") (bs "none") None None None None None
    (256 * 1024) 32768 ReconnectPolicy_default 1024 true.

(** [PartialEq for ProfileDefaults]. *)
Definition defaults_eqb (a b : ProfileDefaults) : bool :=
  (pd_baud_rate a =? pd_baud_rate b) && bool_decide (pd_data_bits a = pd_data_bits b)
  && bool_decide (pd_stop_bits a = pd_stop_bits b) && bool_decide (pd_parity a = pd_parity b)
  && bool_decide (pd_flow_control a = pd_flow_control b) && bool_decide (pd_name a = pd_name b)
  && bool_decide (pd_tx_framing a = pd_tx_framing b) && bool_decide (pd_rx_framing a = pd_rx_framing b)
  && bool_decide (pd_rx_parser a = pd_rx_parser b) && bool_decide (pd_protocol a = pd_protocol b)
  && (pd_rx_buffer_size a =? pd_rx_buffer_size b)
  && (pd_max_buffered_bytes a =? pd_max_buffered_bytes b)
  && policy_eqb (pd_reconnect_policy a) (pd_reconnect_policy b)
  && (pd_log_capacity a =? pd_log_capacity b) && Bool.eqb (pd_log_enabled a) (pd_log_enabled b).

Record ProfileMetadata := mkMetadata {
  pm_generated : bool;
  pm_revision : Z;
  pm_created_at_ms : option Z;
  pm_updated_at_ms : option Z;
  pm_last_used_at_ms : option Z;
  pm_use_count : Z;
}.

Record ProfileRevision := mkRevision {
  pr_revision : Z;
  pr_saved_at_ms : Z;
  pr_selector : ProfileSelector;
  pr_defaults : ProfileDefaults;
}.

Record Profile := mkProfile {
  p_name : list byte;
  p_selector : ProfileSelector;
  p_defaults : ProfileDefaults;
  p_metadata : ProfileMetadata;
  p_revisions : list ProfileRevision;
}.

Definition MAX_PROFILE_REVISIONS : nat := 5.

(** ** Identity *)

Inductive IdentityConfidence := ConfHigh | ConfMedium | ConfLow | ConfNone.

Record HighIdentity := mkIdentity {
  hi_transport : list byte;
  hi_vid : Z;
  hi_pid : Z;
  hi_serial_number : list byte;
  hi_interface : option Z;
}.

(** [as_deref().filter(|s| !s.is_empty())]. *)
Definition non_empty (s : option (list byte)) : option (list byte) :=
  s ≫= (fun s => if bool_decide (s = []) then None else Some s).

Definition high_identity (port : PortInfo) : option HighIdentity :=
  if negb (bool_decide (pi_transport port = Usb)) then None
  else
    vid ← pi_vid port;
    pid ← pi_pid port;
    serial_number ← non_empty (pi_serial_number port);
    Some (mkIdentity (transport_to_string (pi_transport port)) vid pid serial_number
            (pi_interface port)).

Definition identity_confidence (port : PortInfo) : IdentityConfidence :=
  let usb := bool_decide (pi_transport port = Usb) in
  let serial := is_some (non_empty (pi_serial_number port)) in
  if usb && is_some (pi_vid port) && is_some (pi_pid port) && serial then ConfHigh
  else if usb && is_some (pi_vid port) && is_some (pi_pid port) then ConfMedium
  else if is_some (pi_vid port) || is_some (pi_pid port) || serial
          || is_some (pi_manufacturer port) || is_some (pi_product port)
          || is_some (pi_interface port) || is_some (pi_hardware_id port)
  then ConfLow
  else ConfNone.

Definition canonical_high_selector (port : PortInfo) : option ProfileSelector :=
  id ← high_identity port;
  Some (mkSelector (Some (hi_vid id)) (Some (hi_pid id)) (Some (hi_serial_number id)) None None
          (hi_interface id) None None (Some (hi_transport id)) None).

Definition selector_matches_high_identity (s : ProfileSelector) (id : HighIdentity) : bool :=
  bool_decide (sel_transport s = Some (hi_transport id))
  && bool_decide (sel_vid s = Some (hi_vid id))
  && bool_decide (sel_pid s = Some (hi_pid id))
  && bool_decide (sel_serial_number s = Some (hi_serial_number id))
  && match hi_interface id with
     | Some iface => bool_decide (sel_interface s = Some iface)
     | None => true
     end.

(** ** Ranking and names *)

(** The key of the ranking. *)
Definition last_used (p : Profile) : Z := default 0 (pm_last_used_at_ms (p_metadata p)).

(** [rank_candidates]: the stable sort by [last_used], newest first. *)
Fixpoint insert_ranked (p : Profile) (l : list Profile) : list Profile :=
  match l with
  | [] => [p]
  | q :: l' => if last_used q <=? last_used p then p :: l else q :: insert_ranked p l'
  end.

Definition rank_candidates (candidates : list Profile) : list Profile :=
  foldr insert_ranked [] candidates.

Definition DASH : byte := x2d.

(** The loop of [normalize_generated_label].  The bytes of a character outside
    ASCII are separators like the character itself. *)
Fixpoint label_loop (label out : list byte) (pending_sep : bool) : list byte :=
  match label with
  | [] => out
  | c :: label =>
      if is_ascii_alphanumeric c then
        let out := if pending_sep && negb (bool_decide (out = [])) then out ++ [DASH] else out in
        label_loop label (out ++ [to_ascii_lowercase c]) false
      else label_loop label out true
  end.

(** [trim_start_matches] and [trim_end_matches] of a dash. *)
Definition is_dash (b : byte) : bool := bool_decide (b = DASH).
Definition trim_start_dash (s : list byte) : list byte := drop_while is_dash s.
Definition trim_end_dash (s : list byte) : list byte := reverse (drop_while is_dash (reverse s)).

Definition normalize_generated_label (label : list byte) : list byte :=
  let out := trim_end_dash (trim_start_dash (label_loop label [] false)) in
  let capped := trim_end_dash (take 32 out) in
  if bool_decide (capped = []) then bs "serial-device" else capped.

(** [format!("{base}-{suffix}")]. *)
Definition suffixed (base : list byte) (suffix : N) : list byte := base ++ DASH :: bs (pretty suffix).

(** The loop of [allocate_generated_name], over candidates from [suffix] on. *)
Fixpoint allocate_loop (fuel : nat) (taken : list (list byte)) (base : list byte) (suffix : N)
    : option (list byte) :=
  match fuel with
  | O => None
  | S fuel =>
      let candidate := suffixed base suffix in
      if bool_decide (candidate ∈ taken) then allocate_loop fuel taken base (suffix + 1)%N
      else Some candidate
  end.

Definition allocate_generated_name (existing : list Profile) (base : list byte) : option (list byte) :=
  let taken := p_name <$> existing in
  if bool_decide (base ∈ taken) then allocate_loop (S (length taken)) taken base 2 else Some base.

(** ** Matching *)

(** A selector field that is set must equal the port's. *)
Definition agrees {A} `{EqDecision A} (want have : option A) : bool :=
  match want with Some _ => bool_decide (have = want) | None => true end.

Section Matching.
Context `{GlobCrate}.

(** A glob that does not compile matches nothing. *)
Definition glob_agrees (want : option (list byte)) (have : list byte) : bool :=
  match want with
  | Some s => match pattern_new s with Ok p => pattern_matches p have | Err _ => false end
  | None => true
  end.

(** [Profile::matches]. *)
Definition matches (p : Profile) (port : PortInfo) : bool :=
  let s := p_selector p in
  agrees (sel_vid s) (pi_vid port) && agrees (sel_pid s) (pi_pid port)
  && agrees (sel_serial_number s) (pi_serial_number port)
  && agrees (sel_manufacturer s) (pi_manufacturer port)
  && agrees (sel_product s) (pi_product port)
  && agrees (sel_interface s) (pi_interface port)
  && glob_agrees (sel_port_pattern s) (pi_name port)
  && glob_agrees (sel_description_pattern s) (pi_description port)
  && agrees (sel_transport s) (Some (transport_to_string (pi_transport port)))
  && agrees (sel_hardware_id s) (pi_hardware_id port).

(** ** Identity: lemmas and property *)

Lemma agrees_spec {A} `{EqDecision A} (want have : option A) :
  agrees want have = true <-> want = None \/ have = want.
Proof. destruct want; cbn [agrees]; [rewrite bool_decide_eq_true|]; naive_solver. Qed.

Lemma transport_to_string_inj t1 t2 : transport_to_string t1 = transport_to_string t2 -> t1 = t2.
Proof. by destruct t1, t2. Qed.

Lemma high_identity_inv port id :
  high_identity port = Some id ->
  pi_transport port = Usb /\ pi_vid port = Some (hi_vid id) /\ pi_pid port = Some (hi_pid id) /\
  pi_serial_number port = Some (hi_serial_number id) /\ hi_serial_number id <> [] /\
  pi_interface port = hi_interface id /\ hi_transport id = bs "usb".
Proof.
  unfold high_identity, non_empty. case_bool_decide as Ht; [|done]. cbn [negb].
  destruct (pi_vid port), (pi_pid port), (pi_serial_number port) as [s|]; try done.
  cbn [mbind option_bind]. case_bool_decide; [done|]. cbn [mbind option_bind].
  intros [= <-]. by rewrite Ht.
Qed.

Lemma high_identity_intro port vid pid s :
  pi_transport port = Usb -> pi_vid port = Some vid -> pi_pid port = Some pid ->
  pi_serial_number port = Some s -> s <> [] ->
  high_identity port = Some (mkIdentity (bs "usb") vid pid s (pi_interface port)).
Proof.
  intros Ht Hv Hp Hs Hne. unfold high_identity, non_empty.
  rewrite Ht, Hv, Hp, Hs, bool_decide_true by done. cbn [negb mbind option_bind].
  by rewrite bool_decide_false.
Qed.

(** A generated profile recognises exactly its
    device.  Let a port have a high-confidence identity.  Its canonical selector
    carries that identity; and a profile with that selector matches a port exactly
    when that port has a high-confidence identity with the same vendor, product
    and serial number, and the same interface when the first port has one;
    whatever the port's path, description and other fields are. *)
Theorem canonical_selector_identifies port id s (Hid : high_identity port = Some id)
    (Hs : canonical_high_selector port = Some s) :
  identity_confidence port = ConfHigh /\ selector_matches_high_identity s id = true /\
  forall p port', p_selector p = s ->
    matches p port' = true <->
    exists id', high_identity port' = Some id' /\ hi_vid id' = hi_vid id /\ hi_pid id' = hi_pid id /\
      hi_serial_number id' = hi_serial_number id /\
      (hi_interface id = None \/ hi_interface id' = hi_interface id).
Proof.
  unfold canonical_high_selector in Hs. rewrite Hid in Hs. cbn [mbind option_bind] in Hs.
  injection Hs as <-. apply high_identity_inv in Hid as (Ht & Hv & Hp & Hser & Hne & Hi & Htr).
  split; [|split].
  - unfold identity_confidence, non_empty. rewrite Ht, Hv, Hp, Hser. cbn [mbind option_bind is_some].
    by rewrite (bool_decide_false (hi_serial_number id = [])), bool_decide_true by done.
  - unfold selector_matches_high_identity. cbn. rewrite !bool_decide_true by done.
    destruct (hi_interface id); [|done]. by rewrite bool_decide_true.
  - intros p port' Hsel. unfold matches. rewrite Hsel. cbn. rewrite !andb_true_r, !andb_true_iff, !bool_decide_eq_true, agrees_spec.
    rewrite Htr. split.
    + intros ((((Hv' & Hp') & Hs') & Hi') & [= Ht']). apply (transport_to_string_inj _ Usb) in Ht'.
      exists (mkIdentity (bs "usb") (hi_vid id) (hi_pid id) (hi_serial_number id) (pi_interface port')).
      split; [by apply high_identity_intro|]. by cbn.
    + intros (id' & (Ht' & Hv' & Hp' & Hs' & _ & Hi' & _)%high_identity_inv & E1 & E2 & E3 & E4).
      by rewrite Hv', Hp', Hs', Hi', Ht', E1, E2, E3.
Qed.

End Matching.

(** ** Generated names: lemmas and property *)

(** A label: lower-case letters, digits and single inner dashes. *)
Definition label_char (b : byte) : bool :=
  let z := b2z b in in_range 48 z 57 || in_range 97 z 122 || (z =? 45).

Record label_ok (l : list byte) : Prop := {
  label_chars : Forall (fun c => label_char c = true) l;
  label_head : head l <> Some DASH;
  label_last : last l <> Some DASH;
  label_dashes : forall i, l !! i = Some DASH -> l !! S i <> Some DASH;
}.

Lemma alphanumeric_lower c :
  is_ascii_alphanumeric c = true ->
  label_char (to_ascii_lowercase c) = true /\ to_ascii_lowercase c <> DASH.
Proof. by destruct c. Qed.

Lemma label_ok_nil : label_ok [].
Proof. by split. Qed.

Lemma label_ok_snoc l c :
  label_ok l -> label_char c = true -> c <> DASH -> label_ok (l ++ [c]).
Proof.
  intros [Hc Hh Hl Hd] Hok Hne. split.
  - apply Forall_app. by repeat constructor.
  - destruct l; [|done]. cbn. by intros [= ?].
  - rewrite last_snoc. by intros [= ?].
  - intros i Hi Hs. apply lookup_app_Some in Hi as [Hi|[_ Hi] ].
    + apply lookup_app_Some in Hs as [Hs|[_ Hs] ]; [by apply (Hd i)|].
      by apply list_lookup_singleton_Some in Hs as [_ ->].
    + apply list_lookup_singleton_Some in Hi as [_ Hi]. congruence.
Qed.

Lemma label_ok_dash l c :
  label_ok l -> l <> [] -> label_char c = true -> c <> DASH -> label_ok ((l ++ [DASH]) ++ [c]).
Proof.
  intros [Hc Hh Hl Hd] Hnil Hok Hne. rewrite <- (assoc app). split.
  - apply Forall_app. by repeat constructor.
  - by destruct l.
  - rewrite (assoc app), last_snoc. by intros [= ?].
  - intros i Hi Hs.
    assert (Hlast : l !! (length l - 1)%nat <> Some DASH).
    { intros E. apply Hl. by rewrite last_lookup, <- E, Nat.sub_1_r. }
    apply lookup_app_Some in Hi as [Hi|[Hge Hi] ].
    + apply lookup_app_Some in Hs as [Hs|[Hge Hs] ]; [by apply (Hd i)|].
      apply lookup_lt_Some in Hi as Hlt. apply Hlast. by replace (length l - 1)%nat with i by lia.
    + apply lookup_app_Some in Hs as [Hs|[Hge' Hs] ]; [apply lookup_lt_Some in Hs; lia|].
      replace (S i - length l)%nat with (S (i - length l)) in Hs by lia.
      destruct (i - length l)%nat as [|[|j] ]; cbn in *; congruence.
Qed.

Lemma label_loop_ok label : forall out pending, label_ok out -> label_ok (label_loop label out pending).
Proof.
  induction label as [|c label IH]; intros out pending Ho; [done|]. cbn [label_loop].
  destruct (is_ascii_alphanumeric c) eqn:Hc; [|by apply IH].
  apply alphanumeric_lower in Hc as [Hok Hne]. apply IH.
  destruct pending; cbn [andb]; [|by apply label_ok_snoc].
  case_bool_decide; cbn [negb]; [by apply label_ok_snoc|by apply label_ok_dash].
Qed.

Lemma trim_end_dash_snoc l c :
  trim_end_dash (l ++ [c]) = if is_dash c then trim_end_dash l else l ++ [c].
Proof.
  unfold trim_end_dash. rewrite reverse_snoc. cbn [drop_while].
  destruct (is_dash c); [done|]. by rewrite reverse_cons, reverse_involutive.
Qed.

Lemma trim_end_dash_prefix l : trim_end_dash l `prefix_of` l /\ last (trim_end_dash l) <> Some DASH.
Proof.
  induction l as [|c l [Hp Hl] ] using rev_ind; [done|]. rewrite trim_end_dash_snoc.
  unfold is_dash. case_bool_decide as Hc.
  - split; [by apply prefix_app_r|done].
  - split; [done|]. rewrite last_snoc. congruence.
Qed.

(** Cutting a label and trimming the end gives a label. *)
Lemma trim_end_prefix_ok l k : label_ok l -> k `prefix_of` l -> label_ok (trim_end_dash k).
Proof.
  intros [Hc Hh _ Hd] Hk. destruct (trim_end_dash_prefix k) as [Hp Hl].
  destruct (transitivity Hp Hk) as [r ->]. split.
  - by apply Forall_app in Hc as [? _].
  - by destruct (trim_end_dash k).
  - done.
  - intros i Hi Hs. apply (Hd i); by apply lookup_app_l_Some.
Qed.

Lemma trim_start_dash_id l : label_ok l -> trim_start_dash l = l.
Proof.
  intros [_ Hh _ _]. destruct l as [|c l]; [done|]. apply drop_while_id.
  apply bool_decide_eq_false. intros ->. by apply Hh.
Qed.

Lemma normalized_label label :
  let l := normalize_generated_label label in
  label_ok l /\ l <> [] /\ (length l <= 32)%nat.
Proof.
  cbv zeta. unfold normalize_generated_label.
  pose proof (label_loop_ok label [] false label_ok_nil) as Ho.
  set (out := label_loop label [] false) in *. rewrite (trim_start_dash_id out Ho).
  pose proof (trim_end_prefix_ok out out Ho ltac:(done)) as Ht.
  pose proof (trim_end_prefix_ok _ (take 32 (trim_end_dash out)) Ht (prefix_take _ _)) as Hc.
  case_bool_decide as E.
  - split; [|split; [done|vm_compute; lia] ]. split; [repeat constructor|done|done|].
    intros i Hi. do 13 (destruct i as [|i]; [done|]). done.
  - split; [done|]. split; [done|].
    destruct (trim_end_dash_prefix (take 32 (trim_end_dash out))) as [Hp%prefix_length _].
    rewrite length_take in Hp. lia.
Qed.

Lemma bs_inj s1 s2 : bs s1 = bs s2 -> s1 = s2.
Proof.
  intros E%(f_equal String.string_of_list_byte). unfold bs in E.
  by rewrite !String.string_of_list_byte_of_string in E.
Qed.

Lemma suffixed_inj base i j : suffixed base i = suffixed base j -> i = j.
Proof. intros E%(inj (app base)). injection E as E%bs_inj. by apply (inj pretty). Qed.

(** The candidates that the loop has passed over. *)
Definition candidates (base : list byte) (suffix : N) (n : nat) : list (list byte) :=
  (fun i => suffixed base (suffix + N.of_nat i)%N) <$> seq 0 n.

Lemma candidates_S base suffix n :
  candidates base suffix (S n) = suffixed base suffix :: candidates base (suffix + 1) n.
Proof.
  unfold candidates. cbn [seq]. rewrite fmap_cons. f_equal; [f_equal; lia|].
  rewrite <- fmap_S_seq, <- list_fmap_compose. apply list_fmap_ext. intros i x _. cbn. f_equal. lia.
Qed.

Lemma allocate_loop_spec fuel taken base : forall suffix,
  match allocate_loop fuel taken base suffix with
  | Some name => exists n, (n < fuel)%nat /\ name = suffixed base (suffix + N.of_nat n) /\ name ∉ taken /\
                           candidates base suffix n ⊆ taken
  | None => candidates base suffix fuel ⊆ taken
  end.
Proof.
  induction fuel as [|fuel IH]; intros suffix; cbn [allocate_loop]; [apply list_subseteq_nil|].
  case_bool_decide as Hin.
  - specialize (IH (suffix + 1)%N). destruct (allocate_loop _ _ _ _) as [name|].
    + destruct IH as (n & Hn & Hname & Hni & Hsub). exists (S n). rewrite candidates_S.
      split; [lia|]. split; [by rewrite Hname; f_equal; lia|]. split; [done|].
      by apply list_subseteq_cons_iff.
    + rewrite candidates_S. by apply list_subseteq_cons_iff.
  - exists 0%nat. split; [lia|]. split; [by rewrite N.add_0_r|]. split; [done|]. apply list_subseteq_nil.
Qed.

Lemma candidates_bounded taken base suffix n :
  candidates base suffix n ⊆ taken -> (n <= length taken)%nat.
Proof.
  intros Hsub.
  assert (Hnd : NoDup (candidates base suffix n)).
  { apply (NoDup_fmap_2_strong _ (seq 0 n)); [|apply NoDup_seq].
    intros i j _ _ E%suffixed_inj. lia. }
  apply NoDup_submseteq, submseteq_length in Hsub; [|done].
  unfold candidates in Hsub. by rewrite length_fmap, length_seq in Hsub.
Qed.

(** Names of generated profiles.  For every label and
    every set of existing profiles, a name is found; it is not the name of an
    existing profile; and it is [auto-<label>], or the first free one of
    [auto-<label>-2], [auto-<label>-3], and so on.  The normalised label has 1 to
    32 characters, all of them lower-case letters, digits or single dashes inside. *)
Theorem generated_name_is_fresh label existing :
  let slug := normalize_generated_label label in
  let base := bs "auto-" ++ slug in
  label_ok slug /\ slug <> [] /\ (length slug <= 32)%nat /\
  exists name, allocate_generated_name existing base = Some name /\
    name ∉ (p_name <$> existing) /\
    (name = base \/
     exists n, base ∈ (p_name <$> existing) /\ name = suffixed base (2 + N.of_nat n) /\
       forall k, (k < n)%nat -> suffixed base (2 + N.of_nat k) ∈ (p_name <$> existing)).
Proof.
  intros slug base. destruct (normalized_label label) as (Hok & Hne & Hlen).
  split; [done|]. split; [done|]. split; [done|].
  unfold allocate_generated_name. set (taken := p_name <$> existing).
  case_bool_decide as Hb; [|by exists base; eauto].
  pose proof (allocate_loop_spec (S (length taken)) taken base 2) as Hs.
  destruct (allocate_loop _ _ _ _) as [name|].
  - destruct Hs as (n & _ & Hname & Hni & Hsub). exists name. split; [done|]. split; [done|].
    right. exists n. split; [done|]. split; [done|]. intros k Hk. apply Hsub.
    apply list_elem_of_fmap. exists k. split; [done|]. apply elem_of_seq. lia.
  - apply candidates_bounded in Hs. lia.
Qed.

(** ** Witness *)

Definition stm_port (name : list byte) (interface : option Z) : PortInfo :=
  mkPort name name (bs "STM32 Virtual ComPort") (Some (bs "USB VID:PID=0483:374b")) Usb (Some 1155)
    (Some 14155) (Some (bs "066DFF")) (Some (bs "STMicroelectronics")) None interface.

Lemma canonical_selector_identifies_witness :
  let s := mkSelector (Some 1155) (Some 14155) (Some (bs "066DFF")) None None (Some 2) None None
             (Some (bs "usb")) None in
  let id := mkIdentity (bs "usb") 1155 14155 (bs "066DFF") (Some 2) in
  identity_confidence (stm_port (bs "/dev/ttyACM0") (Some 2)) = ConfHigh /\
  selector_matches_high_identity s id = true /\
  forall p port', p_selector p = s ->
    matches p port' = true <->
    exists id', high_identity port' = Some id' /\ hi_vid id' = hi_vid id /\ hi_pid id' = hi_pid id /\
      hi_serial_number id' = hi_serial_number id /\
      (hi_interface id = None \/ hi_interface id' = hi_interface id).
Proof.
  exact (canonical_selector_identifies (stm_port (bs "/dev/ttyACM0") (Some 2)) _ _ eq_refl eq_refl).
Defined.

Example label_example :
  normalize_generated_label (bs "__FT232R USB  UART (v1.0)") = bs "ft232r-usb-uart-v1-0".
Proof. reflexivity. Qed.
