(* ===== verification/ProfileStore.v ===== *)
(** * [src/profile_store.rs]: the persistent profile store

    The store operations as functions on the profile list, and the transaction
    that runs them on the file under the advisory lock.  The TOML crate is a
    parameter; an I/O failure at each file operation is an input. *)

From stdpp Require Import pretty sorting.
From S2P Require Import Prelude RustStr Extern ExternModel Codec FramingConfig Profiles.

(** The error texts of the store; [StoreIo] carries the text of a failed file
    operation. *)
Inductive StoreError :=
  | ProfileExists (name : list byte)
  | ProfileNotFound (name : list byte)
  | RevisionConflict (name : list byte) (expected found : Z)
  | NoSnapshot (name : list byte) (target : Z) (retained : list Z)
  | NoHighIdentity
  | SchemaVersionZero
  | SchemaVersionNewer (version : Z)
  | StoreIo (text : list byte).

Record LearnedUpdate := mkLearned { lu_profile : Profile; lu_changed : bool }.

(** ** Building blocks *)

Definition create_metadata (now : Z) : ProfileMetadata :=
  mkMetadata false 1 (Some now) (Some now) None 0.

Definition bump_metadata (old : Profile) (now : Z) : ProfileMetadata :=
  let m := p_metadata old in
  mkMetadata (pm_generated m) (saturating_add (pm_revision m) 1) (pm_created_at_ms m) (Some now)
    (pm_last_used_at_ms m) (pm_use_count m).

Definition push_revision (old : Profile) (now : Z) (revisions : list ProfileRevision)
    : list ProfileRevision :=
  let revisions :=
    revisions ++ [mkRevision (pm_revision (p_metadata old)) now (p_selector old) (p_defaults old)] in
  drop (length revisions - MAX_PROFILE_REVISIONS) revisions.

(** [profiles.iter().position(|p| p.name == name)] and the profile there. *)
Definition position_of (name : list byte) (profiles : list Profile) : option nat :=
  position (fun p => bool_decide (p_name p = name)) profiles.

Definition find_profile (name : list byte) (profiles : list Profile) : option Profile :=
  position_of name profiles ≫= (fun idx => profiles !! idx).

(** ** The operations on the profile list *)

Definition apply_upsert (profiles : list Profile) (incoming : Profile) (overwrite : bool) (now : Z)
    : result StoreError (bool * list Profile) :=
  let existing_idx := position_of (p_name incoming) profiles in
  if is_some existing_idx && negb overwrite then Err (ProfileExists (p_name incoming))
  else
    match existing_idx ≫= (fun idx => (fun old => (idx, old)) <$> profiles !! idx) with
    | Some (idx, old) =>
        Ok (false, <[idx := mkProfile (p_name incoming) (p_selector incoming) (p_defaults incoming)
                       (bump_metadata old now) (push_revision old now (p_revisions old))]> profiles)
    | None =>
        Ok (true, profiles ++ [mkProfile (p_name incoming) (p_selector incoming)
                                 (p_defaults incoming) (create_metadata now) []])
    end.

Definition apply_update_defaults (profiles : list Profile) (name : list byte)
    (defaults : ProfileDefaults) (overwrite : bool) (now : Z)
    : result StoreError ((bool * Profile) * list Profile) :=
  let existing_idx := position_of name profiles in
  if is_some existing_idx && negb overwrite then Err (ProfileExists name)
  else
    match existing_idx ≫= (fun idx => (fun old => (idx, old)) <$> profiles !! idx) with
    | Some (idx, old) =>
        let merged := mkProfile name (p_selector old) defaults (bump_metadata old now)
                        (push_revision old now (p_revisions old)) in
        Ok ((false, merged), <[idx := merged]> profiles)
    | None =>
        let created := mkProfile name ProfileSelector_default defaults (create_metadata now) [] in
        Ok ((true, created), profiles ++ [created])
    end.

Definition apply_delete (profiles : list Profile) (name : list byte)
    : result StoreError (unit * list Profile) :=
  let kept := filter (fun p => p_name p <> name) profiles in
  if (length kept =? length profiles)%nat then Err (ProfileNotFound name) else Ok (tt, kept).

(** [create_generated]; that a name is always found is proved in Profiles. *)
Definition apply_create_generated (profiles : list Profile) (label : list byte)
    (selector : ProfileSelector) (defaults : ProfileDefaults) (now : Z)
    : result StoreError (Profile * list Profile) :=
  let base := bs "auto-" ++ normalize_generated_label label in
  let name := default base (allocate_generated_name profiles base) in
  let profile := mkProfile name selector defaults
                   (mkMetadata true 1 (Some now) (Some now) (Some now) 1) [] in
  Ok (profile, profiles ++ [profile]).

(** [lookup by name or Err]: the index and the profile. *)
Definition find_or_err (name : list byte) (profiles : list Profile)
    : result StoreError (nat * Profile) :=
  match position_of name profiles ≫= (fun idx => (fun old => (idx, old)) <$> profiles !! idx) with
  | Some found => Ok found
  | None => Err (ProfileNotFound name)
  end.

(** [max_existing] of [mark_used]. *)
Definition max_last_used (profiles : list Profile) : Z :=
  foldr Z.max 0 (omap (fun p => pm_last_used_at_ms (p_metadata p)) profiles).

Definition apply_mark_used (profiles : list Profile) (name : list byte) (now : Z)
    : result StoreError (Profile * list Profile) :=
  '(idx, old) ← find_or_err name profiles;
  let ts := Z.max now (saturating_add (max_last_used profiles) 1) in
  let m := p_metadata old in
  let updated := mkProfile (p_name old) (p_selector old) (p_defaults old)
                   (mkMetadata (pm_generated m) (pm_revision m) (pm_created_at_ms m)
                      (pm_updated_at_ms m) (Some ts) (saturating_add (pm_use_count m) 1))
                   (p_revisions old) in
  Ok (updated, <[idx := updated]> profiles).

Definition apply_learned (profiles : list Profile) (profile_name : list byte)
    (expected_revision : Z) (defaults : ProfileDefaults) (now : Z)
    : result StoreError (LearnedUpdate * option (list Profile)) :=
  '(idx, current) ← find_or_err profile_name profiles;
  let found := pm_revision (p_metadata current) in
  if negb (found =? expected_revision)
  then Err (RevisionConflict profile_name expected_revision found)
  else if defaults_eqb (p_defaults current) defaults then Ok (mkLearned current false, None)
  else
    let updated := mkProfile (p_name current) (p_selector current) defaults
                     (bump_metadata current now) (push_revision current now (p_revisions current)) in
    Ok (mkLearned updated true, Some (<[idx := updated]> profiles)).

Definition apply_rollback (profiles : list Profile) (profile_name : list byte)
    (expected_revision target_revision : Z) (now : Z) : result StoreError (Profile * list Profile) :=
  '(idx, current) ← find_or_err profile_name profiles;
  let found := pm_revision (p_metadata current) in
  if negb (found =? expected_revision)
  then Err (RevisionConflict profile_name expected_revision found)
  else
    let retained := pr_revision <$> p_revisions current in
    match position (fun r => pr_revision r =? target_revision) (p_revisions current)
          ≫= (fun i => p_revisions current !! i) with
    | None => Err (NoSnapshot profile_name target_revision retained)
    | Some snapshot =>
        let restored := mkProfile (p_name current) (pr_selector snapshot) (pr_defaults snapshot)
                          (bump_metadata current now)
                          (push_revision current now (p_revisions current)) in
        Ok (restored, <[idx := restored]> profiles)
    end.

(** ** Automatic resolution *)

Record AutomaticResolution := mkResolution {
  ar_selected : option Profile;
  ar_ambiguous : bool;
  ar_candidates : list (list byte);
}.

Section Resolve.
Context `{GlobCrate}.

(** The candidates of [resolve_automatic]. *)
Definition auto_candidates (profiles : list Profile) (target : PortInfo) (identity : HighIdentity)
    : list Profile :=
  filter (fun p => matches p target && selector_matches_high_identity (p_selector p) identity = true)
    profiles.

(** The closure of [resolve_automatic]. *)
Definition resolve_candidates (profiles : list Profile) (target : PortInfo) (identity : HighIdentity)
    : AutomaticResolution :=
  let candidates := auto_candidates profiles target identity in
  let names := p_name <$> candidates in
  match candidates with
  | [] => mkResolution None false []
  | [p] => mkResolution (Some p) false names
  | _ =>
      match rank_candidates candidates with
      | top :: next :: _ =>
          if last_used top =? last_used next then mkResolution None true names
          else mkResolution (Some top) false names
      | _ => mkResolution None false names
      end
  end.

Definition resolve_automatic (profiles : list Profile) (target : PortInfo)
    : result StoreError AutomaticResolution :=
  match high_identity target with
  | None => Err NoHighIdentity
  | Some identity => Ok (resolve_candidates profiles target identity)
  end.
End Resolve.

(** ** The file *)

(** [toml::from_str] and [toml::to_string_pretty] of a [ProfilesFile]: the schema
    version and the profiles. *)
Class TomlCrate := {
  TomlText : Type;
  toml_from_str : TomlText -> result (list byte) (Z * list Profile);
  toml_to_string : Z -> list Profile -> result (list byte) TomlText;
}.

(** Documented by serde: what is serialised deserialises to the same value. *)
Class TomlLaws `{TomlCrate} :=
  toml_roundtrip : forall version profiles text,
    toml_to_string version profiles = Ok text -> toml_from_str text = Ok (version, profiles).

Definition CURRENT_SCHEMA_VERSION : Z := 2.

(** Which file operations of one transaction fail, with the error text. *)
Record IoFaults := mkFaults {
  io_lock : option (list byte);
  io_read : option (list byte);
  io_write : option (list byte);
  io_reread : option (list byte);
}.

Definition no_faults : IoFaults := mkFaults None None None None.

Section Store.
Context `{TomlCrate}.

(** [load_validated] on the file's content; [None] is a missing file. *)
Definition load_validated (file : option TomlText) (fault : option (list byte))
    : result StoreError (list Profile) :=
  match fault, file with
  | Some e, _ => Err (StoreIo e)
  | None, None => Ok []
  | None, Some content =>
      '(schema_version, profile) ← map_err StoreIo (toml_from_str content);
      if schema_version =? 0 then Err SchemaVersionZero
      else if CURRENT_SCHEMA_VERSION <? schema_version then Err (SchemaVersionNewer schema_version)
      else Ok profile
  end.

(** [write_atomic]: the new content of the file. *)
Definition write_atomic (profiles : list Profile) (fault : option (list byte))
    : result StoreError (option TomlText) :=
  text ← map_err StoreIo (toml_to_string CURRENT_SCHEMA_VERSION profiles);
  match fault with Some e => Err (StoreIo e) | None => Ok (Some text) end.

(** One process's store: whether it has a path, and its cache. *)
Record ProfileStore := mkStore { st_persistent : bool; st_cache : list Profile }.

(** [ProfileStore::open] and [ephemeral]. *)
Definition store_open (file : option TomlText) (fault : option (list byte))
    : result StoreError ProfileStore :=
  profiles ← load_validated file fault; Ok (mkStore true profiles).
Definition store_ephemeral : ProfileStore := mkStore false [].

(** [list] and [get]: reads of the cache. *)
Definition store_list (s : ProfileStore) : list Profile := st_cache s.
Definition store_get (s : ProfileStore) (name : list byte) : option Profile :=
  find_profile name (st_cache s).

(** [run_conditional_mutation]: the result, the file and the store afterwards. *)
Definition run_conditional_mutation {T}
    (apply : list Profile -> Z -> result StoreError (T * option (list Profile)))
    (io : IoFaults) (now : Z) (file : option TomlText) (s : ProfileStore)
    : result StoreError T * option TomlText * ProfileStore :=
  if st_persistent s then
    match io_lock io with
    | Some e => (Err (StoreIo e), file, s)
    | None =>
        let outcome :=
          current ← load_validated file (io_read io);
          '(value, next) ← apply current now;
          match next with
          | Some next => file' ← write_atomic next (io_write io); Ok (value, file', next)
          | None => Ok (value, file, current)
          end in
        match outcome with
        | Ok (value, file', cache) => (Ok value, file', mkStore true cache)
        | Err e =>
            (Err e, file,
             match load_validated file (io_reread io) with
             | Ok current => mkStore true current
             | Err _ => s
             end)
        end
    end
  else
    match apply (st_cache s) now with
    | Err e => (Err e, file, s)
    | Ok (value, Some next) => (Ok value, file, mkStore false next)
    | Ok (value, None) => (Ok value, file, s)
    end.

(** [run_mutation]. *)
Definition run_mutation {T} (apply : list Profile -> Z -> result StoreError (T * list Profile))
    (io : IoFaults) (now : Z) (file : option TomlText) (s : ProfileStore)
    : result StoreError T * option TomlText * ProfileStore :=
  run_conditional_mutation
    (fun profiles now => '(value, next) ← apply profiles now; Ok (value, Some next)) io now file s.

(** [run_read]; the cache is republished before the computation runs. *)
Definition run_read {T} (compute : list Profile -> result StoreError T) (io : IoFaults)
    (file : option TomlText) (s : ProfileStore) : result StoreError T * ProfileStore :=
  if st_persistent s then
    match io_lock io with
    | Some e => (Err (StoreIo e), s)
    | None =>
        match load_validated file (io_read io) with
        | Err e => (Err e, s)
        | Ok current => (compute current, mkStore true current)
        end
    end
  else (compute (st_cache s), s).

(** ** The operations of the store *)

Inductive StoreOp :=
  | OpUpsert (profile : Profile) (overwrite : bool)
  | OpUpdateDefaults (name : list byte) (defaults : ProfileDefaults) (overwrite : bool)
  | OpDelete (name : list byte)
  | OpCreateGenerated (label : list byte) (selector : ProfileSelector) (defaults : ProfileDefaults)
  | OpMarkUsed (name : list byte)
  | OpLearn (name : list byte) (expected : Z) (defaults : ProfileDefaults)
  | OpRollback (name : list byte) (expected target : Z).

(** What an operation returns. *)
Inductive StoreValue :=
  | VCreated (created : bool)
  | VDefaults (created : bool) (p : Profile)
  | VUnit
  | VProfile (p : Profile)
  | VLearned (u : LearnedUpdate).

(** The closure each public method passes to its transaction. *)
Definition apply_op (op : StoreOp) (profiles : list Profile) (now : Z)
    : result StoreError (StoreValue * option (list Profile)) :=
  match op with
  | OpUpsert p overwrite =>
      '(created, next) ← apply_upsert profiles p overwrite now; Ok (VCreated created, Some next)
  | OpUpdateDefaults name defaults overwrite =>
      '(created, p, next) ← apply_update_defaults profiles name defaults overwrite now;
      Ok (VDefaults created p, Some next)
  | OpDelete name => '(_, next) ← apply_delete profiles name; Ok (VUnit, Some next)
  | OpCreateGenerated label selector defaults =>
      '(p, next) ← apply_create_generated profiles label selector defaults now;
      Ok (VProfile p, Some next)
  | OpMarkUsed name => '(p, next) ← apply_mark_used profiles name now; Ok (VProfile p, Some next)
  | OpLearn name expected defaults =>
      '(u, next) ← apply_learned profiles name expected defaults now; Ok (VLearned u, next)
  | OpRollback name expected target =>
      '(p, next) ← apply_rollback profiles name expected target now; Ok (VProfile p, Some next)
  end.

(** [upsert], [delete], [mark_used], [rollback], ...: one transaction. *)
Definition store_op (op : StoreOp) := run_conditional_mutation (apply_op op).

(** ** Processes that share the file *)

(** One transaction by one process. *)
Record StoreEvent := mkEvent {
  ev_process : nat;
  ev_op : StoreOp;
  ev_io : IoFaults;
  ev_now : Z;
}.

(** The file, and the store of every process, after whole transactions in the order in
    which they hold the advisory lock.  That the calls of concurrent processes, whose
    steps interleave, come out as such a run, with the same results and the same file,
    is [StoreConcurrency.interleavings_serialise]. *)
Fixpoint run_processes (file : option TomlText) (stores : gmap nat ProfileStore) (evs : list StoreEvent)
    : list (result StoreError StoreValue) * option TomlText * gmap nat ProfileStore :=
  match evs with
  | [] => ([], file, stores)
  | ev :: evs =>
      match stores !! ev_process ev with
      | None => run_processes file stores evs
      | Some s =>
          let '(r, file', s') := store_op (ev_op ev) (ev_io ev) (ev_now ev) file s in
          let '(rs, file'', stores') := run_processes file' (<[ev_process ev := s']> stores) evs in
          (r :: rs, file'', stores')
      end
  end.
End Store.

(** ** Transactions are atomic *)

Section Serial.
Context `{TomlLaws}.

(** The file holds the profile list [ps]. *)
Definition holds (file : option TomlText) (ps : list Profile) : Prop :=
  load_validated file None = Ok ps.

(** An error that comes from the file system or the serialiser. *)
Definition io_error (io : IoFaults) (e : StoreError) : Prop :=
  exists text, e = StoreIo text /\
    (io <> no_faults \/ exists next, toml_to_string CURRENT_SCHEMA_VERSION next = Err text).

Lemma load_faulty file ps fault r :
  holds file ps -> load_validated file fault = r ->
  match r with
  | Ok ps' => ps' = ps /\ fault = None
  | Err e => exists text, e = StoreIo text /\ fault = Some text
  end.
Proof. unfold holds. intros Hh <-. destruct fault; [cbn [load_validated]; eauto|]. by rewrite Hh. Qed.

Lemma write_holds ps fault file :
  write_atomic ps fault = Ok file -> holds file ps.
Proof.
  unfold write_atomic. intros (text & Ht%map_err_ok & Hw)%result_bind_ok. destruct fault; [done|].
  injection Hw as <-. unfold holds. cbn [load_validated]. rewrite (toml_roundtrip _ _ _ Ht). done.
Qed.

Lemma write_error io ps e :
  write_atomic ps (io_write io) = Err e -> io_error io e.
Proof.
  unfold write_atomic, io_error. destruct (toml_to_string _ _) as [text|text] eqn:Ht;
    cbn [map_err mbind result_bind].
  - destruct (io_write io) as [text'|] eqn:Hw; [|done]. intros [= <-]. exists text'. split; [done|].
    left. intros ->. done.
  - intros [= <-]. eauto.
Qed.

(** One transaction of a persistent store: it either takes effect on the file's
    current content, and the cache is the new content; or it fails, and the file
    is untouched and the cache old or fresh. *)
Lemma transaction_atomic {T} (apply : list Profile -> Z -> result StoreError (T * option (list Profile)))
    io now file s ps r file' s' :
  holds file ps -> st_persistent s = true ->
  run_conditional_mutation apply io now file s = (r, file', s') ->
  st_persistent s' = true /\
  match r with
  | Ok v => exists next, apply ps now = Ok (v, next) /\ holds file' (default ps next) /\
                         st_cache s' = default ps next
  | Err e => file' = file /\ (io_error io e \/ apply ps now = Err e) /\
             (s' = s \/ st_cache s' = ps)
  end.
Proof.
  intros Hh Hp. unfold run_conditional_mutation. rewrite Hp.
  destruct (io_lock io) as [text|] eqn:Hl.
  { intros [= <- <- <-]. repeat split; [done|left|by left].
    exists text. split; [done|]. left. intros ->. done. }
  destruct (load_validated file (io_read io)) as [cur|e] eqn:Hr; cbn [mbind result_bind].
  - apply (load_faulty _ ps) in Hr as [-> _]; [|done].
    destruct (apply ps now) as [ [value [next|] ]|e] eqn:Ha; cbn [mbind result_bind].
    + destruct (write_atomic next (io_write io)) as [f|e] eqn:Hw; cbn [mbind result_bind].
      * intros [= <- <- <-]. split; [done|]. exists (Some next). cbn. eauto using write_holds.
      * apply write_error in Hw. intros [= <- <- <-].
        destruct (load_validated file (io_reread io)) as [c|e'] eqn:Hc; cbn.
        -- apply (load_faulty _ ps) in Hc as [-> _]; eauto 8.
        -- eauto 8.
    + intros [= <- <- <-]. split; [done|]. exists None. cbn. eauto.
    + intros [= <- <- <-]. destruct (load_validated file (io_reread io)) as [c|e'] eqn:Hc; cbn.
      * apply (load_faulty _ ps) in Hc as [-> _]; eauto 8.
      * eauto 8.
  - apply (load_faulty _ ps) in Hr as (text & -> & Hf); [|done]. intros [= <- <- <-].
    assert (io_error io (StoreIo text)).
    { exists text. split; [done|]. left. intros ->. done. }
    destruct (load_validated file (io_reread io)) as [c|e'] eqn:Hc; cbn.
    + apply (load_faulty _ ps) in Hc as [-> _]; eauto 8.
    + eauto 8.
Qed.
End Serial.

(** ** Lookup by name *)

Lemma find_profile_cons m q ps :
  find_profile m (q :: ps) = if bool_decide (p_name q = m) then Some q else find_profile m ps.
Proof.
  unfold find_profile, position_of. cbn [position]. case_bool_decide; [done|].
  by destruct (position _ ps).
Qed.

Lemma position_of_cons m q ps :
  position_of m (q :: ps) = if bool_decide (p_name q = m) then Some 0%nat else S <$> position_of m ps.
Proof. unfold position_of. cbn [position]. by case_bool_decide. Qed.

Lemma find_profile_update n idx q ps m :
  position_of n ps = Some idx -> p_name q = n ->
  find_profile m (<[idx := q]> ps) = if bool_decide (n = m) then Some q else find_profile m ps.
Proof.
  intros Hpos Hq. revert idx Hpos. induction ps as [|p ps IH]; intros idx Hpos; [done|].
  rewrite position_of_cons in Hpos. case_bool_decide as Hp.
  - injection Hpos as <-. change (<[0%nat := q]> (p :: ps)) with (q :: ps).
    rewrite !find_profile_cons, Hq, Hp. by case_bool_decide.
  - destruct (position_of n ps) as [i|] eqn:Hi; [|done]. injection Hpos as <-.
    change (<[S i := q]> (p :: ps)) with (p :: <[i := q]> ps).
    rewrite !find_profile_cons, (IH i) by done. repeat case_bool_decide; congruence.
Qed.

Lemma find_profile_app m q ps :
  find_profile m (ps ++ [q])
  = match find_profile m ps with
    | Some p => Some p
    | None => if bool_decide (p_name q = m) then Some q else None
    end.
Proof.
  induction ps as [|p ps IH]; [apply find_profile_cons|].
  change ((p :: ps) ++ [q]) with (p :: (ps ++ [q])).
  rewrite !find_profile_cons, IH. by destruct (bool_decide (p_name p = m)).
Qed.

Lemma find_profile_delete n m ps :
  m <> n -> find_profile m (filter (fun p => p_name p <> n) ps) = find_profile m ps.
Proof.
  intros Hm. induction ps as [|p ps IH]; [done|]. rewrite filter_cons, !(find_profile_cons m p).
  case_decide as Hp; [by rewrite find_profile_cons, IH|]. rewrite IH. case_bool_decide; congruence.
Qed.

(** The profile found by an operation. *)
Lemma position_lookup n ps :
  match position_of n ps ≫= (fun idx => (fun old => (idx, old)) <$> ps !! idx) with
  | Some (idx, p) => position_of n ps = Some idx /\ find_profile n ps = Some p /\ p_name p = n
  | None => position_of n ps = None /\ find_profile n ps = None
  end.
Proof.
  induction ps as [|p ps IH]; [done|]. rewrite position_of_cons, find_profile_cons.
  case_bool_decide as Hp; [done|].
  destruct (position_of n ps) as [i|]; cbn in *; [|done]. destruct (ps !! i); cbn in *; [|by destruct IH].
  destruct IH as (Hi & Hf & Hn). by simplify_eq.
Qed.

Lemma find_or_err_ok n ps idx p :
  find_or_err n ps = Ok (idx, p) ->
  position_of n ps = Some idx /\ find_profile n ps = Some p /\ p_name p = n.
Proof.
  unfold find_or_err. pose proof (position_lookup n ps) as Hp. destruct (_ ≫= _) as [ [i q]|]; [|done].
  by intros [= <- <-].
Qed.

(** ** How an operation changes one profile *)

Definition revision (p : Profile) : Z := pm_revision (p_metadata p).

(** Either nothing that a revision describes changes, or the old configuration is
    pushed into the history and the revision is bumped. *)
Definition same_config (p q : Profile) : Prop :=
  p_selector q = p_selector p /\ p_defaults q = p_defaults p.

Definition evolves (p q : Profile) : Prop :=
  (same_config p q /\ revision q = revision p /\ p_revisions q = p_revisions p) \/
  (exists now, p_metadata q = bump_metadata p now /\ p_revisions q = push_revision p now (p_revisions p)).

Lemma evolves_refl p : evolves p p.
Proof. by left. Qed.

(** The effect of replacing the profile found at [idx]. *)
Lemma replaced_evolves n name idx old q ps p :
  position_of name ps = Some idx -> find_profile name ps = Some old -> p_name q = name ->
  evolves old q -> find_profile n ps = Some p ->
  exists p', find_profile n (<[idx := q]> ps) = Some p' /\ evolves p p'.
Proof.
  intros Hpos Hf Hq Hev Hp. rewrite (find_profile_update name) by done.
  case_bool_decide as E; [subst; simplify_eq|]; eauto using evolves_refl.
Qed.

Lemma added_evolves n q ps p :
  find_profile n ps = Some p -> exists p', find_profile n (ps ++ [q]) = Some p' /\ evolves p p'.
Proof. intros Hp. rewrite find_profile_app, Hp. eauto using evolves_refl. Qed.

Lemma apply_op_evolves op ps now v next n p :
  apply_op op ps now = Ok (v, next) -> find_profile n ps = Some p -> op <> OpDelete n ->
  exists q, find_profile n (default ps next) = Some q /\ evolves p q.
Proof.
  intros Hop Hp Hdel. destruct op as [inc ow|name df ow|name|label sel df|name|name ex df|name ex tg];
    cbn [apply_op] in Hop.
  - apply result_bind_ok in Hop as ([created ps'] & Ha & [= <- <-]). cbn [from_option id]. unfold apply_upsert in Ha.
    pose proof (position_lookup (p_name inc) ps) as Hl.
    destruct (is_some _ && _); [done|]. destruct (_ ≫= _) as [ [idx old]|]; injection Ha as <- <-.
    + destruct Hl as (Hpos & Hf & Hn). eapply replaced_evolves; eauto. right. by exists now.
    + by apply added_evolves.
  - apply result_bind_ok in Hop as ([ [created q] ps'] & Ha & [= <- <-]). cbn [from_option id].
    unfold apply_update_defaults in Ha. pose proof (position_lookup name ps) as Hl.
    destruct (is_some _ && _); [done|]. destruct (_ ≫= _) as [ [idx old]|]; injection Ha as <- <- <-.
    + destruct Hl as (Hpos & Hf & Hn). eapply replaced_evolves; eauto. right. by exists now.
    + by apply added_evolves.
  - apply result_bind_ok in Hop as ([u ps'] & Ha & [= <- <-]). cbn [from_option id]. unfold apply_delete in Ha.
    destruct (_ =? _)%nat; [done|]. injection Ha as <- <-.
    rewrite find_profile_delete by congruence. eauto using evolves_refl.
  - apply result_bind_ok in Hop as ([q ps'] & [= <- <-] & [= <- <-]). by apply added_evolves.
  - apply result_bind_ok in Hop as ([q ps'] & Ha & [= <- <-]). cbn [from_option id].
    apply result_bind_ok in Ha as ([idx old] & (Hpos & Hf & Hn)%find_or_err_ok & [= <- <-]).
    eapply replaced_evolves; eauto. by left.
  - apply result_bind_ok in Hop as ([u next'] & Ha & [= <- <-]).
    apply result_bind_ok in Ha as ([idx old] & (Hpos & Hf & Hn)%find_or_err_ok & Ha).
    cbv zeta in Ha. destruct (negb _); [done|]. destruct (defaults_eqb _ _); injection Ha as <- <-; cbn [from_option id].
    + eauto using evolves_refl.
    + eapply replaced_evolves; eauto. right. by exists now.
  - apply result_bind_ok in Hop as ([q ps'] & Ha & [= <- <-]). cbn [from_option id].
    apply result_bind_ok in Ha as ([idx old] & (Hpos & Hf & Hn)%find_or_err_ok & Ha).
    cbv zeta in Ha. destruct (negb _); [done|]. destruct (_ ≫= _); [|done]. injection Ha as <- <-.
    eapply replaced_evolves; eauto. right. by exists now.
Qed.

(** ** The history of one profile *)

(** The newest snapshot is last; the history keeps the newest five. *)
Lemma push_revision_newest old now l :
  reverse (push_revision old now l)
  = take 5 (mkRevision (revision old) now (p_selector old) (p_defaults old) :: reverse l).
Proof.
  unfold push_revision. unfold MAX_PROFILE_REVISIONS, reverse, revision. rewrite <- !rev_alt.
  rewrite <- firstn_rev, rev_app_distr. done.
Qed.

(** Where profile [q] stands relative to an earlier state [p] of it. *)
Record descends (p q : Profile) : Prop := {
  d_revision : revision p <= revision q;
  d_same : revision q = revision p -> same_config p q;
  d_snapshots : forall s, s ∈ p_revisions q -> pr_revision s = revision p ->
    pr_selector s = p_selector p /\ pr_defaults s = p_defaults p;
  d_kept : forall j, (j < 5)%nat -> Z.of_nat j < revision q - revision p ->
    exists s, reverse (p_revisions q) !! j = Some s /\ pr_revision s = revision q - 1 - Z.of_nat j;
}.

(** A profile whose history is about the past. *)
Definition past_history (p : Profile) : Prop :=
  Forall (fun s => pr_revision s < revision p) (p_revisions p).

Lemma descends_refl p : past_history p -> descends p p.
Proof.
  unfold past_history. rewrite Forall_forall. intros Hp. split.
  - lia.
  - done.
  - intros s Hs E. specialize (Hp s Hs). cbn in Hp. lia.
  - lia.
Qed.

Lemma bump_revision old :
  revision old < U64_MAX -> saturating_add (revision old) 1 = revision old + 1.
Proof. unfold saturating_add. lia. Qed.

Lemma descends_evolves p q r :
  descends p q -> evolves q r -> revision q < U64_MAX ->
  descends p r /\ revision q <= revision r <= revision q + 1.
Proof.
  intros [Hr Hs Hsn Hk] [([Es Ed] & Er & El)|(now & Em & El)] Hmax.
  - split; [|lia]. split; rewrite ?Er, ?El; try done.
    intros E. destruct (Hs E). split; congruence.
  - assert (Er : revision r = revision q + 1).
    { unfold revision at 1. rewrite Em. cbn. by apply bump_revision. }
    split; [|lia]. split.
    + lia.
    + lia.
    + intros s Hin E. rewrite <- elem_of_reverse, El, push_revision_newest in Hin.
      apply elem_of_take in Hin as (i & Hi & _). destruct i as [|i]; cbn in Hi.
      * injection Hi as <-. cbn in *. by apply Hs.
      * apply Hsn; [|done]. apply elem_of_reverse. by apply list_elem_of_lookup_2 in Hi.
    + intros j Hj Hlt. rewrite El, push_revision_newest, lookup_take_lt, Er by lia.
      destruct j as [|j]; cbn.
      * eexists. split; [done|]. cbn. lia.
      * destruct (Hk j) as (s & Hl & Hrev); [lia|lia|]. exists s. split; [done|]. lia.
Qed.

(** Operations one after the other; a refused one changes nothing. *)
Definition apply_or_keep (ps : list Profile) (op : StoreOp * Z) : list Profile :=
  match apply_op op.1 ps op.2 with
  | Ok (_, next) => default ps next
  | Err _ => ps
  end.

Definition run_store (ps : list Profile) (ops : list (StoreOp * Z)) : list Profile :=
  foldl apply_or_keep ps ops.

Lemma run_store_descends ops : forall ps n p q,
  find_profile n ps = Some q -> descends p q ->
  Forall (fun op => op.1 <> OpDelete n) ops -> revision q + Z.of_nat (length ops) < U64_MAX ->
  exists r, find_profile n (run_store ps ops) = Some r /\ descends p r /\
    revision r <= revision q + Z.of_nat (length ops).
Proof.
  induction ops as [|op ops IH]; intros ps n p q Hq Hd Hdel Hmax; [exists q; split_and!; [done|done|cbn; lia]|].
  inversion_clear Hdel as [|? ? Hop Hdel']. cbn [length] in Hmax.
  change (run_store ps (op :: ops)) with (run_store (apply_or_keep ps op) ops).
  unfold apply_or_keep. destruct (apply_op op.1 ps op.2) as [ [v next]|e] eqn:Ha.
  - destruct (apply_op_evolves _ _ _ _ _ _ _ Ha Hq Hop) as (r & Hr & He).
    destruct (descends_evolves p q r Hd He) as [Hd' Hrev]; [lia|].
    destruct (IH (default ps next) n p r) as (r' & Hf & Hd2 & Hle); [done|done|done|lia|].
    exists r'. split_and!; [done|done|cbn [length]; lia].
  - destruct (IH ps n p q) as (r' & Hf & Hd2 & Hle); [done|done|done|lia|].
    exists r'. split_and!; [done|done|cbn [length]; lia].
Qed.

(** What a rollback returns. *)
Lemma rollback_ok ps n ex tg now q ps' :
  apply_rollback ps n ex tg now = Ok (q, ps') ->
  exists cur s, find_profile n ps = Some cur /\ revision cur = ex /\ s ∈ p_revisions cur /\
    pr_revision s = tg /\ p_selector q = pr_selector s /\ p_defaults q = pr_defaults s /\
    p_metadata q = bump_metadata cur now /\
    p_revisions q = push_revision cur now (p_revisions cur) /\
    forall m, find_profile m ps' = if bool_decide (n = m) then Some q else find_profile m ps.
Proof.
  unfold apply_rollback. intros ([idx cur] & (Hpos & Hf & Hn)%find_or_err_ok & Ha)%result_bind_ok.
  cbv zeta in Ha. destruct (Z.eqb_spec (pm_revision (p_metadata cur)) ex) as [Hex|]; [|done].
  cbn [negb] in Ha. destruct (position _ _) as [i|] eqn:Hi; [|done]. cbn [mbind option_bind] in Ha.
  destruct (p_revisions cur !! i) as [s|] eqn:Hs; [|done]. injection Ha as <- <-.
  apply position_Some in Hi as [(s' & Hs' & Htg) _]. rewrite Hs in Hs'. injection Hs' as <-. apply Z.eqb_eq in Htg.
  exists cur, s. repeat split; try done; [by apply list_elem_of_lookup_2 in Hs|].
  intros m. by apply find_profile_update.
Qed.

(** C28: rollback is a time machine.  Take a profile at
    some moment, with a history that is about the past, and any operations on the
    store after that which do not delete the profile.  If a rollback to the
    profile's revision of that moment succeeds, the profile again has exactly the
    selector and the defaults it had at that moment, under a new revision that is
    one above the current one, and no other profile changes; and it does succeed,
    with the current revision as the expected one, as long as the profile has been
    changed at most five times since (and at least once). *)
Theorem rollback_restores_revision n ps p ops now :
  find_profile n ps = Some p -> past_history p ->
  Forall (fun op => op.1 <> OpDelete n) ops ->
  revision p + Z.of_nat (length ops) < U64_MAX ->
  (forall expected q ps',
     apply_rollback (run_store ps ops) n expected (revision p) now = Ok (q, ps') ->
     same_config p q /\ revision q = expected + 1 /\ find_profile n ps' = Some q /\
     forall m, m <> n -> find_profile m ps' = find_profile m (run_store ps ops)) /\
  exists cur, find_profile n (run_store ps ops) = Some cur /\
    (1 <= revision cur - revision p <= 5 ->
     exists q ps', apply_rollback (run_store ps ops) n (revision cur) (revision p) now = Ok (q, ps')).
Proof.
  intros Hp Hpast Hdel Hmax.
  destruct (run_store_descends ops ps n p p Hp (descends_refl p Hpast) Hdel Hmax) as (cur & Hcur & Hd & Hle).
  split.
  - intros ex q ps' (cur' & s & Hcur' & Hex & Hs & Htg & Hsel & Hdef & Hm & Hrev & Hfind)%rollback_ok.
    simplify_eq. destruct (d_snapshots p cur Hd s Hs Htg) as [Es Ed].
    split; [by split; congruence|]. split; [unfold revision at 1; rewrite Hm; by apply bump_revision; lia|].
    split; [by rewrite Hfind, bool_decide_true|].
    intros m Hm'. by rewrite Hfind, bool_decide_false.
  - exists cur. split; [done|]. intros Hrange.
    destruct (d_kept p cur Hd (Z.to_nat (revision cur - revision p - 1))) as (s & Hs & Htg); [lia|lia|].
    unfold apply_rollback, find_or_err. pose proof (position_lookup n (run_store ps ops)) as Hl.
    destruct (_ ≫= _) as [ [idx c]|]; [|by destruct Hl; simplify_eq].
    destruct Hl as (_ & Hc & _). simplify_eq. cbn [mbind result_bind]. rewrite Z.eqb_refl. cbn [negb].
    destruct (position _ (p_revisions cur)) as [i|] eqn:Hi.
    + cbn [mbind option_bind]. apply position_Some in Hi as [(s' & Hs' & _) _]. rewrite Hs'. eauto.
    + exfalso. rewrite position_None in Hi.
      apply list_elem_of_lookup_2 in Hs. rewrite elem_of_reverse in Hs. rewrite Forall_forall in Hi.
      specialize (Hi s Hs). apply Z.eqb_neq in Hi. lia.
Qed.

(** The revision check protects other
    writers.  Take a profile at some moment and any operations on the store after
    that which do not delete it.  If a learned update that expects the profile's
    revision of that moment is accepted, the profile still has the selector and
    the defaults of that moment: nobody's change is overwritten.  Afterwards it
    has the learned defaults under the same selector; when they were the
    current ones already nothing is written and the revision stays, otherwise the
    overwritten state is the newest snapshot of the history. *)
Theorem learning_overwrites_nothing_newer n ps p ops defaults now u next :
  find_profile n ps = Some p -> past_history p ->
  Forall (fun op => op.1 <> OpDelete n) ops ->
  revision p + Z.of_nat (length ops) < U64_MAX ->
  apply_learned (run_store ps ops) n (revision p) defaults now = Ok (u, next) ->
  exists cur, find_profile n (run_store ps ops) = Some cur /\ same_config p cur /\
    match next with
    | None => lu_changed u = false /\ lu_profile u = cur /\ defaults_eqb (p_defaults cur) defaults = true
    | Some ps' =>
        lu_changed u = true /\ find_profile n ps' = Some (lu_profile u) /\
        p_selector (lu_profile u) = p_selector p /\ p_defaults (lu_profile u) = defaults /\
        revision (lu_profile u) = revision p + 1 /\
        last (p_revisions (lu_profile u)) = Some (mkRevision (revision p) now (p_selector p) (p_defaults p))
    end.
Proof.
  intros Hp Hpast Hdel Hmax Hl.
  destruct (run_store_descends ops ps n p p Hp (descends_refl p Hpast) Hdel Hmax) as (cur & Hcur & Hd & Hle).
  exists cur. split; [done|]. unfold apply_learned in Hl.
  apply result_bind_ok in Hl as ([idx c] & (Hpos & Hf & Hn)%find_or_err_ok & Hl). cbv zeta in Hl.
  assert (c = cur) as -> by congruence.
  destruct (Z.eqb_spec (pm_revision (p_metadata cur)) (revision p)) as [Hrev|]; [|done]. cbn [negb] in Hl.
  destruct (d_same p cur Hd Hrev) as [Es Ed]. split; [done|].
  destruct (defaults_eqb (p_defaults cur) defaults) eqn:He; injection Hl as <- <-; [done|].
  cbn [lu_changed lu_profile p_selector p_defaults p_revisions].
  split; [done|]. split; [by rewrite (find_profile_update n), bool_decide_true|].
  split; [done|]. split; [done|]. split.
  - transitivity (saturating_add (revision cur) 1); [done|]. unfold saturating_add, revision in *. lia.
  - rewrite <- head_reverse, push_revision_newest. cbn [head take]. unfold revision at 1. by rewrite Hrev, Es, Ed.
Qed.

(** The revision alone does not identify a profile: after a delete and a new
    creation under the same name the revision is 1 again, and an update learned
    from the deleted profile replaces the defaults of the new one. *)
Definition sensor (baud : Z) : Profile :=
  let d := ProfileDefaults_default in
  mkProfile (bs "sensor") ProfileSelector_default
    (mkDefaults baud (pd_data_bits d) (pd_stop_bits d) (pd_parity d) (pd_flow_control d) (pd_name d)
       (pd_tx_framing d) (pd_rx_framing d) (pd_rx_parser d) (pd_protocol d) (pd_rx_buffer_size d)
       (pd_max_buffered_bytes d) (pd_reconnect_policy d) (pd_log_capacity d) (pd_log_enabled d))
    (create_metadata 0) [].

Example recreated_profile_is_overwritten :
  let ps := run_store [] [(OpUpsert (sensor 9600) false, 1); (OpDelete (bs "sensor"), 2);
                          (OpUpsert (sensor 57600) false, 3)] in
  (p_defaults <$> find_profile (bs "sensor") ps) = Some (p_defaults (sensor 57600)) /\
  exists u ps', apply_learned ps (bs "sensor") 1 (p_defaults (sensor 19200)) 4 = Ok (u, Some ps') /\
    (p_defaults <$> find_profile (bs "sensor") ps') = Some (p_defaults (sensor 19200)).
Proof. split; [reflexivity|]. do 2 eexists. split; reflexivity. Qed.

(** ** Automatic selection *)

Lemma insert_ranked_perm p l : insert_ranked p l ≡ₚ p :: l.
Proof.
  induction l as [|q l IH]; [done|]. cbn [insert_ranked]. destruct (_ <=? _); [done|].
  rewrite IH. constructor.
Qed.

Lemma rank_candidates_perm l : rank_candidates l ≡ₚ l.
Proof.
  induction l as [|p l IH]; [done|]. change (rank_candidates (p :: l)) with (insert_ranked p (rank_candidates l)).
  by rewrite insert_ranked_perm, IH.
Qed.

Definition newer_first (p q : Profile) : Prop := last_used q <= last_used p.

Lemma insert_ranked_sorted p l :
  StronglySorted newer_first l -> StronglySorted newer_first (insert_ranked p l).
Proof.
  unfold newer_first. induction 1 as [|q l Hs IH Hf]; cbn [insert_ranked]; [by repeat constructor|].
  destruct (Z.leb_spec (last_used q) (last_used p)).
  - constructor; [by constructor|]. constructor; [done|]. eapply Forall_impl; [done|]. cbn. lia.
  - constructor; [done|]. rewrite insert_ranked_perm. constructor; [lia|done].
Qed.

Lemma rank_candidates_sorted l : StronglySorted newer_first (rank_candidates l).
Proof. induction l; [constructor|]. by apply insert_ranked_sorted. Qed.

(** [p] was used after every other profile of the list. *)
Definition unique_newest (p : Profile) (l : list Profile) : Prop :=
  exists l1 l2, l = l1 ++ p :: l2 /\ Forall (fun q => last_used q < last_used p) (l1 ++ l2).

Lemma unique_newest_ranked p l :
  unique_newest p l <->
  exists rest, rank_candidates l = p :: rest /\ Forall (fun q => last_used q < last_used p) rest.
Proof.
  pose proof (rank_candidates_perm l) as Hperm. pose proof (rank_candidates_sorted l) as Hs. split.
  - intros (l1 & l2 & -> & Hf). pose proof (transitivity Hperm (symmetry (Permutation_middle l1 l2 p))) as Hperm'.
    clear Hperm. rename Hperm' into Hperm.
    destruct (rank_candidates _) as [|top rest]; [by apply Permutation_nil_cons in Hperm|].
    apply StronglySorted_inv in Hs as [_ Htop]. unfold newer_first in Htop.
    assert (Hin : p ∈ top :: rest) by (rewrite Hperm; left).
    assert (top = p) as ->.
    { assert (Ht : top ∈ p :: l1 ++ l2) by (rewrite <- Hperm; left).
      apply elem_of_cons in Ht as [?|Ht]; [done|]. rewrite Forall_forall in Hf. specialize (Hf top Ht).
      apply elem_of_cons in Hin as [?|Hin]; [done|]. rewrite Forall_forall in Htop.
      specialize (Htop p Hin). cbn in *. lia. }
    exists rest. split; [done|]. apply Permutation_cons_inv in Hperm. by rewrite Hperm.
  - intros (rest & Hr & Hf). rewrite Hr in Hperm.
    destruct (Permutation_cons_inv_l _ _ _ Hperm) as (l1 & l2 & -> & Hp2).
    exists l1, l2. split; [done|]. by rewrite <- Hp2.
Qed.

Section Automatic.
Context `{GlobCrate}.

Lemma resolve_candidates_spec profiles target id :
  let r := resolve_candidates profiles target id in
  let candidates := auto_candidates profiles target id in
  ar_candidates r = p_name <$> candidates /\
  (forall p, ar_selected r = Some p <-> unique_newest p candidates) /\
  (ar_ambiguous r = true <-> candidates <> [] /\ forall p, ~ unique_newest p candidates).
Proof.
  cbv zeta. unfold resolve_candidates. set (l := auto_candidates profiles target id).
  pose proof (rank_candidates_perm l) as Hperm. pose proof (rank_candidates_sorted l) as Hs.
  setoid_rewrite unique_newest_ranked.
  destruct l as [|p [|q l] ]; cbv zeta.
  - cbn. split; [done|]. split; [by intros p; split; [|intros (? & ? & _)]|]. by split; [|intros [? _] ].
  - cbn. split; [done|]. split.
    + intros p'. split; [intros [= <-]; by exists []|]. intros (rest & [= <- <-] & _). done.
    + split; [done|]. intros [_ Hn]. destruct (Hn p). by exists [].
  - destruct (rank_candidates (p :: q :: l)) as [|top [|next rest] ];
      [by apply Permutation_length in Hperm|by apply Permutation_length in Hperm|].
    apply StronglySorted_inv in Hs as [Hs Htop]. apply StronglySorted_inv in Hs as [_ Hnext].
    unfold newer_first in *. apply Forall_cons in Htop as [Htop _].
    destruct (Z.eqb_spec (last_used top) (last_used next)) as [Heq|Hne].
    + cbn [ar_candidates ar_selected ar_ambiguous].
      assert (Hno : forall p', ~ exists rest', top :: next :: rest = p' :: rest' /\
                     Forall (fun q => last_used q < last_used p') rest').
      { intros p' (rest' & [= <- <-] & Hf). apply Forall_cons in Hf as [? _]. lia. }
      split; [done|]. split; [|by split]. intros p'. split; [done|]. intros Hu. by destruct (Hno p').
    + cbn [ar_candidates ar_selected ar_ambiguous].
      assert (Hu : Forall (fun q => last_used q < last_used top) (next :: rest)).
      { constructor; [lia|]. eapply Forall_impl; [exact Hnext|]. cbn. lia. }
      split; [done|]. split.
      * intros p'. split; [intros [= <-]; eauto|]. by intros (rest' & [= <- <-] & _).
      * split; [done|]. intros [_ Hn]. destruct (Hn top). eauto.
Qed.

Lemma max_last_used_bound p ps : p ∈ ps -> last_used p <= max_last_used ps.
Proof.
  unfold max_last_used, last_used. induction ps as [|q ps IH]; [by intros ?%not_elem_of_nil|].
  intros [->|Hin]%elem_of_cons; cbn [omap list_omap].
  - destruct (pm_last_used_at_ms _); cbn [default from_option id foldr]; [lia|].
    clear IH. induction ps as [|q' ps IH]; [done|]. cbn [omap list_omap]. destruct (pm_last_used_at_ms _); cbn; lia.
  - specialize (IH Hin). destruct (pm_last_used_at_ms (p_metadata q)); cbn [foldr]; lia.
Qed.

(** Automatic selection picks the unique most recently
    used profile of the device.  For a port with a high-confidence identity, the
    candidates are the profiles that match it and carry its identity; a profile is
    selected exactly when it was used after every other candidate, and the
    resolution is ambiguous exactly when there are candidates but no such one.  A
    candidate that has just been marked as used is selected. *)
Theorem automatic_selection profiles target id :
  high_identity target = Some id ->
  (exists r, resolve_automatic profiles target = Ok r /\
     let candidates := auto_candidates profiles target id in
     ar_candidates r = p_name <$> candidates /\
     (forall p, ar_selected r = Some p <-> unique_newest p candidates) /\
     (ar_ambiguous r = true <-> candidates <> [] /\ forall p, ~ unique_newest p candidates)) /\
  (max_last_used profiles < U64_MAX ->
   forall name now p profiles', apply_mark_used profiles name now = Ok (p, profiles') ->
     p ∈ auto_candidates profiles' target id ->
     exists r, resolve_automatic profiles' target = Ok r /\ ar_selected r = Some p /\ ar_ambiguous r = false).
Proof.
  intros Hid. unfold resolve_automatic. rewrite Hid. split.
  { eexists. split; [done|]. apply resolve_candidates_spec. }
  intros Hmax name now p ps' Hm Hin. eexists. split; [done|].
  destruct (resolve_candidates_spec ps' target id) as (_ & Hsel & Hamb).
  assert (Hu : unique_newest p (auto_candidates ps' target id)).
  { apply result_bind_ok in Hm as ([idx old] & Hf & Hup).
    assert (Hidx : (idx < length profiles)%nat).
    { apply find_or_err_ok in Hf as (Hpos & _ & _). by apply position_lt in Hpos. }
    assert (Hps : ps' = <[idx := p]> profiles) by congruence.
    assert (Hp : max_last_used profiles < last_used p).
    { injection Hup as <- _. unfold last_used, saturating_add in *. cbn. lia. }
    rewrite insert_take_drop in Hps by done.
    assert (Hsat : matches p target && selector_matches_high_identity (p_selector p) id = true)
      by by apply list_elem_of_filter in Hin as [? _].
    unfold auto_candidates. rewrite Hps, filter_app, filter_cons_True by done.
    eexists _, _. split; [done|]. rewrite <- filter_app. apply Forall_forall.
    intros q [_ Hq]%list_elem_of_filter.
    assert (Hq' : q ∈ profiles).
    { apply elem_of_app in Hq as [Hq|Hq]; apply list_elem_of_lookup in Hq as [i Hi].
      - apply lookup_take_Some in Hi as [Hi _]. by apply list_elem_of_lookup_2 in Hi.
      - rewrite lookup_drop in Hi. by apply list_elem_of_lookup_2 in Hi. }
    apply max_last_used_bound in Hq'. lia. }
  split; [by apply Hsel|]. apply not_true_iff_false. rewrite Hamb. intros [_ Hn]. by apply (Hn p).
Qed.
End Automatic.

(** ** Witnesses *)

(** A serialiser whose texts are their own syntax trees. *)
#[export] Instance toml_reference : TomlCrate :=
  {| TomlText := Z * list Profile; toml_from_str := Ok; toml_to_string := fun v ps => Ok (v, ps) |}.

#[export] Instance toml_reference_laws : TomlLaws.
Proof. intros v ps text [= <-]. done. Defined.

Definition two_stores : gmap nat ProfileStore :=
  <[0%nat := mkStore true []]> {[ 1%nat := mkStore true [] ]}.

(** Two processes; the second transaction cannot write. *)
Definition two_process_run : list StoreEvent :=
  [mkEvent 0 (OpUpsert (sensor 9600) false) no_faults 1;
   mkEvent 1 (OpMarkUsed (bs "sensor")) (mkFaults None None (Some (bs "disk full")) None) 2;
   mkEvent 1 (OpMarkUsed (bs "sensor")) no_faults 3].

(** Three changes after revision 1. *)
Definition sensor_changes : list (StoreOp * Z) :=
  [(OpUpsert (sensor 19200) true, 2); (OpMarkUsed (bs "sensor"), 3);
   (OpLearn (bs "sensor") 2 (p_defaults (sensor 38400)), 4);
   (OpRollback (bs "sensor") 3 2, 5)].

Lemma rollback_restores_revision_witness :
  (forall expected q ps',
     apply_rollback (run_store [sensor 9600] sensor_changes) (bs "sensor") expected
       (revision (sensor 9600)) 6 = Ok (q, ps') ->
     same_config (sensor 9600) q /\ revision q = expected + 1 /\ find_profile (bs "sensor") ps' = Some q /\
     forall m, m <> bs "sensor" ->
       find_profile m ps' = find_profile m (run_store [sensor 9600] sensor_changes)) /\
  exists cur, find_profile (bs "sensor") (run_store [sensor 9600] sensor_changes) = Some cur /\
    (1 <= revision cur - revision (sensor 9600) <= 5 ->
     exists q ps', apply_rollback (run_store [sensor 9600] sensor_changes) (bs "sensor") (revision cur)
                     (revision (sensor 9600)) 6 = Ok (q, ps')).
Proof.
  apply (rollback_restores_revision (bs "sensor") [sensor 9600] (sensor 9600) sensor_changes 6).
  - reflexivity.
  - constructor.
  - repeat constructor; discriminate.
  - reflexivity.
Defined.

Lemma learning_overwrites_nothing_newer_witness :
  let ps := run_store [sensor 9600] [(OpMarkUsed (bs "sensor"), 2)] in
  exists u next, apply_learned ps (bs "sensor") 1 (p_defaults (sensor 38400)) 3 = Ok (u, next) /\
  exists cur, find_profile (bs "sensor") ps = Some cur /\ same_config (sensor 9600) cur /\
    match next with
    | None => lu_changed u = false /\ lu_profile u = cur /\
              defaults_eqb (p_defaults cur) (p_defaults (sensor 38400)) = true
    | Some ps' =>
        lu_changed u = true /\ find_profile (bs "sensor") ps' = Some (lu_profile u) /\
        p_selector (lu_profile u) = p_selector (sensor 9600) /\
        p_defaults (lu_profile u) = p_defaults (sensor 38400) /\
        revision (lu_profile u) = revision (sensor 9600) + 1 /\
        last (p_revisions (lu_profile u))
        = Some (mkRevision (revision (sensor 9600)) 3 (p_selector (sensor 9600)) (p_defaults (sensor 9600)))
    end.
Proof.
  do 2 eexists. split; [reflexivity|].
  apply (learning_overwrites_nothing_newer (bs "sensor") [sensor 9600] (sensor 9600)
           [(OpMarkUsed (bs "sensor"), 2)] (p_defaults (sensor 38400)) 3).
  - reflexivity.
  - constructor.
  - repeat constructor; discriminate.
  - reflexivity.
  - reflexivity.
Defined.

(** Two profiles of one device. *)
Definition device_profile (name : list byte) (used : Z) : Profile :=
  mkProfile name
    (mkSelector (Some 1155) (Some 14155) (Some (bs "066DFF")) None None (Some 2) None None
       (Some (bs "usb")) None)
    ProfileDefaults_default (mkMetadata true 1 (Some 0) (Some 0) (Some used) 1) [].

Lemma automatic_selection_witness :
  let ps := [device_profile (bs "a") 10; device_profile (bs "b") 10] in
  let target := stm_port (bs "/dev/ttyACM1") (Some 2) in
  let id := mkIdentity (bs "usb") 1155 14155 (bs "066DFF") (Some 2) in
  (exists r, resolve_automatic ps target = Ok r /\
     let candidates := auto_candidates ps target id in
     ar_candidates r = p_name <$> candidates /\
     (forall p, ar_selected r = Some p <-> unique_newest p candidates) /\
     (ar_ambiguous r = true <-> candidates <> [] /\ forall p, ~ unique_newest p candidates)) /\
  (max_last_used ps < U64_MAX ->
   forall name now p profiles', apply_mark_used ps name now = Ok (p, profiles') ->
     p ∈ auto_candidates profiles' target id ->
     exists r, resolve_automatic profiles' target = Ok r /\ ar_selected r = Some p /\ ar_ambiguous r = false).
Proof.
  apply (automatic_selection [device_profile (bs "a") 10; device_profile (bs "b") 10]
           (stm_port (bs "/dev/ttyACM1") (Some 2)) (mkIdentity (bs "usb") 1155 14155 (bs "066DFF") (Some 2))).
  reflexivity.
Defined.
