(* ===== verification/StoreInvariant.v ===== *)
(** * The invariant of the profile document

    What a profile file written by this program always satisfies
    ([src/profile_store.rs], [src/profiles.rs]): names are unique, every counter
    and time fits its [u64], and the history of a profile holds exactly the last
    five revisions before the current one.  The operations preserve it, and so do
    any number of processes that share the file while its operations fail. *)

From S2P Require Import Prelude RustStr Extern ExternModel Profiles ProfileStore.

Create HintDb store.

(** ** Well-formed profiles *)

Definition fits_u64 (n : Z) : Prop := 0 <= n <= U64_MAX.

Definition stamp_ok (stamp : option Z) : Prop := forall t, stamp = Some t -> fits_u64 t.

(** The revisions a profile of revision [r] keeps, the newest first. *)
Definition kept_revisions (r : Z) : list Z :=
  (fun j => r - 1 - Z.of_nat j) <$> seq 0 (Nat.min MAX_PROFILE_REVISIONS (Z.to_nat (r - 1))).

Record metadata_ok (m : ProfileMetadata) : Prop := {
  mo_created : stamp_ok (pm_created_at_ms m);
  mo_updated : stamp_ok (pm_updated_at_ms m);
  mo_last_used : stamp_ok (pm_last_used_at_ms m);
  mo_use_count : fits_u64 (pm_use_count m);
}.

(** [bound] is the number of changes the profile can have seen. *)
Record profile_ok (bound : Z) (p : Profile) : Prop := {
  po_revision : 1 <= revision p <= bound;
  po_metadata : metadata_ok (p_metadata p);
  po_saved : Forall (fun s => fits_u64 (pr_saved_at_ms s)) (p_revisions p);
  po_history : pr_revision <$> reverse (p_revisions p) = kept_revisions (revision p);
}.

Record document_ok (bound : Z) (ps : list Profile) : Prop := {
  do_names : NoDup (p_name <$> ps);
  do_profiles : Forall (profile_ok bound) ps;
}.

Lemma document_ok_nil bound : document_ok bound [].
Proof. split; constructor. Qed.

Lemma document_ok_mono b c ps : b <= c -> document_ok b ps -> document_ok c ps.
Proof.
  intros Hle [Hn Hp]. split; [done|]. eapply Forall_impl; [done|].
  intros p [? ? ? ?]. split; [lia|done..].
Qed.

(** ** The parts of a changed profile *)

Lemma kept_revisions_S r : 1 <= r -> kept_revisions (r + 1) = take 5 (r :: kept_revisions r).
Proof.
  intros Hr. unfold kept_revisions. unfold MAX_PROFILE_REVISIONS.
  assert (Hcons : r :: ((fun j => r - 1 - Z.of_nat j) <$> seq 0 (Nat.min 5 (Z.to_nat (r - 1))))
    = (fun j => r - Z.of_nat j) <$> seq 0 (S (Nat.min 5 (Z.to_nat (r - 1))))).
  { cbn [seq fmap list_fmap]. f_equal; [lia|]. rewrite <- fmap_S_seq, <- list_fmap_compose.
    apply list_fmap_ext. intros _ j _. cbn. lia. }
  rewrite Hcons, <- fmap_take, take_seq.
  replace (5 `min` S (5 `min` Z.to_nat (r - 1)))%nat with (5 `min` Z.to_nat (r + 1 - 1))%nat by lia.
  apply list_fmap_ext. intros _ j _. lia.
Qed.

Lemma push_revision_history old now :
  pr_revision <$> reverse (push_revision old now (p_revisions old))
  = take 5 (revision old :: (pr_revision <$> reverse (p_revisions old))).
Proof. by rewrite push_revision_newest, fmap_take. Qed.

Lemma push_revision_saved old now l :
  fits_u64 now -> Forall (fun s => fits_u64 (pr_saved_at_ms s)) l ->
  Forall (fun s => fits_u64 (pr_saved_at_ms s)) (push_revision old now l).
Proof.
  intros Hnow Hl. unfold push_revision. cbv zeta. apply Forall_drop, Forall_app.
  split; [done|]. by apply Forall_singleton.
Qed.

Lemma saturating_fits a : 0 <= a -> fits_u64 (saturating_add a 1).
Proof. unfold fits_u64, saturating_add, U64_MAX. lia. Qed.

Lemma stamp_now now : fits_u64 now -> stamp_ok (Some now).
Proof. intros Hn t [= <-]. done. Qed.

Lemma stamp_none : stamp_ok None.
Proof. intros t [=]. Qed.

#[local] Hint Resolve stamp_now stamp_none : store.

(** A change that is recorded: the old state goes to the history. *)
Lemma recorded_ok bound old now name sel defs :
  fits_u64 now -> bound < U64_MAX -> profile_ok bound old ->
  profile_ok (bound + 1)
    (mkProfile name sel defs (bump_metadata old now) (push_revision old now (p_revisions old))).
Proof.
  intros Hnow Hb [Hr [? ? ? ?] Hs Hh].
  assert (E : revision (mkProfile name sel defs (bump_metadata old now)
                          (push_revision old now (p_revisions old))) = revision old + 1).
  { apply bump_revision. lia. }
  split; rewrite ?E.
  - lia.
  - split; cbn; auto with store.
  - by apply push_revision_saved.
  - cbn [p_revisions]. by rewrite push_revision_history, Hh, kept_revisions_S by lia.
Qed.

(** A new profile. *)
Lemma created_ok bound name sel defs generated now last_used uses :
  1 <= bound -> fits_u64 now -> stamp_ok last_used -> fits_u64 uses ->
  profile_ok bound
    (mkProfile name sel defs (mkMetadata generated 1 (Some now) (Some now) last_used uses) []).
Proof.
  intros Hb Hnow Hl Hu. split; [cbn; lia|split; cbn; auto with store|constructor|done].
Qed.

(** ** The parts of a changed document *)

Lemma names_replaced ps name idx q :
  position_of name ps = Some idx -> p_name q = name -> p_name <$> <[idx := q]> ps = p_name <$> ps.
Proof.
  intros ((old & Hold & Hn) & _)%position_Some Hq. apply bool_decide_eq_true in Hn.
  rewrite list_fmap_insert. apply list_insert_id. rewrite list_lookup_fmap, Hold. cbn. congruence.
Qed.

Lemma replaced_ok bound ps name idx q :
  document_ok bound ps -> position_of name ps = Some idx -> p_name q = name ->
  profile_ok bound q -> document_ok bound (<[idx := q]> ps).
Proof.
  intros [Hn Hp] Hpos Hq Hok. split; [by erewrite names_replaced|]. by apply Forall_insert.
Qed.

Lemma added_ok bound ps q :
  document_ok bound ps -> p_name q ∉ (p_name <$> ps) -> profile_ok bound q ->
  document_ok bound (ps ++ [q]).
Proof.
  intros [Hn Hp] Hq Hok. split; [|apply Forall_app; split; [done|by apply Forall_singleton] ].
  rewrite fmap_app. apply NoDup_app. split; [done|]. split; [|apply NoDup_singleton].
  intros x Hx ->%list_elem_of_singleton. done.
Qed.

Lemma position_of_fresh name ps : position_of name ps = None -> name ∉ (p_name <$> ps).
Proof.
  intros Hp%position_None (p & -> & Hin)%list_elem_of_fmap. rewrite Forall_forall in Hp.
  specialize (Hp p Hin). by apply bool_decide_eq_false in Hp.
Qed.

(** The profile an operation finds by its name. *)
Lemma found_ok bound ps name p :
  document_ok bound ps -> find_profile name ps = Some p -> profile_ok bound p.
Proof.
  intros [_ Hp] (idx & _ & Hl)%bind_Some. rewrite Forall_lookup in Hp. eauto.
Qed.

(** With unique names a lookup by name finds the profile itself. *)
Lemma find_own bound ps p :
  document_ok bound ps -> p ∈ ps -> find_profile (p_name p) ps = Some p.
Proof.
  intros [Hn _]. induction ps as [|q ps IH]; intros Hin; [by apply elem_of_nil in Hin|].
  rewrite fmap_cons in Hn. apply NoDup_cons in Hn as [Hq Hn]. rewrite find_profile_cons.
  apply elem_of_cons in Hin as [->|Hin]; [by rewrite bool_decide_true|].
  rewrite bool_decide_false; [by apply IH|]. intros E. apply Hq. rewrite E. by apply list_elem_of_fmap_2.
Qed.

(** ** The operations *)

Lemma max_last_used_nonneg ps : 0 <= max_last_used ps.
Proof. unfold max_last_used. induction (omap _ ps) as [|t ts IH]; [done|]. change (0 <= Z.max t (foldr Z.max 0 ts)). lia. Qed.

Lemma used_ok bound old now ps :
  fits_u64 now -> profile_ok bound old ->
  let m := p_metadata old in
  let ts := Z.max now (saturating_add (max_last_used ps) 1) in
  profile_ok bound
    (mkProfile (p_name old) (p_selector old) (p_defaults old)
       (mkMetadata (pm_generated m) (pm_revision m) (pm_created_at_ms m) (pm_updated_at_ms m) (Some ts)
          (saturating_add (pm_use_count m) 1)) (p_revisions old)).
Proof.
  intros Hnow [Hr [? ? ? Hu] Hs Hh] m ts. split; [done| |done..].
  pose proof (saturating_fits _ (max_last_used_nonneg ps)) as Hsat.
  split; cbn; [done|done| |].
  - apply stamp_now. unfold fits_u64 in *. subst ts. lia.
  - apply saturating_fits. apply Hu.
Qed.

(** A profile that is added under a name nobody has. *)
Lemma fresh_ok bound ps name sel defs generated now last_used uses :
  1 <= bound -> document_ok bound ps -> name ∉ (p_name <$> ps) ->
  fits_u64 now -> stamp_ok last_used -> fits_u64 uses ->
  document_ok (bound + 1)
    (ps ++ [mkProfile name sel defs (mkMetadata generated 1 (Some now) (Some now) last_used uses) [] ]).
Proof.
  intros Hb Hps Hn Hnow Hl Hu. apply added_ok; [|done|].
  - eapply document_ok_mono; [|done]. lia.
  - by apply created_ok; [lia|..].
Qed.

(** A generated profile has a name of its own. *)
Lemma created_generated ps label sel defs now q ps' :
  apply_create_generated ps label sel defs now = Ok (q, ps') ->
  exists name, name ∉ (p_name <$> ps) /\
    ps' = ps ++ [mkProfile name sel defs (mkMetadata true 1 (Some now) (Some now) (Some now) 1) [] ].
Proof.
  unfold apply_create_generated. cbv zeta.
  destruct (generated_name_is_fresh label ps) as (_ & _ & _ & name & -> & Hfresh & _).
  intros [= _ <-]. by exists name.
Qed.

(** A recorded change of the profile an operation found. *)
Lemma recorded_in_place bound ps name idx old now sel defs :
  bound < U64_MAX -> fits_u64 now -> document_ok bound ps ->
  position_of name ps = Some idx -> find_profile name ps = Some old ->
  document_ok (bound + 1)
    (<[idx := mkProfile name sel defs (bump_metadata old now)
                (push_revision old now (p_revisions old))]> ps).
Proof.
  intros Hb Hnow Hps Hpos Hf. eapply replaced_ok; [|done|done|].
  - eapply document_ok_mono; [|done]. lia.
  - apply recorded_ok; [done|done|]. by eapply found_ok.
Qed.

Lemma fits_zero : fits_u64 0.
Proof. done. Qed.

Lemma fits_one : fits_u64 1.
Proof. done. Qed.

#[local] Hint Resolve recorded_in_place fresh_ok position_of_fresh fits_zero fits_one : store.

(** Operations on the list, as [run_mutation] takes them, and as
    [run_conditional_mutation] does. *)
Definition keeps_list {T} (apply : list Profile -> Z -> result StoreError (T * list Profile)) : Prop :=
  forall bound ps now v next, 1 <= bound < U64_MAX -> fits_u64 now -> document_ok bound ps ->
    apply ps now = Ok (v, next) -> document_ok (bound + 1) next.

Definition keeps_documents {T}
    (apply : list Profile -> Z -> result StoreError (T * option (list Profile))) : Prop :=
  forall bound ps now v next, 1 <= bound < U64_MAX -> fits_u64 now -> document_ok bound ps ->
    apply ps now = Ok (v, next) -> document_ok (bound + 1) (default ps next).

(** An operation whose value is mapped before its list is stored. *)
Lemma keeps_mapped {A T} (apply : list Profile -> Z -> result StoreError (A * list Profile)) (f : A -> T) :
  keeps_list apply -> keeps_documents (fun ps now => '(v, next) ← apply ps now; Ok (f v, Some next)).
Proof.
  intros Hk bound ps now v next Hb Hnow Hps ([a next'] & Ha & [= <- <-])%result_bind_ok. by eapply Hk.
Qed.

Lemma upsert_keeps incoming overwrite : keeps_list (fun ps now => apply_upsert ps incoming overwrite now).
Proof.
  intros bound ps now v next [H1 Hb] Hnow Hps Ha. unfold apply_upsert in Ha.
  pose proof (position_lookup (p_name incoming) ps) as Hl.
  destruct (is_some _ && _); [done|]. destruct (_ ≫= _) as [ [idx old]|]; injection Ha as <- <-.
  - destruct Hl as (? & ? & _). auto with store.
  - destruct Hl as [? _]. apply fresh_ok; auto with store.
Qed.

Lemma update_defaults_keeps name defaults overwrite :
  keeps_list (fun ps now => apply_update_defaults ps name defaults overwrite now).
Proof.
  intros bound ps now v next [H1 Hb] Hnow Hps Ha. unfold apply_update_defaults in Ha.
  pose proof (position_lookup name ps) as Hl.
  destruct (is_some _ && _); [done|]. destruct (_ ≫= _) as [ [idx old]|]; injection Ha as <- <-.
  - destruct Hl as (? & ? & _). auto with store.
  - destruct Hl as [? _]. apply fresh_ok; auto with store.
Qed.

Lemma delete_keeps name : keeps_list (fun ps _ => apply_delete ps name).
Proof.
  intros bound ps now v next _ _ Hps Ha. unfold apply_delete in Ha.
  destruct (_ =? _)%nat; [done|]. injection Ha as <- <-.
  apply (document_ok_mono bound); [lia|]. destruct Hps as [Hn Hp]. split.
  2: { rewrite Forall_forall in *. intros p [_ Hin]%list_elem_of_filter. auto. }
  eapply sublist_NoDup; [exact Hn|]. apply fmap_sublist, sublist_filter.
Qed.

Lemma create_generated_keeps label selector defaults :
  keeps_list (fun ps now => apply_create_generated ps label selector defaults now).
Proof.
  intros bound ps now v next [H1 Hb] Hnow Hps (name & Hfresh & ->)%created_generated.
  apply fresh_ok; auto with store.
Qed.

Lemma mark_used_keeps name : keeps_list (fun ps now => apply_mark_used ps name now).
Proof.
  intros bound ps now v next _ Hnow Hps ([idx old] & (Hpos & Hf & Hn)%find_or_err_ok & [= <- <-])%result_bind_ok.
  apply (document_ok_mono bound); [lia|]. eapply replaced_ok; [done|done|done|].
  apply used_ok; [done|]. by eapply found_ok.
Qed.

Lemma learned_keeps name expected defaults :
  keeps_documents (fun ps now => apply_learned ps name expected defaults now).
Proof.
  intros bound ps now v next [H1 Hb] Hnow Hps ([idx old] & (Hpos & Hf & <-)%find_or_err_ok & Ha)%result_bind_ok.
  cbv zeta in Ha. destruct (negb _); [done|].
  destruct (defaults_eqb _ _); injection Ha as <- <-; cbn [from_option id]; [|auto with store].
  apply (document_ok_mono bound); [lia|done].
Qed.

Lemma rollback_keeps name expected target :
  keeps_list (fun ps now => apply_rollback ps name expected target now).
Proof.
  intros bound ps now v next [H1 Hb] Hnow Hps ([idx old] & (Hpos & Hf & <-)%find_or_err_ok & Ha)%result_bind_ok.
  cbv zeta in Ha. destruct (negb _); [done|]. destruct (_ ≫= _); [|done]. injection Ha as <- <-.
  auto with store.
Qed.

#[export] Hint Resolve upsert_keeps update_defaults_keeps delete_keeps create_generated_keeps
  mark_used_keeps learned_keeps rollback_keeps keeps_mapped : store.

(** Every operation of the store leaves well-formed documents. *)
Lemma apply_op_keeps op : keeps_documents (apply_op op).
Proof.
  destruct op as [inc ow|name df ow|name|label sel df|name|name ex df|name ex tg].
  - apply (keeps_mapped _ VCreated), upsert_keeps.
  - intros bound ps now v next Hb Hnow Hps
      ([ [created q] ps'] & Ha & [= <- <-])%result_bind_ok. by eapply update_defaults_keeps.
  - apply (keeps_mapped (fun ps _ => apply_delete ps name) (fun _ => VUnit)), delete_keeps.
  - apply (keeps_mapped _ VProfile), create_generated_keeps.
  - apply (keeps_mapped _ VProfile), mark_used_keeps.
  - intros bound ps now v next Hb Hnow Hps ([u ps'] & Ha & [= <- <-])%result_bind_ok.
    by eapply learned_keeps.
  - apply (keeps_mapped _ VProfile), rollback_keeps.
Qed.

(** ** Processes that share the file *)

Section Processes.
Context `{TomlLaws}.

(** The file and the cache of one process. *)
Definition profiles_ok (bound : Z) (file : option TomlText) (s : ProfileStore) : Prop :=
  (exists ps, holds file ps /\ document_ok bound ps) /\ document_ok bound (st_cache s).

Lemma profiles_ok_mono b c file s : b <= c -> profiles_ok b file s -> profiles_ok c file s.
Proof.
  intros Hle [(ps & Hh & Hps) Hc]. split; [exists ps; split; [done|] |];
    by eapply document_ok_mono.
Qed.

(** One transaction, of a persistent or of an ephemeral store, whatever fails. *)
Lemma transaction_keeps {T} (apply : list Profile -> Z -> result StoreError (T * option (list Profile)))
    bound io now file s r file' s' :
  keeps_documents apply -> 1 <= bound < U64_MAX -> fits_u64 now -> profiles_ok bound file s ->
  run_conditional_mutation apply io now file s = (r, file', s') -> profiles_ok (bound + 1) file' s'.
Proof.
  intros Hk Hb Hnow [(ps & Hh & Hps) Hs] Hop. assert (Hle : bound <= bound + 1) by lia.
  pose proof (document_ok_mono _ _ _ Hle Hps) as Hps'. pose proof (document_ok_mono _ _ _ Hle Hs) as Hs'.
  destruct (st_persistent s) eqn:Hp.
  - destruct (transaction_atomic _ _ _ _ _ _ _ _ _ Hh Hp Hop) as [_ Hr]. destruct r as [v|e].
    + destruct Hr as (next & Ha & Hf & Hc). unfold profiles_ok. rewrite Hc.
      pose proof (Hk _ _ _ _ _ Hb Hnow Hps Ha). eauto.
    + destruct Hr as (-> & _ & Hc). split; [by exists ps|]. by destruct Hc as [->| ->].
  - unfold run_conditional_mutation in Hop. rewrite Hp in Hop.
    destruct (apply (st_cache s) now) as [ [v [next|] ]|e] eqn:Ha; injection Hop as <- <- <-;
      (split; [by exists ps|]); try done.
    exact (Hk _ _ _ _ _ Hb Hnow Hs Ha).
Qed.

Lemma mutation_keeps {T} (apply : list Profile -> Z -> result StoreError (T * list Profile))
    bound io now file s r file' s' :
  keeps_list apply -> 1 <= bound < U64_MAX -> fits_u64 now -> profiles_ok bound file s ->
  run_mutation apply io now file s = (r, file', s') -> profiles_ok (bound + 1) file' s'.
Proof. intros Hk. apply transaction_keeps. by apply (keeps_mapped apply id). Qed.

(** A read at most refreshes the cache. *)
Lemma read_keeps {T} (compute : list Profile -> result StoreError T) bound io file s r s' :
  profiles_ok bound file s -> run_read compute io file s = (r, s') -> profiles_ok bound file s'.
Proof.
  intros Hok. pose proof Hok as [(ps & Hh & Hps) _]. unfold run_read. destruct (st_persistent s); [|by intros [= _ <-] ].
  destruct (io_lock io); [by intros [= _ <-]|].
  destruct (load_validated file (io_read io)) as [cur|e] eqn:Hr; [|by intros [= _ <-] ].
  apply (load_faulty _ ps) in Hr as [-> _]; [|done]. intros [= _ <-]. split; [by exists ps|done].
Qed.

Lemma run_processes_ok evs : forall bound file ps stores rs file' stores',
  1 <= bound -> bound + Z.of_nat (length evs) < U64_MAX ->
  Forall (fun ev => fits_u64 (ev_now ev)) evs -> holds file ps -> document_ok bound ps ->
  map_Forall (fun _ s => document_ok bound (st_cache s)) stores ->
  run_processes file stores evs = (rs, file', stores') ->
  let bound' := bound + Z.of_nat (length evs) in
  exists ps', holds file' ps' /\ document_ok bound' ps' /\
    map_Forall (fun _ s => document_ok bound' (st_cache s)) stores'.
Proof.
  induction evs as [|ev evs IH]; intros bound file ps stores rs file' stores' H1 Hb Hnow Hh Hps Hst Hrun bound'.
  { injection Hrun as <- <- <-. subst bound'. cbn [length]. rewrite Z.add_0_r. eauto. }
  assert (Hgo : forall f1 ps1 st1 rs1, holds f1 ps1 -> document_ok (bound + 1) ps1 ->
    map_Forall (fun _ s => document_ok (bound + 1) (st_cache s)) st1 ->
    run_processes f1 st1 evs = (rs1, file', stores') ->
    exists ps', holds file' ps' /\ document_ok bound' ps' /\
      map_Forall (fun _ s => document_ok bound' (st_cache s)) stores').
  { intros f1 ps1 st1 rs1 Hh1 Hp1 Hs1 Hr1. subst bound'. cbn [length] in *.
    replace (bound + Z.of_nat (S (length evs))) with (bound + 1 + Z.of_nat (length evs)) by lia.
    apply (IH (bound + 1) f1 ps1 st1 rs1); try done; [lia|lia|]. by inversion Hnow. }
  assert (Hst' : map_Forall (fun _ s => document_ok (bound + 1) (st_cache s)) stores).
  { eapply map_Forall_impl; [exact Hst|]. intros i t Ht. eapply document_ok_mono; [|exact Ht]. lia. }
  cbn [run_processes] in Hrun. destruct (stores !! ev_process ev) as [s|] eqn:Hs.
  - destruct (store_op _ _ _ _ _) as [ [r f1] s1] eqn:Hop.
    destruct (run_processes f1 _ evs) as [ [rs1 f2] st2] eqn:Hrest. injection Hrun as <- <- <-.
    destruct (transaction_keeps _ bound _ _ _ _ _ _ _ (apply_op_keeps _) ltac:(cbn in Hb; lia)
                (Forall_inv Hnow) (conj (ex_intro _ ps (conj Hh Hps)) (Hst _ _ Hs)) Hop)
      as [(ps1 & Hh1 & Hp1) Hc1].
    eapply Hgo; [exact Hh1|done| |done]. by apply map_Forall_insert_2.
  - eapply Hgo; [exact Hh| |done|done]. eapply document_ok_mono; [|done]. lia.
Qed.

(** Every revision of the history of a well-formed document can be restored. *)
Lemma kept_revision_restores bound ps p target now :
  document_ok bound ps -> p ∈ ps -> 1 <= target -> revision p - 5 <= target < revision p ->
  exists q ps', apply_rollback ps (p_name p) (revision p) target now = Ok (q, ps').
Proof.
  intros Hps Hin H1 Ht. pose proof (find_own _ _ _ Hps Hin) as Hf.
  pose proof (found_ok _ _ _ _ Hps Hf) as [_ _ _ Hh].
  assert (Hkept : target ∈ (pr_revision <$> reverse (p_revisions p))).
  { rewrite Hh. apply list_elem_of_fmap. exists (Z.to_nat (revision p - 1 - target)).
    split; [lia|]. apply elem_of_seq. unfold MAX_PROFILE_REVISIONS. lia. }
  apply list_elem_of_fmap in Hkept as (s & Htarget & Hs). rewrite elem_of_reverse in Hs.
  unfold apply_rollback, find_or_err. pose proof (position_lookup (p_name p) ps) as Hl.
  destruct (_ ≫= _) as [ [idx c]|]; [|by destruct Hl; simplify_eq].
  destruct Hl as (_ & Hc & _). simplify_eq. cbn [mbind result_bind]. rewrite Z.eqb_refl. cbn [negb].
  destruct (position _ (p_revisions p)) as [i|] eqn:Hi.
  - cbn [mbind option_bind]. apply position_Some in Hi as [(s' & Hs' & _) _]. rewrite Hs'. eauto.
  - rewrite position_None, Forall_forall in Hi. specialize (Hi s Hs). cbn in Hi.
    apply Z.eqb_neq in Hi. congruence.
Qed.

(** C27: profile documents stay well-formed.  Processes
    with persistent or ephemeral stores run any operations on one profile file, in
    any order of their transactions (which is all that calls interleaving step by step
    can come to: [StoreConcurrency]), with file operations failing anywhere.  If the file and the caches
    start well-formed, the file and every cache end well-formed: names are unique,
    every time and counter fits a [u64], and the history of a profile is exactly
    the (at most five) revisions before its current one, without a gap.  So a name
    finds its own profile, and each of the last five revisions of a profile can be
    rolled back to. *)
Theorem documents_stay_well_formed bound file ps stores evs rs file' stores' :
  1 <= bound -> bound + Z.of_nat (length evs) < U64_MAX ->
  Forall (fun ev => fits_u64 (ev_now ev)) evs -> holds file ps -> document_ok bound ps ->
  map_Forall (fun _ s => document_ok bound (st_cache s)) stores ->
  run_processes file stores evs = (rs, file', stores') ->
  let bound' := bound + Z.of_nat (length evs) in
  exists ps', holds file' ps' /\ document_ok bound' ps' /\
    map_Forall (fun _ s => document_ok bound' (st_cache s)) stores' /\
    forall p, p ∈ ps' -> find_profile (p_name p) ps' = Some p /\
      forall target now, 1 <= target -> revision p - 5 <= target < revision p ->
        exists q ps'', apply_rollback ps' (p_name p) (revision p) target now = Ok (q, ps'').
Proof.
  intros H1 Hb Hnow Hh Hps Hst Hrun bound'.
  destruct (run_processes_ok _ _ _ _ _ _ _ _ H1 Hb Hnow Hh Hps Hst Hrun) as (ps' & Hh' & Hps' & Hst').
  exists ps'. split_and!; [done|done|done|]. intros p Hin. split; [by eapply find_own|].
  intros target now Ht1 Ht. by eapply kept_revision_restores.
Qed.
End Processes.

(** ** Witness *)

(** The empty file, two processes, and a transaction that cannot write. *)
Lemma documents_stay_well_formed_witness :
  exists rs file' stores', run_processes None two_stores two_process_run = (rs, file', stores') /\
  exists ps', holds file' ps' /\ document_ok 4 ps' /\
    map_Forall (fun _ s => document_ok 4 (st_cache s)) stores' /\
    forall p, p ∈ ps' -> find_profile (p_name p) ps' = Some p /\
      forall target now, 1 <= target -> revision p - 5 <= target < revision p ->
        exists q ps'', apply_rollback ps' (p_name p) (revision p) target now = Ok (q, ps'').
Proof.
  do 3 eexists. split; [reflexivity|].
  eapply (documents_stay_well_formed 1 None [] two_stores two_process_run).
  - lia.
  - reflexivity.
  - repeat apply Forall_cons_2; try apply Forall_nil_2; by split.
  - reflexivity.
  - apply document_ok_nil.
  - intros i s. unfold two_stores. intros [ [_ <-]|[_ [_ <-]%lookup_singleton_Some] ]%lookup_insert_Some; apply document_ok_nil.
  - reflexivity.
Defined.

(** Six changes keep five revisions; the first can no longer be restored. *)
Example six_changes_forget_the_first :
  let ps := run_store [sensor 9600]
    [(OpUpsert (sensor 1) true, 1); (OpUpsert (sensor 2) true, 2); (OpUpsert (sensor 3) true, 3);
     (OpUpsert (sensor 4) true, 4); (OpUpsert (sensor 5) true, 5); (OpUpsert (sensor 6) true, 6)] in
  (fun p => pr_revision <$> p_revisions p) <$> ps = [ [2; 3; 4; 5; 6] ] /\
  apply_rollback ps (bs "sensor") 7 1 7 = Err (NoSnapshot (bs "sensor") 1 [2; 3; 4; 5; 6]).
Proof. split; reflexivity. Qed.
