(* ===== verification/StoreConcurrency.v ===== *)
(** * Processes at the profile file, step by step

    The transactions of [src/profile_store.rs] as they interleave.  A call waits for
    the mutex of its process, then for the advisory lock on the lock file, reads the
    file, computes, replaces the file, publishes the cache and lets go of the lock;
    between any two of these steps the calls of the same and of other processes take
    theirs, callers drop their calls, and processes die and start.  [ProfileStore] has
    the transactions in one piece; here it is shown that they may be taken so. *)

From S2P Require Import Prelude Util RustStr Profiles ProfileStore StoreInvariant.

Section Concurrency.
Context `{TomlCrate}.

(** ** Calls *)

(** A mutation, or [list_fresh]: a [run_conditional_mutation] or a [run_read].  (The read
    of [resolve_automatic] differs from [list_fresh] in what it computes from the
    profiles only.) *)
Inductive StoreRequest := RqMutate (op : StoreOp) | RqList.
Inductive StoreReply := RpValue (v : StoreValue) | RpProfiles (profiles : list Profile).

(** A call: its process, what it asks, which of its file operations fail, and what its
    clock says. *)
Record StoreCall := mkStoreCall {
  sc_process : nat;
  sc_request : StoreRequest;
  sc_io : IoFaults;
  sc_now : Z;
}.

(** The closure of the call: the reply, and the profiles to write. *)
Definition request_apply (rq : StoreRequest) (profiles : list Profile) (now : Z)
    : result StoreError (StoreReply * option (list Profile)) :=
  match rq with
  | RqMutate op => '(v, next) ← apply_op op profiles now; Ok (RpValue v, next)
  | RqList => Ok (RpProfiles profiles, None)
  end.

(** Where a call is.  [AtLocked] to [AtUnlocking] are the blocking task between
    [acquire_lock] and [drop(lock)]; after [AtUnlocked] the task has ended and its
    result waits for the caller. *)
Inductive StorePc :=
  | AtMutex
  | AtLock
  | AtLocked
  | AtLoaded (current : list Profile)
  | AtWriting (reply : StoreReply) (next : list Profile)
  | AtPublishing (reply : StoreReply) (profiles : list Profile)
  | AtRefreshing (e : StoreError)
  | AtUnlocking (r : result StoreError StoreReply)
  | AtUnlocked (r : result StoreError StoreReply)
  | AtReturned (r : result StoreError StoreReply)
  | AtGone.

(** [pg_awaited]: the caller has not dropped the call. *)
Record StoreProgress := mkStoreProgress { pg_pc : StorePc; pg_awaited : bool }.

(** The file, who holds the advisory lock on its lock file, the cache of every live
    process, who holds the [mutation_lock] of every process, and the calls made. *)
Record StoreSys := mkStoreSys {
  sy_file : option TomlText;
  sy_lock : option nat;
  sy_caches : gmap nat (list Profile);
  sy_mutexes : gmap nat nat;
  sy_calls : gmap nat (StoreCall * StoreProgress);
}.

Definition store_start (file : option TomlText) : StoreSys := mkStoreSys file None ∅ ∅ ∅.

(** ** Steps *)

Definition move_call (s : StoreSys) (n : nat) (c : StoreCall) (st : StoreProgress) (pc : StorePc) : StoreSys :=
  mkStoreSys (sy_file s) (sy_lock s) (sy_caches s) (sy_mutexes s)
    (<[n := (c, mkStoreProgress pc (pg_awaited st))]> (sy_calls s)).
Definition with_store_file (s : StoreSys) (file : option TomlText) : StoreSys :=
  mkStoreSys file (sy_lock s) (sy_caches s) (sy_mutexes s) (sy_calls s).
Definition with_store_lock (s : StoreSys) (lock : option nat) : StoreSys :=
  mkStoreSys (sy_file s) lock (sy_caches s) (sy_mutexes s) (sy_calls s).
Definition with_store_cache (s : StoreSys) (p : nat) (profiles : list Profile) : StoreSys :=
  mkStoreSys (sy_file s) (sy_lock s) (<[p := profiles]> (sy_caches s)) (sy_mutexes s) (sy_calls s).
Definition with_store_mutexes (s : StoreSys) (mutexes : gmap nat nat) : StoreSys :=
  mkStoreSys (sy_file s) (sy_lock s) (sy_caches s) mutexes (sy_calls s).

(** After a failed load a mutation refreshes the cache, a read does not. *)
Definition load_failed (rq : StoreRequest) (e : StoreError) : StorePc :=
  match rq with RqMutate _ => AtRefreshing e | RqList => AtUnlocking (Err e) end.

(** The next step of call [n], unless it waits for the mutex, for the lock, or for a
    caller that is gone. *)
Definition advance (n : nat) (s : StoreSys) : option StoreSys :=
  match sy_calls s !! n with
  | None => None
  | Some (c, st) =>
      let go s pc := Some (move_call s n c st pc) in
      match pg_pc st with
      | AtMutex =>
          match sy_mutexes s !! sc_process c with
          | None => go (with_store_mutexes s (<[sc_process c := n]> (sy_mutexes s))) AtLock
          | Some _ => None
          end
      | AtLock =>
          match io_lock (sc_io c) with
          | Some e => go s (AtUnlocked (Err (StoreIo e)))
          | None =>
              match sy_lock s with
              | None => go (with_store_lock s (Some n)) AtLocked
              | Some _ => None
              end
          end
      | AtLocked =>
          match load_validated (sy_file s) (io_read (sc_io c)) with
          | Ok current => go s (AtLoaded current)
          | Err e => go s (load_failed (sc_request c) e)
          end
      | AtLoaded current =>
          match request_apply (sc_request c) current (sc_now c) with
          | Ok (reply, Some next) => go s (AtWriting reply next)
          | Ok (reply, None) => go s (AtPublishing reply current)
          | Err e => go s (AtRefreshing e)
          end
      | AtWriting reply next =>
          match write_atomic next (io_write (sc_io c)) with
          | Ok file => go (with_store_file s file) (AtPublishing reply next)
          | Err e => go s (AtRefreshing e)
          end
      | AtPublishing reply profiles => go (with_store_cache s (sc_process c) profiles) (AtUnlocking (Ok reply))
      | AtRefreshing e =>
          match load_validated (sy_file s) (io_reread (sc_io c)) with
          | Ok current => go (with_store_cache s (sc_process c) current) (AtUnlocking (Err e))
          | Err _ => go s (AtUnlocking (Err e))
          end
      | AtUnlocking r => go (with_store_lock s None) (AtUnlocked r)
      | AtUnlocked r =>
          if pg_awaited st
          then go (with_store_mutexes s (delete (sc_process c) (sy_mutexes s))) (AtReturned r)
          else None
      | AtReturned _ | AtGone => None
      end
  end.

Definition over (pc : StorePc) : bool :=
  match pc with AtReturned _ | AtGone => true | _ => false end.

(** The caller drops its call: a call that still waits for the mutex is gone, any other
    lets go of it, and its blocking task goes on. *)
Definition drop_call (n : nat) (c : StoreCall) (st : StoreProgress) (s : StoreSys) : StoreSys :=
  match pg_pc st with
  | AtMutex =>
      mkStoreSys (sy_file s) (sy_lock s) (sy_caches s) (sy_mutexes s)
        (<[n := (c, mkStoreProgress AtGone false)]> (sy_calls s))
  | pc =>
      mkStoreSys (sy_file s) (sy_lock s) (sy_caches s) (delete (sc_process c) (sy_mutexes s))
        (<[n := (c, mkStoreProgress pc false)]> (sy_calls s))
  end.

(** A process dies at any point: its cache, its mutex and its calls are gone, and the
    system lets go of its lock. *)
Definition kill_calls (p : nat) (x : StoreCall * StoreProgress) : StoreCall * StoreProgress :=
  if decide (sc_process x.1 = p)
  then (x.1, if over (pg_pc x.2) then x.2 else mkStoreProgress AtGone false)
  else x.
Definition kill_process (p : nat) (s : StoreSys) : StoreSys :=
  mkStoreSys (sy_file s)
    (n ← sy_lock s; x ← sy_calls s !! n; if decide (sc_process x.1 = p) then None else Some n)
    (delete p (sy_caches s)) (delete p (sy_mutexes s)) (kill_calls p <$> sy_calls s).

(** [ProfileStore::open], which reads the file without the lock. *)
Inductive store_step : StoreSys -> StoreSys -> Prop :=
  | store_advance n s s' : advance n s = Some s' -> store_step s s'
  | store_call n p rq io now s :
      is_Some (sy_caches s !! p) -> sy_calls s !! n = None ->
      store_step s
        (mkStoreSys (sy_file s) (sy_lock s) (sy_caches s) (sy_mutexes s)
           (<[n := (mkStoreCall p rq io now, mkStoreProgress AtMutex true)]> (sy_calls s)))
  | store_drop n c st s :
      sy_calls s !! n = Some (c, st) -> pg_awaited st = true -> over (pg_pc st) = false ->
      store_step s (drop_call n c st s)
  | store_kill p s : store_step s (kill_process p s)
  | store_open_process p fault store s :
      sy_caches s !! p = None -> store_open (sy_file s) fault = Ok store ->
      store_step s (with_store_cache s p (st_cache store)).

(** ** The calls in one piece *)

(** A call as one transaction of [ProfileStore], on the file. *)
Definition transact (c : StoreCall) (file : option TomlText) : result StoreError StoreReply * option TomlText :=
  match sc_request c with
  | RqMutate op =>
      let '(r, file', _) := store_op op (sc_io c) (sc_now c) file (mkStore true []) in
      (v ← r; Ok (RpValue v), file')
  | RqList =>
      let '(r, _) := run_read (fun profiles => Ok profiles) (sc_io c) file (mkStore true []) in
      (profiles ← r; Ok (RpProfiles profiles), file)
  end.

(** What happened: calls with their replies, in order. *)
Definition StoreEntry : Type := nat * StoreCall * result StoreError StoreReply.
Definition entry_id (e : StoreEntry) : nat := e.1.1.

(** The entries replayed one after the other, on the file. *)
Fixpoint replay (file : option TomlText) (h : list StoreEntry) (file' : option TomlText) : Prop :=
  match h with
  | [] => file' = file
  | e :: h => (transact e.1.2 file).1 = e.2 /\ replay (transact e.1.2 file).2 h file'
  end.

(** The entries on one profile list: every call that succeeds is applied to what the
    calls before it left; a call that fails has no effect, and was refused on that
    list or ran into a file or serialisation error. *)
Fixpoint serial_calls (ps : list Profile) (h : list StoreEntry) (ps' : list Profile) : Prop :=
  match h with
  | [] => ps' = ps
  | (_, c, Ok reply) :: h =>
      exists next, request_apply (sc_request c) ps (sc_now c) = Ok (reply, next) /\
        serial_calls (default ps next) h ps'
  | (_, c, Err e) :: h =>
      (io_error (sc_io c) e \/ request_apply (sc_request c) ps (sc_now c) = Err e) /\ serial_calls ps h ps'
  end.

Lemma replay_app file h1 h2 file' :
  replay file (h1 ++ h2) file' <-> exists file1, replay file h1 file1 /\ replay file1 h2 file'.
Proof.
  revert file. induction h1 as [|e h1 IH]; intros file; cbn [app replay].
  - split; [by exists file|]. by intros (file1 & -> & Hr).
  - rewrite IH. split; [intros (He & file1 & H1 & H2); eauto|]. intros (file1 & (He & H1) & H2). eauto.
Qed.

Lemma replay_one file e file' : replay file [e] file' <-> transact e.1.2 file = (e.2, file').
Proof. cbn. destruct (transact e.1.2 file) as [r f]. cbn. split; [by intros [-> ->]|by intros [= -> ->]]. Qed.

Lemma serial_calls_app ps h1 ps1 h2 ps2 :
  serial_calls ps h1 ps1 -> serial_calls ps1 h2 ps2 -> serial_calls ps (h1 ++ h2) ps2.
Proof.
  revert ps. induction h1 as [|[ [n c] [v|e] ] h1 IH]; intros ps H1 H2; cbn in H1 |- *; [by subst|..].
  - destruct H1 as (next & Ha & H1). eauto.
  - destruct H1 as [He H1]. eauto.
Qed.

(** A transaction step by step. *)
Lemma transact_steps c file :
  transact c file
  = match io_lock (sc_io c) with
    | Some e => (Err (StoreIo e), file)
    | None =>
        match load_validated file (io_read (sc_io c)) with
        | Err e => (Err e, file)
        | Ok current =>
            match request_apply (sc_request c) current (sc_now c) with
            | Err e => (Err e, file)
            | Ok (reply, None) => (Ok reply, file)
            | Ok (reply, Some next) =>
                match write_atomic next (io_write (sc_io c)) with
                | Ok file' => (Ok reply, file')
                | Err e => (Err e, file)
                end
            end
        end
    end.
Proof.
  unfold transact. destruct (sc_request c) as [op|].
  - unfold store_op, run_conditional_mutation. cbn [st_persistent].
    destruct (io_lock (sc_io c)); [done|]. destruct (load_validated file _) as [cur|e]; cbn; [|done].
    destruct (apply_op op cur (sc_now c)) as [ [v [next|] ]|e]; cbn; [|done|done].
    by destruct (write_atomic next _).
  - unfold run_read. cbn [st_persistent]. destruct (io_lock (sc_io c)); [done|].
    by destruct (load_validated file _).
Qed.

(** ** The invariant *)

(** Between [acquire_lock] and [drop(lock)]. *)
Definition critical (pc : StorePc) : bool :=
  match pc with
  | AtLocked | AtLoaded _ | AtWriting _ _ | AtPublishing _ _ | AtRefreshing _ | AtUnlocking _ => true
  | _ => false
  end.
Definition publishing (pc : StorePc) : bool := match pc with AtPublishing _ _ => true | _ => false end.
Definition holds_mutex (st : StoreProgress) : bool :=
  pg_awaited st && negb (over (pg_pc st)) && match pg_pc st with AtMutex => false | _ => true end.

(** What is known of a call where it is: it is no entry yet, or it is one, with the
    reply it is going to give. *)
Definition pc_ok (h : list StoreEntry) (file : option TomlText) (n : nat) (c : StoreCall) (pc : StorePc) : Prop :=
  match pc with
  | AtMutex | AtLock => n ∉ entry_id <$> h
  | AtLocked => n ∉ entry_id <$> h /\ io_lock (sc_io c) = None
  | AtLoaded current =>
      n ∉ entry_id <$> h /\ io_lock (sc_io c) = None /\ load_validated file (io_read (sc_io c)) = Ok current
  | AtWriting reply next =>
      n ∉ entry_id <$> h /\ io_lock (sc_io c) = None /\
      exists current, load_validated file (io_read (sc_io c)) = Ok current /\
        request_apply (sc_request c) current (sc_now c) = Ok (reply, Some next)
  | AtPublishing reply profiles => (n, c, Ok reply) ∈ h /\ load_validated file None = Ok profiles
  | AtRefreshing e => (n, c, Err e) ∈ h
  | AtUnlocking r | AtUnlocked r | AtReturned r => (n, c, r) ∈ h
  | AtGone => True
  end.

Record store_inv (file0 : option TomlText) (h : list StoreEntry) (s : StoreSys) : Prop := {
  si_replay : replay file0 h (sy_file s);
  si_nodup : NoDup (entry_id <$> h);
  si_known : forall n c r, (n, c, r) ∈ h -> exists st, sy_calls s !! n = Some (c, st);
  si_calls : forall n c st, sy_calls s !! n = Some (c, st) ->
    pc_ok h (sy_file s) n c (pg_pc st) /\ (critical (pg_pc st) = true -> sy_lock s = Some n) /\
    (pg_pc st = AtMutex -> pg_awaited st = true);
  si_caches : forall p cache, sy_caches s !! p = Some cache ->
    exists h1 h2 file1, h = h1 ++ h2 /\ replay file0 h1 file1 /\ load_validated file1 None = Ok cache /\
      forall n c v, (n, c, Ok v) ∈ h2 -> sc_process c = p ->
        exists st, sy_calls s !! n = Some (c, st) /\ publishing (pg_pc st) = true;
  si_lock : forall n, sy_lock s = Some n ->
    exists c st, sy_calls s !! n = Some (c, st) /\ critical (pg_pc st) = true;
  si_mutexes : forall p n, sy_mutexes s !! p = Some n ->
    exists c st, sy_calls s !! n = Some (c, st) /\ sc_process c = p /\ holds_mutex st = true;
}.

(** A call that holds no lock does not care about the file. *)
Lemma pc_ok_uncritical h l file file' n c pc :
  n ∉ entry_id <$> l -> critical pc = false -> pc_ok h file n c pc -> pc_ok (h ++ l) file' n c pc.
Proof. intros Hl Hc. destruct pc; try done; cbn; rewrite ?fmap_app; set_solver. Qed.

Lemma pc_ok_more h l file n c pc :
  n ∉ entry_id <$> l -> pc_ok h file n c pc -> pc_ok (h ++ l) file n c pc.
Proof. intros Hl. destruct pc; cbn; rewrite ?fmap_app; set_solver. Qed.

(** The call [n] makes a step, and [l] is its entry, if it becomes one with it. *)
Lemma move_inv file0 h l s n c st st' file lock caches mutexes :
  store_inv file0 h s -> sy_calls s !! n = Some (c, st) ->
  (l = [] \/ n ∉ entry_id <$> h /\ exists r, l = [(n, c, r)]) ->
  replay (sy_file s) l file ->
  pc_ok (h ++ l) file n c (pg_pc st') -> (critical (pg_pc st') = true -> lock = Some n) ->
  pg_pc st' <> AtMutex ->
  (lock = sy_lock s /\ file = sy_file s \/ forall m, sy_lock s = Some m -> m = n) ->
  (forall p cache, caches !! p = Some cache ->
     load_validated file None = Ok cache \/
     sy_caches s !! p = Some cache /\
     (p = sc_process c -> (forall v, (n, c, Ok v) ∈ l -> publishing (pg_pc st') = true) /\
        (publishing (pg_pc st) = true -> publishing (pg_pc st') = true))) ->
  (forall m, lock = Some m -> m = n /\ critical (pg_pc st') = true \/ m <> n /\ sy_lock s = Some m) ->
  (forall p m, mutexes !! p = Some m ->
     m = n /\ p = sc_process c /\ holds_mutex st' = true \/ m <> n /\ sy_mutexes s !! p = Some m) ->
  store_inv file0 (h ++ l) (mkStoreSys file lock caches mutexes (<[n := (c, st')]> (sy_calls s))).
Proof.
  intros [Hrep Hnd Hkn Hcalls Hcaches Hlk Hmx] Hn Hl Hfile Hpc Hcrit Hnm Hone Hcache Hlock Hmutex.
  assert (Hids : forall m c' r, (m, c', r) ∈ l -> m = n /\ c' = c).
  { destruct Hl as [->|(_ & r0 & ->)]; [intros m c' r Hin; by apply elem_of_nil in Hin|].
    by intros m c' r [= -> -> ->]%list_elem_of_singleton. }
  assert (Hother : forall m, m <> n -> m ∉ entry_id <$> l).
  { intros m Hm ([ [m' c'] r] & -> & Hin)%list_elem_of_fmap. by apply Hids in Hin as [? _]. }
  split; cbn [sy_file sy_lock sy_caches sy_mutexes sy_calls].
  - apply replay_app. eauto.
  - rewrite fmap_app. destruct Hl as [->|(Hnew & r & ->)]; [by rewrite app_nil_r|].
    apply NoDup_app. split_and!; [done| |apply NoDup_singleton]. cbn. set_solver.
  - intros m c' r [Hin|Hin]%elem_of_app.
    + apply Hkn in Hin as (st0 & Hm). destruct (decide (m = n)) as [->|]; simplify_map_eq; eauto.
    + apply Hids in Hin as [-> ->]. simplify_map_eq. eauto.
  - intros m c' st0 Hm. destruct (decide (m = n)) as [->|Hne]; simplify_map_eq; [done|].
    destruct (Hcalls _ _ _ Hm) as (Hok & Hcr & Haw). specialize (Hother m Hne).
    destruct (critical (pg_pc st0)) eqn:Hc0.
    + destruct Hone as [ [-> ->]|Hone]; [|by destruct Hne; apply Hone, Hcr].
      split; [by apply pc_ok_more|done].
    + split; [by eapply pc_ok_uncritical|done].
  - intros p cache Hp. destruct (Hcache p cache Hp) as [Hload|[Hold Hpub] ].
    + exists (h ++ l), [], file. rewrite app_nil_r. split_and!; [done|apply replay_app; eauto|done|].
      intros m c' v Hin. by apply elem_of_nil in Hin.
    + destruct (Hcaches p cache Hold) as (h1 & h2 & file1 & -> & Hr1 & Hl1 & Hpend).
      exists h1, (h2 ++ l), file1. rewrite app_assoc. split_and!; [done..|].
      intros m c' v [Hin|Hin]%elem_of_app Hproc.
      * destruct (Hpend _ _ _ Hin Hproc) as (st0 & Hm & Hpb).
        destruct (decide (m = n)) as [->|Hne]; simplify_map_eq; [|eauto].
        eexists. split; [done|]. by apply Hpub.
      * pose proof (Hids _ _ _ Hin) as [-> ->]. simplify_map_eq. eexists. split; [done|].
        destruct (Hpub eq_refl) as [Hnew _]. by eapply Hnew.
  - intros m Hm. destruct (Hlock m Hm) as [ [-> Hc]|[Hne Hold] ]; [simplify_map_eq; eauto|].
    destruct (Hlk m Hold) as (c' & st0 & Hm' & Hc). simplify_map_eq. eauto.
  - intros p m Hm. destruct (Hmutex p m Hm) as [(-> & -> & Hh)|[Hne Hold] ]; [simplify_map_eq; eauto|].
    destruct (Hmx p m Hold) as (c' & st0 & Hm' & Hc). simplify_map_eq. eauto.
Qed.

(** The mutexes and the lock stay with whom they are. *)
Lemma mutexes_stay file0 h s n c st st' p m :
  store_inv file0 h s -> sy_calls s !! n = Some (c, st) -> (holds_mutex st = true -> holds_mutex st' = true) ->
  sy_mutexes s !! p = Some m ->
  m = n /\ p = sc_process c /\ holds_mutex st' = true \/ m <> n /\ sy_mutexes s !! p = Some m.
Proof.
  intros Hinv Hn Hst Hm. destruct (decide (m = n)) as [->|]; [|by right]. left.
  destruct (si_mutexes _ _ _ Hinv p n Hm) as (c' & st0 & Hn' & <- & Hh). simplify_map_eq. auto.
Qed.

Lemma lock_stays file0 h s n c st st' m :
  store_inv file0 h s -> sy_calls s !! n = Some (c, st) ->
  (critical (pg_pc st) = true -> critical (pg_pc st') = true) -> sy_lock s = Some m ->
  m = n /\ critical (pg_pc st') = true \/ m <> n /\ sy_lock s = Some m.
Proof.
  intros Hinv Hn Hst Hm. destruct (decide (m = n)) as [->|]; [|by right]. left.
  destruct (si_lock _ _ _ Hinv n Hm) as (c' & st0 & Hn' & Hc). simplify_map_eq. auto.
Qed.

(** A step of call [n] that touches nothing but the call, which does not publish. *)
Lemma quiet_inv file0 h l s n c st pc' :
  store_inv file0 h s -> sy_calls s !! n = Some (c, st) ->
  (l = [] \/ n ∉ entry_id <$> h /\ exists r, l = [(n, c, r)]) ->
  replay (sy_file s) l (sy_file s) ->
  pc_ok (h ++ l) (sy_file s) n c pc' -> critical pc' = critical (pg_pc st) -> publishing (pg_pc st) = false ->
  (forall v, (n, c, Ok v) ∈ l -> publishing pc' = true) ->
  over pc' = over (pg_pc st) -> pg_pc st <> AtMutex -> pc' <> AtMutex ->
  store_inv file0 (h ++ l) (move_call s n c st pc').
Proof.
  intros Hinv Hn Hl Hrep Hpc Hcrit Hpub Hok Hover Hm Hm'. destruct (si_calls _ _ _ Hinv n c st Hn) as (_ & Hlk & _).
  unfold move_call. eapply move_inv; try done.
  - cbn [pg_pc]. rewrite Hcrit. exact Hlk.
  - by left.
  - intros p cache Hp. right. split; [done|]. intros _. cbn [pg_pc]. rewrite Hpub. by split.
  - intros m Hmm. eapply lock_stays; [done..| |done]. cbn [pg_pc]. by rewrite Hcrit.
  - intros p m Hmm. eapply mutexes_stay; [done..| |done]. unfold holds_mutex. cbn [pg_pc pg_awaited].
    rewrite Hover. by destruct (pg_pc st), pc'.
Qed.

Lemma load_without_fault file fault ps : load_validated file fault = Ok ps -> load_validated file None = Ok ps.
Proof. destruct fault; [done|]. done. Qed.

(** The steps on the mutex, the lock, the file and the cache. *)
Lemma take_mutex_inv file0 h s n c st :
  store_inv file0 h s -> sy_calls s !! n = Some (c, st) -> pg_pc st = AtMutex -> sy_mutexes s !! sc_process c = None ->
  store_inv file0 (h ++ []) (move_call (with_store_mutexes s (<[sc_process c := n]> (sy_mutexes s))) n c st AtLock).
Proof.
  intros Hinv Hn Hpc Hm. destruct (si_calls _ _ _ Hinv n c st Hn) as (Hok & Hcrit & Haw). rewrite Hpc in *.
  unfold move_call. cbn. eapply move_inv; try done; rewrite ?app_nil_r; auto.
  - intros p cache Hp. right. split; [done|]. rewrite Hpc. intros _. split; [|done]. by intros v ?%elem_of_nil.
  - intros m Hmm. eapply lock_stays; [done..| |done]. by rewrite Hpc.
  - intros p m Hmm. destruct (decide (p = sc_process c)) as [->|Hp];
      [rewrite lookup_insert_eq in Hmm; injection Hmm as <-|rewrite lookup_insert_ne in Hmm by congruence].
    + left. split_and!; try done. unfold holds_mutex. cbn. by rewrite Haw.
    + eapply mutexes_stay; [done..| |done]. unfold holds_mutex. rewrite Hpc. by rewrite andb_false_r.
Qed.

Lemma take_lock_inv file0 h s n c st :
  store_inv file0 h s -> sy_calls s !! n = Some (c, st) -> pg_pc st = AtLock -> io_lock (sc_io c) = None ->
  sy_lock s = None ->
  store_inv file0 (h ++ []) (move_call (with_store_lock s (Some n)) n c st AtLocked).
Proof.
  intros Hinv Hn Hpc Hio Hlk. destruct (si_calls _ _ _ Hinv n c st Hn) as (Hok & _ & _). rewrite Hpc in Hok.
  unfold move_call. cbn. eapply move_inv; try done; rewrite ?app_nil_r; auto.
  - by split.
  - right. intros m. by rewrite Hlk.
  - intros p cache Hp. right. split; [done|]. rewrite Hpc. intros _. split; [|done]. by intros v ?%elem_of_nil.
  - intros m [= ->]. by left.
  - intros p m Hmm. eapply mutexes_stay; [done..| |done]. unfold holds_mutex. cbn. by rewrite Hpc.
Qed.

Lemma drop_lock_inv file0 h s n c st r :
  store_inv file0 h s -> sy_calls s !! n = Some (c, st) -> pg_pc st = AtUnlocking r ->
  store_inv file0 (h ++ []) (move_call (with_store_lock s None) n c st (AtUnlocked r)).
Proof.
  intros Hinv Hn Hpc. destruct (si_calls _ _ _ Hinv n c st Hn) as (Hok & Hcrit & _). rewrite Hpc in Hok, Hcrit.
  unfold move_call. cbn. eapply move_inv; try done; rewrite ?app_nil_r; auto.
  - right. intros m. rewrite Hcrit by done. congruence.
  - intros p cache Hp. right. split; [done|]. rewrite Hpc. intros _. split; [|done]. by intros v ?%elem_of_nil.
  - intros p m Hmm. eapply mutexes_stay; [done..| |done]. unfold holds_mutex. cbn. by rewrite Hpc.
Qed.

Lemma return_inv file0 h s n c st r :
  store_inv file0 h s -> sy_calls s !! n = Some (c, st) -> pg_pc st = AtUnlocked r -> pg_awaited st = true ->
  store_inv file0 (h ++ [])
    (move_call (with_store_mutexes s (delete (sc_process c) (sy_mutexes s))) n c st (AtReturned r)).
Proof.
  intros Hinv Hn Hpc Ha. destruct (si_calls _ _ _ Hinv n c st Hn) as (Hok & Hcrit & _). rewrite Hpc in Hok, Hcrit.
  unfold move_call. cbn. eapply move_inv; try done; rewrite ?app_nil_r; auto.
  - intros p cache Hp. right. split; [done|]. rewrite Hpc. intros _. split; [|done]. by intros v ?%elem_of_nil.
  - intros m Hmm. eapply lock_stays; [done..| |done]. by rewrite Hpc.
  - intros p m [Hp Hmm]%lookup_delete_Some. right. split; [|done]. intros ->.
    destruct (si_mutexes _ _ _ Hinv p n Hmm) as (c' & st0 & Hn' & Hproc & _). by simplify_map_eq.
Qed.

Lemma store_cache_inv file0 h s n c st r profiles :
  store_inv file0 h s -> sy_calls s !! n = Some (c, st) -> critical (pg_pc st) = true ->
  load_validated (sy_file s) None = Ok profiles -> (n, c, r) ∈ h ->
  store_inv file0 (h ++ []) (move_call (with_store_cache s (sc_process c) profiles) n c st (AtUnlocking r)).
Proof.
  intros Hinv Hn Hc Hload Hin. destruct (si_calls _ _ _ Hinv n c st Hn) as (_ & Hcrit & _).
  unfold move_call. cbn. eapply move_inv; try done; rewrite ?app_nil_r; auto.
  - intros p cache Hp. destruct (decide (p = sc_process c)) as [->|Hne]; simplify_map_eq; [by left|by right].
  - intros m Hmm. by eapply lock_stays.
  - intros p m Hmm. eapply mutexes_stay; [done..| |done]. unfold holds_mutex. cbn.
    destruct (pg_awaited st), (pg_pc st); done.
Qed.

(** ** The steps of others *)

Lemma call_inv file0 h s n x :
  store_inv file0 h s -> sy_calls s !! n = None -> pg_pc x.2 = AtMutex -> pg_awaited x.2 = true ->
  store_inv file0 h (mkStoreSys (sy_file s) (sy_lock s) (sy_caches s) (sy_mutexes s) (<[n := x]> (sy_calls s))).
Proof.
  intros [Hrep Hnd Hkn Hcalls Hcaches Hlk Hmx] Hn Hpc Ha.
  assert (Hnew : n ∉ entry_id <$> h).
  { intros ([ [m c] r] & -> & Hin)%list_elem_of_fmap. apply Hkn in Hin as [st Hst]. cbn in Hn. congruence. }
  assert (Hsame : forall m y, sy_calls s !! m = Some y -> <[n := x]> (sy_calls s) !! m = Some y).
  { intros m y Hm. rewrite lookup_insert_ne; [done|congruence]. }
  split; cbn [sy_file sy_lock sy_caches sy_mutexes sy_calls]; try done.
  - intros m c r Hin. apply Hkn in Hin as [st Hst]. eauto.
  - intros m c st Hm. destruct (decide (m = n)) as [->|]; simplify_map_eq; [|by apply Hcalls].
    cbn in Hpc, Ha. rewrite Hpc. split_and!; [exact Hnew|done|done].
  - intros p cache Hp. destruct (Hcaches p cache Hp) as (h1 & h2 & file1 & Hh & Hr & Hl & Hpend).
    exists h1, h2, file1. split_and!; try done. intros m c v Hin Hproc.
    destruct (Hpend _ _ _ Hin Hproc) as (st & Hm & Hpb). eauto.
  - intros m Hm. destruct (Hlk m Hm) as (c & st & Hc & Hcr). eauto.
  - intros p m Hm. destruct (Hmx p m Hm) as (c & st & Hc & Hcr). eauto.
Qed.

Lemma drop_inv file0 h s n c st :
  store_inv file0 h s -> sy_calls s !! n = Some (c, st) -> over (pg_pc st) = false ->
  store_inv file0 (h ++ []) (drop_call n c st s).
Proof.
  intros Hinv Hn Hover. destruct (si_calls _ _ _ Hinv n c st Hn) as (Hok & Hcrit & Haw).
  assert (Hdrop : pg_pc st <> AtMutex ->
    store_inv file0 (h ++ [])
      (mkStoreSys (sy_file s) (sy_lock s) (sy_caches s) (delete (sc_process c) (sy_mutexes s))
         (<[n := (c, mkStoreProgress (pg_pc st) false)]> (sy_calls s)))).
  { intros Hpc. eapply move_inv; try done; rewrite ?app_nil_r; auto.
    - intros p cache Hp. right. split; [done|]. intros _. split; [|done]. by intros v ?%elem_of_nil.
    - intros m Hm. by eapply lock_stays.
    - intros p m [Hp Hm]%lookup_delete_Some. right. split; [|done]. intros ->.
      destruct (si_mutexes _ _ _ Hinv p n Hm) as (c' & st0 & Hn' & Hproc & _). by simplify_map_eq. }
  unfold drop_call. destruct (pg_pc st) eqn:Hpc; try by apply Hdrop.
  eapply move_inv; try done; rewrite ?app_nil_r; auto.
  - intros p cache Hp. right. split; [done|]. rewrite Hpc. intros _. split; [|done]. by intros v ?%elem_of_nil.
  - intros m Hm. eapply lock_stays; [done..| |done]. by rewrite Hpc.
  - intros p m Hm. eapply mutexes_stay; [done..| |done]. unfold holds_mutex. rewrite Hpc. by rewrite andb_false_r.
Qed.

Lemma kill_calls_other p (calls : gmap nat (StoreCall * StoreProgress)) n c st :
  calls !! n = Some (c, st) -> sc_process c <> p -> (kill_calls p <$> calls) !! n = Some (c, st).
Proof. intros Hn Hp. rewrite lookup_fmap, Hn. cbn. unfold kill_calls. by rewrite decide_False. Qed.

Lemma kill_inv file0 h s p : store_inv file0 h s -> store_inv file0 h (kill_process p s).
Proof.
  intros [Hrep Hnd Hkn Hcalls Hcaches Hlk Hmx].
  split; cbn [kill_process sy_file sy_lock sy_caches sy_mutexes sy_calls]; try done.
  - intros n c r Hin. apply Hkn in Hin as [st Hst]. rewrite lookup_fmap, Hst. cbn. unfold kill_calls.
    case_decide; cbn; [|eauto]. destruct (over (pg_pc st)); eauto.
  - intros n c st. rewrite lookup_fmap. destruct (sy_calls s !! n) as [ [c0 st0]|] eqn:Hn; [|done].
    destruct (Hcalls _ _ _ Hn) as (Hok & Hcrit & Haw). cbn. unfold kill_calls. cbn.
    case_decide as Hp; [|intros [= <- <-]; split_and!; try done].
    + destruct (over (pg_pc st0)) eqn:Hov; intros [= <- <-]; [|done].
      by split_and!; try done; destruct (pg_pc st0).
    + intros Hc. rewrite Hcrit by done. cbn. rewrite Hn. cbn. by rewrite decide_False.
  - intros q cache [Hne Hq]%lookup_delete_Some.
    destruct (Hcaches q cache Hq) as (h1 & h2 & file1 & Hh & Hr & Hl & Hpend).
    exists h1, h2, file1. split_and!; try done. intros n c v Hin Hproc.
    destruct (Hpend _ _ _ Hin Hproc) as (st & Hn & Hpb). exists st. split; [|done].
    apply kill_calls_other; [done|congruence].
  - intros n Hn. destruct (sy_lock s) as [m|] eqn:Hm; cbn in Hn; [|done].
    destruct (Hlk m eq_refl) as (c & st & Hc & Hcr). rewrite Hc in Hn. cbn in Hn. case_decide; [done|].
    injection Hn as <-. exists c, st. split; [|done]. by apply kill_calls_other.
  - intros q n [Hne Hq]%lookup_delete_Some. destruct (Hmx q n Hq) as (c & st & Hc & Hproc & Hh).
    exists c, st. split_and!; try done. apply kill_calls_other; [done|congruence].
Qed.

Lemma open_inv file0 h s p fault store :
  store_inv file0 h s -> store_open (sy_file s) fault = Ok store ->
  store_inv file0 h (with_store_cache s p (st_cache store)).
Proof.
  intros [Hrep Hnd Hkn Hcalls Hcaches Hlk Hmx] Hopen.
  assert (Hload : load_validated (sy_file s) None = Ok (st_cache store)).
  { unfold store_open in Hopen. apply result_bind_ok in Hopen as (ps & Hload & [= <-]).
    by eapply load_without_fault. }
  split; cbn [with_store_cache sy_file sy_lock sy_caches sy_mutexes sy_calls]; try done.
  intros q cache Hq. destruct (decide (q = p)) as [->|Hne]; simplify_map_eq; [|by apply Hcaches].
  exists h, [], (sy_file s). rewrite app_nil_r. split_and!; try done. by intros n c v ?%elem_of_nil.
Qed.

Section Laws.
Context `{!TomlLaws}.

Lemma write_inv file0 h s n c st reply next cur file :
  store_inv file0 h s -> sy_calls s !! n = Some (c, st) -> pg_pc st = AtWriting reply next ->
  n ∉ entry_id <$> h -> io_lock (sc_io c) = None -> load_validated (sy_file s) (io_read (sc_io c)) = Ok cur ->
  request_apply (sc_request c) cur (sc_now c) = Ok (reply, Some next) ->
  write_atomic next (io_write (sc_io c)) = Ok file ->
  store_inv file0 (h ++ [(n, c, Ok reply)]) (move_call (with_store_file s file) n c st (AtPublishing reply next)).
Proof.
  intros Hinv Hn Hpc Hnew Hio Hload Happ Hw. destruct (si_calls _ _ _ Hinv n c st Hn) as (_ & Hcrit & _).
  rewrite Hpc in Hcrit. unfold move_call. cbn. eapply move_inv; try done; eauto.
  - apply replay_one. cbn. by rewrite transact_steps, Hio, Hload, Happ, Hw.
  - cbn. split; [set_solver|]. by apply write_holds in Hw.
  - right. intros m. rewrite Hcrit by done. congruence.
  - intros m Hmm. eapply lock_stays; [done..| |done]. by rewrite Hpc.
  - intros p m Hmm. eapply mutexes_stay; [done..| |done]. unfold holds_mutex. cbn. by rewrite Hpc.
Qed.

(** Any step of a call. *)
Lemma advance_inv file0 h s n s' :
  store_inv file0 h s -> advance n s = Some s' -> exists l, store_inv file0 (h ++ l) s'.
Proof.
  intros Hinv. unfold advance. destruct (sy_calls s !! n) as [ [c st]|] eqn:Hn; [|done].
  destruct (si_calls _ _ _ Hinv n c st Hn) as (Hok & Hcrit & Haw).
  assert (Hmine : critical (pg_pc st) = true -> forall m, sy_lock s = Some m -> m = n).
  { intros Hc m Hm. specialize (Hcrit Hc). congruence. }
  destruct (pg_pc st) as [| | |cur|reply next|reply q|e|r|r|r|] eqn:Hpc; cbn [pc_ok critical] in Hok, Hcrit, Hmine.
  - destruct (sy_mutexes s !! sc_process c) as [m|] eqn:Hm; [done|]. intros [= <-]. exists [].
    by apply take_mutex_inv.
  - destruct (io_lock (sc_io c)) as [e|] eqn:Hio.
    + intros [= <-]. exists [(n, c, Err (StoreIo e))]. apply quiet_inv; rewrite ?Hpc; try done; eauto.
      * apply replay_one. cbn. by rewrite transact_steps, Hio.
      * cbn. set_solver.
      * by intros v ?%list_elem_of_singleton.
    + destruct (sy_lock s) as [m|] eqn:Hlk; [done|]. intros [= <-]. exists []. by apply take_lock_inv.
  - destruct Hok as [Hnew Hio]. destruct (load_validated (sy_file s) _) as [cur|e] eqn:Hload; intros [= <-].
    + exists []. apply quiet_inv; rewrite ?Hpc, ?app_nil_r; try done; auto. by intros v ?%elem_of_nil.
    + exists [(n, c, Err e)]. apply quiet_inv; rewrite ?Hpc; try done; eauto.
      * apply replay_one. cbn. by rewrite transact_steps, Hio, Hload.
      * destruct (sc_request c); cbn; set_solver.
      * by destruct (sc_request c).
      * by intros v ?%list_elem_of_singleton.
      * by destruct (sc_request c).
      * by destruct (sc_request c).
  - destruct Hok as (Hnew & Hio & Hload).
    destruct (request_apply _ cur _) as [ [reply [next|] ]|e] eqn:Happ; intros [= <-].
    + exists []. apply quiet_inv; rewrite ?Hpc, ?app_nil_r; try done; [by left|cbn; eauto 6|].
      by intros v ?%elem_of_nil.
    + exists [(n, c, Ok reply)]. apply quiet_inv; rewrite ?Hpc; try done; eauto.
      * apply replay_one. cbn. by rewrite transact_steps, Hio, Hload, Happ.
      * cbn. split; [set_solver|]. by eapply load_without_fault.
    + exists [(n, c, Err e)]. apply quiet_inv; rewrite ?Hpc; try done; eauto.
      * apply replay_one. cbn. by rewrite transact_steps, Hio, Hload, Happ.
      * cbn. set_solver.
      * by intros v ?%list_elem_of_singleton.
  - destruct Hok as (Hnew & Hio & cur & Hload & Happ).
    destruct (write_atomic next _) as [file|e] eqn:Hw; intros [= <-].
    + exists [(n, c, Ok reply)]. by eapply write_inv.
    + exists [(n, c, Err e)]. apply quiet_inv; rewrite ?Hpc; try done; eauto.
      * apply replay_one. cbn. by rewrite transact_steps, Hio, Hload, Happ, Hw.
      * cbn. set_solver.
      * by intros v ?%list_elem_of_singleton.
  - destruct Hok as [Hin Hload]. intros [= <-]. exists []. apply store_cache_inv; rewrite ?Hpc; try done.
  - destruct (load_validated (sy_file s) _) as [cur|e'] eqn:Hload; intros [= <-]; exists [].
    + apply store_cache_inv; rewrite ?Hpc; try done. by eapply load_without_fault.
    + apply quiet_inv; rewrite ?Hpc, ?app_nil_r; try done; auto. by intros v ?%elem_of_nil.
  - intros [= <-]. exists []. by eapply drop_lock_inv.
  - destruct (pg_awaited st) eqn:Ha; [|done]. intros [= <-]. exists []. by eapply return_inv.
  - done.
  - done.
Qed.
Lemma store_step_inv file0 h s s' :
  store_inv file0 h s -> store_step s s' -> exists l, store_inv file0 (h ++ l) s'.
Proof.
  intros Hinv Hs.
  destruct Hs as [n s s' Ha|n p rq io now s Hp Hn|n c st s Hn Ha Hov|p s|p fault store s Hp Hopen].
  - by eapply advance_inv.
  - exists []. rewrite app_nil_r. by apply call_inv.
  - exists []. by apply drop_inv.
  - exists []. rewrite app_nil_r. by apply kill_inv.
  - exists []. rewrite app_nil_r. by eapply open_inv.
Qed.

Lemma store_steps_inv file0 h s s' :
  store_inv file0 h s -> rtc store_step s s' -> exists l, store_inv file0 (h ++ l) s'.
Proof.
  intros Hinv Hs. revert h Hinv. induction Hs as [s|s s1 s' Hs _ IH]; intros h Hinv.
  - exists []. by rewrite app_nil_r.
  - destruct (store_step_inv _ _ _ _ Hinv Hs) as [l1 H1]. destruct (IH _ H1) as [l2 H2].
    exists (l1 ++ l2). by rewrite app_assoc.
Qed.

Lemma store_start_inv file : store_inv file [] (store_start file).
Proof.
  split; cbn; try done.
  - constructor.
  - by intros n c r ?%elem_of_nil.
Qed.

(** ** What the replay means *)

(** On a file that holds a profile list the replay is the serial execution on it. *)
Lemma transact_serial c file ps :
  holds file ps ->
  exists ps', holds (transact c file).2 ps' /\ forall n h ps'',
    serial_calls ps' h ps'' -> serial_calls ps ((n, c, (transact c file).1) :: h) ps''.
Proof.
  intros Hh. rewrite transact_steps.
  assert (Hio : forall text, sc_io c <> no_faults -> io_error (sc_io c) (StoreIo text)).
  { intros text Hne. exists text. auto. }
  destruct (io_lock (sc_io c)) as [e|] eqn:Hlock.
  { exists ps. split; [done|]. intros n h ps'' Hs. split; [|done]. left. apply Hio. by intros E; rewrite E in Hlock. }
  destruct (load_validated file (io_read (sc_io c))) as [cur|e] eqn:Hload; apply (load_faulty _ ps) in Hload; try done.
  2:{ destruct Hload as (text & -> & Hr). exists ps. split; [done|]. intros n h ps'' Hs. split; [|done].
      left. apply Hio. by intros E; rewrite E in Hr. }
  destruct Hload as [-> _]. destruct (request_apply _ ps _) as [ [reply [next|] ]|e] eqn:Happ.
  - destruct (write_atomic next _) as [file'|e] eqn:Hw; cbn [fst snd].
    + exists next. split; [by eapply write_holds|]. intros n h ps'' Hs. cbn. by exists (Some next).
    + exists ps. split; [done|]. intros n h ps'' Hs. split; [|done]. left. by eapply write_error.
  - exists ps. split; [done|]. intros n h ps'' Hs. cbn. by exists None.
  - exists ps. split; [done|]. intros n h ps'' Hs. split; [|done]. by right.
Qed.

Lemma replay_serial h : forall file ps file', holds file ps -> replay file h file' ->
  exists ps', holds file' ps' /\ serial_calls ps h ps'.
Proof.
  induction h as [|[ [n c] r] h IH]; intros file ps file' Hh Hr; [cbn in Hr; subst; by exists ps|].
  destruct Hr as [He Hr]. cbn in He. subst r. destruct (transact_serial c file ps Hh) as (ps1 & H1 & Hs).
  destruct (IH _ _ _ H1 Hr) as (ps' & H' & Hser). exists ps'. split; [done|]. by apply Hs.
Qed.
End Laws.

(** A transaction reads nothing of the store but that it is persistent. *)
Lemma transaction_ignores_cache {T} (apply : list Profile -> Z -> result StoreError (T * option (list Profile)))
    io now file s :
  st_persistent s = true ->
  (run_conditional_mutation apply io now file s).1
  = (run_conditional_mutation apply io now file (mkStore true [])).1 /\
  st_persistent (run_conditional_mutation apply io now file s).2 = true.
Proof.
  intros Hp. unfold run_conditional_mutation. rewrite Hp. cbn [st_persistent].
  destruct (io_lock io); [done|]. destruct (_ ← load_validated file (io_read io); _) as [ [ [v f] q]|e]; [done|].
  by destruct (load_validated file (io_reread io)).
Qed.

(** The mutations among the entries, and what they returned. *)
Definition event_of (e : StoreEntry) : option StoreEvent :=
  let c := e.1.2 in
  match sc_request c with
  | RqMutate op => Some (mkEvent (sc_process c) op (sc_io c) (sc_now c))
  | RqList => None
  end.
Definition reply_of (e : StoreEntry) : option (result StoreError StoreValue) :=
  match sc_request e.1.2, e.2 with
  | RqMutate _, Ok (RpValue v) => Some (Ok v)
  | RqMutate _, Err error => Some (Err error)
  | _, _ => None
  end.

(** The replay is [run_processes] on the mutations. *)
Lemma replay_processes h : forall file file' stores,
  replay file h file' -> (forall p st, stores !! p = Some st -> st_persistent st = true) ->
  (forall e, e ∈ h -> is_Some (stores !! sc_process e.1.2)) ->
  exists stores', run_processes file stores (omap event_of h) = (omap reply_of h, file', stores').
Proof.
  induction h as [|[ [n c] r] h IH]; intros file file' stores Hr Hper Hin; [cbn in *; subst; eauto|].
  destruct Hr as [He Hr]. cbn [fst snd] in He, Hr.
  assert (Hin' : forall e, e ∈ h -> is_Some (stores !! sc_process e.1.2)) by (intros e0 ?; apply Hin; by right).
  destruct (Hin (n, c, r)) as [st Hst]; [by left|]. cbn [fst snd] in Hst. specialize (Hper _ _ Hst) as Hp.
  cbn [omap list_omap]. unfold event_of at 1, reply_of at 1. cbn [fst snd].
  unfold transact in He, Hr. destruct (sc_request c) as [op|] eqn:Hrq.
  - cbn [run_processes ev_process ev_op ev_io ev_now]. rewrite Hst.
    destruct (transaction_ignores_cache (apply_op op) (sc_io c) (sc_now c) file st Hp) as [Hsame Hkeep].
    unfold store_op in *. destruct (run_conditional_mutation _ _ _ file (mkStore true [])) as [ [r1 f1] s1].
    destruct (run_conditional_mutation _ _ _ file st) as [ [r2 f2] s2]. cbn [fst snd] in *.
    injection Hsame as -> ->.
    destruct (IH f1 file' (<[sc_process c := s2]> stores) Hr) as [stores' Hrun].
    { intros p x [ [_ <-]|[_ Hx] ]%lookup_insert_Some; [done|by eapply Hper]. }
    { intros e0 Hin0. destruct (decide (sc_process e0.1.2 = sc_process c)) as [->|];
        [rewrite lookup_insert_eq|rewrite lookup_insert_ne by congruence]; eauto. }
    rewrite Hrun. exists stores'. subst r. by destruct r1.
  - destruct (run_read _ _ _ _) as [r1 s1]. cbn [fst snd] in *. apply (IH file file' stores Hr Hper Hin').
Qed.

(** ** Nobody waits forever *)

(** A call that is over, or whose result nobody waits for. *)
Definition settled (st : StoreProgress) : bool :=
  match pg_pc st with
  | AtReturned _ | AtGone => true
  | AtUnlocked _ => negb (pg_awaited st)
  | _ => false
  end.

(** The holder of the lock can always go on. *)
Lemma critical_advances n s c st :
  sy_calls s !! n = Some (c, st) -> critical (pg_pc st) = true -> is_Some (advance n s).
Proof.
  intros Hn Hc. unfold advance. rewrite Hn.
  destruct (pg_pc st); try done; by repeat case_match.
Qed.

(** While a call is not settled, some call can go on. *)
Lemma some_call_advances file0 h s n c st :
  store_inv file0 h s -> sy_calls s !! n = Some (c, st) -> settled st = false -> exists m, is_Some (advance m s).
Proof.
  intros Hinv Hn Hset. destruct (sy_lock s) as [m|] eqn:Hlk.
  { destruct (si_lock _ _ _ Hinv m Hlk) as (c' & st' & Hm & Hc). exists m. by eapply critical_advances. }
  assert (Hgo : forall m c' st', sy_calls s !! m = Some (c', st') -> settled st' = false -> pg_pc st' <> AtMutex ->
    is_Some (advance m s)).
  { intros m c' st' Hm Hs Hne. destruct (critical (pg_pc st')) eqn:Hc; [by eapply critical_advances|].
    unfold advance. rewrite Hm, Hlk. unfold settled in Hs.
    destruct (pg_pc st'); try done; [by destruct (io_lock _)|]. by destruct (pg_awaited st'). }
  destruct (pg_pc st) eqn:Hpc; try (exists n; apply (Hgo n c st); [done|done|by rewrite Hpc]).
  destruct (sy_mutexes s !! sc_process c) as [m|] eqn:Hmx.
  - destruct (si_mutexes _ _ _ Hinv _ _ Hmx) as (c' & st' & Hm' & _ & Hh). exists m. eapply Hgo; [done| |].
    + unfold holds_mutex, settled in *. by destruct (pg_awaited st'), (pg_pc st').
    + unfold holds_mutex in Hh. intros E. rewrite E in Hh. by rewrite andb_false_r in Hh.
  - exists n. unfold advance. by rewrite Hn, Hpc, Hmx.
Qed.

(** How many steps a call has before it at most; every step is one fewer. *)
Definition pc_steps (pc : StorePc) : Z :=
  match pc with
  | AtMutex => 9 | AtLock => 8 | AtLocked => 7 | AtLoaded _ => 6 | AtWriting _ _ => 5
  | AtPublishing _ _ | AtRefreshing _ => 4 | AtUnlocking _ => 3 | AtUnlocked _ => 2 | AtReturned _ => 1 | AtGone => 0
  end.
Definition steps_left (s : StoreSys) : Z :=
  map_total (fun _ (x : StoreCall * StoreProgress) => pc_steps (pg_pc x.2)) (sy_calls s).

Lemma advance_moves n s s' : advance n s = Some s' ->
  exists c st pc' awaited, sy_calls s !! n = Some (c, st) /\
    sy_calls s' = <[n := (c, mkStoreProgress pc' awaited)]> (sy_calls s) /\
    pc_steps pc' < pc_steps (pg_pc st).
Proof.
  unfold advance. destruct (sy_calls s !! n) as [ [c st]|]; [|done]. intros Ha. exists c, st.
  destruct (pg_pc st); repeat case_match; try discriminate; injection Ha as <-;
    do 2 eexists; (split; [done|split; [reflexivity|] ]); cbn; try lia; by destruct (sc_request c).
Qed.

Lemma advance_steps n s s' : advance n s = Some s' -> 0 <= steps_left s' < steps_left s.
Proof.
  intros (c & st & pc' & awaited & Hn & Hcalls & Hlt)%advance_moves. unfold steps_left. split.
  - apply map_total_nonneg. intros i [c0 st0]. cbn. destruct (pg_pc st0); cbn; lia.
  - rewrite Hcalls, <- insert_delete_eq, map_total_insert by apply lookup_delete_eq.
    rewrite (map_total_delete _ (sy_calls s) n _ Hn). cbn. lia.
Qed.

(** ** Properties *)

Definition returned (s : StoreSys) (n : nat) (c : StoreCall) (r : result StoreError StoreReply) : Prop :=
  exists awaited, sy_calls s !! n = Some (c, mkStoreProgress (AtReturned r) awaited).

Lemma replay_functional file h file1 file2 : replay file h file1 -> replay file h file2 -> file1 = file2.
Proof.
  revert file. induction h as [|e h IH]; intros file; cbn; [by intros -> ->|]. intros [_ H1] [_ H2]. eauto.
Qed.

Lemma returned_entry file0 h s n c r : store_inv file0 h s -> returned s n c r -> (n, c, r) ∈ h.
Proof. intros Hinv [a Hn]. by destruct (si_calls _ _ _ Hinv _ _ _ Hn) as [Hok _]. Qed.

(** A cache is what the file was once, and not so long ago that a finished mutation of
    its own process is missing. *)
Lemma cache_is_recent `{!TomlLaws} file0 ps0 h s p cache :
  holds file0 ps0 -> store_inv file0 h s -> sy_caches s !! p = Some cache ->
  exists h1 h2, h = h1 ++ h2 /\ serial_calls ps0 h1 cache /\
    forall n c v, (n, c, Ok v) ∈ h2 -> sc_process c = p -> forall r, ~ returned s n c r.
Proof.
  intros Hh Hinv Hp. destruct (si_caches _ _ _ Hinv p cache Hp) as (h1 & h2 & file1 & E & Hr & Hl & Hpend).
  exists h1, h2. split; [done|]. destruct (replay_serial _ _ _ _ Hh Hr) as (ps1 & H1 & Hs).
  unfold holds in H1. rewrite Hl in H1. injection H1 as <-. split; [done|].
  intros n c v Hin Hproc r [a Hn]. destruct (Hpend _ _ _ Hin Hproc) as (st & Hn' & Hpub). by simplify_map_eq.
Qed.

(** C26: no update is lost.  Processes start and die at any moment; the steps
    of their calls (mutex, advisory lock, load, write, publish) interleave with those
    of all other calls; callers drop calls, and file operations fail anywhere.  Then
    the calls that took effect or failed have one order, which grows as the system runs
    ([h] up to [s], [h'] after it): each occurs once; a call that has returned occurs
    with its result, so calls begun later come later; every call that succeeds is
    applied to exactly what the successful calls before it left, by any process; a call
    that fails was refused on that list or ran into a file or serialisation error, and
    has no effect; the file holds the result; the mutations run as whole transactions
    in this order ([run_processes]) give the same results and the same file; and the
    cache of a process is what the file was after a part of the order that has every
    returned mutation of its own. *)
Theorem interleavings_serialise `{!TomlLaws} file0 ps0 s s' :
  holds file0 ps0 -> rtc store_step (store_start file0) s -> rtc store_step s s' ->
  exists h h' ps ps',
    NoDup (entry_id <$> h ++ h') /\
    serial_calls ps0 h ps /\ holds (sy_file s) ps /\ serial_calls ps h' ps' /\ holds (sy_file s') ps' /\
    (forall n c r, (n, c, r) ∈ h -> exists st, sy_calls s !! n = Some (c, st)) /\
    (forall n c r, returned s n c r -> (n, c, r) ∈ h) /\
    (forall n c r, returned s' n c r -> (n, c, r) ∈ h ++ h') /\
    (forall stores, (forall p st, stores !! p = Some st -> st_persistent st = true) ->
       (forall e, e ∈ h ++ h' -> is_Some (stores !! sc_process e.1.2)) ->
       exists stores', run_processes file0 stores (omap event_of (h ++ h'))
                       = (omap reply_of (h ++ h'), sy_file s', stores')) /\
    (forall p cache, sy_caches s' !! p = Some cache ->
       exists h1 h2, h ++ h' = h1 ++ h2 /\ serial_calls ps0 h1 cache /\
         forall n c v, (n, c, Ok v) ∈ h2 -> sc_process c = p -> forall r, ~ returned s' n c r).
Proof.
  intros Hh Hs Hs'. destruct (store_steps_inv _ _ _ _ (store_start_inv file0) Hs) as [h Hinv].
  cbn [app] in Hinv. destruct (store_steps_inv _ _ _ _ Hinv Hs') as [h' Hinv'].
  pose proof (si_replay _ _ _ Hinv) as Hr. pose proof (si_replay _ _ _ Hinv') as Hr'.
  pose proof Hr' as (file1 & Hr1 & Hr2)%replay_app.
  rewrite (replay_functional _ _ _ _ Hr1 Hr) in Hr2. clear file1 Hr1.
  destruct (replay_serial _ _ _ _ Hh Hr) as (ps & Hps & Hser).
  destruct (replay_serial _ _ _ _ Hps Hr2) as (ps' & Hps' & Hser').
  exists h, h', ps, ps'. split_and!; try done.
  - apply Hinv'.
  - apply Hinv.
  - intros n c r. by eapply returned_entry.
  - intros n c r. by eapply returned_entry.
  - intros stores Hper Hin. by eapply replay_processes.
  - intros p cache. by eapply cache_is_recent.
Qed.

(** Nothing is waited for in vain: every step of a call leaves it fewer, and when no
    call can take one, every call is over, or has done its work for a caller who is
    gone. *)
Theorem store_comes_to_rest `{!TomlLaws} file0 s :
  rtc store_step (store_start file0) s ->
  (forall n s', advance n s = Some s' -> 0 <= steps_left s' < steps_left s) /\
  ((forall n, advance n s = None) -> forall n c st, sy_calls s !! n = Some (c, st) -> settled st = true).
Proof.
  intros Hs. destruct (store_steps_inv _ _ _ _ (store_start_inv file0) Hs) as [h Hinv].
  split; [intros n s'; apply advance_steps|]. intros Hstuck n c st Hn.
  destruct (settled st) eqn:Hset; [done|]. destruct (some_call_advances _ _ _ _ _ _ Hinv Hn Hset) as [m Hm].
  rewrite Hstuck in Hm. by destruct Hm.
Qed.

(** The document stays well-formed under the interleaving too, every call having
    changed a profile at most once. *)
Lemma entries_bounded file0 h s : store_inv file0 h s -> (length h <= size (sy_calls s))%nat.
Proof.
  intros Hinv. pose proof (si_nodup _ _ _ Hinv) as Hnd.
  rewrite <- (length_fmap entry_id), <- size_dom. rewrite <- (size_list_to_set (C := gset nat)) by done.
  apply subseteq_size. intros n. rewrite elem_of_list_to_set, elem_of_dom.
  intros ([ [m c] r] & -> & Hin)%list_elem_of_fmap. apply (si_known _ _ _ Hinv) in Hin as [st Hst]. by exists (c, st).
Qed.

Theorem interleaved_documents_well_formed `{!TomlLaws} bound file0 ps0 s :
  1 <= bound -> bound + Z.of_nat (size (sy_calls s)) < U64_MAX ->
  (forall n c st, sy_calls s !! n = Some (c, st) -> fits_u64 (sc_now c)) ->
  holds file0 ps0 -> document_ok bound ps0 -> rtc store_step (store_start file0) s ->
  exists ps, holds (sy_file s) ps /\ document_ok (bound + Z.of_nat (size (sy_calls s))) ps.
Proof.
  intros Hone Hb Hnow Hh Hok Hs. destruct (store_steps_inv _ _ _ _ (store_start_inv file0) Hs) as [h Hinv].
  cbn [app] in Hinv. pose proof (entries_bounded _ _ _ Hinv) as Hlen.
  set (stores := list_to_map ((fun e : StoreEntry => (sc_process e.1.2, mkStore true [])) <$> h) : gmap nat ProfileStore).
  assert (Hstores : forall p st, stores !! p = Some st -> st = mkStore true []).
  { intros p st Hp. apply elem_of_list_to_map_2, list_elem_of_fmap in Hp as (e & [= _ ->] & _). done. }
  destruct (replay_processes h file0 (sy_file s) stores (si_replay _ _ _ Hinv)) as [stores' Hrun].
  { intros p st ->%Hstores. done. }
  { intros e Hin. destruct (stores !! sc_process e.1.2) eqn:E; [done|]. apply not_elem_of_list_to_map in E.
    destruct E. apply list_elem_of_fmap. exists (sc_process e.1.2, mkStore true []). split; [done|].
    apply list_elem_of_fmap. by exists e. }
  assert (Hmany : (length (omap event_of h) <= length h)%nat) by (clear; induction h as [|e h IH]; cbn; [done|case_match; cbn; lia]).
  apply (run_processes_ok _ bound _ ps0) in Hrun as (ps & Hps & Hd & _); try done; [|lia| |].
  - exists ps. split; [done|]. eapply document_ok_mono; [|exact Hd]. lia.
  - apply Forall_forall. intros ev ([ [n c] r] & Hin & Hev)%list_elem_of_omap.
    apply (si_known _ _ _ Hinv) in Hin as [st Hst]. specialize (Hnow _ _ _ Hst).
    unfold event_of in Hev. cbn in Hev. destruct (sc_request c); [|done]. by injection Hev as <-.
  - intros p st ->%Hstores. apply document_ok_nil.
Qed.

(** The steps of the calls named, one after the other. *)
Fixpoint advance_all (ns : list nat) (s : StoreSys) : option StoreSys :=
  match ns with
  | [] => Some s
  | n :: ns => s' ← advance n s; advance_all ns s'
  end.

Lemma advance_all_steps ns s s' : advance_all ns s = Some s' -> rtc store_step s s'.
Proof.
  revert s. induction ns as [|n ns IH]; intros s Ha; cbn in Ha; [by injection Ha as ->|].
  destruct (advance n s) as [s1|] eqn:Hn; [|done]. eapply rtc_l; [by apply (store_advance n)|]. by apply IH.
Qed.
End Concurrency.

(** ** Two processes at once *)

(** Both have opened the empty store; process 0 creates the profile and process 1 marks
    it used. *)
Definition begin_call (n p : nat) (op : StoreOp) (now : Z) (s : StoreSys) : StoreSys :=
  mkStoreSys (sy_file s) (sy_lock s) (sy_caches s) (sy_mutexes s)
    (<[n := (mkStoreCall p (RqMutate op) no_faults now, mkStoreProgress AtMutex true)]> (sy_calls s)).

Definition race_start : StoreSys :=
  begin_call 1 1 (OpMarkUsed (bs "sensor")) 2 (begin_call 0 0 (OpUpsert (sensor 9600) false) 1
    (with_store_cache (with_store_cache (store_start None) 0 []) 1 [])).

(** Call 1 comes to the lock while call 0 has it, so it waits until call 0 has let go. *)
Definition race_begun : option StoreSys := advance_all [0; 1; 0; 0]%nat race_start.
Definition race_end : option StoreSys :=
  s ← race_begun; advance_all [0; 0; 0; 0; 1; 1; 0; 1; 1; 1; 1; 1]%nat s.

Lemma race_start_steps : rtc store_step (store_start None) race_start.
Proof.
  eapply rtc_l; [by apply (store_open_process 0 None (mkStore true []))|].
  eapply rtc_l; [by apply (store_open_process 1 None (mkStore true []))|].
  eapply rtc_l; [apply (store_call 0 0 (RqMutate (OpUpsert (sensor 9600) false)) no_faults 1); [by eexists|done]|].
  eapply rtc_l; [apply (store_call 1 1 (RqMutate (OpMarkUsed (bs "sensor"))) no_faults 2); [by eexists|done]|].
  apply rtc_refl.
Qed.

Lemma interleavings_serialise_witness :
  match race_begun, race_end with
  | Some s, Some s' =>
      advance 1 s = None /\
      exists h ps', serial_calls [] h ps' /\ holds (sy_file s') ps' /\ NoDup (entry_id <$> h) /\
        (forall n c r, returned s' n c r -> (n, c, r) ∈ h) /\
        (p_name <$> ps') = [bs "sensor"] /\ ((fun p => pm_use_count (p_metadata p)) <$> ps') = [1]
  | _, _ => False
  end.
Proof.
  assert (Hblocked : match race_begun with Some s => advance 1 s | None => Some race_start end = None)
    by (vm_compute; reflexivity).
  assert (Hnames : match race_end with
    | Some s' => match load_validated (sy_file s') None with
                 | Ok ps => (p_name <$> ps, (fun p => pm_use_count (p_metadata p)) <$> ps)
                 | Err _ => ([], []) end
    | None => ([], []) end = ([bs "sensor"], [1])) by (vm_compute; reflexivity).
  unfold race_end in *. destruct race_begun as [s|] eqn:Eb; [|discriminate].
  cbn [mbind option_bind] in *. destruct (advance_all _ s) as [s'|] eqn:Ee; [|discriminate].
  split; [exact Hblocked|].
  assert (Hs : rtc store_step (store_start None) s).
  { etrans; [exact race_start_steps|]. exact (advance_all_steps _ _ _ Eb). }
  destruct (interleavings_serialise None [] s s' eq_refl Hs (advance_all_steps _ _ _ Ee))
    as (h & h' & ps & ps' & Hnd & Hser & _ & Hser' & Hh' & _ & _ & Hret & _).
  exists (h ++ h'), ps'. unfold holds in Hh'. rewrite Hh' in Hnames. injection Hnames as Hn Hu.
  split_and!; try assumption. by eapply serial_calls_app.
Defined.
