(* ===== verification/Learning.v ===== *)
(** * [src/learning.rs]: write-through learning of profile defaults

    The binding of a connection to its profile ([src/serial/config.rs]) and
    [learn], which turns a live change into a revision-checked update of the
    store and an updated binding. *)

From stdpp Require Import pretty.
From S2P Require Import Prelude Util RustStr Extern ExternModel Codec FramingConfig Profiles ProfileStore.

(** ** Bindings and results *)

Inductive ProfileSelectionSource := SrcAutomatic | SrcExplicit | SrcGenerated | SrcTransient | SrcDisabled.

Record ActiveProfileBinding := mkBinding {
  ab_profile_name : list byte;
  ab_source : ProfileSelectionSource;
  ab_confidence : IdentityConfidence;
  ab_persistent : bool;
  ab_generated : bool;
  ab_revision : option Z;
  ab_dirty : bool;
  ab_stale : bool;
  ab_candidates : list (list byte);
  ab_last_persistence_error : option (list byte);
}.

Record ProfileSessionResult := mkSession {
  ps_profile_name : list byte;
  ps_source : ProfileSelectionSource;
  ps_confidence : IdentityConfidence;
  ps_persistent : bool;
  ps_generated : bool;
  ps_revision : option Z;
  ps_dirty : bool;
  ps_stale : bool;
  ps_candidates : list (list byte);
  ps_last_persistence_error : option (list byte);
}.

Definition to_session_result (b : ActiveProfileBinding) : ProfileSessionResult :=
  mkSession (ab_profile_name b) (ab_source b) (ab_confidence b) (ab_persistent b) (ab_generated b)
    (ab_revision b) (ab_dirty b) (ab_stale b) (ab_candidates b) (ab_last_persistence_error b).

Inductive ProfilePersistenceState := PsPersisted | PsNotNeeded | PsTransient | PsFailed.
Inductive ProfilePersistenceOperation := PoOpenOverride | PoLearned | PoCloseSnapshot | PoRollback.

Record ProfilePersistenceResult := mkPersistence {
  pp_state : ProfilePersistenceState;
  pp_operation : ProfilePersistenceOperation;
  pp_profile_name : option (list byte);
  pp_revision : option Z;
  pp_error : option (list byte);
}.

(** The three updates of a binding in [learn]. *)
Definition binding_failed (b : ActiveProfileBinding) (stale : bool) (error : list byte)
    : ActiveProfileBinding :=
  mkBinding (ab_profile_name b) (ab_source b) (ab_confidence b) (ab_persistent b) (ab_generated b)
    (ab_revision b) true stale (ab_candidates b) (Some error).

Definition binding_clean (b : ActiveProfileBinding) (revision : option Z) : ActiveProfileBinding :=
  mkBinding (ab_profile_name b) (ab_source b) (ab_confidence b) (ab_persistent b) (ab_generated b)
    revision false false (ab_candidates b) None.

(** ** Error texts *)

Definition number_text (z : Z) : list byte := bs (pretty (Z.to_N z)).

(** The error strings of a store whose file is [path]. *)
Definition store_error_text (path : list byte) (e : StoreError) : list byte :=
  match e with
  | ProfileExists name =>
      bs "Profile '" ++ name ++ bs "' already exists. Set overwrite=true to replace."
  | ProfileNotFound name => bs "Profile '" ++ name ++ bs "' not found"
  | RevisionConflict name expected found =>
      bs "Profile '" ++ name ++ bs "' revision conflict: expected " ++ number_text expected
      ++ bs ", found " ++ number_text found
  | NoSnapshot name target retained =>
      bs "Profile '" ++ name ++ bs "' has no retained snapshot at revision " ++ number_text target
      ++ bs " (retained: " ++ join (bs ", ") (number_text <$> retained) ++ bs ")"
  | NoHighIdentity => bs "Automatic resolution requires a high-confidence USB identity"
  | SchemaVersionZero =>
      bs "Profiles file " ++ path ++ bs " declares schema_version 0, which is invalid"
  | SchemaVersionNewer version =>
      bs "Profiles file " ++ path ++ bs " uses schema version " ++ number_text version
      ++ bs ", which is newer than this build supports (max 2). Upgrade serial-mcp or fix the file; it was left unchanged."
  | StoreIo text => text
  end.

Definition is_conflict (err : list byte) : bool :=
  contains err (bs "revision conflict") || contains err (bs "not found").

Definition STALE_TEXT : list byte :=
  bs "profile revision changed externally; connection binding is stale".

(** ** [learn] *)

Section Learn.
Context `{TomlCrate}.

(** The connection's binding and effective defaults, the store's file (at
    [path]) and the process's store go in; the result pair, the file, the store
    and the binding come out. *)
Definition learn (path : list byte) (io : IoFaults) (now : Z) (file : option TomlText)
    (store : ProfileStore) (binding : option ActiveProfileBinding)
    (effective_defaults : ProfileDefaults) (operation : ProfilePersistenceOperation)
    : option ProfileSessionResult * ProfilePersistenceResult
      * option TomlText * ProfileStore * option ActiveProfileBinding :=
  match binding with
  | None => (None, mkPersistence PsTransient operation None None None, file, store, None)
  | Some b =>
      if negb (ab_persistent b) then
        (Some (to_session_result b), mkPersistence PsTransient operation None None None, file, store, binding)
      else if ab_stale b then
        let error := default STALE_TEXT (ab_last_persistence_error b) in
        let b' := binding_failed b (ab_stale b) error in
        (Some (to_session_result b'),
         mkPersistence PsFailed operation (Some (ab_profile_name b)) (ab_revision b) (Some error),
         file, store, Some b')
      else
        let expected_revision := default 0 (ab_revision b) in
        let '(outcome, file, store) :=
          run_conditional_mutation
            (fun profiles now =>
               apply_learned profiles (ab_profile_name b) expected_revision effective_defaults now)
            io now file store in
        match outcome with
        | Ok (mkLearned profile false) =>
            let b' := binding_clean b (ab_revision b) in
            (Some (to_session_result b'),
             mkPersistence PsNotNeeded operation (Some (p_name profile))
               (Some (pm_revision (p_metadata profile))) None,
             file, store, Some b')
        | Ok (mkLearned profile true) =>
            let b' := binding_clean b (Some (pm_revision (p_metadata profile))) in
            (Some (to_session_result b'),
             mkPersistence PsPersisted operation (Some (p_name profile))
               (Some (pm_revision (p_metadata profile))) None,
             file, store, Some b')
        | Err e =>
            let text := store_error_text path e in
            let b' := binding_failed b (is_conflict text || ab_stale b) text in
            (Some (to_session_result b'),
             mkPersistence PsFailed operation (Some (ab_profile_name b)) (ab_revision b) (Some text),
             file, store, Some b')
        end
  end.

End Learn.

(** ** Lemmas *)

Lemma not_found_is_conflict path name : is_conflict (store_error_text path (ProfileNotFound name)) = true.
Proof.
  unfold is_conflict, store_error_text. apply orb_true_intro. right.
  pose proof (contains_app (bs "Profile '" ++ name ++ bs "' ") (bs "not found") []) as Hc.
  rewrite app_nil_r, <- !(assoc app) in Hc. apply Hc. done.
Qed.

Lemma revision_conflict_is_conflict path name ex found :
  is_conflict (store_error_text path (RevisionConflict name ex found)) = true.
Proof.
  unfold is_conflict, store_error_text. apply orb_true_intro. left.
  pose proof (contains_app (bs "Profile '" ++ name ++ bs "' ") (bs "revision conflict")
    (bs ": expected " ++ number_text ex ++ bs ", found " ++ number_text found)) as Hc.
  rewrite <- !(assoc app) in Hc. apply Hc. done.
Qed.

(** How a learned update goes. *)
Lemma apply_learned_inv ps n ex defaults now :
  match apply_learned ps n ex defaults now with
  | Ok (u, next) => exists p, find_profile n ps = Some p /\ revision p = ex /\ p_name p = n /\
      (if lu_changed u
       then exists ps', next = Some ps' /\ find_profile n ps' = Some (lu_profile u) /\
              p_defaults (lu_profile u) = defaults /\ p_selector (lu_profile u) = p_selector p /\
              (forall m, m <> n -> find_profile m ps' = find_profile m ps)
       else next = None /\ lu_profile u = p /\ defaults_eqb (p_defaults p) defaults = true)
  | Err e => (find_profile n ps = None /\ e = ProfileNotFound n) \/
      exists p, find_profile n ps = Some p /\ revision p <> ex /\ e = RevisionConflict n ex (revision p)
  end.
Proof.
  unfold apply_learned. destruct (find_or_err n ps) as [ [idx p]|e] eqn:Hf; cbn [mbind result_bind]; cbv zeta.
  - apply find_or_err_ok in Hf as (Hpos & Hf & Hn).
    destruct (Z.eqb_spec (pm_revision (p_metadata p)) ex) as [Hex|Hex]; cbn [negb]; [|by eauto 8].
    destruct (defaults_eqb (p_defaults p) defaults) eqn:He; cbn [lu_changed lu_profile]; exists p.
    + done.
    + do 3 (split; [done|]). eexists. split; [done|]. split; [by rewrite (find_profile_update n), bool_decide_true|].
      split; [done|]. split; [done|]. intros m Hm. by rewrite (find_profile_update n), bool_decide_false.
  - left. unfold find_or_err in Hf. pose proof (position_lookup n ps) as Hl.
    destruct (_ ≫= _) as [ [i q]|]; [done|]. injection Hf as <-. by destruct Hl.
Qed.

(** What the binding says when it is clean, and when it is not. *)
Definition clean (b : ActiveProfileBinding) : Prop :=
  ab_dirty b = false /\ ab_stale b = false /\ ab_last_persistence_error b = None.

Section Spec.
Context `{TomlLaws}.

(** After a live change, the binding tells the truth about the
    durable profile.  Without a persistent binding nothing happens.  Otherwise:
    [Persisted] means that the file now holds the effective defaults under the
    revision in the binding, the selector and every other profile being
    unchanged; [NotNeeded] means that they were there already, at the binding's
    revision, and nothing was written; both leave the binding clean.  [Failed]
    means that the file was not written, the binding is dirty, keeps its revision
    and records the reported error; it is then stale when it was before, or when
    the profile is gone or has another revision, the only other reason being a
    file error.  A stale binding never touches the store. *)
Theorem learn_spec path io now file store binding eff op ps :
  holds file ps -> st_persistent store = true ->
  let '(session, res, file', store', binding') := learn path io now file store binding eff op in
  session = to_session_result <$> binding' /\ pp_operation res = op /\
  match binding with
  | Some b =>
      let n := ab_profile_name b in
      if ab_persistent b then
        exists b', binding' = Some b' /\ ab_profile_name b' = n /\ ab_persistent b' = true /\
        match pp_state res with
        | PsPersisted => clean b' /\ exists ps' p p', holds file' ps' /\
            find_profile n ps = Some p /\ revision p = default 0 (ab_revision b) /\
            find_profile n ps' = Some p' /\ p_defaults p' = eff /\ p_selector p' = p_selector p /\
            ab_revision b' = Some (revision p') /\
            forall m, m <> n -> find_profile m ps' = find_profile m ps
        | PsNotNeeded => clean b' /\ holds file' ps /\ exists p, find_profile n ps = Some p /\
            revision p = default 0 (ab_revision b) /\ defaults_eqb (p_defaults p) eff = true /\
            ab_revision b' = ab_revision b
        | PsFailed => file' = file /\ ab_dirty b' = true /\ ab_revision b' = ab_revision b /\
            ab_last_persistence_error b' = pp_error res /\
            (if ab_stale b then store' = store /\ ab_stale b' = true
             else exists e, pp_error res = Some (store_error_text path e) /\
                    (io_error io e \/
                     ab_stale b' = true /\ (fun p => revision p) <$> find_profile n ps
                                           <> Some (default 0 (ab_revision b))))
        | PsTransient => False
        end
      else binding' = binding /\ file' = file /\ store' = store /\ pp_state res = PsTransient
  | None => binding' = None /\ file' = file /\ store' = store /\ pp_state res = PsTransient
  end.
Proof.
  intros Hh Hp. unfold learn. destruct binding as [b|]; [|done]. cbv zeta.
  destruct (ab_persistent b) eqn:Hpers; cbn [negb]; [|done].
  destruct (ab_stale b) eqn:Hst.
  { split; [done|]. split; [done|]. eexists. split; [done|]. cbn. rewrite ?Hst. done. }
  destruct (run_conditional_mutation _ _ _ _ _) as [ [outcome file'] store'] eqn:Hrun.
  destruct (transaction_atomic _ _ _ _ _ _ _ _ _ Hh Hp Hrun) as [_ Hres].
  pose proof (apply_learned_inv ps (ab_profile_name b) (default 0 (ab_revision b)) eff now) as Hl.
  destruct outcome as [ [profile changed]|e].
  - destruct Hres as (next & Ha & Hf & _). rewrite Ha in Hl. destruct Hl as (p & Hfp & Hrev & Hn & Hc).
    destruct changed; cbn [lu_changed lu_profile] in Hc.
    + destruct Hc as (ps' & -> & Hp' & Hd & Hs & Hothers).
      split; [done|]. split; [done|]. eexists. split; [done|]. do 3 (split; [done|]). by exists ps', p, profile.
    + destruct Hc as (-> & -> & He).
      split; [done|]. split; [done|]. eexists. split; [done|]. do 3 (split; [done|]). split; [done|]. by exists p.
  - destruct Hres as (-> & Hio & _). split; [done|]. split; [done|]. eexists. split; [done|].
    cbn [pp_state pp_error binding_failed ab_profile_name ab_persistent ab_dirty ab_revision
         ab_last_persistence_error ab_stale]. do 6 (split; [done|]). exists e. split; [done|].
    destruct Hio as [Hio|Ha]; [by left|right]. rewrite Ha in Hl.
    destruct Hl as [ [Hf ->]|(p & Hf & Hrev & ->)]; rewrite Hf.
    + by rewrite not_found_is_conflict.
    + rewrite revision_conflict_is_conflict. split; [done|]. cbn. congruence.
Qed.

End Spec.

(** A binding that is at revision 1 when another writer has reached revision 2. *)
Definition sensor_binding (revision : option Z) : ActiveProfileBinding :=
  mkBinding (bs "sensor") SrcExplicit ConfHigh true false revision false false [] None.

Lemma learn_spec_witness :
  exists ps, holds (Some (2, ps)) ps /\
  let '(session, res, file', store', binding') :=
    learn (bs "p.toml") no_faults 9 (Some (2, ps)) (mkStore true [])
      (Some (sensor_binding (Some 1))) (p_defaults (sensor 4800)) PoLearned in
  pp_state res = PsFailed /\
  session = to_session_result <$> binding' /\ pp_operation res = PoLearned /\
  exists b', binding' = Some b' /\ ab_profile_name b' = bs "sensor" /\ ab_persistent b' = true /\
    file' = Some (2, ps) /\ ab_dirty b' = true /\ ab_revision b' = Some 1 /\
    ab_last_persistence_error b' = pp_error res /\
    exists e, pp_error res = Some (store_error_text (bs "p.toml") e) /\
      (io_error no_faults e \/
       ab_stale b' = true /\ (fun p => revision p) <$> find_profile (bs "sensor") ps <> Some 1).
Proof.
  exists (run_store [sensor 9600] [(OpUpsert (sensor 19200) true, 2)]). split; [reflexivity|].
  split; [reflexivity|].
  exact (learn_spec (bs "p.toml") no_faults 9 (Some (2, run_store [sensor 9600] [(OpUpsert (sensor 19200) true, 2)]))
           (mkStore true []) (Some (sensor_binding (Some 1))) (p_defaults (sensor 4800)) PoLearned
           (run_store [sensor 9600] [(OpUpsert (sensor 19200) true, 2)]) eq_refl eq_refl).
Defined.
