(* ===== verification/SerialConfig.v ===== *)
(** * [src/serial/config.rs]: serial parameters and connection states

    The parameter enums with their textual forms, the connection configuration,
    which I/O errors count as a lost connection, and the flush targets.
    [ConnectionState] is declared in RxConsume, [ReconnectPolicy] in Profiles and
    [ActiveProfileBinding] in Learning, where they are first used. *)

From S2P Require Import Prelude RustStr FramingConfig RxConsume Profiles.

Inductive DataBits := DFive | DSix | DSeven | DEight.
Inductive StopBits := SOne | STwo.
Inductive Parity := PNone | POdd | PEven.
Inductive FlowControl := FNone | FSoftware | FHardware.

#[export] Instance DataBits_eq_dec : EqDecision DataBits.
Proof. solve_decision. Defined.
#[export] Instance StopBits_eq_dec : EqDecision StopBits.
Proof. solve_decision. Defined.
#[export] Instance Parity_eq_dec : EqDecision Parity.
Proof. solve_decision. Defined.
#[export] Instance FlowControl_eq_dec : EqDecision FlowControl.
Proof. solve_decision. Defined.

Definition data_bits_to_str (d : DataBits) : list byte :=
  match d with DFive => bs "5" | DSix => bs "6" | DSeven => bs "7" | DEight => bs "8" end.
Definition stop_bits_to_str (s : StopBits) : list byte :=
  match s with SOne => bs "1" | STwo => bs "2" end.
Definition parity_to_str (p : Parity) : list byte :=
  match p with PNone => bs "none" | POdd => bs "odd" | PEven => bs "even" end.
Definition flow_control_to_str (f : FlowControl) : list byte :=
  match f with FNone => bs "none" | FSoftware => bs "software" | FHardware => bs "hardware" end.

(** The value of the first entry with the key [s]. *)
Definition match_str {A} (s : list byte) (arms : list (list byte * A)) : result (list byte) A :=
  match list_find (fun arm => arm.1 = s) arms with
  | Some (_, (_, a)) => Ok a
  | None => Err s
  end.

(** The [FromStr] instances; the error carries the refused text. Parity and flow
    control ignore case: [str::to_lowercase] maps a text to one of these words
    exactly when its ASCII letters do, since the only other character with an
    ASCII lower-case form is the Kelvin sign and no word has a k. *)
Definition data_bits_from_str (s : list byte) : result (list byte) DataBits :=
  match_str s [(bs "5", DFive); (bs "6", DSix); (bs "7", DSeven); (bs "8", DEight)].
Definition stop_bits_from_str (s : list byte) : result (list byte) StopBits :=
  match_str s [(bs "1", SOne); (bs "2", STwo)].
Definition parity_from_str (s : list byte) : result (list byte) Parity :=
  match_str (to_ascii_lowercase <$> s) [(bs "none", PNone); (bs "odd", POdd); (bs "even", PEven)].
Definition flow_control_from_str (s : list byte) : result (list byte) FlowControl :=
  match_str (to_ascii_lowercase <$> s)
    [(bs "none", FNone); (bs "software", FSoftware); (bs "hardware", FHardware)].

Lemma serial_parameters_roundtrip :
  (forall d, data_bits_from_str (data_bits_to_str d) = Ok d) /\
  (forall s, stop_bits_from_str (stop_bits_to_str s) = Ok s) /\
  (forall p, parity_from_str (parity_to_str p) = Ok p) /\
  (forall f, flow_control_from_str (flow_control_to_str f) = Ok f).
Proof. split_and!; intros []; vm_compute; reflexivity. Qed.

Definition MAX_BAUD_RATE : Z := 4000000.

(** The serial parameters of a port. *)
Record SerialSettings := mkSettings {
  ss_baud_rate : Z;
  ss_data_bits : DataBits;
  ss_stop_bits : StopBits;
  ss_parity : Parity;
  ss_flow_control : FlowControl;
}.

(** The defaults a connection applies when a call omits an argument. *)
Record CallDefaults := mkCallDefaults {
  cd_tx_framing : option TxFramingConfig;
  cd_rx_framing : option RxFramingConfig;
  cd_rx_parser : option ParserConfig;
  cd_protocol : option ProtocolPreset;
  cd_max_buffered_bytes : Z;
}.

(** [ConnectionConfig]. *)
Record ConnectionConfig := mkConfig {
  cc_port : list byte;
  cc_name : option (list byte);
  cc_settings : SerialSettings;
  cc_port_info : option PortInfo;
  cc_log_capacity : nat;
  cc_log_enabled : bool;
  cc_defaults : CallDefaults;
  cc_rx_buffer_size : Z;
}.

Definition is_healthy (s : ConnectionState) : bool :=
  match s with CsOpen => true | _ => false end.

(** The [std::io::ErrorKind]s the code tells apart. *)
Inductive ErrorKind :=
  | NotFound | PermissionDenied | ConnectionReset | ConnectionAborted | BrokenPipe
  | UnexpectedEof | Interrupted | OtherKind.

Record IoError := mkIoError { io_kind : ErrorKind; io_text : list byte }.

(** How [SerialError] displays an I/O error. *)
Definition io_error_text (e : IoError) : list byte := bs "I/O error: " ++ io_text e.

Definition is_fatal_disconnect (err : IoError) : bool :=
  match io_kind err with OtherKind => false | _ => true end.

Inductive FlushTarget := FlushInput | FlushOutput | FlushBoth.

(** [src/error.rs]: [SerialError]. *)
Inductive SerialError :=
  | OpenFailed (text : list byte)
  | PortAlreadyOpen (port : list byte) (connection_id name : option (list byte))
  | PortAlreadyOpening (port : list byte)
  | ConnectionNotFound (id : list byte)
  | ConnectionClosed (name : list byte)
  | InvalidBaudRate (rate : Z)
  | ReadTimeout
  | SerialIoError (e : IoError).
