(* ===== verification/Connection.v ===== *)
(** * [src/serial/connection.rs]: one serial connection

    The state of a [SerialConnection], its operations against a device, and its
    life cycle.  [close], [reconnect] and [mark_disconnected] wait for the I/O
    lock in the middle; each is two functions, the code before and after that
    wait, and their composition. *)

From S2P Require Import Prelude RustStr FramingConfig LogBuffer RxConsume Profiles ProfileStore Learning SerialConfig.

(** ** The device behind [SerialIo] *)

(** What the [SerialIo] contract speaks of: the bytes received and not yet read,
    the bytes queued and not yet sent, the lines and the parameters in force. *)
Record Device := mkDevice {
  dev_input : list byte;
  dev_output : list byte;
  dev_dtr : bool;
  dev_rts : bool;
  dev_break : bool;
  dev_settings : SerialSettings;
}.

Definition clear_os_buffers (d : Device) (target : FlushTarget) : Device :=
  mkDevice (match target with FlushOutput => dev_input d | _ => [] end)
    (match target with FlushInput => dev_output d | _ => [] end)
    (dev_dtr d) (dev_rts d) (dev_break d) (dev_settings d).

Definition dev_write (d : Device) (data : list byte) : Device :=
  mkDevice (dev_input d) (dev_output d ++ data) (dev_dtr d) (dev_rts d) (dev_break d) (dev_settings d).
Definition dev_read (d : Device) (n : nat) : Device :=
  mkDevice (drop n (dev_input d)) (dev_output d) (dev_dtr d) (dev_rts d) (dev_break d) (dev_settings d).
Definition dev_lines (d : Device) (dtr rts : bool) : Device :=
  mkDevice (dev_input d) (dev_output d) dtr rts (dev_break d) (dev_settings d).
Definition dev_set_break (d : Device) (asserted : bool) : Device :=
  mkDevice (dev_input d) (dev_output d) (dev_dtr d) (dev_rts d) asserted (dev_settings d).
Definition dev_configure (d : Device) (s : SerialSettings) : Device :=
  mkDevice (dev_input d) (dev_output d) (dev_dtr d) (dev_rts d) (dev_break d) s.

(** [set_dtr_rts] of [SerialStream]: DTR first, then RTS; either can fail. *)
Inductive LineFault := DtrFails (e : IoError) | RtsFails (e : IoError).

Definition dev_set_dtr_rts (d : Device) (dtr rts : bool) (fault : option LineFault)
    : result IoError unit * Device :=
  match fault with
  | Some (DtrFails e) => (Err e, d)
  | Some (RtsFails e) => (Err e, dev_lines d dtr (dev_rts d))
  | None => (Ok tt, dev_lines d dtr rts)
  end.

(** ** The connection *)

Record Counters := mkCounters {
  ct_tx_bytes : Z;
  ct_rx_bytes : Z;
  ct_last_activity : option Z;
  ct_read_ops : Z;
  ct_write_ops : Z;
  ct_truncation_count : Z;
  ct_reconnect_attempts : Z;
}.

(** The fields set when the connection is built and never changed. *)
Record Identity := mkIdentity {
  sc_id : list byte;
  sc_port : list byte;
  sc_name : option (list byte);
  sc_port_info : option PortInfo;
  sc_rx_buffer_size : Z;
}.

Record SerialConnection := mkConn {
  sc_identity : Identity;
  sc_settings : SerialSettings;
  sc_defaults : CallDefaults;
  sc_policy : ReconnectPolicy;
  sc_profile : option ActiveProfileBinding;
  sc_io : option Device;
  sc_close_token : bool;
  sc_closed : bool;
  sc_state : ConnectionState;
  sc_last_error : option (Z * list byte);
  sc_counters : Counters;
  sc_log : LogBuffer;
}.

(** [from_io_with_config], with the UUID it draws. *)
Definition from_io_with_config (now : Z) (id : list byte) (config : ConnectionConfig) (io : Device)
    : SerialConnection :=
  let log := opened (log_new (cc_log_capacity config) (cc_log_enabled config)) now in
  mkConn (mkIdentity id (cc_port config) (cc_name config) (cc_port_info config)
            (cc_rx_buffer_size config))
    (cc_settings config) (cc_defaults config) ReconnectPolicy_default None (Some io) false false
    CsOpen None (mkCounters 0 0 None 0 0 0 0) log.

Definition ensure_valid_baud_rate (rate : Z) : result SerialError unit :=
  if (rate =? 0) || (MAX_BAUD_RATE <? rate) then Err (InvalidBaudRate rate) else Ok tt.

(** [SerialConnection::open]; [build_stream] is the operating system's. *)
Definition connection_open (now : Z) (id : list byte) (config : ConnectionConfig)
    (build_stream : ConnectionConfig -> result SerialError Device)
    : result SerialError SerialConnection :=
  _ ← ensure_valid_baud_rate (ss_baud_rate (cc_settings config));
  stream ← build_stream config;
  Ok (from_io_with_config now id config stream).

(** *** Field updates *)

Definition with_io (c : SerialConnection) (io : option Device) : SerialConnection :=
  mkConn (sc_identity c) (sc_settings c) (sc_defaults c) (sc_policy c) (sc_profile c) io
    (sc_close_token c) (sc_closed c) (sc_state c) (sc_last_error c) (sc_counters c) (sc_log c).
Definition set_state (c : SerialConnection) (state : ConnectionState) : SerialConnection :=
  mkConn (sc_identity c) (sc_settings c) (sc_defaults c) (sc_policy c) (sc_profile c) (sc_io c)
    (sc_close_token c) (sc_closed c) state (sc_last_error c) (sc_counters c) (sc_log c).
Definition with_closed (c : SerialConnection) (closed : bool) : SerialConnection :=
  mkConn (sc_identity c) (sc_settings c) (sc_defaults c) (sc_policy c) (sc_profile c) (sc_io c)
    (sc_close_token c) closed (sc_state c) (sc_last_error c) (sc_counters c) (sc_log c).
Definition cancel (c : SerialConnection) : SerialConnection :=
  mkConn (sc_identity c) (sc_settings c) (sc_defaults c) (sc_policy c) (sc_profile c) (sc_io c)
    true (sc_closed c) (sc_state c) (sc_last_error c) (sc_counters c) (sc_log c).
Definition with_last_error (c : SerialConnection) (e : Z * list byte) : SerialConnection :=
  mkConn (sc_identity c) (sc_settings c) (sc_defaults c) (sc_policy c) (sc_profile c) (sc_io c)
    (sc_close_token c) (sc_closed c) (sc_state c) (Some e) (sc_counters c) (sc_log c).
Definition with_log (c : SerialConnection) (log : LogBuffer) : SerialConnection :=
  mkConn (sc_identity c) (sc_settings c) (sc_defaults c) (sc_policy c) (sc_profile c) (sc_io c)
    (sc_close_token c) (sc_closed c) (sc_state c) (sc_last_error c) (sc_counters c) log.
Definition with_counters (c : SerialConnection) (counters : Counters) : SerialConnection :=
  mkConn (sc_identity c) (sc_settings c) (sc_defaults c) (sc_policy c) (sc_profile c) (sc_io c)
    (sc_close_token c) (sc_closed c) (sc_state c) (sc_last_error c) counters (sc_log c).
Definition with_settings (c : SerialConnection) (settings : SerialSettings) : SerialConnection :=
  mkConn (sc_identity c) settings (sc_defaults c) (sc_policy c) (sc_profile c) (sc_io c)
    (sc_close_token c) (sc_closed c) (sc_state c) (sc_last_error c) (sc_counters c) (sc_log c).
Definition with_defaults (c : SerialConnection) (defaults : CallDefaults) : SerialConnection :=
  mkConn (sc_identity c) (sc_settings c) defaults (sc_policy c) (sc_profile c) (sc_io c)
    (sc_close_token c) (sc_closed c) (sc_state c) (sc_last_error c) (sc_counters c) (sc_log c).
Definition with_profile (c : SerialConnection) (profile : option ActiveProfileBinding)
    : SerialConnection :=
  mkConn (sc_identity c) (sc_settings c) (sc_defaults c) (sc_policy c) profile (sc_io c)
    (sc_close_token c) (sc_closed c) (sc_state c) (sc_last_error c) (sc_counters c) (sc_log c).

(** *** Reading the state *)

Definition display_name (c : SerialConnection) : list byte :=
  default (sc_id (sc_identity c)) (sc_name (sc_identity c)).

Definition conn_closed_error (c : SerialConnection) : SerialError := ConnectionClosed (display_name c).

Definition ensure_open (c : SerialConnection) : result SerialError unit :=
  if sc_closed c then Err (conn_closed_error c) else Ok tt.

(** [io.as_mut().ok_or_else(ConnectionClosed)]. *)
Definition io_or_closed (c : SerialConnection) : result SerialError Device :=
  ok_or (sc_io c) (conn_closed_error c).

Record ConnectionStatus := mkStatus {
  st_connection_id : list byte;
  st_name : option (list byte);
  st_port : list byte;
  st_settings : Z * list byte * list byte * list byte * list byte;
  st_is_closed : bool;
  st_counters : Counters;
  st_port_info : option PortInfo;
  st_state : ConnectionState;
  st_last_error : option (list byte);
  st_profile : option ProfileSessionResult;
}.

Definition settings_to_strings (s : SerialSettings) : Z * list byte * list byte * list byte * list byte :=
  (ss_baud_rate s, data_bits_to_str (ss_data_bits s), stop_bits_to_str (ss_stop_bits s),
   parity_to_str (ss_parity s), flow_control_to_str (ss_flow_control s)).

Definition status_snapshot (c : SerialConnection) : ConnectionStatus :=
  mkStatus (sc_id (sc_identity c)) (sc_name (sc_identity c)) (sc_port (sc_identity c))
    (settings_to_strings (sc_settings c)) (sc_closed c) (sc_counters c)
    (sc_port_info (sc_identity c)) (sc_state c) (snd <$> sc_last_error c)
    (to_session_result <$> sc_profile c).

Record ConnectionSummary := mkSummary {
  sm_connection_id : list byte;
  sm_name : option (list byte);
  sm_port : list byte;
  sm_baud_rate : Z;
  sm_flow_control : FlowControl;
  sm_profile : option ProfileSessionResult;
}.

Definition summary (c : SerialConnection) : ConnectionSummary :=
  mkSummary (sc_id (sc_identity c)) (sc_name (sc_identity c)) (sc_port (sc_identity c))
    (ss_baud_rate (sc_settings c)) (ss_flow_control (sc_settings c))
    (to_session_result <$> sc_profile c).

(** [effective_defaults]. *)
Definition effective_defaults (c : SerialConnection) : ProfileDefaults :=
  let s := sc_settings c in let d := sc_defaults c in
  mkDefaults (ss_baud_rate s) (data_bits_to_str (ss_data_bits s)) (stop_bits_to_str (ss_stop_bits s))
    (parity_to_str (ss_parity s)) (flow_control_to_str (ss_flow_control s)) (sc_name (sc_identity c))
    (cd_tx_framing d) (cd_rx_framing d) (cd_rx_parser d) (cd_protocol d)
    (sc_rx_buffer_size (sc_identity c)) (cd_max_buffered_bytes d) (sc_policy c)
    (Z.of_nat (log_capacity (sc_log c))) (enabled (sc_log c)).

(** [build_config], for [reconnect]. *)
Definition build_config (c : SerialConnection) : ConnectionConfig :=
  mkConfig (sc_port (sc_identity c)) (sc_name (sc_identity c)) (sc_settings c)
    (sc_port_info (sc_identity c)) 1024 (enabled (sc_log c)) (sc_defaults c)
    (sc_rx_buffer_size (sc_identity c)).

(** [update_active_profile_binding]. *)
Definition update_active_profile_binding (c : SerialConnection)
    (update : ActiveProfileBinding -> ActiveProfileBinding) : SerialConnection :=
  match sc_profile c with Some b => with_profile c (Some (update b)) | None => c end.

(** *** Counters *)

Definition record_tx_bytes (c : SerialConnection) (now n : Z) : SerialConnection :=
  let t := sc_counters c in
  with_counters c (mkCounters (wrap64 (ct_tx_bytes t + n)) (ct_rx_bytes t) (Some now)
    (ct_read_ops t) (ct_write_ops t) (ct_truncation_count t) (ct_reconnect_attempts t)).
Definition record_rx_bytes (c : SerialConnection) (now n : Z) : SerialConnection :=
  let t := sc_counters c in
  with_counters c (mkCounters (ct_tx_bytes t) (wrap64 (ct_rx_bytes t + n)) (Some now)
    (ct_read_ops t) (ct_write_ops t) (ct_truncation_count t) (ct_reconnect_attempts t)).
Definition record_read_op (c : SerialConnection) : SerialConnection :=
  let t := sc_counters c in
  with_counters c (mkCounters (ct_tx_bytes t) (ct_rx_bytes t) (ct_last_activity t)
    (wrap64 (ct_read_ops t + 1)) (ct_write_ops t) (ct_truncation_count t) (ct_reconnect_attempts t)).
Definition record_write_op (c : SerialConnection) : SerialConnection :=
  let t := sc_counters c in
  with_counters c (mkCounters (ct_tx_bytes t) (ct_rx_bytes t) (ct_last_activity t)
    (ct_read_ops t) (wrap64 (ct_write_ops t + 1)) (ct_truncation_count t) (ct_reconnect_attempts t)).
Definition record_truncation (c : SerialConnection) : SerialConnection :=
  let t := sc_counters c in
  with_counters c (mkCounters (ct_tx_bytes t) (ct_rx_bytes t) (ct_last_activity t)
    (ct_read_ops t) (ct_write_ops t) (wrap64 (ct_truncation_count t + 1)) (ct_reconnect_attempts t)).
Definition with_reconnect_attempts (c : SerialConnection) (n : Z) : SerialConnection :=
  let t := sc_counters c in
  with_counters c (mkCounters (ct_tx_bytes t) (ct_rx_bytes t) (ct_last_activity t)
    (ct_read_ops t) (ct_write_ops t) (ct_truncation_count t) n).

Definition reset_reconnect_attempts (c : SerialConnection) : SerialConnection :=
  with_reconnect_attempts c 0.

(** ** I/O operations *)

(** [write]; a fault of [write_all] or [flush] comes after [k] bytes. *)
Definition conn_write (c : SerialConnection) (now : Z) (data : list byte)
    (fault : option (nat * IoError)) : result SerialError Z * SerialConnection :=
  match ensure_open c with
  | Err e => (Err e, c)
  | Ok _ =>
      let c := with_log c (tx_data (sc_log c) now (zlen data)) in
      match io_or_closed c with
      | Err e => (Err e, c)
      | Ok io =>
          match fault with
          | Some (k, e) => (Err (SerialIoError e), with_io c (Some (dev_write io (take k data))))
          | None => (Ok (zlen data), record_tx_bytes (with_io c (Some (dev_write io data))) now (zlen data))
          end
      end
  end.

(** One poll of [read]: what [timeout(poll_dur, io.read(dst))] gives. A read of
    no bytes is the end of the stream. *)
Inductive PollResult := PollRead (n : nat) | PollFails (e : IoError) | PollElapsed.

Definition EOF_ERROR : SerialError := SerialIoError (mkIoError UnexpectedEof (bs "serial peer closed")).

(** One iteration of the loop of [read] with a timeout, up to the sleep; [None]
    goes round again. *)
Definition read_poll (c : SerialConnection) (now deadline : Z) (max : nat) (poll : PollResult)
    : option (result SerialError (list byte)) * SerialConnection :=
  if sc_close_token c then (Some (Err (conn_closed_error c)), c)
  else if saturating_sub deadline now =? 0 then (Some (Err ReadTimeout), c)
  else
    match io_or_closed c with
    | Err e => (Some (Err e), c)
    | Ok io =>
        match poll with
        | PollElapsed => (None, c)
        | PollFails e => (Some (Err (SerialIoError e)), c)
        | PollRead n =>
            match take (n `min` max) (dev_input io) with
            | [] => (Some (Err EOF_ERROR), c)
            | bytes =>
                (Some (Ok bytes),
                 record_rx_bytes (with_io c (Some (dev_read io (length bytes)))) now (zlen bytes))
            end
        end
    end.

Definition flush_buffers (c : SerialConnection) (target : FlushTarget) (fault : option IoError)
    : result SerialError unit * SerialConnection :=
  match _ ← ensure_open c; io_or_closed c with
  | Err e => (Err e, c)
  | Ok io =>
      match fault with
      | Some e => (Err (SerialIoError e), c)
      | None => (Ok tt, with_io c (Some (clear_os_buffers io target)))
      end
  end.

Definition set_dtr_rts_unlocked (c : SerialConnection) (dtr rts : bool) (fault : option LineFault)
    : result SerialError unit * SerialConnection :=
  match _ ← ensure_open c; io_or_closed c with
  | Err e => (Err e, c)
  | Ok io =>
      let '(r, io) := dev_set_dtr_rts io dtr rts fault in
      (map_err SerialIoError r, with_io c (Some io))
  end.

Definition set_flow_control (c : SerialConnection) (flow : FlowControl) (fault : option IoError)
    : result SerialError unit * SerialConnection :=
  match _ ← ensure_open c; io_or_closed c with
  | Err e => (Err e, c)
  | Ok io =>
      match fault with
      | Some e => (Err (SerialIoError e), c)
      | None =>
          let set s := mkSettings (ss_baud_rate s) (ss_data_bits s) (ss_stop_bits s) (ss_parity s) flow in
          (Ok tt, with_settings (with_io c (Some (dev_configure io (set (dev_settings io)))))
                    (set (sc_settings c)))
      end
  end.

Definition set_break_state (c : SerialConnection) (asserted : bool) (fault : option IoError)
    : result SerialError unit * SerialConnection :=
  match _ ← ensure_open c; io_or_closed c with
  | Err e => (Err e, c)
  | Ok io =>
      match fault with
      | Some e => (Err (SerialIoError e), c)
      | None => (Ok tt, with_io c (Some (dev_set_break io asserted)))
      end
  end.

(** *** [reconfigure] *)

Record Reconfigure := mkReconfigure {
  rc_baud_rate : option Z;
  rc_data_bits : option DataBits;
  rc_stop_bits : option StopBits;
  rc_parity : option Parity;
  rc_flow_control : option FlowControl;
}.

(** The requested values over [s]; with [n], the first [n] parameters only. *)
Definition apply_settings (r : Reconfigure) (n : nat) (s : SerialSettings) : SerialSettings :=
  let pick {A} (i : nat) (v : option A) (old : A) := if (i <? n)%nat then default old v else old in
  mkSettings (pick 0%nat (rc_baud_rate r) (ss_baud_rate s))
    (pick 1%nat (rc_data_bits r) (ss_data_bits s)) (pick 2%nat (rc_stop_bits r) (ss_stop_bits s))
    (pick 3%nat (rc_parity r) (ss_parity s)) (pick 4%nat (rc_flow_control r) (ss_flow_control s)).

(** The hardware refuses the parameter with the index of [fault]; the ones before
    it have been applied. *)
Definition reconfigure (c : SerialConnection) (r : Reconfigure) (fault : option (nat * IoError))
    : result SerialError ConnectionStatus * SerialConnection :=
  match _ ← ensure_open c;
        _ ← match rc_baud_rate r with Some rate => ensure_valid_baud_rate rate | None => Ok tt end;
        io_or_closed c with
  | Err e => (Err e, c)
  | Ok io =>
      match fault with
      | Some (i, e) =>
          (Err (SerialIoError e),
           with_io c (Some (dev_configure io (apply_settings r i (dev_settings io)))))
      | None =>
          let c := with_settings
                     (with_io c (Some (dev_configure io (apply_settings r 5 (dev_settings io)))))
                     (apply_settings r 5 (sc_settings c)) in
          (Ok (status_snapshot c), c)
      end
  end.

(** ** The life cycle *)

(** [close] up to the I/O lock; [true] when it returns at once. *)
Definition close_begin (c : SerialConnection) : bool * SerialConnection :=
  if sc_closed c then (true, c) else (false, cancel (set_state (with_closed c true) CsClosed)).

(** Which of [clear_os_buffers] and [shutdown] fails. *)
Definition close_io (c : SerialConnection) (fault : option IoError)
    : result SerialError unit * SerialConnection :=
  match sc_io c with
  | Some _ =>
      (match fault with Some e => Err (SerialIoError e) | None => Ok tt end, with_io c None)
  | None => (Ok tt, c)
  end.

Definition close (c : SerialConnection) (fault : option IoError)
    : result SerialError unit * SerialConnection :=
  match close_begin c with
  | (true, c) => (Ok tt, c)
  | (false, c) => close_io c fault
  end.

(** [mark_disconnected] up to the I/O lock, and after it. *)
Definition mark_begin (c : SerialConnection) (now : Z) (error_message : list byte)
    : SerialConnection :=
  let c := with_last_error (set_state c CsDisconnected) (now, error_message) in
  with_log c (record (rx_data (sc_log c) now 0) now None (Disconnect error_message)).

Definition mark_io (c : SerialConnection) : SerialConnection := with_io c None.

Definition mark_disconnected (c : SerialConnection) (now : Z) (error_message : list byte)
    : SerialConnection := mark_io (mark_begin c now error_message).

(** [reconnect] up to building the stream: done, or the attempt's number. *)
Definition reconnect_begin (c : SerialConnection) (now : Z)
    : (result SerialError unit + Z) * SerialConnection :=
  match sc_state c with
  | CsOpen => (inl (Ok tt), c)
  | CsClosed => (inl (Err (conn_closed_error c)), c)
  | CsDisconnected | CsReconnecting =>
      let c := set_state c CsReconnecting in
      let c := with_reconnect_attempts c (wrap64 (ct_reconnect_attempts (sc_counters c) + 1)) in
      let attempt := ct_reconnect_attempts (sc_counters c) mod 2 ^ 32 in
      (inr attempt, with_log c (record (sc_log c) now None (ReconnectStart attempt)))
  end.

(** After [build_stream] succeeded, under the I/O lock. *)
Definition reconnect_finish (c : SerialConnection) (now : Z) (stream : Device) : SerialConnection :=
  let c := set_state (with_closed (with_io c (Some stream)) false) CsOpen in
  with_log c (record (sc_log c) now None ReconnectSuccess).

(** After it failed. *)
Definition reconnect_failed (c : SerialConnection) (now attempt : Z) (msg : list byte)
    : SerialConnection :=
  let c := set_state c CsDisconnected in
  with_log c (record (sc_log c) now None (ReconnectFailed attempt msg)).

(** [reconnect]; [to_string] renders the error of [build_stream]. *)
Definition reconnect (c : SerialConnection) (now : Z)
    (build_stream : ConnectionConfig -> result SerialError Device)
    (to_string : SerialError -> list byte) : result SerialError unit * SerialConnection :=
  match reconnect_begin c now with
  | (inl r, c) => (r, c)
  | (inr attempt, c) =>
      match build_stream (build_config c) with
      | Ok stream => (Ok tt, reconnect_finish c now stream)
      | Err e => (Err e, reconnect_failed c now attempt (to_string e))
      end
  end.

(** ** A closed connection stays closed *)

Inductive ConnOp :=
  | COpWrite (now : Z) (data : list byte) (fault : option (nat * IoError))
  | COpRead (now deadline : Z) (max : nat) (poll : PollResult)
  | COpFlush (target : FlushTarget) (fault : option IoError)
  | COpLines (dtr rts : bool) (fault : option LineFault)
  | COpFlow (flow : FlowControl) (fault : option IoError)
  | COpBreak (asserted : bool) (fault : option IoError)
  | COpReconfigure (r : Reconfigure) (fault : option (nat * IoError))
  | COpReconnect (now : Z) (build_stream : ConnectionConfig -> result SerialError Device)
  | COpClose (fault : option IoError).

(** The error an operation returns, if any. *)
Definition err_of {A} (r : result SerialError A) : option SerialError :=
  match r with Ok _ => None | Err e => Some e end.

Definition run_conn_op (op : ConnOp) (c : SerialConnection) : option SerialError * SerialConnection :=
  let run {A} (p : result SerialError A * SerialConnection) := (err_of p.1, p.2) in
  match op with
  | COpWrite now data fault => run (conn_write c now data fault)
  | COpRead now deadline max poll =>
      let '(r, c) := read_poll c now deadline max poll in (r ≫= err_of, c)
  | COpFlush target fault => run (flush_buffers c target fault)
  | COpLines dtr rts fault => run (set_dtr_rts_unlocked c dtr rts fault)
  | COpFlow flow fault => run (set_flow_control c flow fault)
  | COpBreak asserted fault => run (set_break_state c asserted fault)
  | COpReconfigure r fault => run (reconfigure c r fault)
  | COpReconnect now build_stream => run (reconnect c now build_stream (fun _ => []))
  | COpClose fault => run (close c fault)
  end.

Fixpoint run_conn_ops (ops : list ConnOp) (c : SerialConnection)
    : list (option SerialError) * SerialConnection :=
  match ops with
  | [] => ([], c)
  | op :: ops =>
      let '(r, c) := run_conn_op op c in
      let '(rs, c) := run_conn_ops ops c in (r :: rs, c)
  end.

(** What a closed connection answers. *)
Definition closed_answer (c : SerialConnection) (op : ConnOp) : option SerialError :=
  match op with COpClose _ => None | _ => Some (conn_closed_error c) end.

Lemma closed_op c op :
  sc_closed c = true -> sc_close_token c = true -> sc_state c = CsClosed ->
  run_conn_op op c = (closed_answer c op, c).
Proof.
  intros Hc Ht Hs.
  destruct op; cbn [run_conn_op closed_answer];
    unfold conn_write, read_poll, flush_buffers, set_dtr_rts_unlocked, set_flow_control,
      set_break_state, reconfigure, reconnect, reconnect_begin, close, close_begin, ensure_open;
    rewrite ?Hc, ?Ht, ?Hs; done.
Qed.

(** Closing is final when nothing else is under
    way.  After [close] on a connection that was not closed, whether or not the
    system calls of the closing succeed, the device is released and every later
    sequence of reads, writes, flushes, line and break changes, reconfigurations,
    reconnects and closes leaves the connection as it is; each of them is refused
    with [ConnectionClosed], and closing again succeeds. *)
Theorem closed_connection_is_inert c fault r c' ops :
  sc_closed c = false -> close c fault = (r, c') ->
  sc_io c' = None /\ sc_state c' = CsClosed /\
  run_conn_ops ops c' = (closed_answer c <$> ops, c').
Proof.
  intros Hopen Hclose.
  assert (Hc' : sc_closed c' = true /\ sc_close_token c' = true /\ sc_state c' = CsClosed /\
                sc_io c' = None /\ sc_identity c' = sc_identity c).
  { unfold close, close_begin, close_io in Hclose. rewrite Hopen in Hclose.
    destruct (sc_io _) eqn:Hio in Hclose; by simplify_eq/=. }
  destruct Hc' as (Hc & Ht & Hs & Hio & Hid). split_and!; [done..|].
  assert (Hans : forall op, closed_answer c op = closed_answer c' op).
  { intros op. unfold closed_answer, conn_closed_error, display_name. by rewrite Hid. }
  induction ops as [|op ops IH]; [done|]. simpl. by rewrite (closed_op c' op Hc Ht Hs), IH, Hans.
Qed.

(** Closing races with a reconnect that has passed its state check: the
    reconnect, which finishes after the close, opens the closed connection again,
    with a device no registry knows; writes go through and reads are refused. *)
Definition a_config : ConnectionConfig :=
  mkConfig (bs "/dev/ttyUSB0") None (mkSettings 115200 DEight SOne PNone FNone) None 16 true
    (mkCallDefaults None None None None 32768) 1024.
Definition a_device : Device := mkDevice [] [] false false false (cc_settings a_config).
Definition a_connection : SerialConnection := from_io_with_config 0 (bs "id") a_config a_device.

Example reconnect_resurrects_closed_connection :
  let c := mark_disconnected a_connection 1 (bs "gone") in
  let '(_, c) := reconnect_begin c 2 in
  let '(_, c) := close c None in
  let c := reconnect_finish c 3 a_device in
  sc_state c = CsOpen /\ is_some (sc_io c) = true /\
  (conn_write c 4 [x41] None).1 = Ok 1 /\
  (read_poll c 4 100 8 PollElapsed).1 = Some (Err (ConnectionClosed (bs "id"))).
Proof. vm_compute. done. Qed.

(** A [mark_disconnected] that waited for the I/O lock behind a reconnect takes
    the new device away while the state says open. *)
Example late_mark_takes_new_device :
  let c := mark_begin a_connection 1 (bs "gone") in
  let '(_, c) := reconnect_begin c 2 in
  let c := mark_io (reconnect_finish c 3 a_device) in
  sc_state c = CsOpen /\ sc_io c = None.
Proof. vm_compute. done. Qed.

Lemma closed_connection_is_inert_witness :
  let c' := (close a_connection None).2 in
  sc_io c' = None /\ sc_state c' = CsClosed /\
  run_conn_ops [COpWrite 5 [x41] None; COpReconnect 6 (fun _ => Ok a_device); COpClose None] c'
  = ([Some (ConnectionClosed (bs "id")); Some (ConnectionClosed (bs "id")); None], c').
Proof.
  apply (closed_connection_is_inert a_connection None (Ok tt) (close a_connection None).2
    [COpWrite 5 [x41] None; COpReconnect 6 (fun _ => Ok a_device); COpClose None]); reflexivity.
Defined.

(** ** Reconfiguring *)

(** As long as no parameter is refused halfway, the connection reports what the
    hardware runs. *)
Lemma reconfigure_in_step c r res c' io :
  sc_io c = Some io -> dev_settings io = sc_settings c -> reconfigure c r None = (res, c') ->
  exists io', sc_io c' = Some io' /\ dev_settings io' = sc_settings c'.
Proof.
  intros Hio Hs. unfold reconfigure, io_or_closed. rewrite Hio.
  destruct (_ ← ensure_open c; _) as [io'|] eqn:He; intros [= <- <-]; [|by eauto].
  apply result_bind_ok in He as (_ & _ & (_ & _ & [= <-])%result_bind_ok).
  eexists. split; [done|]. simpl. by rewrite Hs.
Qed.

(** A refused parity after an accepted baud rate: the device runs at the new rate,
    the connection reports the old one. *)
Example failed_reconfigure_leaves_hardware_changed :
  let '(r, c) := reconfigure a_connection (mkReconfigure (Some 9600) None None (Some POdd) None)
                   (Some (3%nat, mkIoError OtherKind (bs "EINVAL"))) in
  is_ok r = false /\ ss_baud_rate (sc_settings c) = 115200 /\
  (ss_baud_rate ∘ dev_settings <$> sc_io c) = Some 9600.
Proof. vm_compute. done. Qed.
