(* ===== verification/Manager.v ===== *)
(** * [src/serial/manager.rs]: the registry of connections

    The critical sections of [ConnectionManager] as functions on the registry;
    the tasks that run them as a step relation, with the reservation guard of an
    open that fails or is cancelled; and the reconnect task with its backoff. *)

From Stdlib Require Import Floats.SpecFloat.
From S2P Require Import Prelude RustStr FramingConfig RxConsume Profiles SerialConfig Connection.

(** ** The registry *)

(** [ConnectionRegistry]; of a connection only its immutable part matters here.
    A reconnect task is known by a number. *)
Record ConnectionRegistry := mkRegistry {
  connections : gmap (list byte) Identity;
  opening_ports : gset (list byte);
  closing_ports : gset (list byte);
  reconnect_tasks : gmap (list byte) nat;
}.

Definition registry_new : ConnectionRegistry := mkRegistry ∅ ∅ ∅ ∅.

(** [find_connection_by_port]. *)
Definition find_connection_by_port (conns : gmap (list byte) Identity) (port : list byte)
    : option Identity :=
  (fun found => found.2.2) <$> list_find (fun e => sc_port e.2 = port) (map_to_list conns).

(** The admission check of [open] and [insert]. *)
Definition check_port (s : ConnectionRegistry) (port : list byte) : result SerialError unit :=
  match find_connection_by_port (connections s) port with
  | Some c => Err (PortAlreadyOpen port (Some (sc_id c)) (sc_name c))
  | None =>
      if bool_decide (port ∈ opening_ports s) || bool_decide (port ∈ closing_ports s)
      then Err (PortAlreadyOpening port) else Ok tt
  end.

(** [open] up to the call of the opener. *)
Definition open_begin (s : ConnectionRegistry) (port : list byte)
    : result SerialError ConnectionRegistry :=
  _ ← check_port s port;
  Ok (mkRegistry (connections s) ({[port]} ∪ opening_ports s) (closing_ports s) (reconnect_tasks s)).

(** [open] after the opener returned a connection. *)
Definition open_finish (s : ConnectionRegistry) (port : list byte) (c : Identity)
    : ConnectionRegistry :=
  mkRegistry (<[sc_id c := c]> (connections s)) (opening_ports s ∖ {[port]}) (closing_ports s)
    (reconnect_tasks s).

(** The body of [OpeningReservationGuard::drop]. *)
Definition release_reservation (s : ConnectionRegistry) (port : list byte) : ConnectionRegistry :=
  mkRegistry (connections s) (opening_ports s ∖ {[port]}) (closing_ports s) (reconnect_tasks s).

(** [insert]. *)
Definition registry_insert (s : ConnectionRegistry) (c : Identity)
    : result SerialError ConnectionRegistry :=
  _ ← check_port s (sc_port c);
  Ok (mkRegistry (<[sc_id c := c]> (connections s)) (opening_ports s) (closing_ports s)
        (reconnect_tasks s)).

(** The three critical sections of [close]: before the abort, the abort of the
    reconnect task, and after the port is closed. *)
Definition manager_close_begin (s : ConnectionRegistry) (id : list byte)
    : result SerialError (Identity * ConnectionRegistry) :=
  c ← ok_or (connections s !! id) (ConnectionNotFound id);
  Ok (c, mkRegistry (delete id (connections s)) (opening_ports s) ({[sc_port c]} ∪ closing_ports s)
           (reconnect_tasks s)).

Definition cancel_reconnect (s : ConnectionRegistry) (id : list byte) : ConnectionRegistry :=
  mkRegistry (connections s) (opening_ports s) (closing_ports s) (delete id (reconnect_tasks s)).

Definition manager_close_finish (s : ConnectionRegistry) (port : list byte) : ConnectionRegistry :=
  mkRegistry (connections s) (opening_ports s) (closing_ports s ∖ {[port]}) (reconnect_tasks s).

(** Lookups. *)
Definition manager_get (s : ConnectionRegistry) (id : list byte) : result SerialError Identity :=
  ok_or (connections s !! id) (ConnectionNotFound id).
Definition list_all (s : ConnectionRegistry) : list (list byte * Identity) := map_to_list (connections s).
Definition manager_count (s : ConnectionRegistry) : nat := size (connections s).

(** The two critical sections of [start_reconnect]: pruning the finished tasks
    and looking for a running one, and storing the new task. *)
Definition start_reconnect_check (s : ConnectionRegistry) (is_finished : nat -> bool) (id : list byte)
    : bool * ConnectionRegistry :=
  let s := mkRegistry (connections s) (opening_ports s) (closing_ports s)
             (filter (fun p => is_finished p.2 = false) (reconnect_tasks s)) in
  (negb (is_some (reconnect_tasks s !! id)), s).

Definition start_reconnect_insert (s : ConnectionRegistry) (id : list byte) (task : nat)
    : ConnectionRegistry :=
  mkRegistry (connections s) (opening_ports s) (closing_ports s) (<[id := task]> (reconnect_tasks s)).

(** ** The tasks *)

(** A call under way: an open that holds its reservation guard, the detached task
    that releases a reservation, a close before the abort, and a close that waits
    for the port. *)
Inductive ManagerTask :=
  | TaskOpening (port : list byte)
  | TaskReleasing (port : list byte)
  | TaskClosing (id port : list byte)
  | TaskCloseIo (port : list byte).

Record ManagerSys := mkManager { m_registry : ConnectionRegistry; m_tasks : gmap nat ManagerTask }.

Section Steps.
(** Whether the future of a [close] can be dropped before it completes. *)
Context (closes_cancelled : Prop).

Inductive manager_step : ManagerSys -> ManagerSys -> Prop :=
  | mstep_open s ts t port s' :
      ts !! t = None -> open_begin s port = Ok s' ->
      manager_step (mkManager s ts) (mkManager s' (<[t := TaskOpening port]> ts))
  (** The opener honours the requested port and draws a fresh id. *)
  | mstep_opened s ts t port c :
      ts !! t = Some (TaskOpening port) -> sc_port c = port -> connections s !! sc_id c = None ->
      manager_step (mkManager s ts) (mkManager (open_finish s port c) (delete t ts))
  (** The opener failed or the call was cancelled: the guard is dropped, with the
      registry lock free or contended. *)
  | mstep_open_dropped s ts t port :
      ts !! t = Some (TaskOpening port) ->
      manager_step (mkManager s ts) (mkManager (release_reservation s port) (delete t ts))
  | mstep_open_dropped_contended s ts t port :
      ts !! t = Some (TaskOpening port) ->
      manager_step (mkManager s ts) (mkManager s (<[t := TaskReleasing port]> ts))
  | mstep_release s ts t port :
      ts !! t = Some (TaskReleasing port) ->
      manager_step (mkManager s ts) (mkManager (release_reservation s port) (delete t ts))
  | mstep_insert s ts c s' :
      connections s !! sc_id c = None -> registry_insert s c = Ok s' ->
      manager_step (mkManager s ts) (mkManager s' ts)
  | mstep_close s ts t id c s' :
      ts !! t = None -> manager_close_begin s id = Ok (c, s') ->
      manager_step (mkManager s ts) (mkManager s' (<[t := TaskClosing id (sc_port c)]> ts))
  | mstep_close_abort s ts t id port :
      ts !! t = Some (TaskClosing id port) ->
      manager_step (mkManager s ts) (mkManager (cancel_reconnect s id) (<[t := TaskCloseIo port]> ts))
  | mstep_close_done s ts t port :
      ts !! t = Some (TaskCloseIo port) ->
      manager_step (mkManager s ts) (mkManager (manager_close_finish s port) (delete t ts))
  | mstep_close_cancelled s ts t id port :
      closes_cancelled -> ts !! t = Some (TaskClosing id port) \/ ts !! t = Some (TaskCloseIo port) ->
      manager_step (mkManager s ts) (mkManager s (delete t ts))
  (** The reconnect tasks come and go. *)
  | mstep_cancel_reconnect s ts id :
      manager_step (mkManager s ts) (mkManager (cancel_reconnect s id) ts)
  | mstep_reconnect_check s ts is_finished id :
      manager_step (mkManager s ts) (mkManager (start_reconnect_check s is_finished id).2 ts)
  | mstep_reconnect_insert s ts id task :
      manager_step (mkManager s ts) (mkManager (start_reconnect_insert s id task) ts).

(** ** Who holds a port *)

Inductive Holder := HConn (id : list byte) | HOpen (task : nat) | HClose (task : nat).

Definition holds (s : ManagerSys) (port : list byte) (h : Holder) : Prop :=
  match h with
  | HConn id => exists c, connections (m_registry s) !! id = Some c /\ sc_port c = port
  | HOpen t => m_tasks s !! t = Some (TaskOpening port) \/ m_tasks s !! t = Some (TaskReleasing port)
  | HClose t => (exists id, m_tasks s !! t = Some (TaskClosing id port)) \/
                m_tasks s !! t = Some (TaskCloseIo port)
  end.

Definition manager_inv (s : ManagerSys) : Prop :=
  (forall port h1 h2, holds s port h1 -> holds s port h2 -> h1 = h2) /\
  (forall port, port ∈ opening_ports (m_registry s) <-> exists t, holds s port (HOpen t)) /\
  (forall port, (exists t, holds s port (HClose t)) -> port ∈ closing_ports (m_registry s)) /\
  (forall port h, holds s port h -> port ∈ closing_ports (m_registry s) -> exists t, h = HClose t) /\
  (~ closes_cancelled -> forall port,
     port ∈ closing_ports (m_registry s) -> exists t, holds s port (HClose t)).

(** *** How the holders change *)

Definition task_port (task : ManagerTask) : list byte :=
  match task with
  | TaskOpening port | TaskReleasing port | TaskClosing _ port | TaskCloseIo port => port
  end.

Definition holder_of (t : nat) (task : ManagerTask) : Holder :=
  match task with TaskOpening _ | TaskReleasing _ => HOpen t | _ => HClose t end.

(** The holder a task number stands for. *)
Definition holder_at (ts : gmap nat ManagerTask) (t : nat) : option Holder := holder_of t <$> ts !! t.

Lemma holds_task s ts p h :
  holds (mkManager s ts) p h <->
  (exists id c, h = HConn id /\ connections s !! id = Some c /\ sc_port c = p) \/
  (exists t task, ts !! t = Some task /\ h = holder_of t task /\ task_port task = p).
Proof.
  split.
  - destruct h as [id|t|t]; simpl; [by naive_solver| |];
      intros; right; exists t; naive_solver.
  - intros [(id & c & -> & ?)|(t & task & Ht & -> & <-)]; [by exists c|].
    destruct task; simpl; naive_solver.
Qed.

Lemma holder_of_task t t' task task' : holder_of t task = holder_of t' task' -> t = t'.
Proof. destruct task, task'; simpl; congruence. Qed.

Lemma holds_set_task s ts t task p h :
  holds (mkManager s (<[t := task]> ts)) p h <->
  (p = task_port task /\ Some (holder_of t task) = Some h) \/
  (holds (mkManager s ts) p h /\ holder_at ts t <> Some h).
Proof.
  rewrite !holds_task. split.
  - intros [(id & c & -> & Hc)|(t' & task' & Ht' & -> & <-)].
    + right. split; [left; eauto|]. unfold holder_at. destruct (ts !! t) as [ [] |]; done.
    + apply lookup_insert_Some in Ht' as [ [<- <-] | [Hne Ht'] ]; [by left|]. right.
      split; [right; eauto|]. intros (task0 & _ & Heq%eq_sym%holder_of_task)%fmap_Some. done.
  - intros [ [-> [= <-] ] |[Hh Hold] ]; [right; exists t, task; by rewrite lookup_insert_eq|].
    destruct Hh as [Hc|(t' & task' & Ht' & -> & <-)]; [by left|]. right. exists t', task'.
    split; [|done]. rewrite lookup_insert_ne; [done|]. intros <-. apply Hold. unfold holder_at.
    by rewrite Ht'.
Qed.

Lemma holds_del_task s ts t p h :
  holds (mkManager s (delete t ts)) p h <->
  holds (mkManager s ts) p h /\ holder_at ts t <> Some h.
Proof.
  rewrite !holds_task. split.
  - intros [(id & c & -> & Hc)|(t' & task' & Ht' & -> & <-)].
    + split; [left; eauto|]. unfold holder_at. destruct (ts !! t) as [ [] |]; done.
    + apply lookup_delete_Some in Ht' as [Hne Ht'].
      split; [right; eauto|]. intros (task0 & _ & Heq%eq_sym%holder_of_task)%fmap_Some. done.
  - intros [ [Hc|(t' & task' & Ht' & -> & <-)] Hold]; [by left|]. right. exists t', task'.
    split; [|done]. rewrite lookup_delete_ne; [done|]. intros <-. apply Hold. unfold holder_at.
    by rewrite Ht'.
Qed.

Lemma holds_add_conn s s' ts c p h :
  connections s' = <[sc_id c := c]> (connections s) -> connections s !! sc_id c = None ->
  holds (mkManager s' ts) p h <->
  (p = sc_port c /\ Some (HConn (sc_id c)) = Some h) \/ holds (mkManager s ts) p h.
Proof.
  intros Hs Hid. destruct h as [id|t|t]; simpl; [|naive_solver..].
  rewrite Hs. setoid_rewrite lookup_insert_Some. naive_solver.
Qed.

Lemma holds_del_conn s s' ts id p h :
  connections s' = delete id (connections s) ->
  holds (mkManager s' ts) p h <-> holds (mkManager s ts) p h /\ Some (HConn id) <> Some h.
Proof.
  intros Hs. destruct h as [id'|t|t]; simpl; [|naive_solver..].
  rewrite Hs. setoid_rewrite lookup_delete_Some. naive_solver.
Qed.

Lemma holds_same s s' ts p h :
  connections s' = connections s -> holds (mkManager s' ts) p h <-> holds (mkManager s ts) p h.
Proof. intros Hs. destruct h; simpl; [by rewrite Hs|done..]. Qed.

(** A step concerns one port: [old], its only holder if any, gives way to [new]. *)
Lemma inv_at s s' p0 old new :
  manager_inv s ->
  (forall p h, holds s' p h <-> (p = p0 /\ new = Some h) \/ (holds s p h /\ old <> Some h)) ->
  (forall h, holds s p0 h <-> old = Some h) ->
  (forall p, p <> p0 ->
     (p ∈ opening_ports (m_registry s') <-> p ∈ opening_ports (m_registry s)) /\
     (p ∈ closing_ports (m_registry s') <-> p ∈ closing_ports (m_registry s))) ->
  (p0 ∈ opening_ports (m_registry s') <-> exists t, new = Some (HOpen t)) ->
  ((exists t, new = Some (HClose t)) -> p0 ∈ closing_ports (m_registry s')) ->
  (p0 ∈ closing_ports (m_registry s') ->
     (exists t, new = Some (HClose t)) \/ closes_cancelled /\ new = None) ->
  manager_inv s'.
Proof.
  intros (Huniq & Hopen & Hclose & Hexcl & Hlive) Hh Hold Hsets Ho Hc1 Hc2.
  assert (H0 : forall h, holds s' p0 h <-> new = Some h).
  { intros h. rewrite Hh, Hold. naive_solver. }
  assert (Hne : forall p h, p <> p0 -> holds s' p h <-> holds s p h).
  { intros p h Hp. rewrite Hh. split; [naive_solver|]. intros Hph. right. split; [done|].
    intros Ho0%Hold. destruct Hp. destruct h; simpl in *; naive_solver. }
  split_and!.
  - intros p h1 h2 Hh1 Hh2. destruct (decide (p = p0)) as [->|Hp].
    + apply H0 in Hh1, Hh2. congruence.
    + apply Hne in Hh1, Hh2; try done. by eapply Huniq.
  - intros p. destruct (decide (p = p0)) as [->|Hp].
    + rewrite Ho. by setoid_rewrite H0.
    + destruct (Hsets p Hp) as [-> _]. rewrite Hopen. by setoid_rewrite Hne.
  - intros p. destruct (decide (p = p0)) as [->|Hp].
    + setoid_rewrite H0. done.
    + destruct (Hsets p Hp) as [_ ->]. setoid_rewrite Hne; [|done]. apply Hclose.
  - intros p h Hph Hp. destruct (decide (p = p0)) as [->|Hp0].
    + apply H0 in Hph. destruct (Hc2 Hp) as [ [t Ht] | [_ Hn] ]; [|congruence]. exists t. congruence.
    + apply (Hsets p Hp0) in Hp. apply Hne in Hph; [|done]. by eapply Hexcl.
  - intros Hcc p Hp. destruct (decide (p = p0)) as [->|Hp0].
    + destruct (Hc2 Hp) as [ [t Ht] | [? _] ]; [|done]. exists t. by apply H0.
    + apply (Hsets p Hp0) in Hp. setoid_rewrite Hne; [|done]. by apply Hlive.
Qed.

(** A step that concerns no port. *)
Lemma inv_same s ts r :
  manager_inv (mkManager s ts) -> connections r = connections s ->
  opening_ports r = opening_ports s -> closing_ports r = closing_ports s ->
  manager_inv (mkManager r ts).
Proof.
  intros Hinv Hc Ho Hcl.
  assert (forall p h, holds (mkManager r ts) p h <-> holds (mkManager s ts) p h) as Hh.
  { intros p [id|t|t]; simpl; [by rewrite Hc|done|done]. }
  destruct Hinv as (? & Hopen & ? & ? & ?). unfold manager_inv. cbn [m_registry] in *.
  rewrite Ho, Hcl. setoid_rewrite Hh. done.
Qed.

Lemma check_port_ok s port u :
  check_port s port = Ok u ->
  (forall id c, connections s !! id = Some c -> sc_port c <> port) /\
  port ∉ opening_ports s /\ port ∉ closing_ports s.
Proof.
  unfold check_port, find_connection_by_port.
  destruct (list_find _ _) as [x|] eqn:Hf; [done|]. cbn [fmap option_fmap option_map].
  apply list_find_None in Hf. repeat case_bool_decide; try done.
  intros _. split; [|done]. intros id c Hid%elem_of_map_to_list.
  rewrite Forall_forall in Hf. by apply (Hf (id, c)).
Qed.

(** A port that may be opened has no holder. *)
Lemma check_port_free s ts port u :
  manager_inv (mkManager s ts) -> check_port s port = Ok u ->
  (forall h, ~ holds (mkManager s ts) port h) /\ port ∉ closing_ports s.
Proof.
  intros (_ & Hopen & Hclose & _) (Hc & Ho & Hcl)%check_port_ok. split; [|done].
  intros [id|t|t] Hh.
  - destruct Hh as (c & Hid & Hp). by eapply Hc.
  - apply Ho, Hopen. by exists t.
  - apply Hcl, Hclose. by exists t.
Qed.


(** A known holder is the only one. *)
Lemma only_holder s p h : manager_inv s -> holds s p h -> forall h', holds s p h' <-> Some h = Some h'.
Proof.
  intros (Huniq & _) Hh h'. split; [|by intros [= <-] ]. intros Hh'. f_equal. by eapply Huniq.
Qed.

Lemma task_holds s ts t task :
  ts !! t = Some task -> holds (mkManager s ts) (task_port task) (holder_of t task).
Proof. intros Ht. apply holds_task. right. eauto. Qed.

(** The port of a task that opens is reserved and not being closed; the port of a
    task that closes is being closed and not reserved. *)
Lemma opening_ports_of s ts t task :
  manager_inv (mkManager s ts) -> ts !! t = Some task -> holder_of t task = HOpen t ->
  task_port task ∉ closing_ports s.
Proof.
  intros (_ & _ & _ & Hexcl & _) Ht Hk Hc. destruct (Hexcl _ _ (task_holds s ts t task Ht) Hc).
  congruence.
Qed.

Lemma closing_ports_of s ts t task :
  manager_inv (mkManager s ts) -> ts !! t = Some task -> holder_of t task = HClose t ->
  task_port task ∈ closing_ports s /\ task_port task ∉ opening_ports s.
Proof.
  intros (Huniq & Hopen & Hclose & _) Ht Hk. pose proof (task_holds s ts t task Ht) as Hh.
  rewrite Hk in Hh. split; [by apply Hclose; exists t|].
  intros [t' Ht']%Hopen. assert (HOpen t' = HClose t) by (by eapply Huniq). done.
Qed.

(** The steps of a task that opens: its reservation goes to [new]. *)
Lemma opening_inv s ts t task s' ts' new :
  manager_inv (mkManager s ts) -> ts !! t = Some task -> holder_of t task = HOpen t ->
  (forall p h, holds (mkManager s' ts') p h <->
     (p = task_port task /\ new = Some h) \/
     (holds (mkManager s ts) p h /\ holder_at ts t <> Some h)) ->
  closing_ports s' = closing_ports s ->
  (forall p, p <> task_port task -> p ∈ opening_ports s' <-> p ∈ opening_ports s) ->
  (task_port task ∈ opening_ports s' <-> exists t', new = Some (HOpen t')) ->
  (forall t', new <> Some (HClose t')) ->
  manager_inv (mkManager s' ts').
Proof.
  intros Hinv Ht Hk Hh Hcl Hop Hpo Hnew.
  pose proof (only_holder _ _ _ Hinv (task_holds s ts t _ Ht)) as Hold.
  pose proof (opening_ports_of s ts t _ Hinv Ht Hk) as Hnc.
  assert (Hat : holder_at ts t = Some (holder_of t task)) by (unfold holder_at; by rewrite Ht).
  apply (inv_at (mkManager s ts) _ (task_port task) (Some (holder_of t task)) new); cbn; try done.
  - by rewrite <- Hat.
  - intros p Hp. rewrite Hcl. split; [by apply Hop|done].
  - intros [t' Ht']. by apply Hnew in Ht'.
  - by rewrite Hcl.
Qed.

(** The steps of a task that closes. *)
Lemma closing_inv s ts t task s' ts' new :
  manager_inv (mkManager s ts) -> ts !! t = Some task -> holder_of t task = HClose t ->
  (forall p h, holds (mkManager s' ts') p h <->
     (p = task_port task /\ new = Some h) \/
     (holds (mkManager s ts) p h /\ holder_at ts t <> Some h)) ->
  opening_ports s' = opening_ports s ->
  (forall p, p <> task_port task -> p ∈ closing_ports s' <-> p ∈ closing_ports s) ->
  (new = Some (HClose t) /\ closing_ports s' = closing_ports s \/
   new = None /\ (task_port task ∉ closing_ports s' \/ closes_cancelled)) ->
  manager_inv (mkManager s' ts').
Proof.
  intros Hinv Ht Hk Hh Hop Hcl Hnew.
  pose proof (only_holder _ _ _ Hinv (task_holds s ts t _ Ht)) as Hold.
  destruct (closing_ports_of s ts t _ Hinv Ht Hk) as [Hc Hno].
  assert (Hat : holder_at ts t = Some (holder_of t task)) by (unfold holder_at; by rewrite Ht).
  apply (inv_at (mkManager s ts) _ (task_port task) (Some (holder_of t task)) new); cbn; try done.
  - by rewrite <- Hat.
  - intros p Hp. rewrite Hop. split; [done|by apply Hcl].
  - rewrite Hop. split; [done|]. destruct Hnew as [ [-> _] | [-> _] ]; by intros [].
  - destruct Hnew as [ [_ ->] | [-> _] ]; [done|by intros []].
  - destruct Hnew as [ [-> _] | [-> [Hnc|Hcc] ] ]; [by eauto|done|by auto].
Qed.

Lemma manager_step_inv s s' : manager_inv s -> manager_step s s' -> manager_inv s'.
Proof.
  intros Hinv Hstep.
  destruct Hstep as [s ts t port s' Ht Ho|s ts t port c Ht Hp Hid|s ts t port Ht|s ts t port Ht
    |s ts t port Ht|s ts c s' Hid Hi|s ts t id c s' Ht Hc|s ts t id port Ht|s ts t port Ht
    |s ts t id port Hcc Ht|s ts id|s ts f id|s ts id task].
  - apply result_bind_ok in Ho as ([] & Hchk & [= <-]).
    destruct (check_port_free _ _ _ _ Hinv Hchk) as [Hfree Hcl].
    apply (inv_at (mkManager s ts) _ port None (Some (HOpen t)));
      [done| | |set_solver|set_solver|naive_solver|done].
    + intros p h. rewrite holds_set_task, (holds_same s) by done. unfold holder_at. by rewrite Ht.
    + intros h. split; [by intros ?%Hfree|done].
  - eapply (opening_inv s ts t _ _ _ (Some (HConn (sc_id c)))); try done; cbn; [|set_solver..].
    intros p h. by rewrite (holds_add_conn s), holds_del_task, Hp.
  - eapply (opening_inv s ts t _ _ _ None); try done; cbn; [|set_solver..].
    intros p h. rewrite holds_del_task, (holds_same s) by done. naive_solver.
  - pose proof Hinv as (_ & Hopen & _).
    eapply (opening_inv s ts t _ _ _ (Some (HOpen t))); try done; cbn.
    + intros p h. by rewrite holds_set_task.
    + rewrite (Hopen port). split; [by eauto|]. exists t. by left.
  - eapply (opening_inv s ts t _ _ _ None); try done; cbn; [|set_solver..].
    intros p h. rewrite holds_del_task, (holds_same s) by done. naive_solver.
  - apply result_bind_ok in Hi as ([] & Hchk & [= <-]).
    destruct (check_port_free _ _ _ _ Hinv Hchk) as [Hfree Hcl].
    apply (inv_at (mkManager s ts) _ (sc_port c) None (Some (HConn (sc_id c)))); try done; cbn.
    + intros p h. rewrite (holds_add_conn s) by done. naive_solver.
    + intros h. split; [by intros ?%Hfree|done].
    + destruct Hinv as (_ & Hopen & _). rewrite (Hopen (sc_port c)). split; [|naive_solver].
      intros [t Ht]. by apply Hfree in Ht.
    + naive_solver.
  - apply result_bind_ok in Hc as (c' & Hc%ok_or_ok & [= -> <-]).
    assert (Hh : holds (mkManager s ts) (sc_port c) (HConn id)) by (by exists c).
    pose proof (only_holder _ _ _ Hinv Hh) as Hold.
    apply (inv_at (mkManager s ts) _ (sc_port c) (Some (HConn id)) (Some (HClose t)));
      [done| |done|set_solver| |cbn; set_solver|by eauto].
    + intros p h. rewrite holds_set_task, (holds_del_conn s) by done. unfold holder_at. rewrite Ht.
      cbn. naive_solver.
    + cbn. destruct Hinv as (_ & Hopen & _). rewrite (Hopen (sc_port c)). split; [|naive_solver].
      by intros [t' Ht'%Hold].
  - eapply (closing_inv s ts t _ _ _ (Some (HClose t))); try done; cbn; [|by auto].
    intros p h. by rewrite holds_set_task, (holds_same s).
  - eapply (closing_inv s ts t _ _ _ None); try done; cbn; [|set_solver|right; set_solver].
    intros p h. rewrite holds_del_task, (holds_same s) by done. naive_solver.
  - destruct Ht as [Ht|Ht]; (eapply (closing_inv s ts t _ _ _ None); try done; cbn; [|by auto]).
    all: intros p h; rewrite holds_del_task; naive_solver.
  - by apply (inv_same s).
  - by apply (inv_same s).
  - by apply (inv_same s).
Qed.

Definition manager_start : ManagerSys := mkManager registry_new ∅.

Lemma manager_reach_inv s : rtc manager_step manager_start s -> manager_inv s.
Proof.
  assert (H0 : manager_inv manager_start).
  { assert (Hno : forall p h, ~ holds manager_start p h).
    { intros p h Hh. apply holds_task in Hh as [(id & c & _ & Hc & _)|(t & task & Ht & _)].
      - cbn [connections registry_new m_registry] in Hc. by apply lookup_empty_Some in Hc.
      - by apply lookup_empty_Some in Ht. }
    unfold manager_inv. cbn. split_and!; set_solver. }
  by apply rtc_preserves; [apply manager_step_inv|].
Qed.

Lemma check_port_complete s ts port :
  manager_inv (mkManager s ts) -> (forall h, ~ holds (mkManager s ts) port h) ->
  port ∉ closing_ports s -> check_port s port = Ok tt.
Proof.
  intros (_ & Hopen & _) Hfree Hcl. unfold check_port, find_connection_by_port.
  destruct (list_find _ _) as [ [i [id c] ] |] eqn:Hf; cbn.
  - apply list_find_Some in Hf as (Hl & Hp & _). exfalso. apply (Hfree (HConn id)). exists c.
    split; [|done]. by apply list_elem_of_lookup_2, elem_of_map_to_list in Hl.
  - rewrite !bool_decide_eq_false_2; [done|done|]. intros [t Ht]%Hopen. by apply (Hfree (HOpen t)).
Qed.
End Steps.

(** C12: a port has one holder.  Calls open, insert and close
    connections in any interleaving; the opener fails, opens are cancelled at any
    point, with the guard released at once or by a detached task, and closes too
    if [closes_cancelled].  At every moment each port is held by at most one of a
    registered connection, an open under way and a close under way; the reserved
    ports are exactly those of the opens and releases under way, so no failed or
    cancelled open leaves a reservation behind; an open is admitted only for a port
    that nobody holds; and if closes are not cancelled, for every such port. *)
Theorem port_exclusive (closes_cancelled : Prop) s :
  rtc (manager_step closes_cancelled) manager_start s ->
  (forall port h1 h2, holds s port h1 -> holds s port h2 -> h1 = h2) /\
  (forall port, port ∈ opening_ports (m_registry s) <-> exists t, holds s port (HOpen t)) /\
  (forall port s', open_begin (m_registry s) port = Ok s' -> forall h, ~ holds s port h) /\
  (~ closes_cancelled -> forall port, (forall h, ~ holds s port h) ->
     exists s', open_begin (m_registry s) port = Ok s').
Proof.
  intros Hinv%manager_reach_inv. destruct s as [s ts]. pose proof Hinv as (Huniq & Hopen & _ & _ & Hlive).
  split_and!; [done..| |].
  - intros port s' ([] & Hchk & _)%result_bind_ok. by eapply check_port_free.
  - intros Hcc port Hfree. unfold open_begin. cbn [m_registry].
    rewrite (check_port_complete closes_cancelled s ts port); [by eexists|done..|].
    intros [t Ht]%Hlive; [by apply Hfree in Ht|done].
Qed.

(** A port that is being closed and has no holder keeps none. *)
Lemma wedged_step closes_cancelled s s' port :
  port ∈ closing_ports (m_registry s) -> (forall h, ~ holds s port h) ->
  manager_step closes_cancelled s s' ->
  port ∈ closing_ports (m_registry s') /\ forall h, ~ holds s' port h.
Proof.
  intros Hcl Hfree Hstep.
  assert (Hadmit : forall s p u, check_port s p = Ok u -> port ∈ closing_ports s -> port <> p).
  { intros s0 p u (_ & _ & Hn)%check_port_ok Hc ->. done. }
  assert (Htask : forall t task, m_tasks s !! t = Some task -> port <> task_port task).
  { intros t task Ht ->. destruct s as [s0 ts]. by eapply Hfree, task_holds. }
  destruct Hstep as [s ts t p s' Ht Ho|s ts t p c Ht Hp Hid|s ts t p Ht|s ts t p Ht
    |s ts t p Ht|s ts c s' Hid Hi|s ts t id c s' Ht Hc|s ts t id p Ht|s ts t p Ht
    |s ts t id p Hcc Ht|s ts id|s ts f id|s ts id task]; cbn [m_registry m_tasks] in *.
  - apply result_bind_ok in Ho as (u & Hchk & [= <-]). split; [done|]. intros h.
    rewrite holds_set_task, (holds_same s) by done. pose proof (Hadmit _ _ _ Hchk Hcl). naive_solver.
  - apply Htask in Ht. split; [done|]. intros h. rewrite (holds_add_conn s), holds_del_task by done.
    naive_solver.
  - split; [done|]. intros h. rewrite holds_del_task, (holds_same s) by done. naive_solver.
  - apply Htask in Ht. split; [done|]. intros h. rewrite holds_set_task. naive_solver.
  - split; [done|]. intros h. rewrite holds_del_task, (holds_same s) by done. naive_solver.
  - apply result_bind_ok in Hi as (u & Hchk & [= <-]). split; [done|]. intros h.
    rewrite (holds_add_conn s) by done. pose proof (Hadmit _ _ _ Hchk Hcl). naive_solver.
  - apply result_bind_ok in Hc as (c' & Hc%ok_or_ok & [= -> <-]). split; [set_solver|]. intros h.
    assert (port <> sc_port c) by (intros ->; by apply (Hfree (HConn id)); exists c).
    rewrite holds_set_task, (holds_del_conn s) by done. naive_solver.
  - apply Htask in Ht. split; [done|]. intros h. rewrite holds_set_task, (holds_same s) by done.
    naive_solver.
  - apply Htask in Ht. split; [set_solver|]. intros h. rewrite holds_del_task, (holds_same s) by done.
    naive_solver.
  - split; [done|]. intros h. rewrite holds_del_task. naive_solver.
  - split; [done|]. intros h. by rewrite (holds_same s).
  - split; [done|]. intros h. by rewrite (holds_same s).
  - split; [done|]. intros h. by rewrite (holds_same s).
Qed.

(** A close that is dropped before it completes leaves its port refused for good:
    every later open of the port fails, whatever else happens. *)
Lemma cancelled_close_wedges_port closes_cancelled s s' port :
  rtc (manager_step closes_cancelled) manager_start s ->
  port ∈ closing_ports (m_registry s) -> (forall h, ~ holds s port h) ->
  rtc (manager_step closes_cancelled) s s' ->
  open_begin (m_registry s') port = Err (PortAlreadyOpening port).
Proof.
  intros Hinv%manager_reach_inv Hcl Hfree Hreach.
  assert (Hw : port ∈ closing_ports (m_registry s') /\ forall h, ~ holds s' port h).
  { revert Hreach. apply (rtc_preserves _ (fun x => port ∈ closing_ports (m_registry x) /\
      forall h, ~ holds x port h)); [|done]. intros x y [? ?] Hs. by eapply wedged_step. }
  destruct Hw as [Hcl' Hfree'], s' as [s' ts'].
  unfold open_begin, check_port, find_connection_by_port.
  destruct (list_find _ _) as [ [i [id c] ] |] eqn:Hf; cbn.
  - apply list_find_Some in Hf as (Hl & Hp & _). exfalso. apply (Hfree' (HConn id)). exists c.
    split; [|done]. by apply list_elem_of_lookup_2, elem_of_map_to_list in Hl.
  - rewrite (bool_decide_eq_true_2 (port ∈ closing_ports s')) by done. by rewrite orb_true_r.
Qed.

Definition an_identity (id port : string) : Identity := mkIdentity (bs id) (bs port) None None 1024.

(** An open is cancelled while the lock is contended; the next open of the port is
    refused until the detached task has run, then one open succeeds. *)
Definition opened_or_same (s : ConnectionRegistry) (port : list byte) : ConnectionRegistry :=
  match open_begin s port with Ok s' => s' | Err _ => s end.

Definition after_retry : ManagerSys :=
  let s1 := opened_or_same registry_new (bs "a") in
  let s2 := release_reservation s1 (bs "a") in
  let s3 := opened_or_same s2 (bs "a") in
  mkManager (open_finish s3 (bs "a") (an_identity "x" "a"))
    (delete 1%nat (<[1%nat := TaskOpening (bs "a")]>
      (delete 0%nat (<[0%nat := TaskReleasing (bs "a")]> (<[0%nat := TaskOpening (bs "a")]> ∅))))).

Lemma port_exclusive_witness :
  open_begin (opened_or_same registry_new (bs "a")) (bs "a") = Err (PortAlreadyOpening (bs "a")) /\
  (forall port h1 h2, holds after_retry port h1 -> holds after_retry port h2 -> h1 = h2) /\
  holds after_retry (bs "a") (HConn (bs "x")).
Proof.
  split; [by vm_compute|]. split; [|exists (an_identity "x" "a"); by vm_compute].
  apply (port_exclusive False). unfold after_retry, manager_start.
  eapply rtc_l. { apply (mstep_open _ _ _ 0 (bs "a") (opened_or_same registry_new (bs "a"))); by vm_compute. }
  eapply rtc_l. { apply (mstep_open_dropped_contended _ _ _ 0 (bs "a")). by vm_compute. }
  eapply rtc_l. { apply (mstep_release _ _ _ 0 (bs "a")). by vm_compute. }
  eapply rtc_l. { apply (mstep_open _ _ _ 1 (bs "a") (opened_or_same
      (release_reservation (opened_or_same registry_new (bs "a")) (bs "a")) (bs "a"))); by vm_compute. }
  eapply rtc_once. apply (mstep_opened _ _ _ 1 (bs "a") (an_identity "x" "a")); by vm_compute.
Defined.

(** ** Reconnecting *)

(** [u64 as f64] and the arithmetic of [f64], round to nearest. *)
Definition f64_of_u64 (z : Z) : spec_float := binary_normalize 53 1024 z 0 false.
Definition f64_mul (a b : spec_float) : spec_float := SFmul 53 1024 a b.

Definition is_nan (x : spec_float) : bool := match x with S754_nan => true | _ => false end.

(** [f64::min]: the other operand if one is a NaN. *)
Definition f64_min (a b : spec_float) : spec_float :=
  if is_nan a then b else if is_nan b then a else if SFltb b a then b else a.

(** [f64 as u64]: towards zero, saturating, a NaN is zero. *)
Definition f64_to_u64 (x : spec_float) : Z :=
  match x with
  | S754_nan | S754_zero _ | S754_infinity true | S754_finite true _ _ => 0
  | S754_infinity false => U64_MAX
  | S754_finite false m e => Z.min U64_MAX (if e <? 0 then Z.pos m / 2 ^ (- e) else Z.pos m * 2 ^ e)
  end.

(** The next delay of the backoff. *)
Definition next_delay (policy : ReconnectPolicy) (delay_ms : Z) : Z :=
  f64_to_u64 (f64_min (f64_mul (f64_of_u64 delay_ms) (rp_backoff_multiplier policy))
                (f64_of_u64 (rp_max_delay_ms policy))).

(** How the loop of the reconnect task stands. *)
Inductive ReconnectEnd := StillTrying | NotDisconnected | Reconnected | Exhausted.

(** The loop of the task: each round is the connection state at its head and
    whether the attempt after the sleep succeeds.  The result are the sleeps. *)
Fixpoint reconnect_loop (policy : ReconnectPolicy) (delay_ms attempts : Z)
    (rounds : list (ConnectionState * bool)) : list Z * ReconnectEnd :=
  match rounds with
  | [] => ([], StillTrying)
  | (state, success) :: rounds =>
      match state with
      | CsOpen | CsClosed => ([], NotDisconnected)
      | _ =>
          if success then ([delay_ms], Reconnected)
          else
            let attempts := attempts + 1 in
            if (0 <? rp_max_attempts policy) && (rp_max_attempts policy <=? attempts)
            then ([delay_ms], Exhausted)
            else
              let '(sleeps, e) := reconnect_loop policy (next_delay policy delay_ms) attempts rounds in
              (delay_ms :: sleeps, e)
      end
  end.

Definition reconnect_task (policy : ReconnectPolicy) (rounds : list (ConnectionState * bool))
    : list Z * ReconnectEnd :=
  reconnect_loop policy (rp_initial_delay_ms policy) 0 rounds.

Lemma reconnect_loop_bound policy rounds : forall delay attempts,
  0 < rp_max_attempts policy -> attempts < rp_max_attempts policy ->
  zlen (reconnect_loop policy delay attempts rounds).1 <= rp_max_attempts policy - attempts.
Proof.
  induction rounds as [|[state success] rounds IH]; intros delay attempts Hm Ha.
  { change (0 <= rp_max_attempts policy - attempts). lia. }
  cbn [reconnect_loop]. destruct state; try (cbn [fst]; rewrite zlen_nil; lia).
  all: destruct success; [cbn [fst]; rewrite zlen_cons, zlen_nil; lia|].
  all: destruct ((0 <? rp_max_attempts policy) && (rp_max_attempts policy <=? attempts + 1)) eqn:E;
    [cbn [fst]; rewrite zlen_cons, zlen_nil; lia|].
  all: specialize (IH (next_delay policy delay) (attempts + 1) Hm).
  all: destruct (reconnect_loop _ _ _ _) as [sleeps e]; cbn [fst] in *; rewrite zlen_cons; lia.
Qed.

(** One task makes at most [max_attempts] attempts. *)
Lemma reconnect_task_bound policy rounds :
  0 < rp_max_attempts policy -> zlen (reconnect_task policy rounds).1 <= rp_max_attempts policy.
Proof.
  intros Hm. pose proof (reconnect_loop_bound policy rounds (rp_initial_delay_ms policy) 0 Hm).
  unfold reconnect_task. lia.
Qed.

(** The default policy: the delays double up to the cap, ten attempts. *)
Example default_backoff :
  reconnect_task ReconnectPolicy_default (replicate 20 (CsDisconnected, false))
  = ([500; 1000; 2000; 4000; 8000; 16000; 30000; 30000; 30000; 30000], Exhausted).
Proof. vm_compute. reflexivity. Qed.

(** The first delay is not capped by [max_delay_ms]. *)
Example initial_delay_ignores_cap :
  (reconnect_task (mkPolicy true 2 60000 1000 f64_two) (replicate 2 (CsDisconnected, false))).1
  = [60000; 1000].
Proof. vm_compute. reflexivity. Qed.

(** One poll of the reconnect supervisor ([src/server.rs]) for a connection:
    whether it starts a task. *)
Definition supervisor_poll (s : ConnectionRegistry) (is_finished : nat -> bool) (id : list byte)
    (state : ConnectionState) (policy : ReconnectPolicy) : bool * ConnectionRegistry :=
  match state with
  | CsDisconnected =>
      if rp_enabled policy && is_some (connections s !! id)
      then start_reconnect_check s is_finished id else (false, s)
  | _ => (false, s)
  end.

(** [max_attempts] does not end the attempts: a task that gave up leaves the
    connection disconnected, and the next poll starts another. *)
Lemma exhausted_task_is_restarted s is_finished id task c policy :
  connections s !! id = Some c -> reconnect_tasks s !! id = Some task -> is_finished task = true ->
  rp_enabled policy = true ->
  (supervisor_poll s is_finished id CsDisconnected policy).1 = true.
Proof.
  intros Hc Ht Hf Hp. unfold supervisor_poll, start_reconnect_check. rewrite Hp, Hc. cbn.
  destruct (filter _ _ !! id) eqn:E; [|done].
  apply map_lookup_filter_Some in E as [Hl Hn]. cbn in Hn. congruence.
Qed.


(** Each handler has its own supervisor ([SerialHandlerBuilder::build]).  Two
    polls that both check before either stores its task start two tasks, of which
    one is remembered. *)
Example duplicate_reconnect_tasks :
  let s := mkRegistry {[bs "x" := an_identity "x" "a"]} ∅ ∅ ∅ in
  let '(go1, s) := start_reconnect_check s (fun _ => false) (bs "x") in
  let '(go2, s) := start_reconnect_check s (fun _ => false) (bs "x") in
  let s := start_reconnect_insert (start_reconnect_insert s (bs "x") 1) (bs "x") 2 in
  go1 = true /\ go2 = true /\ map_to_list (reconnect_tasks s) = [(bs "x", 2%nat)].
Proof. vm_compute. done. Qed.
