(* ===== verification/CaptureStore.v ===== *)
(** * [src/capture_store.rs]: the persistent capture store

    File names, the quota scan and the commit transaction on the capture
    directory, then any number of cooperating processes that run it under the
    advisory lock.  The directory is a map from names to entries; an I/O failure
    at each file operation is an input. *)

From S2P Require Import Prelude Util RustStr.

(** What [symlink_metadata] tells of an entry: a regular file with its content,
    a symbolic link, or anything else. *)
Inductive Entry :=
  | RegularFile (content : list byte)
  | Symlink
  | Special.

#[export] Instance Entry_eq_dec : EqDecision Entry.
Proof. solve_decision. Defined.

Abbreviation Dir := (gmap (list byte) Entry).

Record CaptureLimits := mkLimits {
  max_file_bytes : Z;
  max_total_bytes : Z;
  max_files : Z;
}.

Record CaptureWriteResult := mkWriteResult {
  cw_path : list byte;
  bytes_written : Z;
  files_used : Z;
  total_bytes_used : Z;
  durability_warning : option (list byte);
}.

Record RootUsage := mkUsage { usage_files : Z; usage_bytes : Z }.

Inductive CaptureError :=
  | CaptureDisabled
  | NameEmpty | NameTooLong | NameNotAscii | NameIsDot | NameHasSeparator | NameSuffix
  | NameReservedPrefix | NameFirstChar | NameChar | NameReservedStem (stem : list byte)
  | RootNotAbsolute | LimitZero | FileLimitOverTotal (file total : Z) | RootIsSymlink | RootNotDir
  | OverFileQuota (bytes max : Z)
  | LockIsSymlink | LockNotRegular
  | SymlinkManaged (name : list byte)
  | FileCountOverflow | TotalBytesOverflow
  | DestinationExists
  | OverFileCount (files max : Z)
  | OverTotalBytes (bytes max : Z)
  | CaptureIo (text : list byte).

Definition CAPTURE_LOCK_FILE : list byte := bs ".serial-mcp-captures.lock".
Definition CAPTURE_TEMP_PREFIX : list byte := bs ".serial-mcp-capture-".
Definition CAPTURE_RESERVED_PREFIX : list byte := bs ".serial-mcp-".
Definition MAX_CAPTURE_FILENAME_LEN : Z := 120.
Definition CAPTURE_FILENAME_SUFFIX : list byte := bs ".jsonl".

(** ** File names *)

Definition is_windows_reserved_stem (stem : list byte) : bool :=
  let upper := to_ascii_uppercase <$> stem in
  let reserved_numeric p :=
    match strip_prefix upper p with
    | Some [c] => is_ascii_digit c && negb (bool_decide (c = x30))
    | _ => false
    end in
  existsb (fun s => bool_decide (upper = s)) [bs "CON"; bs "PRN"; bs "AUX"; bs "NUL"]
  || (reserved_numeric (bs "COM") || reserved_numeric (bs "LPT")).

Definition name_char (b : byte) : bool :=
  is_ascii_alphanumeric b || bool_decide (b = x2e) || bool_decide (b = x5f) || bool_decide (b = x2d).

Definition validate_capture_filename (name : list byte) : result CaptureError unit :=
  match name with
  | [] => Err NameEmpty
  | first :: rest =>
      if MAX_CAPTURE_FILENAME_LEN <? zlen name then Err NameTooLong
      else if negb (forallb is_ascii name) then Err NameNotAscii
      else if bool_decide (name = bs ".") || bool_decide (name = bs "..") then Err NameIsDot
      else if bool_decide (x2f ∈ name) || bool_decide (x5c ∈ name) then Err NameHasSeparator
      else if negb (ends_with name CAPTURE_FILENAME_SUFFIX) then Err NameSuffix
      else if contains name CAPTURE_RESERVED_PREFIX then Err NameReservedPrefix
      else if negb (is_ascii_alphanumeric first) then Err NameFirstChar
      else if negb (forallb name_char rest) then Err NameChar
      else
        let stem := default name (head (split_on (fun b => bool_decide (b = x2e)) name)) in
        if is_windows_reserved_stem stem then Err (NameReservedStem stem) else Ok tt
  end.

Definition is_managed_capture_filename (name : list byte) : bool :=
  is_ok (validate_capture_filename name).

(** ** The transaction on the directory *)

(** Which file operations of one transaction fail, with the error text:
    [symlink_metadata] and reading an entry by name, the others once each. *)
Record CommitFaults := mkCommitFaults {
  cf_stat : list byte -> option (list byte);
  cf_entry : list byte -> option (list byte);
  cf_open_lock : option (list byte);
  cf_lock : option (list byte);
  cf_read_dir : option (list byte);
  cf_temp : option (list byte);
  cf_write : option (list byte);
  cf_sync : option (list byte);
  cf_persist : option (list byte);
  cf_root_sync : option (list byte);
}.

Definition no_commit_faults : CommitFaults :=
  mkCommitFaults (fun _ => None) (fun _ => None) None None None None None None None None.

(** A fallible step. *)
Definition io (fault : option (list byte)) : result CaptureError unit :=
  match fault with Some e => Err (CaptureIo e) | None => Ok tt end.

(** [symlink_metadata]; [None] is [NotFound]. *)
Definition symlink_metadata (io_ : CommitFaults) (d : Dir) (name : list byte)
    : result CaptureError (option Entry) :=
  _ ← io (cf_stat io_ name); Ok (d !! name).

(** [acquire_root_lock]: opening the lock file creates it if it is missing. *)
Definition acquire_root_lock (io_ : CommitFaults) (d : Dir) : result CaptureError unit * Dir :=
  match symlink_metadata io_ d CAPTURE_LOCK_FILE with
  | Err e => (Err e, d)
  | Ok (Some Symlink) => (Err LockIsSymlink, d)
  | Ok (Some Special) => (Err LockNotRegular, d)
  | Ok found =>
      match io (cf_open_lock io_) with
      | Err e => (Err e, d)
      | Ok _ =>
          (io (cf_lock io_),
           match found with Some _ => d | None => <[CAPTURE_LOCK_FILE := RegularFile []]> d end)
      end
  end.

(** The entries the scan looks at: valid UTF-8 names that are neither the lock
    nor a temp file and satisfy the name contract. *)
Definition counted (name : list byte) : bool :=
  utf8_valid name
  && negb (bool_decide (name = CAPTURE_LOCK_FILE) || starts_with name CAPTURE_TEMP_PREFIX)
  && is_managed_capture_filename name.

(** The loop of [scan_managed_usage] over the entries. *)
Fixpoint scan_entries (io_ : CommitFaults) (entries : list (list byte * Entry)) (files total : Z)
    : result CaptureError RootUsage :=
  match entries with
  | [] => Ok (mkUsage files total)
  | (name, entry) :: entries =>
      _ ← io (cf_entry io_ name);
      if negb (counted name) then scan_entries io_ entries files total
      else
        _ ← io (cf_stat io_ name);
        match entry with
        | Symlink => Err (SymlinkManaged name)
        | Special => scan_entries io_ entries files total
        | RegularFile content =>
            files ← ok_or (checked_add files 1) FileCountOverflow;
            total ← ok_or (checked_add total (zlen content)) TotalBytesOverflow;
            scan_entries io_ entries files total
        end
  end.

(** [scan_managed_usage]. [read_dir] gives the entries in an unspecified order;
    the usage does not depend on it ([scan_usage]). *)
Definition scan_managed_usage (io_ : CommitFaults) (d : Dir) : result CaptureError RootUsage :=
  _ ← io (cf_read_dir io_); scan_entries io_ (map_to_list d) 0 0.

(** The checks before any lock, in [write_new] and again in [commit_new_file]. *)
Definition check_file (name bytes : list byte) (limits : CaptureLimits) : result CaptureError Z :=
  _ ← validate_capture_filename name;
  let bytes_len := zlen bytes in
  if max_file_bytes limits <? bytes_len then Err (OverFileQuota bytes_len (max_file_bytes limits))
  else Ok bytes_len.

(** The checks of [commit_new_file] under the lock: the usage after the commit. *)
Definition check_quota (io_ : CommitFaults) (d : Dir) (name : list byte) (bytes_len : Z)
    (limits : CaptureLimits) : result CaptureError RootUsage :=
  usage ← scan_managed_usage io_ d;
  dest ← symlink_metadata io_ d name;
  match dest with
  | Some _ => Err DestinationExists
  | None =>
      new_files ← ok_or (checked_add (usage_files usage) 1) FileCountOverflow;
      if max_files limits <? new_files then Err (OverFileCount new_files (max_files limits))
      else
        new_total ← ok_or (checked_add (usage_bytes usage) bytes_len) TotalBytesOverflow;
        if max_total_bytes limits <? new_total
        then Err (OverTotalBytes new_total (max_total_bytes limits))
        else Ok (mkUsage new_files new_total)
  end.

(** Creating and filling the temp file [tmp]; dropping the [NamedTempFile] on an
    error removes it. *)
Definition write_temp (io_ : CommitFaults) (d : Dir) (tmp bytes : list byte)
    : result CaptureError unit * Dir :=
  match io (cf_temp io_) with
  | Err e => (Err e, d)
  | Ok _ =>
      match _ ← io (cf_write io_); io (cf_sync io_) with
      | Err e => (Err e, delete tmp (<[tmp := RegularFile bytes]> d))
      | Ok _ => (Ok tt, <[tmp := RegularFile bytes]> d)
      end
  end.

(** [persist_noclobber]: an atomic rename that refuses an existing destination. *)
Definition persist_noclobber (io_ : CommitFaults) (d : Dir) (tmp dest : list byte)
    : result CaptureError unit * Dir :=
  match io (cf_persist io_), d !! tmp, d !! dest with
  | Err e, _, _ => (Err e, delete tmp d)
  | Ok _, None, _ => (Err (CaptureIo (bs "No such file or directory")), d)
  | Ok _, Some _, Some _ => (Err (CaptureIo (bs "File exists")), delete tmp d)
  | Ok _, Some entry, None => (Ok tt, <[dest := entry]> (delete tmp d))
  end.

(** [commit_new_file], with the temp name the [tempfile] crate picks. *)
Definition commit_new_file (io_ : CommitFaults) (tmp : list byte) (d : Dir) (name bytes : list byte)
    (limits : CaptureLimits) : result CaptureError CaptureWriteResult * Dir :=
  match check_file name bytes limits with
  | Err e => (Err e, d)
  | Ok bytes_len =>
      let '(locked, d) := acquire_root_lock io_ d in
      match _ ← locked; check_quota io_ d name bytes_len limits with
      | Err e => (Err e, d)
      | Ok usage =>
          let '(written, d) := write_temp io_ d tmp bytes in
          match written with
          | Err e => (Err e, d)
          | Ok _ =>
              let '(persisted, d) := persist_noclobber io_ d tmp name in
              (_ ← persisted;
               Ok (mkWriteResult name bytes_len (usage_files usage) (usage_bytes usage)
                     (cf_root_sync io_)), d)
          end
      end
  end.

(** ** The store *)

(** [lock] is process-local; the steps below have one transaction per process. *)
Record CaptureStore := mkCapture { root : option (list byte); limits : CaptureLimits }.

Definition capture_disabled : CaptureStore := mkCapture None (mkLimits 0 0 0).

Definition is_enabled (s : CaptureStore) : bool := is_some (root s).

(** [CaptureStore::open] on a root path, with what the file system says of it:
    the entry [symlink_metadata] finds ([is_dir] for a [Special] one) and the
    canonical path. *)
Definition capture_open (io_ : CommitFaults) (is_absolute : bool) (meta : result (list byte) Entry)
    (is_dir : bool) (canonicalize : result (list byte) (list byte)) (d : Dir)
    (limits : CaptureLimits) : result CaptureError CaptureStore * Dir :=
  if negb is_absolute then (Err RootNotAbsolute, d)
  else if (max_file_bytes limits =? 0) || (max_total_bytes limits =? 0) || (max_files limits =? 0)
  then (Err LimitZero, d)
  else if max_total_bytes limits <? max_file_bytes limits
  then (Err (FileLimitOverTotal (max_file_bytes limits) (max_total_bytes limits)), d)
  else
    match map_err CaptureIo meta with
    | Err e => (Err e, d)
    | Ok Symlink => (Err RootIsSymlink, d)
    | Ok _ =>
        if negb is_dir then (Err RootNotDir, d)
        else
          match map_err CaptureIo canonicalize with
          | Err e => (Err e, d)
          | Ok canonical =>
              let '(locked, d) := acquire_root_lock io_ d in
              (_ ← locked; Ok (mkCapture (Some canonical) limits), d)
          end
    end.

(** [write_new]. *)
Definition write_new (s : CaptureStore) (io_ : CommitFaults) (tmp : list byte) (d : Dir)
    (name bytes : list byte) : result CaptureError CaptureWriteResult * Dir :=
  match root s with
  | None => (Err CaptureDisabled, d)
  | Some _ =>
      match check_file name bytes (limits s) with
      | Err e => (Err e, d)
      | Ok _ => commit_new_file io_ tmp d name bytes (limits s)
      end
  end.

(** ** What the quotas count *)

Definition count_weight (name : list byte) (e : Entry) : Z :=
  match e with RegularFile _ => if counted name then 1 else 0 | _ => 0 end.
Definition bytes_weight (name : list byte) (e : Entry) : Z :=
  match e with RegularFile content => if counted name then zlen content else 0 | _ => 0 end.

Definition committed_files : Dir -> Z := map_total count_weight.
Definition committed_bytes : Dir -> Z := map_total bytes_weight.

(** Names of the store's own: the lock and the temp files. *)
Definition reserved (name : list byte) : bool := starts_with name CAPTURE_RESERVED_PREFIX.
Definition temp_name (name : list byte) : bool := starts_with name CAPTURE_TEMP_PREFIX.

Lemma count_weight_range name e : 0 <= count_weight name e <= 1.
Proof. unfold count_weight. repeat case_match; lia. Qed.

Lemma bytes_weight_nonneg name e : 0 <= bytes_weight name e.
Proof. unfold bytes_weight. repeat case_match; try lia. apply zlen_nonneg. Qed.

Lemma uncounted_weight name e :
  counted name = false -> count_weight name e = 0 /\ bytes_weight name e = 0.
Proof. intros Hc. unfold count_weight, bytes_weight. rewrite Hc. by destruct e. Qed.

Lemma scan_entries_total io_ entries : forall files total u,
  scan_entries io_ entries files total = Ok u ->
  usage_files u = files + foldr (fun p acc => count_weight p.1 p.2 + acc) 0 entries /\
  usage_bytes u = total + foldr (fun p acc => bytes_weight p.1 p.2 + acc) 0 entries.
Proof.
  induction entries as [|[name e] entries IH]; intros files total u.
  { simpl. intros [= <-]. simpl. lia. }
  cbn [scan_entries foldr fst snd]. intros (_ & _ & H)%result_bind_ok.
  destruct (counted name) eqn:Hc; cbn [negb] in H.
  2:{ destruct (uncounted_weight name e Hc) as [-> ->]. apply IH in H. lia. }
  apply result_bind_ok in H as (_ & _ & H). unfold count_weight at 1, bytes_weight at 1.
  rewrite Hc. destruct e as [content| |]; [|done|apply IH in H; lia].
  apply result_bind_ok in H as (f & [-> _]%ok_or_ok%checked_add_ok & H).
  apply result_bind_ok in H as (t & [-> _]%ok_or_ok%checked_add_ok & H).
  apply IH in H. lia.
Qed.

(** The scan counts the committed files, whatever the order of the entries. *)
Lemma scan_usage io_ d u :
  scan_managed_usage io_ d = Ok u ->
  usage_files u = committed_files d /\ usage_bytes u = committed_bytes d.
Proof.
  unfold scan_managed_usage. intros (_ & _ & H)%result_bind_ok.
  apply scan_entries_total in H as [-> ->].
  unfold committed_files, committed_bytes, map_total. rewrite !map_fold_foldr.
  split; rewrite Z.add_0_l; induction (map_to_list d) as [|[n e] l IH]; simpl; [done|lia|done|lia].
Qed.

(** ** File names are single components outside the store's own *)

Lemma validate_inv name u :
  validate_capture_filename name = Ok u ->
  exists first rest, name = first :: rest /\ is_ascii_alphanumeric first = true /\
    Forall (fun c => name_char c = true) rest /\ zlen name <= MAX_CAPTURE_FILENAME_LEN /\
    Forall (fun c => is_ascii c = true) name /\ contains name CAPTURE_RESERVED_PREFIX = false /\
    ends_with name CAPTURE_FILENAME_SUFFIX = true.
Proof.
  destruct name as [|first rest]; [done|]. unfold validate_capture_filename.
  repeat (case_match; try done).
  all: intros _; exists first, rest.
  all: repeat match goal with
    | H : negb _ = false |- _ => apply negb_false_iff in H
    | H : forallb _ _ = true |- _ => apply forallb_true in H
    end.
  all: split_and!; try done; try lia.
Qed.

Lemma reserved_uncounted name : reserved name = true -> counted name = false.
Proof.
  intros [k ->]%starts_with_spec. unfold counted, is_managed_capture_filename.
  destruct (validate_capture_filename _) eqn:Hv; [|by rewrite andb_false_r].
  apply validate_inv in Hv as (first & rest & Heq & Hfirst & _). cbn in Heq.
  injection Heq as <- _. discriminate.
Qed.

Lemma temp_reserved name : temp_name name = true -> reserved name = true.
Proof.
  intros [k ->]%starts_with_spec. apply starts_with_spec.
  exists (bs "capture-" ++ k). by rewrite (assoc app).
Qed.

Lemma lock_reserved : reserved CAPTURE_LOCK_FILE = true /\ temp_name CAPTURE_LOCK_FILE = false.
Proof. by vm_compute. Qed.

Lemma valid_counted name u :
  validate_capture_filename name = Ok u -> counted name = true /\ reserved name = false.
Proof.
  intros Hv. assert (Hr : reserved name = false).
  { apply validate_inv in Hv as (first & rest & -> & Hfirst & _).
    apply not_true_iff_false. intros [k Hk]%starts_with_spec. cbn in Hk.
    injection Hk as -> _. discriminate. }
  split; [|done]. unfold counted, is_managed_capture_filename. rewrite Hv.
  apply validate_inv in Hv as (_ & _ & _ & _ & _ & _ & Hascii & _).
  rewrite utf8_valid_ascii by done. cbn [andb is_ok]. rewrite andb_true_r.
  apply negb_true_iff, orb_false_iff. split.
  - apply bool_decide_eq_false. intros ->. by destruct lock_reserved as [Hl _]; rewrite Hl in Hr.
  - apply not_true_iff_false. intros Ht%temp_reserved. congruence.
Qed.

Lemma check_file_ok name bytes limits n :
  check_file name bytes limits = Ok n ->
  n = zlen bytes /\ zlen bytes <= max_file_bytes limits /\ counted name = true /\
  reserved name = false.
Proof.
  unfold check_file. intros (u & Hv & H)%result_bind_ok. case_match; [done|].
  injection H as <-. apply valid_counted in Hv as [Hc Hr]. split_and!; [done|lia|done|done].
Qed.

Lemma acquire_root_lock_dir io_ d r d' :
  acquire_root_lock io_ d = (r, d') ->
  (forall n, n <> CAPTURE_LOCK_FILE -> d' !! n = d !! n) /\
  committed_files d' = committed_files d /\ committed_bytes d' = committed_bytes d.
Proof.
  unfold acquire_root_lock, symlink_metadata. intros H.
  assert (Hd : d' = d \/ d !! CAPTURE_LOCK_FILE = None /\ d' = <[CAPTURE_LOCK_FILE := RegularFile []]> d).
  { destruct (io (cf_stat io_ CAPTURE_LOCK_FILE)); [|by simplify_eq/=; left].
    cbn [mbind result_bind] in H. destruct (d !! CAPTURE_LOCK_FILE) as [ [ | | ] |] eqn:Hl;
      [|by simplify_eq/=; left..|]; destruct (io (cf_open_lock io_)); simplify_eq/=; auto. }
  destruct Hd as [->|[Hn ->] ]; [done|].
  destruct (uncounted_weight CAPTURE_LOCK_FILE (RegularFile [])) as [Hc Hb].
  { apply reserved_uncounted, lock_reserved. }
  unfold committed_files, committed_bytes. rewrite !map_total_insert, Hc, Hb by done.
  split; [|done]. intros n Hne. by rewrite lookup_insert_ne.
Qed.

Lemma check_quota_ok io_ d name len limits u :
  check_quota io_ d name len limits = Ok u ->
  d !! name = None /\
  usage_files u = committed_files d + 1 /\ usage_files u <= max_files limits /\
  usage_bytes u = committed_bytes d + len /\ usage_bytes u <= max_total_bytes limits.
Proof.
  unfold check_quota. intros (us & [Hf Hb]%scan_usage & H)%result_bind_ok.
  apply result_bind_ok in H as (dest & Hdest & H). unfold symlink_metadata in Hdest.
  apply result_bind_ok in Hdest as (_ & _ & [= <-]). destruct (d !! name); [done|].
  apply result_bind_ok in H as (nf & [-> _]%ok_or_ok%checked_add_ok & H). case_match; [done|].
  apply result_bind_ok in H as (nt & [-> _]%ok_or_ok%checked_add_ok & H). case_match; [done|].
  injection H as <-. cbn. split_and!; try done; lia.
Qed.

Lemma write_temp_dir io_ d tmp bytes r d' :
  d !! tmp = None -> write_temp io_ d tmp bytes = (r, d') ->
  d' = match r with Ok _ => <[tmp := RegularFile bytes]> d | Err _ => d end.
Proof.
  unfold write_temp. intros Hn H. destruct (io (cf_temp io_)); [|by simplify_eq].
  destruct (_ ← io (cf_write io_); io (cf_sync io_)); simplify_eq; [done|].
  by rewrite delete_insert_id.
Qed.

Lemma persist_noclobber_dir io_ d tmp dest content r d' :
  d !! tmp = Some (RegularFile content) ->
  persist_noclobber io_ d tmp dest = (r, d') ->
  match r with
  | Ok _ => d !! dest = None /\ d' = <[dest := RegularFile content]> (delete tmp d)
  | Err _ => d' = delete tmp d
  end.
Proof.
  unfold persist_noclobber. intros Ht H. rewrite Ht in H.
  destruct (io (cf_persist io_)), (d !! dest); by simplify_eq.
Qed.

(** A commit: moving a temp file to a free name adds one file of its size. *)
Lemma rename_totals d tmp name content :
  temp_name tmp = true -> d !! tmp = Some (RegularFile content) -> d !! name = None ->
  counted name = true ->
  committed_files (<[name := RegularFile content]> (delete tmp d)) = committed_files d + 1 /\
  committed_bytes (<[name := RegularFile content]> (delete tmp d)) = committed_bytes d + zlen content.
Proof.
  intros Htmp Hd Hn Hc.
  destruct (uncounted_weight tmp (RegularFile content)) as [Hf0 Hb0].
  { by apply reserved_uncounted, temp_reserved. }
  unfold committed_files, committed_bytes.
  rewrite !map_total_insert by (rewrite lookup_delete_ne; [done|congruence]).
  rewrite (map_total_delete count_weight d tmp _ Hd), (map_total_delete bytes_weight d tmp _ Hd).
  rewrite Hf0, Hb0. unfold count_weight at 1, bytes_weight at 1. rewrite Hc. lia.
Qed.

(** A commit happens completely or not at all.  With a fresh
    temp name, and whichever file operations fail: if [commit_new_file] succeeds,
    the file was not there, is there now with exactly the given bytes, no other
    file of the directory has changed, and the figures of the result are the real
    usage of the directory afterwards, within the limits; a failed sync of the
    directory is only a warning.  If it fails, no file of the directory has
    changed and no temp file is left.  (The lock file may have been created.) *)
Theorem commit_is_atomic io_ tmp d name bytes limits r d' :
  temp_name tmp = true -> d !! tmp = None ->
  commit_new_file io_ tmp d name bytes limits = (r, d') ->
  match r with
  | Ok res =>
      d !! name = None /\
      (forall n, n <> CAPTURE_LOCK_FILE ->
         d' !! n = if decide (n = name) then Some (RegularFile bytes) else d !! n) /\
      cw_path res = name /\ bytes_written res = zlen bytes /\
      zlen bytes <= max_file_bytes limits /\
      files_used res = committed_files d' /\ files_used res <= max_files limits /\
      total_bytes_used res = committed_bytes d' /\ total_bytes_used res <= max_total_bytes limits
  | Err _ => forall n, n <> CAPTURE_LOCK_FILE -> d' !! n = d !! n
  end.
Proof.
  intros Htmp Hfresh. unfold commit_new_file.
  destruct (check_file name bytes limits) as [len|e] eqn:Hfile; [|by intros [= <- <-] ].
  destruct (acquire_root_lock io_ d) as [locked d1] eqn:Hlock.
  apply acquire_root_lock_dir in Hlock as (Hd1 & Hf1 & Hb1).
  apply check_file_ok in Hfile as (-> & Hmax & Hc & Hr).
  assert (Htl : tmp <> CAPTURE_LOCK_FILE) by (intros ->; by destruct lock_reserved; congruence).
  assert (Hnl : name <> CAPTURE_LOCK_FILE) by (intros ->; by destruct lock_reserved; congruence).
  assert (Hnt : tmp <> name) by (intros ->; apply temp_reserved in Htmp; congruence).
  destruct (_ ← locked; check_quota _ _ _ _ _) as [u|e] eqn:Hq; [|by intros [= <- <-] ].
  apply result_bind_ok in Hq as (_ & _ & (Hfree & Hfu & Hfm & Hbu & Hbm)%check_quota_ok).
  rewrite <- (Hd1 tmp) in Hfresh by done.
  destruct (write_temp io_ d1 tmp bytes) as [w d2] eqn:Hw.
  apply write_temp_dir in Hw as ->; [|done]. destruct w as [[]|e]; [|by intros [= <- <-] ].
  destruct (persist_noclobber _ _ _ _) as [p d3] eqn:Hp.
  eapply persist_noclobber_dir in Hp; [|by rewrite lookup_insert_eq].
  destruct p as [[]|e]; intros [= <- <-]; cbn [mbind result_bind].
  2:{ intros n Hne. rewrite Hp, delete_insert_id by done. by apply Hd1. }
  destruct Hp as [Hfree' ->].
  destruct (rename_totals (<[tmp := RegularFile bytes]> d1) tmp name bytes) as [Hcf Hcb];
    [done|by rewrite lookup_insert_eq|done|done|].
  destruct (uncounted_weight tmp (RegularFile bytes)) as [Hf0 Hb0].
  { by apply reserved_uncounted, temp_reserved. }
  rewrite Hcf, Hcb. unfold committed_files, committed_bytes in *.
  rewrite !map_total_insert, Hf0, Hb0 by done. cbn.
  split_and!; try done; try lia.
  - by rewrite <- Hd1.
  - intros n Hne. rewrite delete_insert_id by done. case_decide as Hn; [subst n|].
    + by rewrite lookup_insert_eq.
    + rewrite lookup_insert_ne by done. by apply Hd1.
Qed.

(** ** Cooperating processes on one directory *)

(** Where a process is in [write_new]: outside, or under the advisory lock after
    taking it, after the quota checks, after writing the temp file, after the
    rename; then its result. *)
Inductive CapturePc :=
  | CIdle
  | CLocked (name bytes : list byte)
  | CChecked (name bytes : list byte) (usage : RootUsage)
  | CWritten (name bytes : list byte) (usage : RootUsage) (tmp : list byte)
  | CCommitted (name bytes : list byte) (usage : RootUsage)
  | CReturned (r : result CaptureError CaptureWriteResult).

Definition under_lock (pc : CapturePc) : bool :=
  match pc with CIdle | CReturned _ => false | _ => true end.

(** The directory, who holds the lock, and the processes. *)
Record CaptureSys := mkCaptureSys {
  c_dir : Dir;
  c_owner : option nat;
  c_procs : gmap nat CapturePc;
}.

Section Processes.
Context (limits_of : nat -> CaptureLimits).

Inductive commit_step (p : nat) : CaptureSys -> CaptureSys -> Prop :=
  | commit_refused d o ps name bytes e :
      ps !! p = Some CIdle -> check_file name bytes (limits_of p) = Err e ->
      commit_step p (mkCaptureSys d o ps) (mkCaptureSys d o (<[p := CReturned (Err e)]> ps))
  | commit_lock_fails d o ps io_ name bytes n e d' :
      ps !! p = Some CIdle -> check_file name bytes (limits_of p) = Ok n ->
      acquire_root_lock io_ d = (Err e, d') ->
      commit_step p (mkCaptureSys d o ps) (mkCaptureSys d' o (<[p := CReturned (Err e)]> ps))
  | commit_lock d ps io_ name bytes n u d' :
      ps !! p = Some CIdle -> check_file name bytes (limits_of p) = Ok n ->
      acquire_root_lock io_ d = (Ok u, d') ->
      commit_step p (mkCaptureSys d None ps) (mkCaptureSys d' (Some p) (<[p := CLocked name bytes]> ps))
  | commit_quota_fails d o ps io_ name bytes e :
      ps !! p = Some (CLocked name bytes) ->
      check_quota io_ d name (zlen bytes) (limits_of p) = Err e ->
      commit_step p (mkCaptureSys d o ps) (mkCaptureSys d None (<[p := CReturned (Err e)]> ps))
  | commit_quota d o ps io_ name bytes u :
      ps !! p = Some (CLocked name bytes) ->
      check_quota io_ d name (zlen bytes) (limits_of p) = Ok u ->
      commit_step p (mkCaptureSys d o ps) (mkCaptureSys d o (<[p := CChecked name bytes u]> ps))
  | commit_write_fails d o ps io_ name bytes u tmp e d' :
      ps !! p = Some (CChecked name bytes u) -> temp_name tmp = true -> d !! tmp = None ->
      write_temp io_ d tmp bytes = (Err e, d') ->
      commit_step p (mkCaptureSys d o ps) (mkCaptureSys d' None (<[p := CReturned (Err e)]> ps))
  | commit_write d o ps io_ name bytes u tmp v d' :
      ps !! p = Some (CChecked name bytes u) -> temp_name tmp = true -> d !! tmp = None ->
      write_temp io_ d tmp bytes = (Ok v, d') ->
      commit_step p (mkCaptureSys d o ps) (mkCaptureSys d' o (<[p := CWritten name bytes u tmp]> ps))
  | commit_persist_fails d o ps io_ name bytes u tmp e d' :
      ps !! p = Some (CWritten name bytes u tmp) ->
      persist_noclobber io_ d tmp name = (Err e, d') ->
      commit_step p (mkCaptureSys d o ps) (mkCaptureSys d' None (<[p := CReturned (Err e)]> ps))
  | commit_persist d o ps io_ name bytes u tmp v d' :
      ps !! p = Some (CWritten name bytes u tmp) ->
      persist_noclobber io_ d tmp name = (Ok v, d') ->
      commit_step p (mkCaptureSys d o ps) (mkCaptureSys d' o (<[p := CCommitted name bytes u]> ps))
  | commit_return d o ps io_ name bytes u :
      ps !! p = Some (CCommitted name bytes u) ->
      commit_step p (mkCaptureSys d o ps)
        (mkCaptureSys d None
           (<[p := CReturned (Ok (mkWriteResult name (zlen bytes) (usage_files u) (usage_bytes u)
                                    (cf_root_sync io_)))]> ps))
  | commit_again d o ps r :
      ps !! p = Some (CReturned r) ->
      commit_step p (mkCaptureSys d o ps) (mkCaptureSys d o (<[p := CIdle]> ps))
  (** The process dies and is started again; the system releases its lock, a temp
      file stays. *)
  | commit_crash d o ps pc :
      ps !! p = Some pc ->
      commit_step p (mkCaptureSys d o ps)
        (mkCaptureSys d (if under_lock pc then None else o) (<[p := CIdle]> ps)).

(** Other programs delete files and create entries the store does not count; they
    leave the store's own names alone. *)
Inductive outside_step : CaptureSys -> CaptureSys -> Prop :=
  | outside_delete d o ps name :
      reserved name = false ->
      outside_step (mkCaptureSys d o ps) (mkCaptureSys (delete name d) o ps)
  | outside_create d o ps name e :
      reserved name = false -> d !! name = None -> count_weight name e = 0 ->
      outside_step (mkCaptureSys d o ps) (mkCaptureSys (<[name := e]> d) o ps).

Definition capture_step (s s' : CaptureSys) : Prop :=
  (exists p, commit_step p s s') \/ outside_step s s'.

Definition capture_start (d : Dir) (procs : gset nat) : CaptureSys :=
  mkCaptureSys d None (gset_to_gmap CIdle procs).

(** What a process knows at each point of its transaction. *)
Definition file_ok (p : nat) (name bytes : list byte) : Prop :=
  counted name = true /\ reserved name = false /\ zlen bytes <= max_file_bytes (limits_of p).

Definition usage_ok (p : nat) (u : RootUsage) (files bytes : Z) : Prop :=
  files <= usage_files u <= max_files (limits_of p) /\
  bytes <= usage_bytes u <= max_total_bytes (limits_of p).

Definition pc_ok (d : Dir) (p : nat) (pc : CapturePc) : Prop :=
  match pc with
  | CIdle | CReturned _ => True
  | CLocked name bytes => file_ok p name bytes
  | CChecked name bytes u =>
      file_ok p name bytes /\ usage_ok p u (committed_files d + 1) (committed_bytes d + zlen bytes)
  | CWritten name bytes u tmp =>
      (file_ok p name bytes /\
       usage_ok p u (committed_files d + 1) (committed_bytes d + zlen bytes)) /\
      temp_name tmp = true /\ d !! tmp = Some (RegularFile bytes)
  | CCommitted name bytes u =>
      file_ok p name bytes /\ usage_ok p u (committed_files d) (committed_bytes d)
  end.

(** The store is within the bounds, and only the holder of the lock is inside. *)
Definition capture_inv (files bytes : Z) (s : CaptureSys) : Prop :=
  committed_files (c_dir s) <= files /\ committed_bytes (c_dir s) <= bytes /\
  forall p pc, c_procs s !! p = Some pc ->
    pc_ok (c_dir s) p pc /\ (under_lock pc = true -> c_owner s = Some p).

(** A change of the directory that a process in its transaction does not see. *)
Definition dir_le (d' d : Dir) : Prop :=
  committed_files d' <= committed_files d /\ committed_bytes d' <= committed_bytes d /\
  forall n, temp_name n = true -> d' !! n = d !! n.

Lemma pc_ok_stable d d' p pc : dir_le d' d -> pc_ok d p pc -> pc_ok d' p pc.
Proof.
  intros (Hf & Hb & Ht). destruct pc; simpl; unfold usage_ok; try done.
  - intros [? ?]. split; [done|lia].
  - intros [ [? ?] [Htmp ?] ]. rewrite Ht by done. split; [split; [done|lia]|done].
  - intros [? ?]. split; [done|lia].
Qed.

(** A step of the process that holds the lock. *)
Lemma inv_inside files bytes d o ps p pc0 d' o' pc' :
  capture_inv files bytes (mkCaptureSys d o ps) -> ps !! p = Some pc0 -> under_lock pc0 = true ->
  committed_files d' <= files -> committed_bytes d' <= bytes -> pc_ok d' p pc' ->
  (under_lock pc' = true -> o' = Some p) ->
  capture_inv files bytes (mkCaptureSys d' o' (<[p := pc']> ps)).
Proof.
  intros (_ & _ & Hps) Hp0 Hl Hf Hb Hok Hlock. split_and!; [done..|]. cbn in *.
  intros q pc [ [<- <-] | [Hne Hq] ]%lookup_insert_Some; [done|].
  destruct (Hps p pc0 Hp0) as [_ Ho]. destruct (Hps q pc Hq) as [_ Hoq].
  specialize (Ho Hl). assert (under_lock pc = false).
  { apply not_true_iff_false. intros Hu%Hoq. congruence. }
  by destruct pc.
Qed.

(** A step of a process outside its transaction, or of another program. *)
Lemma inv_outside files bytes d o ps p d' o' pc' :
  capture_inv files bytes (mkCaptureSys d o ps) -> (o' = o \/ o = None) -> dir_le d' d ->
  pc_ok d' p pc' -> (under_lock pc' = true -> o' = Some p) ->
  capture_inv files bytes (mkCaptureSys d' o' (<[p := pc']> ps)).
Proof.
  intros (Hf & Hb & Hps) Ho Hd Hok Hlock. cbn in *.
  split_and!; cbn; [destruct Hd as (? & ? & _); lia..|].
  intros q pc [ [<- <-] | [Hne Hq] ]%lookup_insert_Some; [done|].
  destruct (Hps q pc Hq) as [Hokq Hoq]. split; [by eapply pc_ok_stable|].
  intros Hu. destruct Ho as [->| ->]; [by apply Hoq|]. by specialize (Hoq Hu).
Qed.

Lemma acquire_dir_le io_ d r d' : acquire_root_lock io_ d = (r, d') -> dir_le d' d.
Proof.
  intros (Hd & Hf & Hb)%acquire_root_lock_dir. split_and!; [lia..|].
  intros n Hn. apply Hd. intros ->. by destruct lock_reserved; congruence.
Qed.

Lemma dir_le_refl d : dir_le d d.
Proof. by split_and!. Qed.

Lemma temp_totals d tmp e :
  temp_name tmp = true -> d !! tmp = None ->
  committed_files (<[tmp := e]> d) = committed_files d /\
  committed_bytes (<[tmp := e]> d) = committed_bytes d.
Proof.
  intros Ht Hn. destruct (uncounted_weight tmp e) as [Hf Hb].
  { by apply reserved_uncounted, temp_reserved. }
  unfold committed_files, committed_bytes. rewrite !map_total_insert by done. lia.
Qed.

Lemma totals_delete_le d name :
  committed_files (delete name d) <= committed_files d /\
  committed_bytes (delete name d) <= committed_bytes d.
Proof.
  split; apply map_total_delete_le; intros; [apply count_weight_range|apply bytes_weight_nonneg].
Qed.

Lemma temp_not_name tmp name : temp_name tmp = true -> reserved name = false -> tmp <> name.
Proof. intros Ht%temp_reserved Hr ->. congruence. Qed.

Lemma commit_step_inv files bytes p s s' :
  max_files (limits_of p) <= files -> max_total_bytes (limits_of p) <= bytes ->
  capture_inv files bytes s -> commit_step p s s' -> capture_inv files bytes s'.
Proof.
  intros Hmf Hmb Hinv Hstep. pose proof Hinv as (Hf & Hb & Hps).
  destruct Hstep as [d o ps n b e Hp Hc|d o ps i n b len e d' Hp Hc Hl|d ps i n b len v d' Hp Hc Hl
    |d o ps i n b e Hp Hq|d o ps i n b u Hp Hq|d o ps i n b u t e d' Hp Ht Hn Hw
    |d o ps i n b u t v d' Hp Ht Hn Hw|d o ps i n b u t e d' Hp Hr|d o ps i n b u t v d' Hp Hr
    |d o ps i n b u Hp|d o ps r Hp|d o ps pc Hp]; cbn [c_dir c_procs c_owner] in *;
    destruct (Hps _ _ Hp) as [Hok Ho].
  - eapply inv_outside; [done|by left|apply dir_le_refl|done|done].
  - eapply inv_outside; [done|by left|by eapply acquire_dir_le|done|done].
  - eapply inv_outside; [done|by right|by eapply acquire_dir_le| |done].
    apply check_file_ok in Hc as (_ & ? & ? & ?). by split_and!.
  - by eapply inv_inside.
  - eapply inv_inside; [done..| |by intros; apply Ho].
    apply check_quota_ok in Hq as (_ & ? & ? & ? & ?). split; [done|]. split; lia.
  - eapply inv_inside; [done..| | |done|done]; by apply write_temp_dir in Hw as ->.
  - apply write_temp_dir in Hw as ->; [|done].
    destruct (temp_totals d t (RegularFile b) Ht Hn) as [Hf' Hb'].
    eapply inv_inside; [done..|by rewrite Hf'|by rewrite Hb'| |by intros; apply Ho].
    simpl. rewrite Hf', Hb', lookup_insert_eq. done.
  - destruct Hok as (_ & Ht & Hd). eapply persist_noclobber_dir in Hr as ->; [|done].
    destruct (totals_delete_le d t). eapply inv_inside; [done..|lia|lia|done|done].
  - destruct Hok as ( [Hfile [Huf Hub] ] & Ht & Hd).
    eapply persist_noclobber_dir in Hr as [Hn ->]; [|done].
    destruct (rename_totals d t n b) as [Hf' Hb']; [done|done|done|by destruct Hfile|].
    eapply inv_inside; [done..|lia|lia| |by intros; apply Ho].
    simpl. rewrite Hf', Hb'. done.
  - by eapply inv_inside.
  - eapply inv_outside; [done|by left|apply dir_le_refl|done|done].
  - destruct (under_lock pc) eqn:Hu; [by eapply inv_inside|].
    eapply inv_outside; [done|by left|apply dir_le_refl|done|done].
Qed.

Lemma outside_step_inv files bytes s s' :
  capture_inv files bytes s -> outside_step s s' -> capture_inv files bytes s'.
Proof.
  intros (Hf & Hb & Hps) Hstep.
  assert (Hd : dir_le (c_dir s') (c_dir s)).
  { assert (Htn : forall n name, temp_name n = true -> reserved name = false -> n <> name).
    { intros n name. apply temp_not_name. }
    destruct Hstep as [d o ps name Hr|d o ps name e Hr Hn Hw]; cbn [c_dir].
    - destruct (totals_delete_le d name). split_and!; [done..|].
      intros n Hn. by rewrite lookup_delete_ne by (apply not_eq_sym; auto).
    - assert (bytes_weight name e = 0) as Hbw.
      { unfold count_weight, bytes_weight in *. repeat case_match; done. }
      unfold dir_le, committed_files, committed_bytes. rewrite !map_total_insert, Hw, Hbw by done.
      split_and!; [lia..|]. intros n Htmp. by rewrite lookup_insert_ne by (apply not_eq_sym; auto). }
  assert (c_procs s' = c_procs s /\ c_owner s' = c_owner s) as [Hp Ho] by by destruct Hstep.
  split_and!; [destruct Hd as (? & ? & _); lia..|]. rewrite Hp, Ho. intros p pc Hpc.
  destruct (Hps p pc Hpc). split; [by eapply pc_ok_stable|done].
Qed.

(** A process never touches another file. *)
Lemma commit_step_keeps p s s' n e :
  (forall pc, c_procs s !! p = Some pc -> pc_ok (c_dir s) p pc) ->
  commit_step p s s' -> reserved n = false -> c_dir s !! n = Some e -> c_dir s' !! n = Some e.
Proof.
  intros Hok Hstep Hr Hn.
  assert (n <> CAPTURE_LOCK_FILE) as Hnl by (intros ->; by destruct lock_reserved; congruence).
  destruct Hstep as [ | | | | |d o ps i m b u t ? d' Hp Ht Hf Hw|d o ps i m b u t v d' Hp Ht Hf Hw
    |d o ps i m b u t ? d' Hp Hq|d o ps i m b u t v d' Hp Hq| | | ]; cbn [c_dir] in *; try done;
    try (match goal with H : acquire_root_lock _ _ = _ |- _ =>
      apply acquire_root_lock_dir in H as [-> _]; done end).
  - apply write_temp_dir in Hw as ->; done.
  - apply write_temp_dir in Hw as ->; [|done].
    by rewrite lookup_insert_ne by (by apply temp_not_name).
  - destruct (Hok _ Hp) as (_ & Ht & Hd). eapply persist_noclobber_dir in Hq as ->; [|done].
    by rewrite lookup_delete_ne by (by apply temp_not_name).
  - destruct (Hok _ Hp) as (_ & Ht & Hd). eapply persist_noclobber_dir in Hq as [Hm ->]; [|done].
    rewrite lookup_insert_ne by congruence. by rewrite lookup_delete_ne by (by apply temp_not_name).
Qed.
End Processes.

(** C29: the quotas hold for all processes together.  Any
    number of processes write captures to one directory, each with its own limits
    within [files] and [bytes], in any interleaving, with any file operation
    failing, processes dying at any point and other programs adding entries that
    do not count or deleting files.  If the directory is within the bounds at the
    start, it is at every moment; at most one process is inside its transaction;
    and no step of a process changes or removes a file that is there, other than
    the store's own lock and temp files. *)
Theorem captures_stay_in_quota limits_of files bytes d procs s :
  (forall p, max_files (limits_of p) <= files /\ max_total_bytes (limits_of p) <= bytes) ->
  committed_files d <= files -> committed_bytes d <= bytes ->
  rtc (capture_step limits_of) (capture_start d procs) s ->
  (committed_files (c_dir s) <= files /\ committed_bytes (c_dir s) <= bytes) /\
  (forall p q pcp pcq, c_procs s !! p = Some pcp -> c_procs s !! q = Some pcq ->
     under_lock pcp = true -> under_lock pcq = true -> p = q) /\
  (forall p s' n e, commit_step limits_of p s s' -> reserved n = false ->
     c_dir s !! n = Some e -> c_dir s' !! n = Some e).
Proof.
  intros Hlim Hf Hb Hreach.
  assert (Hinv : capture_inv limits_of files bytes s).
  { eapply rtc_preserves; [| |exact Hreach].
    - intros x y Hx [ [p Hs] |Hs]; [|by eapply outside_step_inv].
      destruct (Hlim p). by eapply (commit_step_inv limits_of files bytes p x y).
    - split_and!; [done..|]. intros p pc [_ <-]%lookup_gset_to_gmap_Some. done. }
  destruct Hinv as (Hf' & Hb' & Hps). split; [done|]. split.
  - intros p q pcp pcq Hp%Hps Hq%Hps Hlp Hlq.
    destruct Hp as [_ Hop], Hq as [_ Hoq]. specialize (Hop Hlp). specialize (Hoq Hlq). congruence.
  - intros p s' n e Hstep Hr Hn. eapply commit_step_keeps; [|done..]. intros pc Hpc. by apply Hps.
Qed.

Definition small_limits : CaptureLimits := mkLimits 4 6 2.
Definition small_dir : Dir := {[ bs "a.jsonl" := RegularFile [x31; x32] ]}.
Definition a_temp : list byte := bs ".serial-mcp-capture-Xa".

Lemma commit_is_atomic_witness :
  let run := commit_new_file no_commit_faults a_temp small_dir (bs "b.jsonl") [x33; x34; x35]
               small_limits in
  run.1 = Ok (mkWriteResult (bs "b.jsonl") 3 2 5 None) /\ committed_bytes run.2 = 5.
Proof.
  intros run. assert (Hr : run.1 = Ok (mkWriteResult (bs "b.jsonl") 3 2 5 None)) by by vm_compute.
  split; [exact Hr|]. pose proof (surjective_pairing run) as Hrun. rewrite Hr in Hrun.
  apply (commit_is_atomic no_commit_faults a_temp small_dir (bs "b.jsonl") [x33; x34; x35]
    small_limits) in Hrun; [|by vm_compute|by vm_compute].
  symmetry. apply Hrun.
Defined.

(** Two writers; the second is refused at the quota while another program adds a
    note, then the first commits. *)
Definition two_writers : CaptureSys :=
  mkCaptureSys (<[bs "note.txt" := RegularFile [x31]]> (<[CAPTURE_LOCK_FILE := RegularFile []]> small_dir))
    (Some 0%nat)
    (<[0%nat := CChecked (bs "b.jsonl") [x33; x34; x35] (mkUsage 2 5)]>
      (<[0%nat := CLocked (bs "b.jsonl") [x33; x34; x35]]>
        (<[1%nat := CReturned (Err (OverFileQuota 5 4))]> (gset_to_gmap CIdle {[0%nat; 1%nat]})))).

Lemma captures_stay_in_quota_witness :
  (committed_files (c_dir two_writers) <= 2 /\ committed_bytes (c_dir two_writers) <= 6) /\
  (forall p q pcp pcq, c_procs two_writers !! p = Some pcp -> c_procs two_writers !! q = Some pcq ->
     under_lock pcp = true -> under_lock pcq = true -> p = q) /\
  (forall p s' n e, commit_step (fun _ => small_limits) p two_writers s' -> reserved n = false ->
     c_dir two_writers !! n = Some e -> c_dir s' !! n = Some e).
Proof.
  apply (captures_stay_in_quota (fun _ => small_limits) 2 6 small_dir {[0%nat; 1%nat]}).
  - intros _. split; discriminate.
  - vm_compute. discriminate.
  - vm_compute. discriminate.
  - unfold two_writers, capture_start.
    eapply rtc_l.
    { left. exists 1%nat. apply (commit_refused _ _ _ _ _ (bs "c.jsonl") [x31; x31; x31; x31; x31]
        (OverFileQuota 5 4)); reflexivity. }
    eapply rtc_l.
    { left. exists 0%nat. eapply (commit_lock _ _ _ _ no_commit_faults (bs "b.jsonl") [x33; x34; x35] 3 tt);
        reflexivity. }
    eapply rtc_l.
    { right. apply (outside_create _ _ _ (bs "note.txt") (RegularFile [x31])); reflexivity. }
    eapply rtc_once. left. exists 0%nat.
    apply (commit_quota _ _ _ _ _ no_commit_faults (bs "b.jsonl") [x33; x34; x35] (mkUsage 2 5));
      reflexivity.
Defined.

(** Names at the edges of the contract. *)
Example capture_names :
  is_managed_capture_filename <$> [bs "a.jsonl"; bs "com10.jsonl"; bs "COM1.x.jsonl"; bs ".jsonl";
    bs "../a.jsonl"; bs "a.JSONL"; bs "x.serial-mcp-.jsonl"]
  = [true; true; false; false; false; false; false].
Proof. vm_compute. reflexivity. Qed.
