(* ===== verification/RxPump.v ===== *)
(** * [pump_loop] of [src/rx_session.rs] and the live edge of [capture_boot]

    The pump and any number of [capture_boot] calls ([src/tools/control_ops.rs])
    on one connection, as a step relation: the pump gate, the reads of the pump,
    the appends to the ring, the purge and the mark of a capture.  Two components
    of the state are not in the program and only serve the statements: all bytes
    the port has received, and a count of the events in which received bytes leave
    the port without passing the pump. *)

From S2P Require Import Prelude RustStr LogBuffer RxConsume Profiles SerialConfig RxRing Connection.

(** [PUMP_READ_SIZE] and the read timeout of the pump, in milliseconds. *)
Definition PUMP_READ_SIZE : nat := 4096.
Definition PUMP_READ_TIMEOUT : Z := 100.

(** What [pump_loop] does with the result of a read. *)
Inductive PumpAction := PumpAgain | PumpAppend (bytes : list byte) | PumpDisconnect (e : IoError) | PumpStop.

Definition pump_action (r : result SerialError (list byte)) : PumpAction :=
  match r with
  | Ok [] | Err ReadTimeout => PumpAgain
  | Ok bytes => PumpAppend bytes
  | Err (SerialIoError e) => if is_fatal_disconnect e then PumpDisconnect e else PumpStop
  | Err _ => PumpStop
  end.

(** Where the pump is: at the head of its loop, waiting for the gate, reading
    under the gate since [started], holding bytes it has read, marking the
    connection disconnected, publishing, pausing, or gone. *)
Inductive PumpPc :=
  | PTop
  | PWaiting
  | PReading (started : Z)
  | PHolding (bytes : list byte)
  | PDisconnecting (e : IoError)
  | PPublishing
  | PPausing
  | PExited.

(** Where a [capture_boot] is.  [received] and [drops] are the ghost components at
    its purge. *)
Inductive BootPc :=
  | BGated
  | BPurged (received drops : nat)
  | BMarked (mark : Z) (received drops : nat)
  | BReading (mark : Z) (received drops : nat)
  | BFailed.

Inductive GateHolder := GPump | GBoot (n : nat).

Record RxSys := mkRx {
  x_conn : SerialConnection;
  x_ring : RxRing;
  x_gate : option GateHolder;
  x_token : bool;
  x_pump : PumpPc;
  x_boots : gmap nat BootPc;
  x_received : list byte;
  x_drops : nat;
}.

(** The bytes the port has received and nobody has read. *)
Definition input_of (c : SerialConnection) : list byte :=
  match sc_io c with Some d => dev_input d | None => [] end.

(** The pump after a read that returned [r]; the gate is released where the code
    drops it. *)
Definition after_read (r : result SerialError (list byte)) : PumpPc * option GateHolder :=
  match pump_action r with
  | PumpAgain => (PTop, None)
  | PumpAppend bytes => (PHolding bytes, Some GPump)
  | PumpDisconnect e => (PDisconnecting e, Some GPump)
  | PumpStop => (PExited, None)
  end.

Inductive pump_step : RxSys -> RxSys -> Prop :=
  | pump_top c r g tok bs_ rec d :
      pump_step (mkRx c r g tok PTop bs_ rec d)
        (mkRx c r g tok (if tok then PExited else PWaiting) bs_ rec d)
  | pump_gate c r tok bs_ rec d now :
      pump_step (mkRx c r None tok PWaiting bs_ rec d)
        (mkRx c r (Some GPump) tok (PReading now) bs_ rec d)
  | pump_cancelled c r g bs_ rec d t0 :
      pump_step (mkRx c r g true (PReading t0) bs_ rec d) (mkRx c r None true PExited bs_ rec d)
  (** [read]: the check at its start, and its polls. *)
  | pump_refused c r g tok bs_ rec d t0 e :
      ensure_open c = Err e ->
      pump_step (mkRx c r g tok (PReading t0) bs_ rec d)
        (mkRx c r (after_read (Err e)).2 tok (after_read (Err e)).1 bs_ rec d)
  | pump_poll_again c r g tok bs_ rec d t0 now poll c' :
      read_poll c now (t0 + PUMP_READ_TIMEOUT) PUMP_READ_SIZE poll = (None, c') ->
      pump_step (mkRx c r g tok (PReading t0) bs_ rec d) (mkRx c' r g tok (PReading t0) bs_ rec d)
  | pump_poll c r g tok bs_ rec d t0 now poll res c' :
      read_poll c now (t0 + PUMP_READ_TIMEOUT) PUMP_READ_SIZE poll = (Some res, c') ->
      pump_step (mkRx c r g tok (PReading t0) bs_ rec d)
        (mkRx c' r (after_read res).2 tok (after_read res).1 bs_ rec d)
  (** The log and the append, then the gate is dropped. *)
  | pump_append c r g tok bs_ rec d now bytes :
      end_offset (inner r) + zlen bytes < 2 ^ 64 ->
      pump_step (mkRx c r g tok (PHolding bytes) bs_ rec d)
        (mkRx (with_log c (rx_data (sc_log c) now (zlen bytes))) (append r bytes) None tok
           PPublishing bs_ rec d)
  | pump_disconnect c r g tok bs_ rec d now e :
      pump_step (mkRx c r g tok (PDisconnecting e) bs_ rec d)
        (mkRx (mark_disconnected c now (bs "Read error: " ++ io_error_text e)) r None tok PPausing bs_ rec (S d))
  | pump_publish c r g tok bs_ rec d :
      pump_step (mkRx c r g tok PPublishing bs_ rec d) (mkRx c r g tok PTop bs_ rec d)
  | pump_pause c r g tok bs_ rec d :
      pump_step (mkRx c r g tok PPausing bs_ rec d)
        (mkRx c r g tok
           (if tok then PExited
            else match sc_state c with CsOpen => PTop | CsClosed => PExited | _ => PPausing end)
           bs_ rec d).

(** [capture_boot] number [n], from the gate to the read. *)
Inductive boot_step (n : nat) : RxSys -> RxSys -> Prop :=
  | boot_gate c r tok p bs_ rec d :
      bs_ !! n = None ->
      boot_step n (mkRx c r None tok p bs_ rec d)
        (mkRx c r (Some (GBoot n)) tok p (<[n := BGated]> bs_) rec d)
  | boot_purge c r g tok p bs_ rec d c' u :
      bs_ !! n = Some BGated -> flush_buffers c FlushInput None = (Ok u, c') ->
      boot_step n (mkRx c r g tok p bs_ rec d)
        (mkRx c' r g tok p (<[n := BPurged (length rec) (S d)]> bs_) rec (S d))
  | boot_purge_fails c r g tok p bs_ rec d fault e c' :
      bs_ !! n = Some BGated -> flush_buffers c FlushInput fault = (Err e, c') ->
      boot_step n (mkRx c r g tok p bs_ rec d) (mkRx c' r None tok p (<[n := BFailed]> bs_) rec d)
  | boot_mark c r g tok p bs_ rec d rec0 d0 :
      bs_ !! n = Some (BPurged rec0 d0) ->
      boot_step n (mkRx c r g tok p bs_ rec d)
        (mkRx c r g tok p (<[n := BMarked (end_offset (inner r)) rec0 d0]> bs_) rec d)
  (** The reset lines, if configured, and the release of the gate. *)
  | boot_no_reset c r g tok p bs_ rec d mark rec0 d0 :
      bs_ !! n = Some (BMarked mark rec0 d0) ->
      boot_step n (mkRx c r g tok p bs_ rec d)
        (mkRx c r None tok p (<[n := BReading mark rec0 d0]> bs_) rec d)
  | boot_assert c r g tok p bs_ rec d mark rec0 d0 dtr rts fault res c' :
      bs_ !! n = Some (BMarked mark rec0 d0) -> set_dtr_rts_unlocked c dtr rts fault = (res, c') ->
      boot_step n (mkRx c r g tok p bs_ rec d)
        (mkRx c' r None tok p (<[n := if is_ok res then BReading mark rec0 d0 else BFailed]> bs_) rec d).

(** Everything else: the device sends, the ring is flushed, the session is shut
    down and its pump restarted, other calls work on the connection without
    touching its input, or take bytes out of it: the [flush] tool, a read of the
    raw resource ([read_latest]), a close, a reconnect with a fresh device. *)
Inductive other_step : RxSys -> RxSys -> Prop :=
  | other_receive c r g tok p bs_ rec d c' bytes :
      input_of c' = input_of c ++ bytes ->
      other_step (mkRx c r g tok p bs_ rec d) (mkRx c' r g tok p bs_ (rec ++ bytes) d)
  | other_clear c r g tok p bs_ rec d :
      other_step (mkRx c r g tok p bs_ rec d) (mkRx c (ring_clear r) g tok p bs_ rec d)
  | other_call c r g tok p bs_ rec d c' :
      input_of c' = input_of c ->
      other_step (mkRx c r g tok p bs_ rec d) (mkRx c' r g tok p bs_ rec d)
  | other_take c r g tok p bs_ rec d c' :
      input_of c' `sublist_of` input_of c ->
      other_step (mkRx c r g tok p bs_ rec d) (mkRx c' r g tok p bs_ rec (S d))
  | other_shutdown c r g tok p bs_ rec d :
      other_step (mkRx c r g tok p bs_ rec d) (mkRx c r g true p bs_ rec d)
  | other_restart c r g tok bs_ rec d :
      other_step (mkRx c r g tok PExited bs_ rec d) (mkRx c r g false PTop bs_ rec d).

Definition rx_step (s s' : RxSys) : Prop :=
  pump_step s s' \/ (exists n, boot_step n s s') \/ other_step s s'.

(** A session just created. *)
Definition rx_start (c : SerialConnection) (r : RxRing) : RxSys := mkRx c r None false PTop ∅ [] 0.

(** ** The invariant *)

(** Bytes the pump has read and not yet appended. *)
Definition in_flight (p : PumpPc) : list byte := match p with PHolding bytes => bytes | _ => [] end.

Definition pump_inside (p : PumpPc) : bool :=
  match p with PReading _ | PHolding _ | PDisconnecting _ => true | _ => false end.
Definition boot_inside (b : BootPc) : bool :=
  match b with BGated | BPurged _ _ | BMarked _ _ _ => true | _ => false end.

Section Covered.
Context (stream pending received : list byte) (drops : nat).

(** The stream from [mark] on, continued by the bytes still on their way, comes
    out of the bytes received from position [from] on; it is all of them if no
    event since [drops0] took bytes away. *)
Definition covered (mark : Z) (from drops0 : nat) : Prop :=
  0 <= mark <= zlen stream /\ (from <= length received)%nat /\ (drops0 <= drops)%nat /\
  drop (Z.to_nat mark) stream ++ pending `sublist_of` drop from received /\
  (drops0 = drops -> drop (Z.to_nat mark) stream ++ pending = drop from received).

Definition boot_ok (b : BootPc) : Prop :=
  match b with
  | BPurged from drops0 => covered (zlen stream) from drops0
  | BMarked mark from drops0 | BReading mark from drops0 => covered mark from drops0
  | BGated | BFailed => True
  end.
End Covered.

Definition rx_inv (s : RxSys) : Prop :=
  exists sp, ring_rep (x_ring s) sp /\
    (pump_inside (x_pump s) = true -> x_gate s = Some GPump) /\
    forall n b, x_boots s !! n = Some b ->
      (boot_inside b = true -> x_gate s = Some (GBoot n)) /\
      boot_ok (stream sp) (in_flight (x_pump s) ++ input_of (x_conn s)) (x_received s) (x_drops s) b.

(** *** What the events do to a covered stream *)

Lemma covered_take st p p' rec d mark from d0 :
  p' `sublist_of` p -> covered st p rec d mark from d0 -> covered st p' rec (S d) mark from d0.
Proof.
  intros Hp (Hm & Hr & Hd & Hsub & _). split_and!; [lia..| |lia].
  etrans; [|exact Hsub]. by apply sublist_app.
Qed.

Lemma covered_receive st p rec d mark from d0 bytes :
  covered st p rec d mark from d0 -> covered st (p ++ bytes) (rec ++ bytes) d mark from d0.
Proof.
  intros (Hm & Hr & Hd & Hsub & Heq). unfold covered.
  rewrite (assoc app), length_app, drop_app_le by lia. split_and!; try lia.
  - by apply sublist_app.
  - intros H%Heq. by rewrite H.
Qed.

Lemma covered_append st bytes p rec d mark from d0 :
  covered st (bytes ++ p) rec d mark from d0 -> covered (st ++ bytes) p rec d mark from d0.
Proof.
  intros (Hm & Hr & Hd & Hsub & Heq). pose proof (zlen_nonneg bytes).
  unfold covered. rewrite zlen_app, drop_app_le by (unfold zlen in *; lia).
  rewrite <- (assoc app). split_and!; try lia; done.
Qed.

Lemma boot_ok_take st p p' rec d b :
  p' `sublist_of` p -> boot_ok st p rec d b -> boot_ok st p' rec (S d) b.
Proof. intros Hp. destruct b; simpl; try done; by apply covered_take. Qed.

Lemma boot_ok_receive st p rec d b bytes :
  boot_ok st p rec d b -> boot_ok st (p ++ bytes) (rec ++ bytes) d b.
Proof. destruct b; simpl; try done; by apply covered_receive. Qed.

Lemma boot_ok_append st bytes p rec d b :
  boot_inside b = false -> boot_ok st (bytes ++ p) rec d b -> boot_ok (st ++ bytes) p rec d b.
Proof. destruct b; simpl; try done; intros _; by apply covered_append. Qed.

(** *** What the operations do to the input *)

Lemma take_then_drop {A} n (l k : list A) : take n l = k -> l = k ++ drop (length k) l.
Proof.
  intros <-. rewrite length_take. destruct (decide (n <= length l)%nat).
  - by rewrite Nat.min_l, take_drop by lia.
  - by rewrite Nat.min_r, take_ge, drop_all, app_nil_r by lia.
Qed.

Lemma read_poll_input c now deadline max poll o c' :
  read_poll c now deadline max poll = (o, c') ->
  input_of c = match o with Some (Ok bytes) => bytes | _ => [] end ++ input_of c'.
Proof.
  unfold read_poll, io_or_closed. destruct (sc_close_token c); [by intros [= <- <-] |].
  destruct (_ =? 0); [by intros [= <- <-] |].
  destruct (sc_io c) as [d|] eqn:Hio; cbn [ok_or]; [|by intros [= <- <-] ].
  destruct poll as [n|e|]; [|by intros [= <- <-]..].
  destruct (take _ (dev_input d)) as [|b bytes] eqn:Ht; [by intros [= <- <-] |].
  intros [= <- <-]. unfold input_of. rewrite Hio. by apply take_then_drop in Ht.
Qed.

Lemma after_read_facts res :
  in_flight (after_read res).1 = match res with Ok bytes => bytes | Err _ => [] end /\
  (pump_inside (after_read res).1 = true -> (after_read res).2 = Some GPump) /\
  (pump_inside (after_read res).1 = false -> (after_read res).2 = None).
Proof.
  unfold after_read, pump_action. destruct res as [ [|b bytes]|e]; [done..|].
  destruct e as [| | | | | | |e]; try done. by destruct (is_fatal_disconnect e).
Qed.

Lemma flush_input c fault u c' : flush_buffers c FlushInput fault = (Ok u, c') -> input_of c' = [].
Proof.
  unfold flush_buffers. destruct (_ ← ensure_open c; io_or_closed c); [|done].
  destruct fault; [done|]. by intros [= _ <-].
Qed.

Lemma flush_err c fault e c' : flush_buffers c FlushInput fault = (Err e, c') -> c' = c.
Proof.
  unfold flush_buffers. destruct (_ ← ensure_open c; io_or_closed c); [|by intros [= _ <-] ].
  destruct fault; by intros [= _ <-].
Qed.

Lemma set_lines_input c dtr rts fault res c' :
  set_dtr_rts_unlocked c dtr rts fault = (res, c') -> input_of c' = input_of c.
Proof.
  unfold set_dtr_rts_unlocked, io_or_closed. destruct (ensure_open c); [|by intros [= _ <-] ].
  cbn [mbind result_bind]. unfold input_of. destruct (sc_io c) as [d|] eqn:Hio; cbn [ok_or].
  - destruct fault as [ [] |]; intros [= _ <-]; done.
  - intros [= _ <-]. by rewrite Hio.
Qed.

(** ** Preservation *)

(** A step under which no boot moves and no received byte changes its way. *)
Lemma inv_pump s c g tok p :
  rx_inv s ->
  (pump_inside p = true -> g = Some GPump) ->
  (forall n b, x_boots s !! n = Some b -> boot_inside b = true -> g = Some (GBoot n)) ->
  in_flight p ++ input_of c = in_flight (x_pump s) ++ input_of (x_conn s) ->
  rx_inv (mkRx c (x_ring s) g tok p (x_boots s) (x_received s) (x_drops s)).
Proof.
  intros (sp & Hrep & _ & Hb) Hp Hg Heq. exists sp. split; [done|]. split; [done|].
  intros n b Hn. destruct (Hb n b Hn) as [_ Hok]. split; [by apply Hg|]. cbn. by rewrite Heq.
Qed.

(** While the pump is inside, no capture is. *)
Lemma inside_alone s n b :
  rx_inv s -> pump_inside (x_pump s) = true -> x_boots s !! n = Some b -> boot_inside b = false.
Proof.
  intros (sp & _ & Hp & Hb) Hin Hn. apply not_true_iff_false. intros Hi.
  destruct (Hb n b Hn) as [Hg _]. specialize (Hg Hi). specialize (Hp Hin). congruence.
Qed.

Lemma pump_step_inv s s' : rx_inv s -> pump_step s s' -> rx_inv s'.
Proof.
  intros Hinv Hstep.
  assert (Hsame : forall n b, x_boots s !! n = Some b -> boot_inside b = true ->
    x_gate s = Some (GBoot n)).
  { destruct Hinv as (sp & _ & _ & Hb). intros n b Hn. by apply Hb. }
  assert (Halone : pump_inside (x_pump s) = true -> forall g n b, x_boots s !! n = Some b ->
    boot_inside b = true -> g = Some (GBoot n)).
  { intros Hin g n b Hn Hi. by rewrite (inside_alone s n b Hinv Hin Hn) in Hi. }
  destruct Hstep as [c r g tok bs_ rec d|c r tok bs_ rec d now|c r g bs_ rec d t0
    |c r g tok bs_ rec d t0 e He|c r g tok bs_ rec d t0 now poll c' Hp
    |c r g tok bs_ rec d t0 now poll res c' Hp|c r g tok bs_ rec d now bytes Hmax
    |c r g tok bs_ rec d now e|c r g tok bs_ rec d|c r g tok bs_ rec d];
    cbn [x_conn x_ring x_gate x_token x_pump x_boots x_received x_drops pump_inside] in *.
  - eapply (inv_pump _ _ _ _ _ Hinv); cbn; [by destruct tok|done|by destruct tok].
  - eapply (inv_pump _ _ _ _ _ Hinv); cbn; [done| |done]. intros n b Hn Hi.
    by specialize (Hsame n b Hn Hi).
  - eapply (inv_pump _ _ _ _ _ Hinv); cbn; [done|by apply Halone|done].
  - destruct (after_read_facts (Err e)) as (Hf & Hg & _).
    eapply (inv_pump _ _ _ _ _ Hinv); cbn [x_boots x_pump x_conn]; [done|by apply Halone|by rewrite Hf].
  - apply read_poll_input in Hp. pose proof Hinv as (sp & _ & Hg & _).
    by eapply (inv_pump _ _ _ _ _ Hinv).
  - apply read_poll_input in Hp. destruct (after_read_facts res) as (Hf & Hg & _).
    eapply (inv_pump _ _ _ _ _ Hinv); cbn [x_boots x_pump x_conn]; [done|by apply Halone|].
    by rewrite Hf, Hp.
  - destruct Hinv as (sp & Hrep & Hg & Hb). cbn in *.
    exists (spec_append (ring_capacity r) sp bytes). split; [|split; [done|] ].
    { apply append_rep; [done|]. destruct Hrep. cbn in *. lia. }
    intros n b Hn. destruct (Hb n b Hn) as [Hi Hok]. split.
    + by apply Halone.
    + apply boot_ok_append; [|done]. apply not_true_iff_false. intros Hin.
      by specialize (Halone eq_refl None n b Hn Hin).
  - destruct Hinv as (sp & Hrep & Hg & Hb). cbn in *. exists sp. split; [done|]. split; [done|].
    intros n b Hn. destruct (Hb n b Hn) as [Hi Hok]. split; [by apply Halone|].
    eapply boot_ok_take; [|exact Hok]. apply sublist_nil_l.
  - eapply (inv_pump _ _ _ _ _ Hinv); done.
  - eapply (inv_pump _ _ _ _ _ Hinv); cbn; [|done|].
    all: by destruct tok, (sc_state c).
Qed.

(** A step of capture [n] to [b'], which takes or gives back the gate. *)
Lemma inv_boot n s c g d b' :
  rx_inv s ->
  (x_gate s = None \/ x_gate s = Some (GBoot n)) -> (g = None \/ g = Some (GBoot n)) ->
  (boot_inside b' = true -> g = Some (GBoot n)) ->
  (input_of c = input_of (x_conn s) /\ d = x_drops s \/
   input_of c `sublist_of` input_of (x_conn s) /\ d = S (x_drops s)) ->
  (forall sp, ring_rep (x_ring s) sp -> in_flight (x_pump s) = [] ->
     (forall b, x_boots s !! n = Some b ->
        boot_ok (stream sp) (input_of (x_conn s)) (x_received s) (x_drops s) b) ->
     boot_ok (stream sp) (input_of c) (x_received s) d b') ->
  rx_inv (mkRx c (x_ring s) g (x_token s) (x_pump s) (<[n := b']> (x_boots s)) (x_received s) d).
Proof.
  intros (sp & Hrep & Hp & Hb) Hgate Hg Hin Hc Hok.
  assert (Hout : pump_inside (x_pump s) = false).
  { apply not_true_iff_false. intros Hi%Hp. destruct Hgate; congruence. }
  assert (Hfl : in_flight (x_pump s) = []) by (by destruct (x_pump s)).
  exists sp. split; [done|]. cbn [x_boots x_gate x_pump x_conn x_received x_drops].
  split; [by rewrite Hout|].
  intros n' b [ [<- <-] | [Hne Hn'] ]%lookup_insert_Some.
  - split; [done|]. rewrite Hfl. apply (Hok sp Hrep Hfl). intros b Hn.
    destruct (Hb n b Hn) as [_ Hb']. by rewrite Hfl in Hb'.
  - destruct (Hb n' b Hn') as [Hi' Hb']. split.
    + intros Hi%Hi'. destruct Hgate; congruence.
    + destruct Hc as [ [-> ->] | [Hs ->] ]; [done|]. eapply boot_ok_take; [|done].
      by apply sublist_app.
Qed.

Lemma boot_step_inv n s s' : rx_inv s -> boot_step n s s' -> rx_inv s'.
Proof.
  intros Hinv Hstep.
  assert (Hgate : forall b, x_boots s !! n = Some b -> boot_inside b = true ->
    x_gate s = None \/ x_gate s = Some (GBoot n)).
  { destruct Hinv as (sp & _ & _ & Hb). intros b Hn Hi. right. by apply (Hb n b). }
  destruct Hstep as [c r tok p bs_ rec d Hn|c r g tok p bs_ rec d c' u Hn Hf
    |c r g tok p bs_ rec d fault e c' Hn Hf|c r g tok p bs_ rec d rec0 d0 Hn
    |c r g tok p bs_ rec d mark rec0 d0 Hn|c r g tok p bs_ rec d mark rec0 d0 dtr rts fault res c' Hn Hl];
    cbn [x_gate x_boots] in *.
  - eapply (inv_boot n _ c (Some (GBoot n)) d BGated Hinv); cbn; auto; try done.
  - specialize (Hgate _ Hn eq_refl). apply flush_input in Hf.
    eapply (inv_boot n _ c' g (S d) (BPurged (length rec) (S d)) Hinv); cbn; auto; try done.
    + destruct Hinv as (sp & _ & _ & Hb). intros _. by apply (Hb n _ Hn).
    + right. split; [|done]. rewrite Hf. apply sublist_nil_l.
    + intros sp Hrep _ _. rewrite Hf. unfold covered. pose proof (zlen_nonneg (stream sp)).
      unfold zlen. rewrite Nat2Z.id, !drop_all. split_and!; try done; lia.
  - apply flush_err in Hf as ->. specialize (Hgate _ Hn eq_refl).
    eapply (inv_boot n _ c None d BFailed Hinv); cbn; auto; try done.
  - specialize (Hgate _ Hn eq_refl).
    eapply (inv_boot n _ c g d (BMarked (end_offset (inner r)) rec0 d0) Hinv); cbn; auto; try done.
    + destruct Hinv as (sp & _ & _ & Hb). intros _. by apply (Hb n _ Hn).
    + intros sp Hrep _ Hb. rewrite (rep_end _ _ Hrep). apply (Hb _ Hn).
  - specialize (Hgate _ Hn eq_refl).
    eapply (inv_boot n _ c None d (BReading mark rec0 d0) Hinv); cbn; auto; try done.
    intros sp _ _ Hb. apply (Hb _ Hn).
  - specialize (Hgate _ Hn eq_refl). apply set_lines_input in Hl.
    eapply (inv_boot n _ c' None d _ Hinv); cbn; auto; [by destruct (is_ok res)|].
    intros sp _ _ Hb. rewrite Hl. destruct (is_ok res); [|done]. apply (Hb _ Hn).
Qed.

Lemma other_step_inv s s' : rx_inv s -> other_step s s' -> rx_inv s'.
Proof.
  intros (sp & Hrep & Hp & Hb) Hstep.
  destruct Hstep as [c r g tok p bs_ rec d c' bytes Hc|c r g tok p bs_ rec d|c r g tok p bs_ rec d c' Hc
    |c r g tok p bs_ rec d c' Hc|c r g tok p bs_ rec d|c r g tok bs_ rec d];
    cbn [x_conn x_ring x_gate x_token x_pump x_boots x_received x_drops] in *.
  - exists sp. split; [done|]. split; [done|]. cbn. intros n b Hn. destruct (Hb n b Hn) as [Hi Hok].
    split; [done|]. rewrite Hc, (assoc app). by apply boot_ok_receive.
  - exists (spec_clear sp). split; [by apply clear_rep|]. by split.
  - exists sp. split; [done|]. split; [done|]. cbn. by rewrite Hc.
  - exists sp. split; [done|]. split; [done|]. cbn. intros n b Hn. destruct (Hb n b Hn) as [Hi Hok].
    split; [done|]. eapply boot_ok_take; [|done]. by apply sublist_app.
  - by exists sp.
  - by exists sp.
Qed.

Lemma rx_reach_inv cap c r s :
  ring_new cap = Some r -> rtc rx_step (rx_start c r) s -> rx_inv s.
Proof.
  intros Hr. apply rtc_preserves.
  - intros x y Hx [Hs|[ [n Hs] |Hs] ]; [by eapply pump_step_inv|by eapply boot_step_inv|
      by eapply other_step_inv].
  - exists spec_new. split; [by eapply ring_new_rep|]. split; [done|].
    intros n b Hn. cbn in Hn. by apply lookup_empty_Some in Hn.
Qed.

(** A read at or after the mark of a covered stream returns received bytes. *)
Lemma covered_read st rf w r pending rec d mark from d0 cursor max :
  ring_rep r (mkSpec st rf w) -> covered st pending rec d mark from d0 -> mark <= cursor -> 0 <= max ->
  let slice := read_from r cursor max in
  mark <= s_from_offset slice /\
  s_bytes slice `sublist_of` drop from rec /\
  (d = d0 -> s_bytes slice =
     take (length (s_bytes slice)) (drop (from + Z.to_nat (s_from_offset slice - mark)) rec)).
Proof.
  intros Hrep (Hm & Hr & Hd & Hsub & Heq) Hc Hmax. rewrite (read_from_rep _ _ _ _ Hrep) by lia.
  cbv zeta. unfold spec_read. cbn [s_bytes s_from_offset stream retained_from].
  set (k := Z.min (Z.max cursor rf) (zlen st)). set (m := Z.to_nat (Z.max 0 _)).
  assert (Hk : mark <= k <= zlen st) by lia.
  assert (Hdrop : drop (Z.to_nat k) st = drop (Z.to_nat (k - mark)) (drop (Z.to_nat mark) st)).
  { rewrite drop_drop. f_equal. lia. }
  split; [lia|]. rewrite Hdrop. split.
  - etrans; [apply sublist_take|]. etrans; [apply sublist_drop|].
    etrans; [|exact Hsub]. apply sublist_inserts_r. reflexivity.
  - intros H%eq_sym%Heq. rewrite <- drop_drop, <- H, drop_app_le
      by (rewrite length_drop; unfold zlen in *; lia).
    set (l := drop _ (drop _ st)). rewrite take_app_le by (rewrite length_take; lia).
    rewrite length_take. destruct (decide (m <= length l)%nat); [by rewrite Nat.min_l by lia|].
    by rewrite Nat.min_r, !take_ge by lia.
Qed.

(** C13: a boot capture sees what the port received
    after its purge, and nothing older.  The pump, any number of captures, the
    device and all other calls interleave freely.  A capture that reads from its
    mark (or later) gets bytes that the port received after the purge of that
    capture, in order; a byte the pump had read before the purge is never appended
    after the mark.  If since the purge no other call has taken bytes from the
    port, what it gets is exactly the received bytes at these positions: none is
    missing between the purge and the read, however the ring wrapped. *)
Theorem capture_boot_marks_live_edge cap c r s n mark from drops0 cursor max :
  ring_new cap = Some r -> rtc rx_step (rx_start c r) s ->
  x_boots s !! n = Some (BReading mark from drops0) -> mark <= cursor -> 0 <= max ->
  let slice := read_from (x_ring s) cursor max in
  mark <= s_from_offset slice /\
  s_bytes slice `sublist_of` drop from (x_received s) /\
  (x_drops s = drops0 -> s_bytes slice =
     take (length (s_bytes slice))
       (drop (from + Z.to_nat (s_from_offset slice - mark)) (x_received s))).
Proof.
  intros Hr Hreach Hn Hc Hmax.
  destruct (rx_reach_inv cap c r s Hr Hreach) as ([st rf w] & Hrep & _ & Hb).
  destruct (Hb n _ Hn) as [_ Hok]. by eapply covered_read.
Qed.

(** ** A concrete capture *)

(** The device [d] with more input. *)
Definition receive (c : SerialConnection) (bytes : list byte) : SerialConnection :=
  match sc_io c with
  | Some d => with_io c (Some (mkDevice (dev_input d ++ bytes) (dev_output d) (dev_dtr d) (dev_rts d)
                                 (dev_break d) (dev_settings d)))
  | None => c
  end.

Definition purged (c : SerialConnection) : SerialConnection := (flush_buffers c FlushInput None).2.

(** The port receives A; a capture takes the gate and purges; the port receives B
    and C, the capture marks and releases the gate, and the pump reads both. *)
Definition c_purged : SerialConnection := receive (purged (receive a_connection [x41])) [x42; x43].
Definition c_read : SerialConnection :=
  (read_poll c_purged 0 PUMP_READ_TIMEOUT PUMP_READ_SIZE (PollRead 2)).2.
Definition captured : RxSys :=
  mkRx (with_log c_read (rx_data (sc_log c_read) 1 2)) (append small_ring [x42; x43]) None false
    PPublishing {[0%nat := BReading 0 1 1]} [x41; x42; x43] 1.

Lemma capture_boot_marks_live_edge_witness :
  read_from (x_ring captured) 0 10 = mkSlice [x42; x43] 0 2 0 /\
  s_bytes (read_from (x_ring captured) 0 10) `sublist_of` drop 1 (x_received captured).
Proof.
  split; [by vm_compute|].
  eapply (capture_boot_marks_live_edge 4 a_connection small_ring captured 0 0 1 1 0 10);
    [reflexivity| |by vm_compute|lia|lia].
  unfold captured, rx_start.
  eapply rtc_l. { right; right. apply (other_receive _ _ _ _ _ _ _ _ (receive a_connection [x41]) [x41]). by vm_compute. }
  eapply rtc_l. { right; left. exists 0%nat. apply boot_gate. reflexivity. }
  eapply rtc_l. { right; left. exists 0%nat. apply (boot_purge _ _ _ _ _ _ _ _ _ (purged (receive a_connection [x41])) tt);
    by vm_compute. }
  eapply rtc_l. { right; right. apply (other_receive _ _ _ _ _ _ _ _ c_purged [x42; x43]). by vm_compute. }
  eapply rtc_l. { right; left. exists 0%nat. eapply boot_mark. by vm_compute. }
  eapply rtc_l. { right; left. exists 0%nat. eapply boot_no_reset. by vm_compute. }
  eapply rtc_l. { left. apply pump_top. }
  eapply rtc_l. { left. apply (pump_gate _ _ _ _ _ _ 0). }
  eapply rtc_l. { left. apply (pump_poll _ _ _ _ _ _ _ 0 0 (PollRead 2) (Ok [x42; x43]) c_read). by vm_compute. }
  eapply rtc_l. { left. apply (pump_append _ _ _ _ _ _ _ 1). by vm_compute. }
  apply rtc_refl.
Defined.

(** A read of the raw resource ([read_latest]) takes bytes away from the pump:
    they never reach the ring. *)
Example raw_resource_steals_bytes :
  let c := receive a_connection [x41; x42] in
  let '(r, c') := read_poll c 0 100 256 (PollRead 256) in
  r = Some (Ok [x41; x42]) /\ input_of c' = [].
Proof. vm_compute. done. Qed.
