(* ===== verification/RxSession.v ===== *)
(** * [src/rx_session.rs]: sessions and their table

    One [RxSession] per connection: its ring, the shared read cursor, the handle of
    its pump and the reservation that pays for the ring; and [RxSessionManager],
    which creates sessions on demand and removes them.  The pump itself is in
    RxPump. *)

From S2P Require Import Prelude RustStr RxRing BufferBudget.

(** A pump task is known by a number. *)
Record RxSession := mkSession {
  rs_connection_id : list byte;
  rs_pump_task : option nat;
  rs_pump_cancelled : bool;
  rs_ring : RxRing;
  rs_read_cursor : Z;
  rs_ring_capacity : Z;
  rs_reservation : option Z;
}.

Inductive RxSessionError := ZeroRingCapacity | RingBudget (e : BufferBudgetError).

(** ** One session *)

Section Session.
Context {St} `{BufferBudget St}.

(** [RxSession::new]. *)
Definition session_new (connection_id : list byte) (ring_capacity : Z) (budget : St)
    : result RxSessionError RxSession * St :=
  if ring_capacity =? 0 then (Err ZeroRingCapacity, budget)
  else
    let '(r, budget) := try_reserve budget ring_capacity in
    match r with
    | Err e => (Err (RingBudget e), budget)
    | Ok reservation =>
        match ring_new ring_capacity with
        | Some ring =>
            (Ok (mkSession connection_id None false ring 0 ring_capacity (Some reservation)), budget)
        | None => (Err ZeroRingCapacity, budget)
        end
    end.

(** [set_read_cursor]. *)
Definition set_read_cursor (s : RxSession) (off : Z) : RxSession :=
  mkSession (rs_connection_id s) (rs_pump_task s) (rs_pump_cancelled s) (rs_ring s) off
    (rs_ring_capacity s) (rs_reservation s).

(** The append of [pump_loop] to the session's ring. *)
Definition pump_append (s : RxSession) (bytes : list byte) : RxSession :=
  mkSession (rs_connection_id s) (rs_pump_task s) (rs_pump_cancelled s) (append (rs_ring s) bytes)
    (rs_read_cursor s) (rs_ring_capacity s) (rs_reservation s).

(** [ensure_pump_running]: whether it spawns the task [task]. *)
Definition ensure_pump_running (s : RxSession) (is_finished : nat -> bool) (task : nat)
    : bool * RxSession :=
  match rs_pump_task s with
  | Some handle =>
      if is_finished handle
      then (true, mkSession (rs_connection_id s) (Some task) false (rs_ring s) (rs_read_cursor s)
                    (rs_ring_capacity s) (rs_reservation s))
      else (false, s)
  | None =>
      (true, mkSession (rs_connection_id s) (Some task) false (rs_ring s) (rs_read_cursor s)
               (rs_ring_capacity s) (rs_reservation s))
  end.

(** [shutdown] and [join_pump]. *)
Definition session_shutdown (s : RxSession) : RxSession :=
  mkSession (rs_connection_id s) (rs_pump_task s) true (rs_ring s) (rs_read_cursor s)
    (rs_ring_capacity s) (rs_reservation s).

Definition join_pump (s : RxSession) : RxSession :=
  mkSession (rs_connection_id s) None (rs_pump_cancelled s) (rs_ring s) (rs_read_cursor s)
    (rs_ring_capacity s) (rs_reservation s).

(** The end of [shutdown_and_join]: the reservation is taken and dropped. *)
Definition drop_reservation (s : RxSession) (budget : St) : RxSession * St :=
  (mkSession (rs_connection_id s) (rs_pump_task s) (rs_pump_cancelled s) (rs_ring s)
     (rs_read_cursor s) (rs_ring_capacity s) None,
   match rs_reservation s with Some n => release budget n | None => budget end).

Definition shutdown_and_join (s : RxSession) (budget : St) : RxSession * St :=
  drop_reservation (join_pump (session_shutdown s)) budget.

(** ** The table *)

(** The sessions, the budget they share, and the sessions that [remove] has taken
    out and not yet shut down. *)
Record RxSessionManager := mkSessions {
  sm_sessions : gmap (list byte) RxSession;
  sm_leaving : list RxSession;
  sm_budget : St;
}.

(** [get_or_create]; [task] is the number of the pump it may spawn. *)
Definition get_or_create (m : RxSessionManager) (conn_id : list byte) (ring_capacity : Z) (task : nat)
    : result RxSessionError RxSession * RxSessionManager :=
  match sm_sessions m !! conn_id with
  | Some existing => (Ok existing, m)
  | None =>
      let '(r, budget) := session_new conn_id ring_capacity (sm_budget m) in
      match r with
      | Err e => (Err e, mkSessions (sm_sessions m) (sm_leaving m) budget)
      | Ok session =>
          let '(_, session) := ensure_pump_running session (fun _ => false) task in
          (Ok session, mkSessions (<[conn_id := session]> (sm_sessions m)) (sm_leaving m) budget)
      end
  end.

(** [remove]: under the lock the session leaves the table, then it is shut down. *)
Definition remove_begin (m : RxSessionManager) (conn_id : list byte) : RxSessionManager :=
  match sm_sessions m !! conn_id with
  | Some s => mkSessions (delete conn_id (sm_sessions m)) (sm_leaving m ++ [s]) (sm_budget m)
  | None => m
  end.

(** The [i]-th leaving session finishes. *)
Definition remove_finish (m : RxSessionManager) (i : nat) : RxSessionManager :=
  match sm_leaving m !! i with
  | Some s =>
      mkSessions (sm_sessions m) (delete i (sm_leaving m)) (shutdown_and_join s (sm_budget m)).2
  | None => m
  end.

(** [count] and [get]. *)
Definition session_count (m : RxSessionManager) : nat := size (sm_sessions m).
Definition session_get (m : RxSessionManager) (conn_id : list byte) : option RxSession :=
  sm_sessions m !! conn_id.

(** The pump of a session in the table appends bytes; a reader moves the shared
    cursor. *)
Definition update_session (m : RxSessionManager) (conn_id : list byte) (f : RxSession -> RxSession)
    : RxSessionManager :=
  match sm_sessions m !! conn_id with
  | Some s => mkSessions (<[conn_id := f s]> (sm_sessions m)) (sm_leaving m) (sm_budget m)
  | None => m
  end.
End Session.
Arguments RxSessionManager St : clear implicits.

(** ** Every ring is paid for *)

Definition reserved_by (s : RxSession) : Z := default 0 (rs_reservation s).

(** The bytes of all rings. *)
Definition rings_total (m : gmap (list byte) RxSession) : Z := map_total (fun _ => reserved_by) m.
Definition leaving_total (l : list RxSession) : Z := ledger_sum (reserved_by <$> l).
#[local] Arguments rings_total : simpl never.
#[local] Arguments leaving_total : simpl never.
#[local] Arguments ledger_sum : simpl never.

Inductive SessionOp :=
  | SGetOrCreate (conn_id : list byte) (ring_capacity : Z) (task : nat)
  | SRemoveBegin (conn_id : list byte)
  | SRemoveFinish (i : nat)
  | SAppend (conn_id bytes : list byte)
  | SSetCursor (conn_id : list byte) (off : Z)
  | SReserve (bytes : Z)
  | SRelease (i : nat).

(** The other users of the budget hold reservations of their own: the tools,
    which reserve their output. *)
Record SessionSys := mkSessionSys {
  ss_sessions : RxSessionManager AtomicB.AtomicBudget;
  ss_tools : list Z;
}.

Definition with_budget {St} (m : RxSessionManager St) (b : St) : RxSessionManager St :=
  mkSessions (sm_sessions m) (sm_leaving m) b.

Definition session_op (s : SessionSys) (op : SessionOp) : SessionSys :=
  let m := ss_sessions s in
  match op with
  | SGetOrCreate id cap task => mkSessionSys (get_or_create m id cap task).2 (ss_tools s)
  | SRemoveBegin id => mkSessionSys (remove_begin m id) (ss_tools s)
  | SRemoveFinish i => mkSessionSys (remove_finish m i) (ss_tools s)
  | SAppend id bytes =>
      mkSessionSys (update_session m id (fun s => pump_append s bytes)) (ss_tools s)
  | SSetCursor id off =>
      mkSessionSys (update_session m id (fun s => set_read_cursor s off)) (ss_tools s)
  | SReserve n =>
      let '(r, b) := try_reserve (sm_budget m) n in
      mkSessionSys (with_budget m b) (match r with Ok n => ss_tools s ++ [n] | Err _ => ss_tools s end)
  | SRelease i =>
      match ss_tools s !! i with
      | Some n => mkSessionSys (with_budget m (release (sm_budget m) n)) (delete i (ss_tools s))
      | None => s
      end
  end.

Definition session_ok (s : RxSession) : Prop :=
  rs_reservation s = Some (rs_ring_capacity s) /\ 0 < rs_ring_capacity s /\
  ring_capacity (rs_ring s) = rs_ring_capacity s.

Definition sessions_inv (program tool : Z) (s : SessionSys) : Prop :=
  let m := ss_sessions s in
  exists avail, sm_budget m = AtomicB.mk program tool avail /\ 0 <= avail /\
    avail + rings_total (sm_sessions m) + leaving_total (sm_leaving m) + ledger_sum (ss_tools s)
      = program /\
    (forall id c, sm_sessions m !! id = Some c -> session_ok c /\ rs_connection_id c = id) /\
    Forall session_ok (sm_leaving m) /\ Forall (fun n => 0 < n) (ss_tools s).

(** The result of [get_or_create] as documented. *)
Definition create_result (program tool : Z) (s : SessionSys) (id : list byte) (cap : Z)
    : result RxSessionError Z :=
  match sm_sessions (ss_sessions s) !! id with
  | Some c => Ok (rs_ring_capacity c)
  | None =>
      if cap =? 0 then Err ZeroRingCapacity
      else if tool <? cap then Err (RingBudget (OverToolLimit cap tool))
      else
        let used := rings_total (sm_sessions (ss_sessions s))
                    + leaving_total (sm_leaving (ss_sessions s)) + ledger_sum (ss_tools s) in
        if program - used <? cap then Err (RingBudget (InsufficientProgramBudget cap (program - used)))
        else Ok cap
  end.

Definition valid_session_op (op : SessionOp) : Prop :=
  match op with SGetOrCreate _ cap _ => 0 <= cap | SReserve n => 0 <= n | _ => True end.

Definition session_start (b : AtomicB.AtomicBudget) : SessionSys := mkSessionSys (mkSessions ∅ [] b) [].

(** ** Lemmas *)

Lemma ring_new_some cap : 0 < cap -> exists ring, ring_new cap = Some ring /\ ring_capacity ring = cap.
Proof. intros Hc. unfold ring_new. rewrite (proj2 (Z.ltb_lt 0 cap)) by done. eauto. Qed.

Lemma append_capacity r bytes : ring_capacity (append r bytes) = ring_capacity r.
Proof. unfold append. by case_match. Qed.

Lemma session_ok_reserved s : session_ok s -> 0 < reserved_by s.
Proof. unfold reserved_by. by intros (-> & ? & _). Qed.

Lemma sessions_totals program tool s : sessions_inv program tool s ->
  0 <= rings_total (sm_sessions (ss_sessions s)) /\
  0 <= leaving_total (sm_leaving (ss_sessions s)) /\ 0 <= ledger_sum (ss_tools s).
Proof.
  intros (avail & _ & _ & _ & Hs & Hl & Ht). split_and!.
  - revert Hs. generalize (sm_sessions (ss_sessions s)) as m. intros m Hm.
    unfold rings_total. induction m as [|k x m Hk IH] using map_ind.
    + by rewrite map_total_empty.
    + rewrite map_total_insert by done. cbn beta.
      pose proof (session_ok_reserved x (proj1 (Hm k x ltac:(by simplify_map_eq)))).
      enough (0 <= map_total (fun _ => reserved_by) m) by lia.
      apply IH. intros id c Hc. apply Hm. rewrite lookup_insert_ne; [done|congruence].
  - apply ledger_sum_nonneg, Forall_fmap. eapply Forall_impl; [exact Hl|].
    intros x Hx%session_ok_reserved. simpl. lia.
  - apply ledger_sum_nonneg. eapply Forall_impl; [exact Ht|]. simpl. lia.
Qed.

Lemma rings_insert m id c : m !! id = None ->
  rings_total (<[id := c]> m) = reserved_by c + rings_total m.
Proof. intros Hm. unfold rings_total. by rewrite map_total_insert. Qed.

Lemma rings_delete m id c : m !! id = Some c ->
  rings_total m = reserved_by c + rings_total (delete id m).
Proof. intros Hm. unfold rings_total. by rewrite (map_total_delete _ m id c Hm). Qed.

Lemma rings_update m id c c' : m !! id = Some c -> reserved_by c' = reserved_by c ->
  rings_total (<[id := c']> m) = rings_total m.
Proof.
  intros Hm Hr. rewrite <- insert_delete_eq, rings_insert, Hr by apply lookup_delete_eq.
  symmetry. by apply rings_delete.
Qed.

(** A request against the ledger: it is granted exactly when it fits. *)
Lemma reserve_cases program tool avail n : 0 <= n ->
  AtomicB.try_reserve (AtomicB.mk program tool avail) n =
  (if n =? 0 then (Err ZeroRequest, AtomicB.mk program tool avail)
   else if tool <? n then (Err (OverToolLimit n tool), AtomicB.mk program tool avail)
   else if avail <? n then (Err (InsufficientProgramBudget n avail), AtomicB.mk program tool avail)
   else (Ok n, AtomicB.mk program tool (avail - n))).
Proof. done. Qed.

(** [get_or_create] in a state of the invariant: its result, and the state. *)
Lemma create_spec program tool s id cap task : sessions_inv program tool s -> 0 <= cap ->
  let '(r, m) := get_or_create (ss_sessions s) id cap task in
  rs_ring_capacity <$> r = create_result program tool s id cap /\
  sessions_inv program tool (mkSessionSys m (ss_tools s)) /\
  match r with Ok c => sm_sessions m !! id = Some c | Err _ => m = ss_sessions s end.
Proof.
  intros Hinv Hcap. pose proof Hinv as (avail & Hb & Ha & Hsum & Hs & Hl & Ht).
  unfold get_or_create, create_result. destruct s as [ [sess leaving b] tools].
  cbn [ss_sessions sm_sessions sm_leaving sm_budget ss_tools] in *. subst b.
  destruct (sess !! id) as [c|] eqn:Hid; [done|].
  unfold session_new. destruct (Z.eqb_spec cap 0) as [->|Hz]; [done|]. cbn [try_reserve atomic_budget].
  rewrite reserve_cases by done. rewrite (proj2 (Z.eqb_neq cap 0)) by done.
  assert (Have : program - (rings_total sess + leaving_total leaving + ledger_sum tools) = avail) by lia.
  rewrite Have. destruct (Z.ltb_spec tool cap) as [|Htool]; [done|].
  destruct (Z.ltb_spec avail cap) as [|Hfit]; [done|].
  destruct (ring_new_some cap ltac:(lia)) as (ring & -> & Hring). cbn.
  split_and!; [done| |apply lookup_insert_eq].
  exists (avail - cap). cbn. rewrite rings_insert by done. cbn. split_and!; try done; try lia.
  intros id' c' [ [<- <-]|[_ Hc] ]%lookup_insert_Some; [|by apply Hs].
  split; [|done]. split_and!; cbn; [done|lia|done].
Qed.

(** The release of a live reservation does not wrap. *)
Lemma release_exact program tool avail n : 0 <= avail + n <= program -> program <= U64_MAX ->
  release (AtomicB.mk program tool avail) n = AtomicB.mk program tool (avail + n).
Proof. intros H Hp. cbn. unfold AtomicB.release. by rewrite wrap64_small by (cbn; unfold U64_MAX in *; lia). Qed.

Lemma update_inv program tool s id f : sessions_inv program tool s ->
  (forall c, session_ok c -> session_ok (f c)) ->
  (forall c, reserved_by (f c) = reserved_by c) ->
  (forall c, rs_connection_id (f c) = rs_connection_id c) ->
  sessions_inv program tool (mkSessionSys (update_session (ss_sessions s) id f) (ss_tools s)).
Proof.
  intros (avail & Hb & Ha & Hsum & Hs & Hl & Ht) Hok Hres Hid. unfold update_session.
  destruct (sm_sessions (ss_sessions s) !! id) as [c|] eqn:Hc; [|by exists avail].
  exists avail. cbn. rewrite (rings_update _ _ c) by auto. split_and!; try done.
  intros id' c' [ [<- <-]|[_ Hc'] ]%lookup_insert_Some; [|by apply Hs].
  rewrite Hid. destruct (Hs id c Hc). auto.
Qed.

Lemma remove_begin_inv program tool s id : sessions_inv program tool s ->
  sessions_inv program tool (mkSessionSys (remove_begin (ss_sessions s) id) (ss_tools s)).
Proof.
  intros (avail & Hb & Ha & Hsum & Hs & Hl & Ht). unfold remove_begin.
  destruct (sm_sessions (ss_sessions s) !! id) as [c|] eqn:Hc; [|by exists avail].
  pose proof (rings_delete _ _ _ Hc). exists avail. cbn. split_and!; try done.
  - unfold leaving_total in *. rewrite fmap_app, ledger_sum_app.
    change (ledger_sum (reserved_by <$> [c])) with (reserved_by c + 0). lia.
  - intros id' c' [_ Hc']%lookup_delete_Some. by apply Hs.
  - apply Forall_app. split; [done|]. constructor; [|done]. by apply (Hs id).
Qed.

Lemma ledger_delete l i n : Forall (fun n => 0 < n) l -> l !! i = Some n ->
  ledger_sum (delete i l) = ledger_sum l - n /\ 0 < n <= ledger_sum l.
Proof.
  intros Hl Hn. split; [by apply ledger_sum_delete|]. split; [by apply (Forall_lookup_1 _ _ _ _ Hl Hn)|].
  apply ledger_sum_elem; [|by eapply list_elem_of_lookup_2]. eapply Forall_impl; [exact Hl|]. simpl. lia.
Qed.

Lemma remove_finish_inv program tool s i : program <= U64_MAX -> sessions_inv program tool s ->
  sessions_inv program tool (mkSessionSys (remove_finish (ss_sessions s) i) (ss_tools s)).
Proof.
  intros Hp Hinv. pose proof (sessions_totals _ _ _ Hinv) as (Hr0 & Hl0 & Ht0).
  destruct Hinv as (avail & Hb & Ha & Hsum & Hs & Hl & Ht). unfold remove_finish.
  destruct (sm_leaving (ss_sessions s) !! i) as [c|] eqn:Hc; [|by exists avail].
  pose proof (Forall_lookup_1 _ _ _ _ Hl Hc) as Hck.
  destruct (ledger_delete (reserved_by <$> sm_leaving (ss_sessions s)) i (reserved_by c)) as [Hd Hle].
  { apply Forall_fmap. eapply Forall_impl; [exact Hl|]. apply session_ok_reserved. }
  { by rewrite list_lookup_fmap, Hc. }
  fold (leaving_total (sm_leaving (ss_sessions s))) in Hd, Hle. rewrite <- list_fmap_delete in Hd.
  assert (Hres : rs_reservation c = Some (reserved_by c)) by (unfold reserved_by; by rewrite (proj1 Hck)).
  exists (avail + reserved_by c). unfold shutdown_and_join, drop_reservation. cbn. rewrite Hres, Hb.
  fold (leaving_total (delete i (sm_leaving (ss_sessions s)))) in Hd.
  split_and!; try done; [apply release_exact; lia|lia|lia|by apply Forall_delete].
Qed.

Lemma tools_inv program tool s op : program <= U64_MAX -> sessions_inv program tool s ->
  valid_session_op op -> match op with SReserve _ | SRelease _ => True | _ => False end ->
  sessions_inv program tool (session_op s op).
Proof.
  intros Hp Hinv Hv Hop. pose proof (sessions_totals _ _ _ Hinv) as (Hr0 & Hl0 & Ht0).
  pose proof Hinv as (avail & Hb & Ha & Hsum & Hs & Hl & Ht).
  destruct op as [| | | | |n|i]; try done; cbn in Hv |- *.
  - rewrite Hb, reserve_cases by done.
    destruct (Z.eqb_spec n 0); [by exists avail|]. destruct (tool <? n); [by exists avail|].
    destruct (Z.ltb_spec avail n); [by exists avail|]. exists (avail - n). cbn. split_and!; try done; [lia| |].
    + rewrite ledger_sum_app. change (ledger_sum [n]) with (n + 0). lia.
    + apply Forall_app. split; [done|]. constructor; [lia|done].
  - destruct (ss_tools s !! i) as [n|] eqn:Hn; [|done].
    destruct (ledger_delete _ _ _ Ht Hn) as [Hd Hle].
    exists (avail + n). cbn [ss_sessions ss_tools with_budget sm_sessions sm_leaving sm_budget].
    rewrite Hb, Hd. split_and!; try done; [apply release_exact; lia|lia|lia|by apply Forall_delete].
Qed.

Lemma session_op_inv program tool s op : program <= U64_MAX ->
  sessions_inv program tool s -> valid_session_op op -> sessions_inv program tool (session_op s op).
Proof.
  intros Hp Hinv Hv. destruct op as [id cap task|id|i|id bytes|id off|n|i].
  - pose proof (create_spec _ _ _ id cap task Hinv Hv) as Hc. cbn.
    destruct (get_or_create _ _ _ _) as [r m]. apply Hc.
  - by apply remove_begin_inv.
  - by apply remove_finish_inv.
  - apply update_inv; try done. intros c (H1 & H2 & H3). split_and!; [done|done|].
    cbn. by rewrite append_capacity.
  - by apply update_inv.
  - by apply tools_inv.
  - by apply tools_inv.
Qed.

(** Every state reached from the start satisfies the invariant. *)
Lemma sessions_run_inv program tool b ops :
  AtomicB.new program tool = Some b -> program <= U64_MAX -> Forall valid_session_op ops ->
  sessions_inv program tool (foldl session_op (session_start b) ops).
Proof.
  intros Hb Hp Hops. unfold AtomicB.new in Hb. case_match eqn:E; [|done]. injection Hb as <-.
  apply andb_true_iff in E as [ [E1%Z.ltb_lt _]%andb_true_iff _].
  assert (H0 : sessions_inv program tool (session_start (AtomicB.mk program tool program))).
  { exists program. cbn. split_and!; try done; [lia|].
    unfold rings_total. rewrite map_total_empty. unfold leaving_total, ledger_sum. simpl. lia. }
  revert H0. generalize (session_start (AtomicB.mk program tool program)).
  induction Hops as [|op ops Hop _ IH]; intros s H0; simpl; [done|]. by apply IH, session_op_inv.
Qed.

(** ** Properties *)

(** C22: after any sequence of sessions being created,
    used and removed while tools reserve and release output, what is available and
    the rings of the sessions, of the sessions still shutting down and of the tools
    together are exactly the program limit, every session is stored under its id
    with a ring of the size it paid for, and [get_or_create] answers as
    documented: the existing session, whatever capacity is asked for, or a new one
    unless the capacity is zero, over the tool limit or more than is left, and a
    refusal changes nothing. *)
Theorem sessions_account_for_rings program tool b ops s :
  AtomicB.new program tool = Some b -> program <= U64_MAX -> Forall valid_session_op ops ->
  s = foldl session_op (session_start b) ops ->
  let m := ss_sessions s in
  available (sm_budget m) + rings_total (sm_sessions m) + leaving_total (sm_leaving m)
    + ledger_sum (ss_tools s) = program /\
  (forall id c, session_get m id = Some c ->
     rs_connection_id c = id /\ reserved_by c = ring_capacity (rs_ring c) /\ 0 < reserved_by c) /\
  (forall id cap task, 0 <= cap ->
     let '(r, m') := get_or_create m id cap task in
     rs_ring_capacity <$> r = create_result program tool s id cap /\
     match r with Ok c => session_get m' id = Some c | Err _ => m' = m end).
Proof.
  intros Hb Hp Hops ->. set (s := foldl _ _ _).
  pose proof (sessions_run_inv program tool b ops Hb Hp Hops) as Hinv. fold s in Hinv.
  split_and!.
  - destruct Hinv as (avail & -> & _ & Hsum & _). exact Hsum.
  - intros id c Hc. destruct Hinv as (avail & _ & _ & _ & Hs & _).
    destruct (Hs id c Hc) as [Hck Hid]. pose proof (session_ok_reserved c Hck).
    destruct Hck as (Hr & _ & Hcap). split_and!; [done| |done]. unfold reserved_by. by rewrite Hr, Hcap.
  - intros id cap task Hcap. pose proof (create_spec _ _ _ id cap task Hinv Hcap) as Hc.
    destruct (get_or_create _ _ _ _) as [r m']. destruct Hc as (? & _ & ?). by split.
Qed.

(** Two sessions share a budget of ten bytes with a tool; a third does not fit
    until the first has shut down. *)
Definition session_ops : list SessionOp :=
  [SGetOrCreate [x61] 4 0; SGetOrCreate [x62] 3 1; SReserve 2; SAppend [x61] [x30; x31; x32; x33; x34];
   SRemoveBegin [x61]].

Lemma sessions_account_for_rings_witness :
  let s := foldl session_op (session_start (AtomicB.mk 10 8 10)) session_ops in
  available (sm_budget (ss_sessions s)) = 1 /\ leaving_total (sm_leaving (ss_sessions s)) = 4 /\
  create_result 10 8 s [x63] 5 = Err (RingBudget (InsufficientProgramBudget 5 1)) /\
  create_result 10 8 (session_op s (SRemoveFinish 0)) [x63] 5 = Ok 5 /\
  create_result 10 8 s [x62] 5 = Ok 3 /\
  available (sm_budget (ss_sessions s)) + rings_total (sm_sessions (ss_sessions s))
    + leaving_total (sm_leaving (ss_sessions s)) + ledger_sum (ss_tools s) = 10.
Proof.
  split; [by vm_compute|]. split; [by vm_compute|]. split; [by vm_compute|].
  split; [by vm_compute|]. split; [by vm_compute|].
  assert (Hops : Forall valid_session_op session_ops) by (repeat constructor; cbn; lia).
  apply (sessions_account_for_rings 10 8 (AtomicB.mk 10 8 10) session_ops _ eq_refl
           ltac:(unfold U64_MAX; lia) Hops eq_refl).
Defined.
