(* ===== verification/TxSession.v ===== *)
(** * [src/tx_session.rs]: the worker that serializes writes and output flushes

    One worker per connection executes the requests of all callers, which reach it
    through a bounded channel and are acknowledged one by one.  Callers, channel,
    worker, closing of the connection and shutdown are a step relation; the table
    of sessions is sequential, as it is under its lock. *)

From S2P Require Import Prelude RustStr LogBuffer RxConsume Profiles SerialConfig Connection.

Definition TX_CHANNEL_CAPACITY : nat := 64.

Inductive TxRequest := TxWrite (data : list byte) | TxFlush.

(** What an acknowledgment carries. *)
Inductive TxResult :=
  | WriteDone (r : result SerialError Z)
  | FlushDone (r : result SerialError unit).

(** A session: the sender, until [shutdown_and_join] takes it, and the number of
    the worker task. *)
Record TxSession := mkTxSession {
  ts_connection_id : list byte;
  ts_tx : bool;
  ts_worker_task : option nat;
}.

(** [write] and [flush_output] report any failure of the channel as a closed
    connection. *)
Definition tx_closed (id : list byte) (req : TxRequest) : TxResult :=
  match req with
  | TxWrite _ => WriteDone (Err (ConnectionClosed id))
  | TxFlush => FlushDone (Err (ConnectionClosed id))
  end.

(** The arms of [tx_worker]. *)
Definition tx_execute (c : SerialConnection) (now : Z) (req : TxRequest) (fault : option (nat * IoError))
    : TxResult * SerialConnection :=
  match req with
  | TxWrite data => let '(r, c) := conn_write c now data fault in (WriteDone r, c)
  | TxFlush => let '(r, c) := flush_buffers c FlushOutput (snd <$> fault) in (FlushDone r, c)
  end.

(** ** The running session *)

(** A call of [write] or [flush_output]: waiting for room in the channel, waiting
    for its acknowledgment, returned, or dropped by its caller. *)
Inductive CallPc := CSending | CAwaiting | CDone (r : TxResult) | CDropped.

Definition call_finished (p : CallPc) : bool :=
  match p with CDone _ | CDropped => true | _ => false end.

(** The worker: in its [select!], executing a request, past its loop with the
    receiver still alive, or gone. *)
Inductive WorkerPc := WSelect | WRunning (n : nat) (req : TxRequest) | WLeaving | WExited.

(** The last three components serve the statements: the requests accepted by the
    channel, the requests executed with their results, and the bytes that reached
    the device, each in order. *)
Record TxSys := mkTx {
  t_session : TxSession;
  t_conn : SerialConnection;
  t_queue : list (nat * TxRequest);
  t_worker : WorkerPc;
  t_calls : gmap nat (TxRequest * CallPc);
  t_accepted : list nat;
  t_executed : list (nat * TxRequest * TxResult);
  t_wire : list byte;
}.

Definition output_of (c : SerialConnection) : list byte :=
  match sc_io c with Some d => dev_output d | None => [] end.

(** The bytes a request has put on the device. *)
Definition put_on_device (c c' : SerialConnection) (req : TxRequest) : list byte :=
  match req with TxWrite _ => drop (length (output_of c)) (output_of c') | TxFlush => [] end.

(** A call that begins: it is refused at once when the sender is gone. *)
Definition call_begin (s : TxSession) (req : TxRequest) : CallPc :=
  if ts_tx s then CSending else CDone (tx_closed (ts_connection_id s) req).

(** [ack.send(result)]: nobody hears it if the call was dropped. *)
Definition acknowledge (calls : gmap nat (TxRequest * CallPc)) (n : nat) (r : TxResult)
    : gmap nat (TxRequest * CallPc) :=
  match calls !! n with
  | Some (req, CAwaiting) => <[n := (req, CDone r)]> calls
  | _ => calls
  end.

Definition sender_gone (s : TxSession) : TxSession :=
  mkTxSession (ts_connection_id s) false (ts_worker_task s).

(** The steps of the calls in progress and of the worker, and nothing else: what the
    session does by itself. *)
Inductive tx_progress : TxSys -> TxSys -> Prop :=
  | tx_send s c q w calls acc ex wire n req :
      calls !! n = Some (req, CSending) -> w <> WExited -> (length q < TX_CHANNEL_CAPACITY)%nat ->
      tx_progress (mkTx s c q w calls acc ex wire)
        (mkTx s c (q ++ [(n, req)]) w (<[n := (req, CAwaiting)]> calls) (acc ++ [n]) ex wire)
  | tx_send_fails s c q calls acc ex wire n req :
      calls !! n = Some (req, CSending) ->
      tx_progress (mkTx s c q WExited calls acc ex wire)
        (mkTx s c q WExited (<[n := (req, CDone (tx_closed (ts_connection_id s) req))]> calls) acc ex wire)
  | tx_recv s c q calls acc ex wire n req :
      tx_progress (mkTx s c ((n, req) :: q) WSelect calls acc ex wire)
        (mkTx s c q (WRunning n req) calls acc ex wire)
  | tx_run s c q calls acc ex wire n req now fault r c' :
      tx_execute c now req fault = (r, c') ->
      tx_progress (mkTx s c q (WRunning n req) calls acc ex wire)
        (mkTx s c' q WSelect (acknowledge calls n r) acc (ex ++ [(n, req, r)])
           (wire ++ put_on_device c c' req))
  | tx_cancelled s c q calls acc ex wire :
      sc_close_token c = true ->
      tx_progress (mkTx s c q WSelect calls acc ex wire) (mkTx s c q WLeaving calls acc ex wire)
  | tx_none s c calls acc ex wire :
      ts_tx s = false -> (forall n req p, calls !! n = Some (req, p) -> call_finished p = true) ->
      tx_progress (mkTx s c [] WSelect calls acc ex wire) (mkTx s c [] WLeaving calls acc ex wire)
  | tx_receiver_dropped s c q calls acc ex wire :
      tx_progress (mkTx s c q WLeaving calls acc ex wire) (mkTx s c [] WExited calls acc ex wire)
  | tx_ack_dropped s c q calls acc ex wire n req :
      calls !! n = Some (req, CAwaiting) ->
      tx_progress (mkTx s c q WExited calls acc ex wire)
        (mkTx s c q WExited (<[n := (req, CDone (tx_closed (ts_connection_id s) req))]> calls) acc ex wire).

(** What the rest of the program does: it makes new calls, drops calls it waits for,
    shuts the session down ([shutdown_and_join]) and uses the connection; nothing takes
    the close token back. *)
Inductive tx_outside : TxSys -> TxSys -> Prop :=
  | tx_call s c q w calls acc ex wire n req :
      calls !! n = None ->
      tx_outside (mkTx s c q w calls acc ex wire)
        (mkTx s c q w (<[n := (req, call_begin s req)]> calls) acc ex wire)
  | tx_call_dropped s c q w calls acc ex wire n req p :
      calls !! n = Some (req, p) -> call_finished p = false ->
      tx_outside (mkTx s c q w calls acc ex wire)
        (mkTx s c q w (<[n := (req, CDropped)]> calls) acc ex wire)
  | tx_shutdown s c q w calls acc ex wire :
      ts_tx s = true ->
      tx_outside (mkTx s c q w calls acc ex wire) (mkTx (sender_gone s) c q w calls acc ex wire)
  | tx_connection s c c' q w calls acc ex wire :
      (sc_close_token c = true -> sc_close_token c' = true) ->
      tx_outside (mkTx s c q w calls acc ex wire) (mkTx s c' q w calls acc ex wire).

Definition tx_step (s s' : TxSys) : Prop := tx_progress s s' \/ tx_outside s s'.

(** [TxSession::new]. *)
Definition tx_session_new (c : SerialConnection) (task : nat) : TxSession :=
  mkTxSession (sc_id (sc_identity c)) true (Some task).
Definition tx_start (c : SerialConnection) (task : nat) : TxSys :=
  mkTx (tx_session_new c task) c [] WSelect ∅ [] [] [].

(** ** The table *)

Definition TxSessionManager := gmap (list byte) TxSession.

(** [get_or_create] and the removal of [remove]; its wait is [tx_shutdown] and the
    worker's exit. *)
Definition tx_get_or_create (m : TxSessionManager) (c : SerialConnection) (task : nat)
    : TxSession * TxSessionManager :=
  let conn_id := sc_id (sc_identity c) in
  match m !! conn_id with
  | Some existing => (existing, m)
  | None => let session := tx_session_new c task in (session, <[conn_id := session]> m)
  end.

Definition tx_remove (m : TxSessionManager) (conn_id : list byte) : option TxSession * TxSessionManager :=
  (m !! conn_id, delete conn_id m).

(** ** The invariant *)

(** What one executed request puts on the device. *)
Definition piece_of (e : nat * TxRequest * TxResult) (piece : list byte) : Prop :=
  match e.1.2, e.2 with
  | TxWrite data, WriteDone (Ok k) => piece = data /\ k = zlen data
  | TxWrite data, WriteDone (Err _) => piece `prefix_of` data
  | TxFlush, FlushDone _ => piece = []
  | _, _ => False
  end.

Definition running (w : WorkerPc) : list (nat * TxRequest) :=
  match w with WRunning n req => [(n, req)] | _ => [] end.
Definition executed_ids (ex : list (nat * TxRequest * TxResult)) : list nat := (fun e => e.1.1) <$> ex.
#[local] Arguments executed_ids : simpl never.
Definition exited (w : WorkerPc) : bool := match w with WExited => true | _ => false end.

Definition call_ok (id : list byte) (acc : list nat) (ex : list (nat * TxRequest * TxResult))
    (w : WorkerPc) (n : nat) (req : TxRequest) (p : CallPc) : Prop :=
  match p with
  | CSending => n ∉ acc
  | CAwaiting => n ∈ acc /\ n ∉ executed_ids ex
  | CDone r =>
      (n, req, r) ∈ ex \/
      (r = tx_closed id req /\ n ∉ executed_ids ex /\ (n ∉ acc \/ exited w = true))
  | CDropped => True
  end.

Record tx_inv (id : list byte) (s : TxSys) : Prop := {
  inv_id : ts_connection_id (t_session s) = id;
  inv_room : (length (t_queue s) <= TX_CHANNEL_CAPACITY)%nat;
  inv_nodup : NoDup (t_accepted s);
  inv_order : exists lost,
    t_accepted s = executed_ids (t_executed s) ++ (running (t_worker s) ++ t_queue s).*1 ++ lost /\
    (if exited (t_worker s) then t_queue s = [] else lost = []);
  inv_known : forall n, n ∈ t_accepted s -> is_Some (t_calls s !! n);
  inv_calls : forall n req p, t_calls s !! n = Some (req, p) ->
    call_ok id (t_accepted s) (t_executed s) (t_worker s) n req p;
  inv_reqs : Forall (fun x => exists p, t_calls s !! x.1 = Some (x.2, p))
               (running (t_worker s) ++ t_queue s);
  inv_wire : exists pieces, t_wire s = concat pieces /\ Forall2 piece_of (t_executed s) pieces;
}.

Lemma execute_piece c now req fault r c' n :
  tx_execute c now req fault = (r, c') -> piece_of (n, req, r) (put_on_device c c' req).
Proof.
  destruct req as [data|]; cbn.
  - unfold conn_write, ensure_open, io_or_closed, output_of. intros H.
    destruct (sc_closed c).
    { simplify_eq/=. rewrite drop_all. apply prefix_nil. }
    destruct (sc_io c) as [io|] eqn:Hio; cbn in H; rewrite ?Hio in H; cbn in H.
    2: { simplify_eq/=. rewrite Hio. apply prefix_nil. }
    destruct fault as [ [k e]|]; simplify_eq/=; rewrite drop_app_length;
      [apply prefix_take|done].
  - intros H. destruct (flush_buffers _ _ _). by simplify_eq/=.
Qed.

(** A call changes its state: the other calls and the requests stay. *)
Lemma calls_change (calls : gmap nat (TxRequest * CallPc)) n req p p' (l : list (nat * TxRequest)) :
  calls !! n = Some (req, p) ->
  Forall (fun x => exists p, calls !! x.1 = Some (x.2, p)) l ->
  Forall (fun x => exists p, <[n := (req, p')]> calls !! x.1 = Some (x.2, p)) l.
Proof.
  intros Hn Hl. eapply Forall_impl; [exact Hl|]. intros [m req'] [pm Hm]. cbn in *.
  destruct (decide (m = n)) as [->|]; simplify_map_eq; eauto.
Qed.

Lemma known_change {A} (calls : gmap nat A) n a (l : list nat) :
  (forall m, m ∈ l -> is_Some (calls !! m)) -> forall m, m ∈ l -> is_Some (<[n := a]> calls !! m).
Proof. intros H m Hm. destruct (decide (m = n)) as [->|]; simplify_map_eq; eauto. Qed.

(** A step that only moves the state of one call. *)
Lemma inv_call_moves id s c q w calls acc ex wire n req p p' :
  tx_inv id (mkTx s c q w calls acc ex wire) -> calls !! n = Some (req, p) ->
  call_ok id acc ex w n req p' ->
  tx_inv id (mkTx s c q w (<[n := (req, p')]> calls) acc ex wire).
Proof.
  intros [Hid Hr Hnd Ho Hk Hc Hq Hw] Hn Hp. split; cbn in *; try done.
  - by apply known_change.
  - intros m req' pm Hm. destruct (decide (m = n)) as [->|]; simplify_map_eq; eauto.
  - by eapply calls_change.
Qed.

Lemma elem_of_executed n req r ex : (n, req, r) ∈ ex -> n ∈ executed_ids ex.
Proof. intros H. apply list_elem_of_fmap. by exists (n, req, r). Qed.

(** A request enters the channel. *)
Lemma inv_send id s c q w calls acc ex wire n req :
  tx_inv id (mkTx s c q w calls acc ex wire) -> calls !! n = Some (req, CSending) ->
  exited w = false -> (length q < TX_CHANNEL_CAPACITY)%nat ->
  tx_inv id (mkTx s c (q ++ [(n, req)]) w (<[n := (req, CAwaiting)]> calls) (acc ++ [n]) ex wire).
Proof.
  intros [Hid Hr Hnd (lost & Ho & Hl) Hk Hc Hq Hw] Hn He Hlen. cbn in *.
  pose proof (Hc _ _ _ Hn) as Hnew. cbn in Hnew. rewrite He in Hl. subst lost.
  assert (Hex : n ∉ executed_ids ex) by (rewrite Ho in Hnew; set_solver).
  split; cbn; try done.
  - rewrite length_app. simpl. lia.
  - apply NoDup_app. split_and!; [done| |apply NoDup_singleton].
    intros m Hm ->%list_elem_of_singleton. done.
  - exists []. rewrite He. split; [|done]. rewrite Ho, !app_nil_r, !fmap_app. simpl. by rewrite !app_assoc.
  - intros m [Hm| ->%list_elem_of_singleton]%elem_of_app; [|by simplify_map_eq].
    by apply (known_change calls n _ acc).
  - intros m req' p Hm. destruct (decide (m = n)) as [->|Hne]; simplify_map_eq.
    + split; [set_solver|done].
    + specialize (Hc _ _ _ Hm). destruct p; cbn in *; [set_solver|set_solver| |done].
      destruct Hc as [?|(? & ? & [?|?])]; [by left|right; set_solver|congruence].
  - rewrite app_assoc. apply Forall_app. split; [by eapply calls_change|].
    constructor; [|done]. cbn. exists CAwaiting. by simplify_map_eq.
Qed.

(** The worker acknowledges the request it has executed. *)
Lemma acknowledge_lookup calls n r m : m <> n -> acknowledge calls n r !! m = calls !! m.
Proof. intros Hm. unfold acknowledge. repeat case_match; by simplify_map_eq. Qed.

Lemma acknowledge_self calls n r req p : calls !! n = Some (req, p) ->
  acknowledge calls n r !! n = Some (req, match p with CAwaiting => CDone r | _ => p end).
Proof. intros Hn. unfold acknowledge. rewrite Hn. by destruct p; simplify_map_eq. Qed.

Lemma inv_run id s c q calls acc ex wire n req now fault r c' :
  tx_inv id (mkTx s c q (WRunning n req) calls acc ex wire) -> tx_execute c now req fault = (r, c') ->
  tx_inv id (mkTx s c' q WSelect (acknowledge calls n r) acc (ex ++ [(n, req, r)])
               (wire ++ put_on_device c c' req)).
Proof.
  intros [Hid Hr Hnd (lost & Ho & Hl) Hk Hc Hq (pieces & Hwire & Hw)] Hx.
  cbn in *. subst lost wire.
  rewrite app_nil_r in Ho. apply Forall_cons in Hq as [ [p Hp] Hq]. cbn in Hp.
  assert (Hself := acknowledge_self calls n r req p Hp).
  assert (Hin : n ∈ acc) by (rewrite Ho; set_solver).
  assert (Hnq : n ∉ q.*1 /\ n ∉ executed_ids ex).
  { rewrite Ho in Hnd. apply NoDup_app in Hnd as (_ & Hd & [? _]%NoDup_cons). set_solver. }
  destruct Hnq as [Hnq Hnex].
  assert (Hids : executed_ids (ex ++ [(n, req, r)]) = executed_ids ex ++ [n])
    by (unfold executed_ids; by rewrite fmap_app).
  split; cbn; try done.
  - exists []. split; [|done]. by rewrite Ho, Hids, app_nil_r, <- app_assoc.
  - intros m Hm. destruct (decide (m = n)) as [->|]; [by rewrite Hself|].
    rewrite acknowledge_lookup by done. by apply Hk.
  - intros m req' pm Hm. destruct (decide (m = n)) as [->|Hne].
    + rewrite Hself in Hm. injection Hm as <- <-. specialize (Hc _ _ _ Hp).
      destruct p; cbn in *; [done|left; set_solver| |done].
      destruct Hc as [Hd%elem_of_executed|(_ & _ & [?|?])]; done.
    + rewrite acknowledge_lookup in Hm by done. specialize (Hc _ _ _ Hm).
      destruct pm; cbn in *; rewrite ?Hids; [done|set_solver| |done].
      destruct Hc as [Hd|(-> & Hd & [?|?])]; [left; set_solver|right|done]. set_solver.
  - eapply Forall_impl; [apply Forall_and; split; [exact Hq|]; apply Forall_forall;
      intros x Hx'; exact (list_elem_of_fmap_2 fst q x Hx')|].
    intros [m req'] [ [pm Hm] Hmq]. cbn in *. rewrite acknowledge_lookup; [eauto|]. by intros ->.
  - exists (pieces ++ [put_on_device c c' req]). rewrite concat_app. simpl. rewrite app_nil_r.
    split; [done|]. apply Forall2_app; [done|]. constructor; [by eapply execute_piece|constructor].
Qed.

(** The receiver is dropped: what is queued is lost. *)
Lemma inv_receiver_dropped id s c q calls acc ex wire :
  tx_inv id (mkTx s c q WLeaving calls acc ex wire) -> tx_inv id (mkTx s c [] WExited calls acc ex wire).
Proof.
  intros [Hid Hr Hnd (lost & Ho & Hl) Hk Hc Hq Hw]. cbn in *. subst lost.
  split; cbn; try done; [lia|by exists (q.*1); rewrite app_nil_r in Ho|].
  intros n req p Hn. specialize (Hc _ _ _ Hn). destruct p; cbn in *; try done.
  destruct Hc as [?|(? & ? & [?|?])]; auto.
Qed.

Lemma tx_step_inv id s s' : tx_inv id s -> tx_step s s' -> tx_inv id s'.
Proof.
  intros Hinv [Hs|Hs]; destruct Hs; try (destruct Hinv as [Hid Hr Hnd Ho Hk Hc Hq Hw]; by split).
  - apply inv_send; try done. by destruct w.
  - eapply inv_call_moves; [done..|]. pose proof (inv_calls _ _ Hinv _ _ _ H) as Hc. cbn in *.
    right. split; [by rewrite <- (inv_id _ _ Hinv)|]. split; [|by right].
    intros Hn. apply Hc. destruct (inv_order _ _ Hinv) as (lost & Ho & _). cbn in Ho. rewrite Ho. set_solver.
  - destruct Hinv as [Hid Hr Hnd Ho Hk Hc Hq Hw]. cbn in *. split; cbn; try done. lia.
  - by eapply inv_run.
  - by eapply inv_receiver_dropped.
  - eapply inv_call_moves; [done..|]. pose proof (inv_calls _ _ Hinv _ _ _ H) as [_ Hc]. cbn in *.
    right. split; [by rewrite <- (inv_id _ _ Hinv)|]. split; [done|by right].
  - destruct Hinv as [Hid Hr Hnd Ho Hk Hc Hq Hw]. cbn in *.
    assert (Hna : n ∉ acc) by (intros [x Hx]%Hk; congruence).
    assert (Hnex : n ∉ executed_ids ex) by (destruct Ho as (lost & -> & _); set_solver).
    split; cbn; try done.
    + by apply known_change.
    + intros m req' p Hm. destruct (decide (m = n)) as [->|]; simplify_map_eq; [|by apply Hc].
      unfold call_begin. destruct (ts_tx s); cbn; [done|]. auto.
    + eapply Forall_impl; [exact Hq|]. intros [m req'] [p Hm]. cbn in *.
      destruct (decide (m = n)) as [->|]; simplify_map_eq; eauto.
  - by eapply inv_call_moves.
Qed.

Lemma tx_reach_inv c task s : rtc tx_step (tx_start c task) s -> tx_inv (sc_id (sc_identity c)) s.
Proof.
  apply (rtc_preserves tx_step (tx_inv (sc_id (sc_identity c)))); [apply tx_step_inv|].
  split; cbn; try done; [unfold TX_CHANNEL_CAPACITY; lia|constructor|by exists []| |by exists []].
  intros n Hn. by apply elem_of_nil in Hn.
Qed.

(** ** Every call comes back *)

(** How far a session is from rest: its calls, its queue, its worker. *)
Definition call_weight (_ : nat) (x : TxRequest * CallPc) : Z :=
  match x.2 with CSending => 4 | CAwaiting => 1 | _ => 0 end.
Definition worker_weight (w : WorkerPc) : Z :=
  match w with WRunning _ _ => 3 | WSelect => 2 | WLeaving => 1 | WExited => 0 end.
Definition tx_measure (s : TxSys) : Z :=
  map_total call_weight (t_calls s) + 2 * zlen (t_queue s) + worker_weight (t_worker s).

Lemma call_weight_nonneg n x : 0 <= call_weight n x.
Proof. unfold call_weight. by destruct (x.2). Qed.

Lemma calls_weight_change (calls : gmap nat (TxRequest * CallPc)) n x y :
  calls !! n = Some x ->
  map_total call_weight (<[n := y]> calls) = map_total call_weight calls - call_weight n x + call_weight n y.
Proof.
  intros Hn. rewrite <- insert_delete_eq, map_total_insert by apply lookup_delete_eq.
  rewrite (map_total_delete call_weight calls n x Hn). lia.
Qed.

Lemma acknowledge_weight calls n r :
  map_total call_weight (acknowledge calls n r) <= map_total call_weight calls.
Proof.
  unfold acknowledge. destruct (calls !! n) as [ [req p]|] eqn:Hn; [|lia]. destruct p; try lia.
  rewrite (calls_weight_change _ _ _ _ Hn). cbn. lia.
Qed.

Lemma progress_decreases s s' : tx_progress s s' -> tx_measure s' < tx_measure s.
Proof.
  destruct 1; unfold tx_measure; cbn [t_calls t_queue t_worker]; autorewrite with serial;
    try (erewrite calls_weight_change by eassumption); cbn; try lia.
  - pose proof (acknowledge_weight calls n r). lia.
  - pose proof (zlen_nonneg q). lia.
Qed.

Lemma tx_measure_nonneg s : 0 <= tx_measure s.
Proof.
  unfold tx_measure. pose proof (map_total_nonneg call_weight (t_calls s) call_weight_nonneg).
  pose proof (zlen_nonneg (t_queue s)).
  destruct (t_worker s); cbn; lia.
Qed.

(** At rest no call is open; after a close or a shutdown the worker is gone. *)
Lemma at_rest id s : tx_inv id s -> (forall s', ~ tx_progress s s') ->
  (t_worker s = WSelect \/ t_worker s = WExited) /\ t_queue s = [] /\
  (forall n req p, t_calls s !! n = Some (req, p) -> call_finished p = true).
Proof.
  intros Hinv Hstuck. destruct s as [s c q w calls acc ex wire]. cbn.
  destruct Hinv as [Hid Hr Hnd (lost & Ho & Hl) Hk Hc Hq Hw]. cbn in *.
  assert (Hwq : (w = WSelect \/ w = WExited) /\ q = []).
  { destruct w as [|n req| |].
    - split; [by left|]. destruct q as [|[n req] q]; [done|]. exfalso. eapply Hstuck, tx_recv.
    - exfalso. destruct (tx_execute c 0 req None) as [r c'] eqn:E. by eapply Hstuck, tx_run.
    - exfalso. eapply Hstuck, tx_receiver_dropped.
    - split; [by right|done]. }
  destruct Hwq as [Hws ->]. split; [done|]. split; [done|]. intros n req p Hn.
  destruct p; try done; exfalso.
  - destruct w eqn:Ew; try (by destruct Hws); [|by eapply Hstuck, tx_send_fails].
    eapply Hstuck, tx_send; [done|done|]. cbn. unfold TX_CHANNEL_CAPACITY. lia.
  - destruct Hws as [->| ->]; [|by eapply Hstuck, tx_ack_dropped].
    destruct (Hc _ _ _ Hn) as [Hin Hout]. cbn in Hl. subst lost. rewrite Ho in Hin. set_solver.
Qed.

(** By itself the session neither forgets a call nor drops it. *)
Definition in_hand (n : nat) (req : TxRequest) (s : TxSys) : Prop :=
  exists p, t_calls s !! n = Some (req, p) /\ p <> CDropped.

Lemma in_hand_update n req (calls : gmap nat (TxRequest * CallPc)) m req' p p' :
  calls !! m = Some (req', p') -> p <> CDropped ->
  (exists q, calls !! n = Some (req, q) /\ q <> CDropped) ->
  exists q, <[m := (req', p)]> calls !! n = Some (req, q) /\ q <> CDropped.
Proof.
  intros Hm Hp (q & Hn & Hq). destruct (decide (m = n)) as [->|]; simplify_map_eq; eauto.
Qed.

Lemma progress_in_hand n req s s' : in_hand n req s -> tx_progress s s' -> in_hand n req s'.
Proof.
  intros Hn Hs. destruct Hs; unfold in_hand in *; cbn [t_calls] in *; try done;
    try (by eapply in_hand_update).
  unfold acknowledge. destruct (calls !! n0) as [ [req' p]|] eqn:Hm; [|done].
  destruct p; try done. by eapply in_hand_update.
Qed.

(** A refused call stays refused: its request is not executed later. *)
Definition refused (id : list byte) (n : nat) (s : TxSys) : Prop :=
  tx_inv id s /\ (exists req r, t_calls s !! n = Some (req, CDone r)) /\
  n ∉ executed_ids (t_executed s) /\ (n ∉ t_accepted s \/ exited (t_worker s) = true).

Lemma acknowledge_done calls n r m req r' :
  calls !! m = Some (req, CDone r') -> acknowledge calls n r !! m = Some (req, CDone r').
Proof. intros Hm. unfold acknowledge. repeat case_match; destruct (decide (m = n)); by simplify_map_eq. Qed.

Lemma other_call {A} (calls : gmap nat A) n m x y :
  calls !! n = Some y -> calls !! m <> Some y -> <[m := x]> calls !! n = Some y.
Proof. intros Hn Hm. rewrite lookup_insert_ne; [done|]. by intros ->. Qed.

Lemma refused_step id n s s' : refused id n s -> tx_step s s' -> refused id n s'.
Proof.
  intros (Hinv & (req & r & Hn) & Hex & Hacc) Hs. split; [by eapply tx_step_inv|].
  destruct Hs as [Hs|Hs]; destruct Hs; cbn in *;
    try (split; [exists req, r; done|by auto]);
    try (split; [exists req, r; apply other_call; [done|congruence]|done]).
  - split; [exists req, r; apply other_call; [done|congruence]|]. split; [done|].
    assert (n <> n0) by (intros ->; congruence). destruct Hacc; [left; set_solver|by right].
  - destruct Hacc as [Hacc|?]; [|done]. assert (Hne : n <> n0).
    { intros ->. apply Hacc. destruct (inv_order _ _ Hinv) as (lost & Ho & _). cbn in Ho. rewrite Ho. set_solver. }
    split; [exists req, r; by apply acknowledge_done|].
    split; [|by left]. unfold executed_ids in *. rewrite fmap_app. set_solver.
  - split; [exists req, r; apply other_call; [done|]|done]. rewrite H. intros [= -> ->]. done.
Qed.

(** ** Properties *)

(** C20: whatever the interleaving of callers, worker, closing
    and the rest of the program, at most 64 requests wait; requests are executed in
    the order they were accepted, each at most once; the bytes on the device are
    the executed writes one after the other, whole for a write that reported
    success and a prefix for one that failed; and a call that returned reports
    the result of its own request, or a closed connection for a request that was
    not and never will be executed. *)
Theorem tx_session_serializes c task s s' :
  rtc tx_step (tx_start c task) s -> rtc tx_step s s' ->
  (length (t_queue s) <= TX_CHANNEL_CAPACITY)%nat /\
  executed_ids (t_executed s) `prefix_of` t_accepted s /\ NoDup (t_accepted s) /\
  (exists pieces, t_wire s = concat pieces /\ Forall2 piece_of (t_executed s) pieces) /\
  (forall n req r, t_calls s !! n = Some (req, CDone r) ->
     (n, req, r) ∈ t_executed s \/
     (r = tx_closed (sc_id (sc_identity c)) req /\ n ∉ executed_ids (t_executed s'))).
Proof.
  intros Hs Hs'. pose proof (tx_reach_inv _ _ _ Hs) as Hinv.
  split_and!; [apply Hinv| |apply Hinv|apply (inv_wire _ _ Hinv)|].
  - destruct (inv_order _ _ Hinv) as (lost & -> & _). by eexists.
  - intros n req r Hn. destruct (inv_calls _ _ Hinv _ _ _ Hn) as [?|(-> & Hex & Hacc)]; [by left|right].
    split; [done|]. apply (rtc_preserves tx_step (refused (sc_id (sc_identity c)) n) s s');
      [apply refused_step| |done]. unfold refused. eauto 10.
Qed.

(** C21: the session answers its calls by itself.  Every step of a
    call in progress or of the worker brings it closer to rest, so after finitely many
    of them none is left; and whatever steps were taken from a reachable state, when
    none is left every call of that state which its caller had not dropped has returned
    with a result, and the worker has exited if the connection was closed or the
    session shut down.  Callers that drop their call and the shutdown are not among
    these steps: no call is excused by them. *)
Theorem every_call_returns c task s s' :
  rtc tx_step (tx_start c task) s -> rtc tx_progress s s' ->
  (forall s'', tx_progress s' s'' -> 0 <= tx_measure s'' < tx_measure s') /\
  ((forall s'', ~ tx_progress s' s'') ->
   (forall n req p, t_calls s !! n = Some (req, p) -> p <> CDropped ->
      exists r, t_calls s' !! n = Some (req, CDone r)) /\
   (sc_close_token (t_conn s') = true \/ ts_tx (t_session s') = false -> t_worker s' = WExited)).
Proof.
  intros Hs Hp. assert (Hinv : tx_inv (sc_id (sc_identity c)) s').
  { apply (tx_reach_inv c task). etrans; [exact Hs|]. eapply rtc_subrel; [|exact Hp]. by left. }
  split; [intros s'' Hn; split; [apply tx_measure_nonneg|by apply progress_decreases]|].
  intros Hstuck. destruct (at_rest _ _ Hinv Hstuck) as (Hw & Hq & Hcalls). split.
  - intros n req p Hn Hnd. assert (Hh : in_hand n req s').
    { eapply (rtc_preserves tx_progress (in_hand n req)); [apply progress_in_hand| |exact Hp]. by exists p. }
    destruct Hh as (p' & Hn' & Hnd'). specialize (Hcalls _ _ _ Hn'). destruct p'; try done. by exists r.
  - intros Hclosed. destruct Hw as [Hw|]; [|done]. exfalso.
    destruct s' as [x c' q w calls acc ex wire]. cbn in *. subst q w.
    destruct Hclosed; [by eapply Hstuck, tx_cancelled|by eapply Hstuck, tx_none].
Qed.

(** One write is executed; the connection is closed and the next write is
    refused. *)
Definition tx_written : SerialConnection := (tx_execute a_connection 1 (TxWrite [x41]) None).2.
Definition tx_closed_conn : SerialConnection := cancel tx_written.
Definition tx_end : TxSys :=
  mkTx (tx_session_new a_connection 7) tx_closed_conn [] WExited
    (<[1%nat := (TxFlush, CDone (tx_closed (bs "id") TxFlush))]>
       (<[0%nat := (TxWrite [x41], CDone (WriteDone (Ok 1)))]> ∅))
    [0%nat] [(0%nat, TxWrite [x41], WriteDone (Ok 1))] [x41].

Lemma tx_run_end : rtc tx_step (tx_start a_connection 7) tx_end.
Proof.
  eapply rtc_l. { right. by apply (tx_call _ _ _ _ _ _ _ _ 0 (TxWrite [x41])). }
  eapply rtc_l. { left. apply (tx_send _ _ _ _ _ _ _ _ 0 (TxWrite [x41])); [by vm_compute|done|cbn; unfold TX_CHANNEL_CAPACITY; lia]. }
  eapply rtc_l. { left. apply tx_recv. }
  eapply rtc_l. { left. by apply (tx_run _ _ _ _ _ _ _ _ _ 1 None (WriteDone (Ok 1)) tx_written). }
  eapply rtc_l. { right. by apply (tx_call _ _ _ _ _ _ _ _ 1 TxFlush). }
  eapply rtc_l. { right. by apply (tx_connection _ _ tx_closed_conn). }
  eapply rtc_l. { left. by apply tx_cancelled. }
  eapply rtc_l. { left. apply tx_receiver_dropped. }
  eapply rtc_l. { left. by apply (tx_send_fails _ _ _ _ _ _ _ 1 TxFlush). }
  assert (E : forall s, s = tx_end -> rtc tx_step s tx_end) by (by intros ? ->).
  apply E. by vm_compute.
Qed.

Lemma tx_session_serializes_witness :
  t_wire tx_end = [x41] /\ executed_ids (t_executed tx_end) `prefix_of` t_accepted tx_end.
Proof.
  split; [done|].
  apply (tx_session_serializes a_connection 7 tx_end tx_end tx_run_end (rtc_refl _ _)).
Defined.

(** A write waits for its answer; the worker takes it, writes and answers. *)
Definition tx_waiting : TxSys :=
  mkTx (tx_session_new a_connection 7) a_connection [(0%nat, TxWrite [x41])] WSelect
    (<[0%nat := (TxWrite [x41], CAwaiting)]> ∅) [0%nat] [] [].
Definition tx_answered : TxSys :=
  mkTx (tx_session_new a_connection 7) tx_written [] WSelect
    (<[0%nat := (TxWrite [x41], CDone (WriteDone (Ok 1)))]> ∅) [0%nat]
    [(0%nat, TxWrite [x41], WriteDone (Ok 1))] [x41].

Lemma tx_run_waiting : rtc tx_step (tx_start a_connection 7) tx_waiting.
Proof.
  eapply rtc_l. { right. by apply (tx_call _ _ _ _ _ _ _ _ 0 (TxWrite [x41])). }
  eapply rtc_l. { left. apply (tx_send _ _ _ _ _ _ _ _ 0 (TxWrite [x41])); [by vm_compute|done|cbn; unfold TX_CHANNEL_CAPACITY; lia]. }
  assert (E : forall s, s = tx_waiting -> rtc tx_step s tx_waiting) by (by intros ? ->).
  apply E. by vm_compute.
Qed.

Lemma tx_run_answered : rtc tx_progress tx_waiting tx_answered.
Proof.
  eapply rtc_l. { apply tx_recv. }
  eapply rtc_l. { by apply (tx_run _ _ _ _ _ _ _ _ _ 1 None (WriteDone (Ok 1)) tx_written). }
  assert (E : forall s, s = tx_answered -> rtc tx_progress s tx_answered) by (by intros ? ->).
  apply E. by vm_compute.
Qed.

Lemma tx_answered_rest s : ~ tx_progress tx_answered s.
Proof.
  unfold tx_answered. intros Hs. inversion Hs; subst; try discriminate;
    match goal with Hn : _ !! ?n = Some _ |- _ => destruct (decide (n = 0%nat)) as [->|]; simplify_map_eq end.
Qed.

Lemma every_call_returns_witness :
  tx_measure tx_waiting = 5 /\ tx_measure tx_answered = 2 /\
  (exists r, t_calls tx_answered !! 0%nat = Some (TxWrite [x41], CDone r)).
Proof.
  split; [by vm_compute|]. split; [by vm_compute|].
  destruct (every_call_returns a_connection 7 tx_waiting tx_answered tx_run_waiting tx_run_answered) as [_ Hrest].
  destruct (Hrest tx_answered_rest) as [Hcalls _].
  apply (Hcalls 0%nat (TxWrite [x41]) CAwaiting); [reflexivity|discriminate].
Defined.
