(* ===== verification/IoTools.v ===== *)
(** * [src/tools/io_ops.rs] and [src/tools/result_builders.rs]

    The handlers of [write], [read], [transact] and [flush] as transformations of
    the server state: connections, receive and transmit sessions, the buffer
    budget.  Where a handler waits, other calls run: what they do is an argument
    of the handler.  A reservation is held like the Rust guard: until the handler
    ends, however it ends. *)

From S2P Require Import Prelude Util RustStr Extern ExternModel Codec FramingConfig TxCodecs Parsers Decoder MatchConfig StopController RxRing BufferBudget RxConsume ReadLoop ReadStream LogBuffer Profiles SerialConfig Connection RxSession TxSession Tools.

Definition DEFAULT_RX_BUFFER_SIZE : Z := 256 * 1024.

(** How a handler ends; [ToolPending] is a read still waiting after the rounds it
    was given, the last two are a panic in the pipeline, which unwinds, and a
    decoder loop without end, which does not. *)
Inductive ToolEnd (E A : Type) :=
  | ToolOk (a : A)
  | ToolErr (e : E)
  | ToolPending
  | ToolPanicked
  | ToolDiverged.
Arguments ToolOk {_ _} _.
Arguments ToolErr {_ _} _.
Arguments ToolPending {_ _}.
Arguments ToolPanicked {_ _}.
Arguments ToolDiverged {_ _}.

Section IoTools.
Context `{HexCrate, Base64Crate, JsonCrate, RegexCrate, GlobCrate}.

(** ** Building the result of a read *)

Record FrameResult := mkFrameResult {
  fr_data : list byte;
  fr_encoding : Encoding;
  fr_frame_index : nat;
  fr_frame_type : string;
  fr_parsed : option ParsedFrame;
}.

Record ReadResult := mkReadResult {
  rr_connection_id : list byte;
  rr_name : option (list byte);
  rr_bytes_read : Z;
  rr_encoding : Encoding;
  rr_data : list byte;
  rr_timeout_ms : Z;
  rr_no_new_rx_timeout_ms : option Z;
  rr_elapsed_ms : Z;
  rr_stop_reason : RxStopReason;
  rr_truncated : bool;
  rr_bytes_observed : Z;
  rr_bytes_returned : Z;
  rr_matched : bool;
  rr_match_index : option nat;
  rr_match_frame_index : option nat;
  rr_frames : option (list FrameResult);
  rr_frames_dropped : nat;
  rr_error : option FrameDecodeError;
  rr_from_offset : option Z;
  rr_next_offset : option Z;
  rr_bytes_lost : Z;
  rr_buffered_remaining : Z;
  rr_start_offset : Z;
  rr_end_offset : Z;
}.

(** The closure over the frames: the encoded frames and how many failed. *)
Fixpoint encode_frames (requested : Encoding) (frames : list Frame) : list FrameResult * nat :=
  match frames with
  | [] => ([], 0%nat)
  | f :: frames =>
      let '(encoded, failed) := encode_frames requested frames in
      match encode_or_hex requested (f_data f) with
      | Ok payload =>
          (mkFrameResult (data payload) (encoding payload) (f_index f) (f_type f) (f_parsed f) :: encoded,
           failed)
      | Err _ => (encoded, S failed)
      end
  end.

(** [build_read_result]. *)
Definition build_read_result (outcome : ReadOutcome) (connection_id : list byte)
    (name : option (list byte)) (requested : Encoding) (timeout_ms no_new_rx_timeout_ms : option Z)
    : result CodecError ReadResult :=
  payload ← encode_or_hex requested (r_bytes outcome);
  let '(encoded, failed) := encode_frames requested (r_frames outcome) in
  let frames := match encoded with [] => None | _ => Some encoded end in
  Ok (mkReadResult connection_id name (zlen (r_bytes outcome)) (encoding payload) (data payload)
        (default DEFAULT_READ_TIMEOUT_MS timeout_ms) no_new_rx_timeout_ms (r_elapsed_ms outcome)
        (stop_reason (r_meta outcome)) (m_truncated (r_meta outcome))
        (m_bytes_observed (r_meta outcome)) (m_bytes_returned (r_meta outcome))
        (r_matched outcome) (r_match_index outcome) (r_match_frame_index outcome) frames
        (r_frames_dropped outcome + failed) (r_error outcome) (r_from_offset outcome)
        (r_next_offset outcome) (r_bytes_lost outcome) (r_buffered_remaining outcome)
        (r_start_offset outcome) (r_end_offset outcome)).

(** [MatchMode]'s [Display]. *)
Definition match_mode_name (m : MatchMode) : list byte :=
  match m with
  | LiteralSubstring => bs "literal_substring"
  | RegexMode => bs "regex"
  | GlobMode => bs "glob"
  end.

(** [record_read_completion]. *)
Definition record_read_completion (c : SerialConnection) (now : Z) (r : ReadResult)
    (match_request : option MatchRequest) : SerialConnection :=
  let c := record_read_op c in
  let c := with_log c (rx_data (sc_log c) now (rr_bytes_read r)) in
  let c :=
    if rr_truncated r
    then let c := record_truncation c in
         with_log c (truncated (sc_log c) now (rr_bytes_observed r) (rr_bytes_returned r))
    else c in
  match rr_matched r, match_request with
  | true, Some m => with_log c (log_match_found (sc_log c) now (pattern m) (match_mode_name (mode (config m))))
  | _, _ => c
  end.

(** ** The server state *)

(** [io_conns] are the connection objects, which outlive their registration;
    [ss_tools] of [io_sys] are the reservations of the calls under way, this call's
    own first. *)
Record IoState := mkIo {
  io_conns : gmap (list byte) SerialConnection;
  io_registered : gset (list byte);
  io_sys : SessionSys;
  io_tx : TxSessionManager;
}.

Definition with_conns (s : IoState) (f : gmap (list byte) SerialConnection -> gmap (list byte) SerialConnection)
    : IoState := mkIo (f (io_conns s)) (io_registered s) (io_sys s) (io_tx s).
Definition with_sys (s : IoState) (sys : SessionSys) : IoState :=
  mkIo (io_conns s) (io_registered s) sys (io_tx s).
Definition with_sessions (s : IoState) (m : RxSessionManager AtomicB.AtomicBudget) : IoState :=
  with_sys s (mkSessionSys m (ss_tools (io_sys s))).
Definition update_conn (s : IoState) (id : list byte) (c : SerialConnection) : IoState :=
  with_conns s <[id := c]>.

(** [lookup_connection]. *)
Definition lookup_connection (s : IoState) (id : list byte) : option SerialConnection :=
  if bool_decide (id ∈ io_registered s) then io_conns s !! id else None.

Inductive IoToolError :=
  | IoRequest (e : RxRequestError)
  | IoNotFound
  | IoWrite (e : WriteError)
  | IoSerial (e : SerialError)
  | IoBudget (e : BufferBudgetError)
  | IoSession (e : RxSessionError)
  | IoMatch (e : MatchRequestError)
  | IoFraming (e : NewError)
  | IoEncode (e : CodecError).

(** Whether the call still exists. *)
Definition ended {A} (r : ToolEnd IoToolError A) : bool :=
  match r with ToolPending | ToolDiverged => false | _ => true end.

(** ** Other calls *)

(** What others do while a handler waits: work on the sessions and on the
    budget, where they release their own reservations, and anything to the
    connections. *)
Record Others := mkOthers {
  ot_ops : list SessionOp;
  ot_conns : gmap (list byte) SerialConnection -> gmap (list byte) SerialConnection;
  ot_registered : gset (list byte) -> gset (list byte);
}.

Definition nobody : Others := mkOthers [] id id.

(** This call holds [held] reservations at the head of [ss_tools]. *)
Definition shift_op (held : nat) (op : SessionOp) : SessionOp :=
  match op with SRelease i => SRelease (held + i) | _ => op end.

Definition run_others (held : nat) (o : Others) (s : IoState) : IoState :=
  mkIo (ot_conns o (io_conns s)) (ot_registered o (io_registered s))
    (foldl session_op (io_sys s) (shift_op held <$> ot_ops o)) (io_tx s).

(** ** Reservations *)

(** [let _reservation = budget.try_reserve(n)?] and the rest of the handler. *)
Definition with_reservation {A} (n : Z) (rest : IoState -> ToolEnd IoToolError A * IoState) (s : IoState)
    : ToolEnd IoToolError A * IoState :=
  let sys := io_sys s in
  let '(r, b) := try_reserve (sm_budget (ss_sessions sys)) n in
  match r with
  | Err e => (ToolErr (IoBudget e), s)
  | Ok n =>
      let s := with_sys s (mkSessionSys (with_budget (ss_sessions sys) b) (n :: ss_tools sys)) in
      let '(out, s) := rest s in
      (out, if ended out then with_sys s (session_op (io_sys s) (SRelease 0)) else s)
  end.

(** ** The write half *)

Record WriteResult := mkWriteResult {
  wr_connection_id : list byte;
  wr_name : option (list byte);
  wr_bytes_written : Z;
  wr_decoded_bytes : Z;
  wr_encoding : Encoding;
}.

(** What becomes of a request handed to the TX session: the channel is closed, or
    the worker executes it, with the fault of the device, if any. *)
Inductive TxFate := TxRefused | TxExecuted (fault : option (nat * IoError)).

(** [session.write(data).await]. *)
Definition session_write (s : IoState) (id : list byte) (c : SerialConnection) (now : Z)
    (wire : list byte) (fate : TxFate) : result SerialError Z * IoState :=
  let '(session, tx) := tx_get_or_create (io_tx s) c (size (io_tx s)) in
  let s := mkIo (io_conns s) (io_registered s) (io_sys s) tx in
  match fate with
  | TxRefused => (Err (SerialConfig.ConnectionClosed (ts_connection_id session)), s)
  | TxExecuted fault => let '(r, c) := conn_write c now wire fault in (r, update_conn s id c)
  end.

Record WriteArgs := mkWriteArgs {
  wa_connection_id : list byte;
  wa_data : list byte;
  wa_encoding : list byte;
  wa_tx_framing : option TxFramingConfig;
  wa_protocol : option ProtocolPreset;
}.

(** [write]. *)
Definition write_tool (args : WriteArgs) (now : Z) (fate : TxFate) (s : IoState)
    : ToolEnd IoToolError WriteResult * IoState :=
  match parse_encoding (wa_encoding args) with
  | Err e => (ToolErr (IoRequest e), s)
  | Ok encoding =>
      let id := wa_connection_id args in
      match lookup_connection s id with
      | None => (ToolErr IoNotFound, s)
      | Some c =>
          match decode_tx_payload encoding (wa_data args) with
          | Err e => (ToolErr (IoWrite e), s)
          | Ok decoded =>
              let framing := resolve_field (wa_tx_framing args) (wa_protocol args) preset_tx_framing
                               (cd_tx_framing (sc_defaults c)) (cd_protocol (sc_defaults c)) in
              match apply_tx_framing decoded framing with
              | Err e => (ToolErr (IoWrite e), s)
              | Ok wire =>
                  let '(r, s) := session_write s id c now wire fate in
                  match r with
                  | Err e => (ToolErr (IoSerial e), s)
                  | Ok n =>
                      (ToolOk (mkWriteResult id (sc_name (sc_identity c)) n (zlen decoded) encoding),
                       with_conns s (alter record_write_op id))
                  end
              end
          end
      end
  end.

(** ** The read half *)

(** The clock of a read, the rounds of its wait loop, and the other calls: before
    the session is fetched, and while the read waits. *)
Record ReadScript := mkScript {
  rs_start : Z;
  rs_elapsed : Z;
  rs_now : Z;
  rs_rounds : list Round;
  rs_before : Others;
  rs_during : Others;
  rs_task : nat;
}.

Record ReadArgs := mkReadArgs {
  ra_connection_id : list byte;
  ra_from : option ReadFrom;
  ra_timeout_ms : option Z;
  ra_no_new_rx_timeout_ms : option Z;
  ra_encoding : list byte;
  ra_match : option MatchRequest;
  ra_rx_framing : option RxFramingConfig;
  ra_rx_parser : option ParserConfig;
  ra_protocol : option ProtocolPreset;
}.

(** From the start cursor to the result: [read_bytes_from_ring],
    [build_read_result] and [record_read_completion]. *)
Definition finish_read (args : ReadArgs) (encoding : Encoding) (max : Z) (matcher : option Matcher)
    (c : SerialConnection) (session : RxSession) (cursor : Z) (k : ReadScript) (s : IoState)
    : ToolEnd IoToolError ReadResult * IoState :=
  let id := ra_connection_id args in
  let framing := resolve_field (ra_rx_framing args) (ra_protocol args) preset_rx_framing
                   (cd_rx_framing (sc_defaults c)) (cd_protocol (sc_defaults c)) in
  let parser := resolve_field (ra_rx_parser args) (ra_protocol args) preset_rx_parser
                  (cd_rx_parser (sc_defaults c)) (cd_protocol (sc_defaults c)) in
  let read := read_bytes_from_ring cursor max framing parser (ra_timeout_ms args)
                (ra_no_new_rx_timeout_ms args) matcher (rs_start k) (rs_elapsed k) (rs_now k)
                (rs_ring session) (rs_rounds k) in
  let s := run_others 1 (rs_during k) s in
  match read with
  | Done None => (ToolPending, s)
  | Failed e => (ToolErr (IoFraming e), s)
  | Panicked => (ToolPanicked, s)
  | Diverged => (ToolDiverged, s)
  | Done (Some (outcome, final_cursor)) =>
      let s := with_sys s (session_op (io_sys s) (SSetCursor id final_cursor)) in
      match build_read_result outcome id (sc_name (sc_identity c)) encoding (ra_timeout_ms args)
              (ra_no_new_rx_timeout_ms args) with
      | Err e => (ToolErr (IoEncode e), s)
      | Ok r =>
          (ToolOk r, with_conns s (alter (fun c => record_read_completion c (rs_now k) r (ra_match args)) id))
      end
  end.

(** Under the reservation: the session, the start cursor, which is stored, and
    [rest]. *)
Definition with_session (id : list byte) (from : ReadFrom) (k : ReadScript)
    (rest : RxSession -> Z -> IoState -> ToolEnd IoToolError ReadResult * IoState) (s : IoState)
    : ToolEnd IoToolError ReadResult * IoState :=
  let s := run_others 1 (rs_before k) s in
  let '(r, m) := get_or_create (ss_sessions (io_sys s)) id DEFAULT_RX_BUFFER_SIZE (rs_task k) in
  let s := with_sessions s m in
  match r with
  | Err e => (ToolErr (IoSession e), s)
  | Ok session =>
      let cursor := initial_cursor (rs_ring session) (rs_read_cursor session) from in
      rest session cursor (with_sys s (session_op (io_sys s) (SSetCursor id cursor)))
  end.

(** [read]. *)
Definition read_tool (args : ReadArgs) (k : ReadScript) (s : IoState)
    : ToolEnd IoToolError ReadResult * IoState :=
  let id := ra_connection_id args in
  let max_default := match lookup_connection s id with
                     | Some c => cd_max_buffered_bytes (sc_defaults c)
                     | None => 32768
                     end in
  match validate_rx_request (is_some (lookup_connection s id))
          (mkRxArgs (ra_encoding args) (ra_timeout_ms args) (ra_no_new_rx_timeout_ms args) (ra_match args))
          (Tools.mkLimits MIN_READ_BYTES MAX_READ_BYTES) max_default, lookup_connection s id with
  | Err e, _ => (ToolErr (IoRequest e), s)
  | Ok _, None => (ToolErr IoNotFound, s)
  | Ok v, Some c =>
      with_reservation (rx_max_buffered_bytes v)
        (with_session id (default FromCursor (ra_from args)) k
           (fun session cursor =>
              finish_read args (rx_encoding v) (rx_max_buffered_bytes v) (rx_matcher v) c session cursor k)) s
  end.

(** [transact]: the write, then the read; the matcher is validated only after the
    start cursor is stored. *)
Definition transact_tool (wargs : WriteArgs) (rargs : ReadArgs) (now : Z) (fate : TxFate) (k : ReadScript)
    (s : IoState) : ToolEnd IoToolError (WriteResult * ReadResult) * IoState :=
  match write_tool wargs now fate s with
  | (ToolOk w, s) =>
      let id := wa_connection_id wargs in
      match io_conns s !! id with
      | None => (ToolErr IoNotFound, s)
      | Some c =>
          let max := cd_max_buffered_bytes (sc_defaults c) in
          let '(r, s) :=
            with_reservation max
              (with_session id (default FromNow (ra_from rargs)) k
                 (fun session cursor s =>
                    match match ra_match rargs with
                          | Some m => m ← validate_match_request m; Ok (Some m)
                          | None => Ok None
                          end with
                    | Err e => (ToolErr (IoMatch e), s)
                    | Ok matcher => finish_read rargs (wr_encoding w) max matcher c session cursor k s
                    end)) s in
          (match r with
           | ToolOk read => ToolOk (w, read)
           | ToolErr e => ToolErr e
           | ToolPending => ToolPending
           | ToolPanicked => ToolPanicked
           | ToolDiverged => ToolDiverged
           end, s)
      end
  | (ToolErr e, s) => (ToolErr e, s)
  | (ToolPending, s) => (ToolPending, s)
  | (ToolPanicked, s) => (ToolPanicked, s)
  | (ToolDiverged, s) => (ToolDiverged, s)
  end.

(** ** Flush *)

(** What the device and the TX session answer to a flush. *)
Record FlushFaults := mkFlushFaults { ff_output : TxFate; ff_input : option IoError }.

Definition flush_output (s : IoState) (id : list byte) (c : SerialConnection) (fate : TxFate)
    : result SerialError unit * IoState :=
  let '(session, tx) := tx_get_or_create (io_tx s) c (size (io_tx s)) in
  let s := mkIo (io_conns s) (io_registered s) (io_sys s) tx in
  match fate with
  | TxRefused => (Err (SerialConfig.ConnectionClosed (ts_connection_id session)), s)
  | TxExecuted fault =>
      let '(r, c) := flush_buffers c FlushOutput (snd <$> fault) in (r, update_conn s id c)
  end.

(** [discard_rx_backlog] on the session, if there is one. *)
Definition discard_session (s : IoState) (id : list byte) : IoState :=
  with_sessions s
    (update_session (ss_sessions (io_sys s)) id
       (fun x => let '(ring, cursor) := discard_rx_backlog (rs_ring x) in
                 mkSession (rs_connection_id x) (rs_pump_task x) (rs_pump_cancelled x) ring cursor
                   (rs_ring_capacity x) (rs_reservation x))).

Definition flush_input (s : IoState) (id : list byte) (c : SerialConnection) (fault : option IoError)
    : result SerialError unit * IoState :=
  let '(r, c) := flush_buffers c FlushInput fault in
  let s := update_conn s id c in
  (r, match r with Ok _ => discard_session s id | Err _ => s end).

(** [flush]. *)
Definition flush_tool (id : list byte) (target : FlushTarget) (ff : FlushFaults) (s : IoState)
    : ToolEnd IoToolError unit * IoState :=
  let lift (p : result SerialError unit * IoState) : ToolEnd IoToolError unit * IoState :=
    (match p.1 with Ok _ => ToolOk tt | Err e => ToolErr (IoSerial e) end, p.2) in
  match lookup_connection s id with
  | None => (ToolErr IoNotFound, s)
  | Some c =>
      match target with
      | FlushInput => lift (flush_input s id c (ff_input ff))
      | FlushOutput => lift (flush_output s id c (ff_output ff))
      | FlushBoth =>
          match flush_output s id c (ff_output ff) with
          | (Err e, s) => (ToolErr (IoSerial e), s)
          | (Ok _, s) => lift (flush_input s id (default c (io_conns s !! id)) (ff_input ff))
          end
      end
  end.

(** ** Closing a connection ([close] of [src/server.rs]) *)

(** The connection is unregistered and closed; only if that succeeds are its RX
    and TX sessions removed. *)
Definition close_tool (id : list byte) (fault : option IoError) (s : IoState)
    : ToolEnd IoToolError unit * IoState :=
  match lookup_connection s id with
  | None => (ToolErr IoNotFound, s)
  | Some c =>
      let '(r, c) := close c fault in
      let s := update_conn (mkIo (io_conns s) (io_registered s ∖ {[id]}) (io_sys s) (io_tx s)) id c in
      match r with
      | Err e => (ToolErr (IoSerial e), s)
      | Ok _ =>
          let m := ss_sessions (io_sys s) in
          let m := match sm_sessions m !! id with
                   | Some _ => remove_finish (remove_begin m id) (length (sm_leaving m))
                   | None => m
                   end in
          let s := with_sessions s m in
          (ToolOk tt, mkIo (io_conns s) (io_registered s) (io_sys s) (tx_remove (io_tx s) id).2)
      end
  end.

(** ** A read result shows what was read *)

Lemma encode_frames_decodes `{!HexLaws, !Base64Laws} requested frames :
  (encode_frames requested frames).2 = 0%nat /\
  Forall2 (fun f r => decode (fr_encoding r) (fr_data r) = Ok (f_data f) /\ fr_frame_index r = f_index f /\
                      fr_frame_type r = f_type f /\ fr_parsed r = f_parsed f)
    frames (encode_frames requested frames).1.
Proof.
  induction frames as [|f frames [IHn IH] ]; [done|]. simpl.
  destruct (encode_frames requested frames) as [encoded failed]. simpl in *.
  destruct (encode_or_hex_decodes requested (f_data f)) as (p & -> & Hd). simpl.
  split; [done|]. by constructor.
Qed.

(** Whatever encoding a read asks for, its result is
    built, and decoding the data under the encoding the result names gives exactly
    the bytes read; every frame is there, in order, with its index, type and parse,
    and decodes to its bytes; and no frame is counted as dropped that the decoder
    did not drop. *)
Theorem read_result_lossless `{!HexLaws, !Base64Laws} outcome id name requested timeout silence :
  exists r, build_read_result outcome id name requested timeout silence = Ok r /\
    decode (rr_encoding r) (rr_data r) = Ok (r_bytes outcome) /\
    rr_bytes_read r = zlen (r_bytes outcome) /\
    Forall2 (fun f x => decode (fr_encoding x) (fr_data x) = Ok (f_data f) /\
                        fr_frame_index x = f_index f /\ fr_frame_type x = f_type f /\
                        fr_parsed x = f_parsed f)
      (r_frames outcome) (default [] (rr_frames r)) /\
    rr_frames_dropped r = r_frames_dropped outcome /\
    rr_timeout_ms r = default 1000 timeout.
Proof.
  unfold build_read_result. destruct (encode_or_hex_decodes requested (r_bytes outcome)) as (p & -> & Hd).
  cbn [mbind result_bind]. destruct (encode_frames_decodes requested (r_frames outcome)) as [Hn Hf].
  destruct (encode_frames requested (r_frames outcome)) as [encoded failed]. cbn [fst snd] in *. subst failed.
  eexists. split; [done|]. split_and!; cbn; try done; try lia. by destruct encoded.
Qed.

(** ** Budget *)

Definition io_inv (program tool : Z) (s : IoState) : Prop := sessions_inv program tool (io_sys s).

(** Others who reserve and release nothing themselves. *)
Definition quiet_op (op : SessionOp) : Prop :=
  match op with SReserve _ | SRelease _ => False | _ => True end.

Lemma quiet_op_tools s op : quiet_op op -> ss_tools (session_op s op) = ss_tools s.
Proof. by destruct op. Qed.

Lemma run_others_inv program tool held o s : program <= U64_MAX -> Forall valid_session_op (ot_ops o) ->
  io_inv program tool s -> io_inv program tool (run_others held o s).
Proof.
  intros Hp Hv. unfold io_inv, run_others. cbn [io_sys]. generalize (io_sys s) as sys.
  induction Hv as [|op ops Hop _ IH]; intros sys Hs; simpl; [done|].
  apply IH, session_op_inv; [done..|]. by destruct op.
Qed.

Lemma run_others_quiet held o s : Forall quiet_op (ot_ops o) ->
  ss_tools (io_sys (run_others held o s)) = ss_tools (io_sys s).
Proof.
  intros Hq. unfold run_others. cbn [io_sys]. generalize (io_sys s) as sys.
  induction Hq as [|op ops Hop _ IH]; intros sys; simpl; [done|].
  rewrite IH. apply quiet_op_tools. by destruct op.
Qed.

(** What a piece of a handler does to the budget. *)
Record keeps_budget (program tool : Z) (quiet : Prop) (s s' : IoState) : Prop := {
  kb_inv : io_inv program tool s -> io_inv program tool s';
  kb_tools : quiet -> ss_tools (io_sys s') = ss_tools (io_sys s);
}.

Lemma keeps_refl program tool quiet s s' : io_sys s' = io_sys s -> keeps_budget program tool quiet s s'.
Proof. intros E. split; unfold io_inv; by rewrite E. Qed.

Lemma keeps_trans program tool quiet s1 s2 s3 :
  keeps_budget program tool quiet s1 s2 -> keeps_budget program tool quiet s2 s3 ->
  keeps_budget program tool quiet s1 s3.
Proof. intros [Ha Hb] [Hc Hd]. split; [by auto|]. intros Hq. by rewrite Hd, Hb. Qed.

Lemma keeps_op program tool quiet s op : program <= U64_MAX -> valid_session_op op -> quiet_op op ->
  keeps_budget program tool quiet s (with_sys s (session_op (io_sys s) op)).
Proof.
  intros Hp Hv Hq. split; [intros Hi; by apply session_op_inv|]. intros _. by apply quiet_op_tools.
Qed.

Lemma keeps_others program tool held o s : program <= U64_MAX -> Forall valid_session_op (ot_ops o) ->
  keeps_budget program tool (Forall quiet_op (ot_ops o)) s (run_others held o s).
Proof. intros Hp Hv. split; [by apply run_others_inv|]. apply run_others_quiet. Qed.

Lemma keeps_weaken program tool (q q' : Prop) s s' :
  (q' -> q) -> keeps_budget program tool q s s' -> keeps_budget program tool q' s s'.
Proof. intros Hq [Ha Hb]. split; auto. Qed.

Lemma with_reservation_keeps {A} program tool quiet n (rest : IoState -> ToolEnd IoToolError A * IoState) s out s' :
  program <= U64_MAX -> 0 <= n -> io_inv program tool s ->
  (forall s1, io_inv program tool s1 -> keeps_budget program tool quiet s1 (rest s1).2) ->
  with_reservation n rest s = (out, s') ->
  io_inv program tool s' /\
  (quiet -> ss_tools (io_sys s') = ss_tools (io_sys s) \/
            (ended out = false /\ ss_tools (io_sys s') = n :: ss_tools (io_sys s))).
Proof.
  intros Hp Hn Hinv Hrest. unfold with_reservation.
  pose proof (sessions_totals _ _ _ Hinv) as (Hr0 & Hl0 & Ht0).
  pose proof Hinv as (avail & Hb & Ha & Hsum & Hs & Hl & Ht).
  rewrite Hb. cbn [try_reserve atomic_budget]. rewrite reserve_cases by done.
  destruct (Z.eqb_spec n 0); [by intros [= <- <-]; auto|].
  destruct (tool <? n); [by intros [= <- <-]; auto|].
  destruct (Z.ltb_spec avail n); [by intros [= <- <-]; auto|].
  set (s1 := with_sys s _). assert (Hs1 : io_inv program tool s1).
  { exists (avail - n). cbn [s1 with_sys io_sys ss_sessions ss_tools with_budget sm_budget sm_sessions sm_leaving].
    split_and!; try done; [lia| |by constructor; [lia|] ].
    change (ledger_sum (n :: ss_tools (io_sys s))) with (n + ledger_sum (ss_tools (io_sys s))). lia. }
  specialize (Hrest s1 Hs1) as [Hi Ht']. destruct (rest s1) as [out1 s2]. cbn [snd] in *.
  intros [= <- <-]. specialize (Hi Hs1). destruct (ended out1) eqn:He.
  - split; [by apply (session_op_inv program tool (io_sys s2) (SRelease 0))|]. intros Hq. left. specialize (Ht' Hq). cbn in Ht' |- *.
    by rewrite Ht'.
  - split; [done|]. intros Hq. right. split; [done|]. by rewrite (Ht' Hq).
Qed.

Lemma finish_read_keeps program tool args enc max m c session cursor k s :
  program <= U64_MAX -> Forall valid_session_op (ot_ops (rs_during k)) ->
  keeps_budget program tool (Forall quiet_op (ot_ops (rs_during k))) s
    (finish_read args enc max m c session cursor k s).2.
Proof.
  intros Hp Hv. unfold finish_read. cbv zeta.
  pose proof (keeps_others program tool 1 (rs_during k) s Hp Hv) as Ho.
  destruct (read_bytes_from_ring _ _ _ _ _ _ _ _ _ _ _ _) as [ [ [outcome final]|]| | |]; cbn [snd]; try done.
  eapply keeps_trans; [exact Ho|].
  pose proof (keeps_op program tool (Forall quiet_op (ot_ops (rs_during k)))
    (run_others 1 (rs_during k) s) (SSetCursor (ra_connection_id args) final) Hp I I) as Hc.
  destruct (build_read_result _ _ _ _ _ _); cbn [snd]; [|done].
  eapply keeps_trans; [exact Hc|]. by apply keeps_refl.
Qed.

Definition quiet_script (k : ReadScript) : Prop :=
  Forall quiet_op (ot_ops (rs_before k)) /\ Forall quiet_op (ot_ops (rs_during k)).
Definition valid_script (k : ReadScript) : Prop :=
  Forall valid_session_op (ot_ops (rs_before k)) /\ Forall valid_session_op (ot_ops (rs_during k)).

Lemma with_session_keeps program tool id from k rest s :
  program <= U64_MAX -> valid_script k ->
  (forall session cursor s1, keeps_budget program tool (quiet_script k) s1 (rest session cursor s1).2) ->
  keeps_budget program tool (quiet_script k) s (with_session id from k rest s).2.
Proof.
  intros Hp [Hvb _] Hrest. unfold with_session.
  set (s1 := run_others 1 (rs_before k) s).
  assert (Hk1 : keeps_budget program tool (quiet_script k) s s1).
  { eapply keeps_weaken; [|by apply keeps_others]. by intros [? _]. }
  eapply keeps_trans; [exact Hk1|].
  pose proof (keeps_op program tool (quiet_script k) s1 (SGetOrCreate id DEFAULT_RX_BUFFER_SIZE (rs_task k)) Hp
    ltac:(cbn; unfold DEFAULT_RX_BUFFER_SIZE; lia) I) as Hk2. cbn [session_op] in Hk2.
  destruct (get_or_create (ss_sessions (io_sys s1)) id DEFAULT_RX_BUFFER_SIZE (rs_task k)) as [r m].
  cbn [snd] in Hk2. eapply keeps_trans; [exact Hk2|]. fold (with_sessions s1 m).
  destruct r as [session|e]; [|by apply keeps_refl].
  eapply keeps_trans; [|apply Hrest]. by apply keeps_op.
Qed.

Lemma write_tool_sys args now fate s out s' : write_tool args now fate s = (out, s') -> io_sys s' = io_sys s.
Proof.
  unfold write_tool, session_write. intros Hw.
  repeat (case_match; simplify_eq/=; try done).
Qed.

(** ** Every call *)

Inductive IoCall :=
  | CallWrite (args : WriteArgs) (now : Z) (fate : TxFate)
  | CallRead (args : ReadArgs) (k : ReadScript)
  | CallTransact (wargs : WriteArgs) (rargs : ReadArgs) (now : Z) (fate : TxFate) (k : ReadScript)
  | CallFlush (id : list byte) (target : FlushTarget) (ff : FlushFaults)
  | CallClose (id : list byte) (fault : option IoError).

Definition run_io_call (call : IoCall) (s : IoState) : bool * IoState :=
  let run {A} (p : ToolEnd IoToolError A * IoState) := (ended p.1, p.2) in
  match call with
  | CallWrite args now fate => run (write_tool args now fate s)
  | CallRead args k => run (read_tool args k s)
  | CallTransact wargs rargs now fate k => run (transact_tool wargs rargs now fate k s)
  | CallFlush id target ff => run (flush_tool id target ff s)
  | CallClose id fault => run (close_tool id fault s)
  end.

Definition call_script (call : IoCall) : option ReadScript :=
  match call with CallRead _ k | CallTransact _ _ _ _ k => Some k | _ => None end.

Lemma conn_write_defaults c now data fault : sc_defaults (conn_write c now data fault).2 = sc_defaults c.
Proof. unfold conn_write. by repeat (case_match; simplify_eq/=). Qed.

(** A connection whose read limit is not negative, as its type says. *)
Definition limits_ok (s : IoState) : Prop :=
  forall id c, io_conns s !! id = Some c -> 0 <= cd_max_buffered_bytes (sc_defaults c).

Lemma write_tool_limits args now fate s out s' :
  limits_ok s -> write_tool args now fate s = (out, s') -> limits_ok s'.
Proof.
  unfold write_tool, session_write, lookup_connection. intros Hl Hw.
  destruct (parse_encoding _) as [enc|e]; [|by simplify_eq/=].
  destruct (bool_decide _); [|by simplify_eq/=].
  destruct (io_conns s !! wa_connection_id args) as [c|] eqn:Hc; [|by simplify_eq/=].
  destruct (decode_tx_payload _ _) as [decoded|e]; [|by simplify_eq/=].
  destruct (apply_tx_framing _ _) as [wire|e]; [|by simplify_eq/=].
  destruct (tx_get_or_create _ _ _) as [session tx]. destruct fate as [|fault]; [by simplify_eq/=|].
  pose proof (conn_write_defaults c now wire fault) as Hd. destruct (conn_write c now wire fault) as [r c'].
  assert (Hc' : limits_ok (update_conn (mkIo (io_conns s) (io_registered s) (io_sys s) tx) (wa_connection_id args) c')).
  { intros id x. cbn. intros [ [<- <-]|[_ Hx] ]%lookup_insert_Some; [|by eapply Hl].
    cbn in Hd. rewrite Hd. by eapply Hl. }
  destruct r; simplify_eq/=; [|done].
  intros id x. cbn. intros Hx. apply lookup_alter_Some in Hx as [(E & y & Hy & ->)|[_ Hx] ]; [|by eapply Hc'].
  subst id.
  exact (Hc' _ y Hy).
Qed.

Lemma read_tool_budget program tool args k s out s' :
  program <= U64_MAX -> io_inv program tool s -> limits_ok s -> valid_script k ->
  read_tool args k s = (out, s') ->
  io_inv program tool s' /\
  (quiet_script k -> ended out = true -> ss_tools (io_sys s') = ss_tools (io_sys s)).
Proof.
  intros Hp Hinv Hl Hv. unfold read_tool. cbv zeta.
  destruct (validate_rx_request _ _ _ _) as [v|e] eqn:Hval; [|by intros [= <- <-] ].
  destruct (lookup_connection s (ra_connection_id args)) as [c|] eqn:Hc; [|by intros [= <- <-] ].
  apply validate_rx_request_size in Hval as [Hmax Hbound]. intros Hw.
  eapply with_reservation_keeps with (quiet := quiet_script k) in Hw as [Hi Ht]; try done.
  - split; [done|]. intros Hq He. destruct (Ht Hq) as [?|[? _] ]; [done|congruence].
  - unfold MIN_READ_BYTES in Hbound. cbn in Hbound. lia.
  - intros s1 _. apply with_session_keeps; [done..|]. intros session cursor s2.
    eapply keeps_weaken; [|by apply finish_read_keeps; [|apply Hv] ]. by intros [_ ?].
Qed.

Lemma transact_tool_budget program tool wargs rargs now fate k s out s' :
  program <= U64_MAX -> io_inv program tool s -> limits_ok s -> valid_script k ->
  transact_tool wargs rargs now fate k s = (out, s') ->
  io_inv program tool s' /\
  (quiet_script k -> ended out = true -> ss_tools (io_sys s') = ss_tools (io_sys s)).
Proof.
  intros Hp Hinv Hl Hv. unfold transact_tool.
  destruct (write_tool wargs now fate s) as [w s1] eqn:Hw.
  pose proof (write_tool_sys _ _ _ _ _ _ Hw) as Hsys. pose proof (write_tool_limits _ _ _ _ _ _ Hl Hw) as Hl1.
  assert (Hi1 : io_inv program tool s1) by (unfold io_inv; by rewrite Hsys).
  rewrite <- Hsys. destruct w as [w| | | |]; try (intros [= <- <-]; by split).
  destruct (io_conns s1 !! wa_connection_id wargs) as [c|] eqn:Hc; [|intros [= <- <-]; by split].
  cbv zeta. destruct (with_reservation _ _ _) as [r s2] eqn:Hr. intros [= <- <-].
  eapply with_reservation_keeps with (quiet := quiet_script k) in Hr as [Hi Ht]; try done.
  - split; [done|]. intros Hq He. destruct (Ht Hq) as [?|[He' _] ]; [done|].
    by destruct r.
  - by apply (Hl1 _ _ Hc).
  - intros s3 _. apply with_session_keeps; [done..|]. intros session cursor s4.
    destruct (match ra_match rargs with Some _ => _ | None => _ end); [|by apply keeps_refl].
    eapply keeps_weaken; [|by apply finish_read_keeps; [|apply Hv] ]. by intros [_ ?].
Qed.

(** The other calls reserve nothing. *)
Lemma flush_tool_keeps program tool quiet id target ff s :
  keeps_budget program tool quiet s (flush_tool id target ff s).2.
Proof.
  assert (Hin : forall s1 c fault, keeps_budget program tool quiet s1 (flush_input s1 id c fault).2).
  { intros s1 c fault. unfold flush_input. destruct (flush_buffers c FlushInput fault) as [ [u|e] c'];
      [|by apply keeps_refl].
    split; [|done]. intros Hinv. unfold io_inv, discard_session. cbn [snd with_sessions with_sys io_sys].
    apply (update_inv program tool (io_sys s1)); [done| |done|done].
    intros x (Hr & Hpos & Hcap). by split_and!. }
  assert (Hout : forall s1 c fate, keeps_budget program tool quiet s1 (flush_output s1 id c fate).2).
  { intros s1 c fate. apply keeps_refl. unfold flush_output. by repeat (case_match; simplify_eq/=). }
  unfold flush_tool. destruct (lookup_connection s id) as [c|]; [|by apply keeps_refl].
  destruct target; cbn [snd]; [apply Hin|apply Hout|].
  specialize (Hout s c (ff_output ff)). destruct (flush_output s id c (ff_output ff)) as [ [u|e] s1]; [|done].
  eapply keeps_trans; [exact Hout|]. apply Hin.
Qed.

Lemma close_tool_keeps program tool quiet id fault s : program <= U64_MAX ->
  keeps_budget program tool quiet s (close_tool id fault s).2.
Proof.
  intros Hp. unfold close_tool. destruct s as [conns registered [m tools] tx].
  destruct (lookup_connection _ id) as [c|]; [|by apply keeps_refl].
  destruct (close c fault) as [ [u|e] c']; [|by apply keeps_refl].
  destruct (sm_sessions _ !! id) as [x|] eqn:Hx; [|by apply keeps_refl].
  split; [|done]. intros Hinv. unfold io_inv in *. cbn in *.
  apply (remove_finish_inv program tool (mkSessionSys (remove_begin m id) tools)); [done|].
  by apply (remove_begin_inv program tool (mkSessionSys m tools)).
Qed.

(** However a call ends, the budget stays balanced, and an ended call holds no
    reservation. *)
Lemma run_io_call_budget program tool s call fin s' :
  program <= U64_MAX -> io_inv program tool s -> limits_ok s ->
  match call_script call with Some k => valid_script k | None => True end ->
  run_io_call call s = (fin, s') ->
  io_inv program tool s' /\
  (match call_script call with Some k => quiet_script k | None => True end -> fin = true ->
   ss_tools (io_sys s') = ss_tools (io_sys s)).
Proof.
  intros Hp Hinv Hl Hv Hcall.
  destruct call as [args now fate|args k|wargs rargs now fate k|id target ff|id fault]; cbn in Hcall, Hv |- *.
  - destruct (write_tool args now fate s) as [out s1] eqn:E. injection Hcall as <- <-.
    apply write_tool_sys in E. unfold io_inv. cbn [snd]. by rewrite E.
  - destruct (read_tool args k s) as [out s1] eqn:E. injection Hcall as <- <-.
    by apply (read_tool_budget program tool) in E.
  - destruct (transact_tool wargs rargs now fate k s) as [out s1] eqn:E. injection Hcall as <- <-.
    by apply (transact_tool_budget program tool) in E.
  - injection Hcall as <- <-. destruct (flush_tool_keeps program tool True id target ff s). auto.
  - injection Hcall as <- <-. destruct (close_tool_keeps program tool True id fault s Hp). auto.
Qed.

(** ** The rings a call takes and gives back *)

(** What every ring in the table has reserved. *)
Definition ring_bytes (s : IoState) : gmap (list byte) Z := reserved_by <$> sm_sessions (ss_sessions (io_sys s)).

Definition same_rings (s s' : IoState) : Prop :=
  ring_bytes s' = ring_bytes s /\ sm_leaving (ss_sessions (io_sys s')) = sm_leaving (ss_sessions (io_sys s)).

(** The rings are as they were, or the connection has got its ring. *)
Definition may_create (id : list byte) (s s' : IoState) : Prop :=
  sm_leaving (ss_sessions (io_sys s')) = sm_leaving (ss_sessions (io_sys s)) /\
  (ring_bytes s' = ring_bytes s \/
   ring_bytes s !! id = None /\ ring_bytes s' = <[id := DEFAULT_RX_BUFFER_SIZE]> (ring_bytes s)).

Lemma same_rings_create id s s' : same_rings s s' -> may_create id s s'.
Proof. intros [Hr Hl]. split; auto. Qed.

Lemma may_create_same id s1 s2 s3 s4 :
  same_rings s1 s2 -> may_create id s2 s3 -> same_rings s3 s4 -> may_create id s1 s4.
Proof.
  unfold may_create. intros [Hr1 Hl1] [Hl2 Hr2] [Hr3 Hl3]. rewrite Hr3, Hl3, Hl2, Hl1. rewrite !Hr1 in Hr2. auto.
Qed.

Lemma same_rings_trans s1 s2 s3 : same_rings s1 s2 -> same_rings s2 s3 -> same_rings s1 s3.
Proof. intros [Hr1 Hl1] [Hr2 Hl2]. split; by etrans. Qed.

Lemma update_same_rings s id f : (forall x, reserved_by (f x) = reserved_by x) ->
  same_rings s (with_sessions s (update_session (ss_sessions (io_sys s)) id f)).
Proof.
  intros Hf. unfold same_rings, ring_bytes, update_session. cbn.
  destruct (sm_sessions _ !! id) as [x|] eqn:Hx; cbn; [|done]. split; [|done].
  rewrite fmap_insert, Hf. apply insert_id. by rewrite lookup_fmap, Hx.
Qed.

Lemma release_same_rings s : same_rings s (with_sys s (session_op (io_sys s) (SRelease 0))).
Proof. unfold same_rings, ring_bytes. cbn. by destruct (ss_tools (io_sys s)). Qed.

Lemma alone_same_rings held s : same_rings s (run_others held nobody s).
Proof. done. Qed.

Lemma with_reservation_rings {A} id n (rest : IoState -> ToolEnd IoToolError A * IoState) s :
  (forall s1, may_create id s1 (rest s1).2) -> may_create id s (with_reservation n rest s).2.
Proof.
  intros Hrest. unfold with_reservation.
  destruct (try_reserve _ _) as [ [m|e] b]; [|by apply same_rings_create].
  set (s1 := with_sys s _). specialize (Hrest s1). destruct (rest s1) as [out s2]. cbn [snd] in *.
  apply (may_create_same id s s1 s2); [done|done|]. destruct (ended out); [apply release_same_rings|done].
Qed.

Lemma finish_read_rings args enc max m c session cursor k s : rs_during k = nobody ->
  same_rings s (finish_read args enc max m c session cursor k s).2.
Proof.
  intros Hk. unfold finish_read. rewrite Hk. cbv zeta.
  destruct (read_bytes_from_ring _ _ _ _ _ _ _ _ _ _ _ _) as [ [ [outcome final]|]| | |]; try done.
  pose proof (update_same_rings (run_others 1 nobody s) (ra_connection_id args)
    (fun x => set_read_cursor x final) (fun x => eq_refl)) as Hu.
  destruct (build_read_result _ _ _ _ _ _); exact Hu.
Qed.

Lemma get_or_create_reserves (m m' : RxSessionManager AtomicB.AtomicBudget) id cap task r :
  get_or_create m id cap task = (r, m') ->
  sm_leaving m' = sm_leaving m /\
  (reserved_by <$> sm_sessions m' = reserved_by <$> sm_sessions m \/
   (reserved_by <$> sm_sessions m) !! id = None /\
   reserved_by <$> sm_sessions m' = <[id := cap]> (reserved_by <$> sm_sessions m)).
Proof.
  unfold get_or_create, session_new. rewrite lookup_fmap.
  destruct (sm_sessions m !! id) as [x|]; [intros [= <- <-]; auto|].
  destruct (cap =? 0); [intros [= <- <-]; auto|].
  cbn [try_reserve atomic_budget]. unfold AtomicB.try_reserve.
  destruct (cap =? 0); [intros [= <- <-]; auto|].
  destruct (_ <? _); [intros [= <- <-]; auto|]. destruct (_ <? _); [intros [= <- <-]; auto|].
  destruct (ring_new cap) as [ring|]; [|intros [= <- <-]; auto].
  cbn [ensure_pump_running rs_pump_task]. intros [= <- <-]. cbn [sm_leaving sm_sessions].
  split; [done|]. right. split; [done|]. by rewrite fmap_insert.
Qed.

Lemma get_or_create_rings s id task r m :
  get_or_create (ss_sessions (io_sys s)) id DEFAULT_RX_BUFFER_SIZE task = (r, m) -> may_create id s (with_sessions s m).
Proof. apply get_or_create_reserves. Qed.

Lemma with_session_rings id from k rest s : rs_before k = nobody ->
  (forall session cursor s1, same_rings s1 (rest session cursor s1).2) ->
  may_create id s (with_session id from k rest s).2.
Proof.
  intros Hk Hrest. unfold with_session. rewrite Hk. cbv zeta.
  destruct (get_or_create _ id _ _) as [r m] eqn:Hg. apply get_or_create_rings in Hg.
  destruct r as [session|e]; [|exact Hg].
  eapply (may_create_same id s s); [done|exact Hg|]. eapply same_rings_trans; [|apply Hrest].
  apply (update_same_rings (with_sessions (run_others 1 nobody s) m)). done.
Qed.

(** Each tool on its own. *)
Lemma read_tool_rings args k s : rs_before k = nobody -> rs_during k = nobody ->
  may_create (ra_connection_id args) s (read_tool args k s).2.
Proof.
  intros Hb Hd. unfold read_tool. cbv zeta.
  destruct (validate_rx_request _ _ _ _) as [v|e]; [|by apply same_rings_create].
  destruct (lookup_connection s _) as [c|]; [|by apply same_rings_create].
  apply with_reservation_rings. intros s1. apply with_session_rings; [done|]. intros. by apply finish_read_rings.
Qed.

Lemma transact_tool_rings wargs rargs now fate k s : rs_before k = nobody -> rs_during k = nobody ->
  may_create (wa_connection_id wargs) s (transact_tool wargs rargs now fate k s).2.
Proof.
  intros Hb Hd. unfold transact_tool.
  destruct (write_tool wargs now fate s) as [w s1] eqn:Hw. apply write_tool_sys in Hw.
  assert (Hs1 : same_rings s s1) by (unfold same_rings, ring_bytes; by rewrite Hw).
  destruct w as [w| | | |]; try by apply same_rings_create.
  destruct (io_conns s1 !! _) as [c|]; [|by apply same_rings_create]. cbv zeta.
  match goal with |- context [with_reservation ?n ?rest s1] =>
    assert (Hr : may_create (wa_connection_id wargs) s1 (with_reservation n rest s1).2);
      [|destruct (with_reservation n rest s1) as [r s2]; by eapply (may_create_same _ s s1 s2)] end.
  apply with_reservation_rings. intros s3. apply with_session_rings; [done|]. intros session cursor s4.
  destruct (match ra_match rargs with Some _ => _ | None => _ end); [by apply finish_read_rings|done].
Qed.

Lemma flush_tool_rings id target ff s : same_rings s (flush_tool id target ff s).2.
Proof.
  assert (Hin : forall s1 c fault, same_rings s1 (flush_input s1 id c fault).2).
  { intros s1 c fault. unfold flush_input. destruct (flush_buffers c FlushInput fault) as [ [u|e] c']; [|done].
    unfold discard_session. apply (update_same_rings (update_conn s1 id c') id). done. }
  assert (Hout : forall s1 c fate, same_rings s1 (flush_output s1 id c fate).2).
  { intros s1 c fate. unfold flush_output. by repeat (case_match; simplify_eq/=). }
  unfold flush_tool. destruct (lookup_connection s id) as [c|]; [|done].
  destruct target; [apply Hin|apply Hout|].
  specialize (Hout s c (ff_output ff)). destruct (flush_output s id c (ff_output ff)) as [ [u|e] s1]; [|done].
  eapply same_rings_trans; [exact Hout|]. apply Hin.
Qed.

Lemma close_tool_rings id fault s :
  sm_leaving (ss_sessions (io_sys (close_tool id fault s).2)) = sm_leaving (ss_sessions (io_sys s)) /\
  ring_bytes (close_tool id fault s).2
  = match (close_tool id fault s).1 with ToolOk _ => delete id (ring_bytes s) | _ => ring_bytes s end.
Proof.
  unfold close_tool, ring_bytes. destruct (lookup_connection s id) as [c|]; [|done].
  destruct (close c fault) as [ [u|e] c']; [|done]. cbn.
  destruct (sm_sessions _ !! id) as [x|] eqn:Hx.
  2:{ split; [done|]. rewrite delete_id; [done|]. by rewrite lookup_fmap, Hx. }
  unfold remove_begin. rewrite Hx. unfold remove_finish. cbn [sm_leaving].
  rewrite lookup_app_r, Nat.sub_diag by lia. cbn. split; [|by rewrite fmap_delete].
  rewrite delete_middle. apply app_nil_r.
Qed.

(** What a call, nobody acting meanwhile, does to the rings. *)
Definition rings_after (call : IoCall) (s s' : IoState) : Prop :=
  match call with
  | CallWrite _ _ _ | CallFlush _ _ _ => ring_bytes s' = ring_bytes s
  | CallRead args _ => may_create (ra_connection_id args) s s'
  | CallTransact args _ _ _ _ => may_create (wa_connection_id args) s s'
  | CallClose id fault =>
      ring_bytes s' = match (close_tool id fault s).1 with
                      | ToolOk _ => delete id (ring_bytes s)
                      | _ => ring_bytes s
                      end
  end.

Lemma call_rings call s :
  match call_script call with Some k => rs_before k = nobody /\ rs_during k = nobody | None => True end ->
  rings_after call s (run_io_call call s).2 /\
  sm_leaving (ss_sessions (io_sys (run_io_call call s).2)) = sm_leaving (ss_sessions (io_sys s)).
Proof.
  destruct call as [args now fate|args k|wargs rargs now fate k|id target ff|id fault]; cbn; intros Hk.
  - destruct (write_tool args now fate s) as [out s1] eqn:E. apply write_tool_sys in E.
    cbn [snd]. unfold ring_bytes. by rewrite E.
  - destruct Hk as [Hb Hd]. pose proof (read_tool_rings args k s Hb Hd) as Hr. split; [done|apply Hr].
  - destruct Hk as [Hb Hd]. pose proof (transact_tool_rings wargs rargs now fate k s Hb Hd) as Hr.
    split; [done|apply Hr].
  - apply flush_tool_rings.
  - destruct (close_tool_rings id fault s) as [Hl Hr]. by split.
Qed.

(** C31: what [write], [read], [transact], [flush] and [close] do to the
    buffer budget, however they end.  With any other calls working on the sessions and
    the budget while a call waits, the bytes available, the rings and the reservations
    of the calls under way add up to the program limit, and the budget is never
    overdrawn.  A call that has ended, with a result or an error, holds no reservation
    of its own.  And a call that nobody interrupts pays for its rings and nothing else:
    what it leaves less available is what the rings take more.  [write] and [flush]
    change no ring; [read] and [transact] at most give the connection the ring it did
    not have; [close] gives the ring back when it succeeds, and keeps it when it fails,
    which is a flaw ([failed_close_keeps_session]). *)
Theorem calls_account_for_budget program tool s call fin s' :
  program <= U64_MAX -> io_inv program tool s -> limits_ok s ->
  match call_script call with Some k => valid_script k | None => True end ->
  run_io_call call s = (fin, s') ->
  let m := ss_sessions (io_sys s) in
  let m' := ss_sessions (io_sys s') in
  available (sm_budget m') + rings_total (sm_sessions m') + leaving_total (sm_leaving m')
    + ledger_sum (ss_tools (io_sys s')) = program /\ 0 <= available (sm_budget m') /\
  (match call_script call with Some k => quiet_script k | None => True end -> fin = true ->
   ss_tools (io_sys s') = ss_tools (io_sys s)) /\
  (match call_script call with Some k => rs_before k = nobody /\ rs_during k = nobody | None => True end ->
   fin = true -> rings_after call s s' /\
   available (sm_budget m) - available (sm_budget m') = rings_total (sm_sessions m') - rings_total (sm_sessions m)).
Proof.
  intros Hp Hinv Hl Hv Hcall m m'. pose proof (run_io_call_budget program tool s call fin s' Hp Hinv Hl Hv Hcall) as [Hi Ht].
  destruct Hi as (avail' & Hb' & Ha' & Hsum' & _). destruct Hinv as (avail & Hb & Ha & Hsum & _).
  subst m m'. rewrite Hb, Hb'. cbn [available atomic_budget AtomicB.available]. split_and!; [exact Hsum'|exact Ha'|exact Ht|].
  intros Halone Hfin. pose proof (call_rings call s Halone) as [Hr Hle]. rewrite Hcall in Hr, Hle. cbn [snd] in *.
  split; [exact Hr|]. rewrite Hle, Ht in Hsum'; [lia| |done].
  destruct (call_script call) as [k|]; [|done]. destruct Halone as [Hb0 Hd0]. unfold quiet_script. rewrite Hb0, Hd0. split; constructor.
Qed.
End IoTools.

(** ** Concrete calls *)

(** One connection, registered, with a session whose ring of eight bytes holds
    ["ab"]. *)
Definition io_start : IoState :=
  mkIo {[bs "id" := a_connection]} {[bs "id"]}
    (foldl session_op (session_start (AtomicB.mk 40000 40000 40000))
       [SGetOrCreate (bs "id") 8 0; SAppend (bs "id") (bs "ab")]) ∅.

Definition plain_read_args (encoding : string) (m : option MatchRequest) : ReadArgs :=
  mkReadArgs (bs "id") None None None (bs encoding) m None None None.

Definition alone : ReadScript := mkScript 0 0 0 [] nobody nobody 1.

Definition io_available (s : IoState) : Z := available (sm_budget (ss_sessions (io_sys s))).

(** While a read runs, another call reserves 100 bytes; the read gives its own
    32768 back. *)
Definition io_script : ReadScript := mkScript 0 0 0 [] nobody (mkOthers [SReserve 100] id id) 1.

Lemma calls_account_for_budget_witness :
  let '(fin, s') := run_io_call (CallRead (plain_read_args "hex" None) alone) io_start in
  fin = true /\ io_available s' = 39992 /\ ss_tools (io_sys s') = [] /\
  may_create (bs "id") io_start s' /\
  io_available (run_io_call (CallRead (plain_read_args "hex" None) io_script) io_start).2 = 39892.
Proof.
  destruct (run_io_call (CallRead (plain_read_args "hex" None) alone) io_start) as [fin s'] eqn:E.
  assert (Hinv : io_inv 40000 40000 io_start).
  { apply (sessions_run_inv 40000 40000 (AtomicB.mk 40000 40000 40000)); [done|unfold U64_MAX; lia|].
    repeat constructor; cbn; lia. }
  assert (Hl : limits_ok io_start).
  { intros id c Hc. unfold io_start in Hc. cbn [io_conns] in Hc.
    apply lookup_singleton_Some in Hc as [_ <-]. by vm_compute. }
  assert (Hfin : fin = true) by (apply (f_equal fst) in E; by vm_compute in E).
  destruct (calls_account_for_budget 40000 40000 io_start (CallRead (plain_read_args "hex" None) alone) fin s'
    ltac:(unfold U64_MAX; lia) Hinv Hl ltac:(split; constructor) E) as (_ & _ & Ht & Hr).
  split; [done|]. split; [|split; [|split; [|by vm_compute] ] ].
  - change s' with (fin, s').2. rewrite <- E. by vm_compute.
  - rewrite Ht; [by vm_compute|split; constructor|done].
  - by apply Hr.
Defined.

(** [transact] checks the pattern only after the request is on the wire: a bad
    pattern is refused, and the device has the request. *)
Definition bad_match : MatchRequest := mkMatchRequest [] MatchConfig_default.

Example transact_writes_before_checking :
  let '(out, s') := transact_tool (mkWriteArgs (bs "id") (bs "hi") (bs "utf8") None None)
                      (plain_read_args "utf8" (Some bad_match)) 5 (TxExecuted None) alone io_start in
  match out with ToolErr (IoMatch PatternEmpty) => True | _ => False end /\
  (output_of <$> (io_conns s' !! bs "id")) = Some (bs "hi") /\
  match (read_tool (plain_read_args "utf8" (Some bad_match)) alone io_start).1 with
  | ToolErr (IoRequest (BadMatch PatternEmpty)) => True
  | _ => False
  end.
Proof. vm_compute. done. Qed.

(** A close whose system call fails returns early: the connection is gone from the
    registry, its session keeps its ring, and no later close can remove it. *)
Example failed_close_keeps_session :
  let '(out, s') := close_tool (bs "id") (Some (mkIoError NotFound (bs "gone"))) io_start in
  match out with ToolErr (IoSerial (SerialIoError _)) => True | _ => False end /\
  io_available s' = 39992 /\ session_count (ss_sessions (io_sys s')) = 1%nat /\
  match (close_tool (bs "id") None s').1 with ToolErr IoNotFound => True | _ => False end.
Proof. vm_compute. done. Qed.

(** A read that looked the connection up before a close fetches its session after
    it: it makes a new one for the closed connection, whose ring is never given
    back.  The read itself holds 100 bytes here and the new ring is 256 KiB. *)
Definition big_start : IoState :=
  mkIo {[bs "id" := with_defaults a_connection (mkCallDefaults None None None None 100)]} {[bs "id"]}
    (foldl session_op (session_start (AtomicB.mk 300000 300000 300000)) [SGetOrCreate (bs "id") 8 0]) ∅.

Definition close_between : Others :=
  mkOthers [SRemoveBegin (bs "id"); SRemoveFinish 0] (alter (fun c => (close c None).2) (bs "id"))
    (fun r => r ∖ {[bs "id"]}).

Example late_read_leaks_ring :
  let '(out, s') := read_tool (plain_read_args "hex" None)
                      (mkScript 0 0 0 [mkRound (Some (CsClosed, false)) 1 WakePoll (ring_with 8 []) 1]
                         close_between nobody 1) big_start in
  ended out = true /\ io_available s' = 300000 - 256 * 1024 /\
  session_count (ss_sessions (io_sys s')) = 1%nat /\
  match (close_tool (bs "id") None s').1 with ToolErr IoNotFound => True | _ => False end.
Proof. vm_compute. done. Qed.

(** A read of bytes that are not UTF-8, in one frame that is: the bytes come in hex,
    the frame as text. *)
Definition mixed_outcome : ReadOutcome :=
  mkOut [xff; x68; x69] 3 (meta_data_complete 3 3) false None None
    [mkFrame [x68; x69] 0 "line"%string None] 0 None (Some 0) (Some 3) 0 0 0 3.

Lemma read_result_lossless_witness :
  exists r, build_read_result mixed_outcome (bs "id") None Utf8 None None = Ok r /\
    decode (rr_encoding r) (rr_data r) = Ok [xff; x68; x69] /\ rr_bytes_read r = 3 /\
    rr_encoding r = Hex /\ (fr_encoding <$> default [] (rr_frames r)) = [Utf8].
Proof.
  destruct (read_result_lossless mixed_outcome (bs "id") None Utf8 None None) as (r & Hr & Hd & Hn & _).
  assert (Hf : rr_encoding r = Hex /\ (fr_encoding <$> default [] (rr_frames r)) = [Utf8]).
  { assert (Hc : match build_read_result mixed_outcome (bs "id") None Utf8 None None with
                 | Ok r => rr_encoding r = Hex /\ (fr_encoding <$> default [] (rr_frames r)) = [Utf8]
                 | Err _ => False end) by (by vm_compute).
    by rewrite Hr in Hc. }
  exists r. tauto.
Defined.
