(* ===== verification/ControlTools.v ===== *)
(** * [src/tools/control_ops.rs]: line control

    The validation of [capture_boot], its reset pulse with the release guard,
    [set_dtr_rts], [set_flow_control] and [send_break].  The pulses of any number
    of [capture_boot] calls, their queued cleanups and other line-control calls on
    one connection are a step relation over the control lock.  What the pump and
    the live edge have to do with a capture is in RxPump. *)

From S2P Require Import Prelude RustStr Extern ExternModel Codec FramingConfig Decoder MatchConfig RxConsume Profiles SerialConfig Connection Tools.

(** ** Validation *)

Definition DEFAULT_CAPTURE_BOOT_TIMEOUT_MS : Z := 5000.

Record CaptureBootReset := mkReset {
  assert_dtr : bool;
  assert_rts : bool;
  release_dtr : bool;
  release_rts : bool;
  hold_ms : Z;
}.

Section Boot.
Context `{HexCrate, Base64Crate, JsonCrate, RegexCrate, GlobCrate}.

Record CaptureBootArgs := mkBootArgs {
  cb_encoding : list byte;
  cb_reset : option CaptureBootReset;
  cb_settle_ms : option Z;
  cb_timeout_ms : option Z;
  cb_no_new_rx_timeout_ms : option Z;
  cb_match : option MatchRequest;
  cb_rx_framing : option RxFramingConfig;
  cb_rx_parser : option ParserConfig;
  cb_protocol : option ProtocolPreset;
}.

Inductive BootError := BootRequest (e : RxRequestError) | BootFraming (e : NewError).

Record ResolvedBoot := mkBoot {
  bt_encoding : Encoding;
  bt_max_buffered_bytes : Z;
  bt_timeout_ms : Z;
  bt_matcher : option Matcher;
  bt_rx_framing : option RxFramingConfig;
  bt_rx_parser : option ParserConfig;
}.

Definition optional_check (field : string) (v : option Z) : result BootError Z :=
  match v with
  | Some ms => map_err (fun e => BootRequest (BadArg e)) (clamp_timeout_or_err field ms MAX_TIMEOUT_MS)
  | None => Ok 0
  end.

Definition positive_check (field : string) (v : option Z) : result BootError Z :=
  match v with
  | Some ms =>
      if ms =? 0 then Err (BootRequest (BadArg (MustBePositive field))) else optional_check field (Some ms)
  | None => Ok 0
  end.

(** The part of [capture_boot] before the reservation, on a connection's defaults. *)
Definition validate_boot (args : CaptureBootArgs) (d : option CallDefaults) : result BootError ResolvedBoot :=
  encoding ← map_err BootRequest (parse_encoding (cb_encoding args));
  d ← ok_or d (BootRequest (BadArg Tools.ConnectionNotFound));
  n ← map_err (fun e => BootRequest (BadArg e))
        (require_min_or_err "capture_boot.max_buffered_bytes" (cd_max_buffered_bytes d) MIN_READ_BYTES);
  n ← map_err (fun e => BootRequest (BadArg e))
        (clamp_or_err "capture_boot.max_buffered_bytes" n MAX_READ_BYTES);
  _ ← optional_check "capture_boot.timeout_ms" (cb_timeout_ms args);
  _ ← positive_check "capture_boot.no_new_rx_timeout_ms" (cb_no_new_rx_timeout_ms args);
  _ ← optional_check "capture_boot.settle_ms" (cb_settle_ms args);
  _ ← positive_check "capture_boot.reset.hold_ms" (hold_ms <$> cb_reset args);
  matcher ← match cb_match args with
            | Some m => m ← map_err (fun e => BootRequest (BadMatch e)) (validate_match_request m); Ok (Some m)
            | None => Ok None
            end;
  let framing := resolve_field (cb_rx_framing args) (cb_protocol args) preset_rx_framing
                   (cd_rx_framing d) (cd_protocol d) in
  let parser := resolve_field (cb_rx_parser args) (cb_protocol args) preset_rx_parser
                  (cd_rx_parser d) (cd_protocol d) in
  _ ← match framing with
      | Some cfg => dec ← map_err BootFraming (new cfg parser); Ok (Some dec)
      | None => Ok None
      end;
  Ok (mkBoot encoding n (default DEFAULT_CAPTURE_BOOT_TIMEOUT_MS (cb_timeout_ms args)) matcher framing parser).

(** What passes validation is bounded, and its framing is one the decoder takes:
    the read at the end of the capture does not fail on it. *)
Lemma validate_boot_ok args d r :
  validate_boot args d = Ok r ->
  1 <= bt_max_buffered_bytes r <= 1048576 /\
  (0 <= default 0 (cb_timeout_ms args) -> 0 <= bt_timeout_ms r <= 300000) /\
  (forall s, cb_reset args = Some s -> 0 <= hold_ms s -> 0 < hold_ms s <= 300000) /\
  match bt_rx_framing r with
  | Some cfg => exists dec, new cfg (bt_rx_parser r) = Ok dec
  | None => True
  end.
Proof.
  assert (Hopt : forall f v x, optional_check f v = Ok x -> forall t, v = Some t -> t <= MAX_TIMEOUT_MS).
  { intros f v x Hx t ->. by apply map_err_ok, clamp_timeout_ok in Hx as [_ ?]. }
  assert (Hpos : forall f v x, positive_check f v = Ok x -> forall t, v = Some t -> t <> 0 /\ t <= MAX_TIMEOUT_MS).
  { intros f v x Hx t ->. unfold positive_check in Hx.
    destruct (Z.eqb_spec t 0); [done|]. split; [done|]. by apply (Hopt f (Some t) x). }
  unfold validate_boot. intros (enc & _ & Hv)%result_bind_ok. apply result_bind_ok in Hv as (d' & _ & Hv).
  apply result_bind_ok in Hv as (n1 & [-> Hmin]%map_err_ok%require_min_ok & Hv).
  apply result_bind_ok in Hv as (n2 & [-> Hmax]%map_err_ok%clamp_ok & Hv).
  apply result_bind_ok in Hv as (t1 & Ht & Hv). apply result_bind_ok in Hv as (t2 & _ & Hv).
  apply result_bind_ok in Hv as (t3 & _ & Hv). apply result_bind_ok in Hv as (t4 & Hh & Hv).
  apply result_bind_ok in Hv as (m & _ & Hv). cbv zeta in Hv. apply result_bind_ok in Hv as (fr & Hf & [= <-]).
  cbn [bt_max_buffered_bytes bt_timeout_ms bt_rx_framing bt_rx_parser].
  change MIN_READ_BYTES with 1 in *. change MAX_READ_BYTES with 1048576 in *.
  unfold MAX_TIMEOUT_MS in *. unfold DEFAULT_CAPTURE_BOOT_TIMEOUT_MS.
  split; [done|]. split; [|split].
  - destruct (cb_timeout_ms args) as [t|]; cbn; [|lia]. specialize (Hopt _ _ _ Ht t eq_refl). lia.
  - intros s Hs Hp. rewrite Hs in Hh. specialize (Hpos _ _ _ Hh (hold_ms s) eq_refl). lia.
  - destruct (resolve_field _ _ preset_rx_framing _ _); [|done].
    by apply result_bind_ok in Hf as (dec & ?%map_err_ok & _); exists dec.
Qed.
End Boot.

(** ** The reset pulse *)

(** The outcome of a release: done, the port is closed or gone (its lines with it),
    or refused by the device. *)
Inductive ReleaseOutcome := Released | PortGone | ReleaseFailed.

Definition release_outcome (r : result SerialError unit) : ReleaseOutcome :=
  match r with
  | Ok _ => Released
  | Err (SerialConfig.ConnectionClosed _) => PortGone
  | Err _ => ReleaseFailed
  end.

(** [release_reset_lines]: whether the guard is disarmed. *)
Definition release_reset_lines (c : SerialConnection) (reset : CaptureBootReset) (fault : option LineFault)
    : ReleaseOutcome * SerialConnection :=
  let '(r, c) := set_dtr_rts_unlocked c (release_dtr reset) (release_rts reset) fault in
  (release_outcome r, c).

Definition disarmed (o : ReleaseOutcome) : bool := match o with ReleaseFailed => false | _ => true end.

(** Where a pulse is: holding the control lock before the guard is armed, armed,
    asserted, released, past its pulse with the guard still armed, ended. *)
Inductive PulsePc := PLocked | PArmed | PHeld | PReleased | PRetained | PEnded.

Definition holds_lock (p : PulsePc) : bool := match p with PLocked | PArmed | PHeld => true | _ => false end.

(** What happened to the lines, newest first; this only serves the statements. *)
Inductive LineEvent :=
  | EvAssert (n : nat) (dtr rts ok : bool)
  | EvRelease (n : nat) (dtr rts : bool) (o : ReleaseOutcome)
  | EvCleanup (n : nat) (dtr rts : bool) (o : ReleaseOutcome)
  | EvSet (dtr rts ok : bool)
  | EvFresh.

(** The connection, the holder of the control lock, the pulses, the cleanup tasks
    spawned by dropped guards, the events. *)
Record PulseSys := mkPulse {
  p_conn : SerialConnection;
  p_lock : option nat;
  p_calls : gmap nat (CaptureBootReset * PulsePc);
  p_cleanups : list (nat * CaptureBootReset);
  p_log : list LineEvent;
}.

(** One step of pulse [n], as the lock holder or past its pulse: the new state of
    the call, whether its guard is dropped armed, and the event, if any. *)
Inductive pulse_move (n : nat) (reset : CaptureBootReset) (c : SerialConnection)
    : PulsePc -> SerialConnection -> PulsePc -> bool -> list LineEvent -> Prop :=
  | move_refused : pulse_move n reset c PLocked c PEnded false []
  | move_arm : pulse_move n reset c PLocked c PArmed false []
  | move_assert fault r c' :
      set_dtr_rts_unlocked c (assert_dtr reset) (assert_rts reset) fault = (r, c') ->
      pulse_move n reset c PArmed c' (if is_ok r then PHeld else PEnded) (negb (is_ok r))
        [EvAssert n (assert_dtr reset) (assert_rts reset) (is_ok r)]
  (** The call is dropped while it waits. *)
  | move_abort p : p = PArmed \/ p = PHeld -> pulse_move n reset c p c PEnded true []
  | move_release fault o c' :
      release_reset_lines c reset fault = (o, c') ->
      pulse_move n reset c PHeld c' (if disarmed o then PReleased else PEnded) (negb (disarmed o))
        [EvRelease n (release_dtr reset) (release_rts reset) o]
  (** Cancelled while it holds: a failed release does not end the call. *)
  | move_cancelled fault o c' :
      release_reset_lines c reset fault = (o, c') ->
      pulse_move n reset c PHeld c' (if disarmed o then PReleased else PRetained) false
        [EvRelease n (release_dtr reset) (release_rts reset) o]
  | move_done : pulse_move n reset c PReleased c PEnded false []
  | move_retained : pulse_move n reset c PRetained c PEnded true [].

Definition conn_lines (c : SerialConnection) : option (bool * bool) :=
  (fun d => (dev_dtr d, dev_rts d)) <$> sc_io c.

Inductive pulse_step : PulseSys -> PulseSys -> Prop :=
  | pulse_lock c calls cl log n reset :
      calls !! n = None ->
      pulse_step (mkPulse c None calls cl log) (mkPulse c (Some n) (<[n := (reset, PLocked)]> calls) cl log)
  | pulse_moves c lock calls cl log n reset p c' p' drop evs :
      calls !! n = Some (reset, p) -> pulse_move n reset c p c' p' drop evs ->
      pulse_step (mkPulse c lock calls cl log)
        (mkPulse c' (if holds_lock p then (if holds_lock p' then lock else None) else lock)
           (<[n := (reset, p')]> calls) (cl ++ (if drop then [(n, reset)] else [])) (evs ++ log))
  (** A cleanup task, and any other call of [set_dtr_rts], take the lock for the
      time of the call. *)
  | pulse_cleanup c calls cl log i n reset fault o c' :
      cl !! i = Some (n, reset) -> release_reset_lines c reset fault = (o, c') ->
      pulse_step (mkPulse c None calls cl log)
        (mkPulse c' None calls (delete i cl) (EvCleanup n (release_dtr reset) (release_rts reset) o :: log))
  | pulse_set c calls cl log dtr rts fault r c' :
      set_dtr_rts_unlocked c dtr rts fault = (r, c') ->
      pulse_step (mkPulse c None calls cl log) (mkPulse c' None calls cl (EvSet dtr rts (is_ok r) :: log))
  (** Other work on the connection leaves the lines, or takes the device away. *)
  | pulse_other c lock calls cl log c' :
      conn_lines c' = conn_lines c \/ sc_io c' = None ->
      pulse_step (mkPulse c lock calls cl log) (mkPulse c' lock calls cl log)
  (** A reconnect brings a fresh device. *)
  | pulse_fresh c lock calls cl log c' :
      pulse_step (mkPulse c lock calls cl log) (mkPulse c' lock calls cl (EvFresh :: log)).

Definition pulse_start (c : SerialConnection) : PulseSys := mkPulse c None ∅ [] [].

(** [set_dtr_rts], the tool, when the lock is free. *)
Definition set_dtr_rts_tool (found : option SerialConnection) (dtr rts : bool) (fault : option LineFault)
    : option (result SerialError unit * SerialConnection) :=
  (fun c => set_dtr_rts_unlocked c dtr rts fault) <$> found.

(** ** What is owed *)

(** The lines an event leaves behind. *)
Definition ev_lines (e : LineEvent) : option (bool * bool) :=
  match e with
  | EvAssert _ d r true | EvSet d r true => Some (d, r)
  | EvRelease _ d r Released | EvCleanup _ d r Released => Some (d, r)
  | _ => None
  end.

(** Pulse [n] has touched the lines, and neither a release went through or found
    the port gone, nor has its cleanup run. *)
Fixpoint owed (n : nat) (log : list LineEvent) : bool :=
  match log with
  | [] => false
  | EvAssert m _ _ _ :: log => bool_decide (m = n) || owed n log
  | EvRelease m _ _ o :: log => negb (bool_decide (m = n) && disarmed o) && owed n log
  | EvCleanup m _ _ _ :: log => negb (bool_decide (m = n)) && owed n log
  | _ :: log => owed n log
  end.

(** The events after the last reconnect aside, the newest one. *)
Fixpoint last_event (log : list LineEvent) : option LineEvent :=
  match log with
  | [] => None
  | EvFresh :: log => last_event log
  | e :: _ => Some e
  end.

Record pulse_inv (s : PulseSys) : Prop := {
  pi_lock : forall n reset p, p_calls s !! n = Some (reset, p) -> holds_lock p = true -> p_lock s = Some n;
  pi_held : forall n reset, p_calls s !! n = Some (reset, PHeld) ->
    last_event (p_log s) = Some (EvAssert n (assert_dtr reset) (assert_rts reset) true);
  pi_lines : forall e log, p_log s = e :: log ->
    match ev_lines e with
    | Some l => conn_lines (p_conn s) = Some l \/ sc_io (p_conn s) = None
    | None => True
    end;
  pi_owed : forall n, owed n (p_log s) = true ->
    (exists reset p, p_calls s !! n = Some (reset, p) /\ (p = PHeld \/ p = PRetained)) \/
    n ∈ (p_cleanups s).*1;
}.

Lemma set_lines c dtr rts fault u c' :
  set_dtr_rts_unlocked c dtr rts fault = (Ok u, c') -> conn_lines c' = Some (dtr, rts).
Proof.
  unfold set_dtr_rts_unlocked, ensure_open, io_or_closed, conn_lines.
  destruct (sc_closed c); [done|]. destruct (sc_io c) as [io|]; [|done]. cbn.
  destruct fault as [ [e|e]|]; cbn; intros [= <- <-]. done.
Qed.

Lemma release_lines c reset fault c' :
  release_reset_lines c reset fault = (Released, c') ->
  conn_lines c' = Some (release_dtr reset, release_rts reset).
Proof.
  unfold release_reset_lines. destruct (set_dtr_rts_unlocked _ _ _ _) as [r c1] eqn:E.
  intros [= Ho <-]. destruct r as [u|e]; [by eapply set_lines|]. by destruct e.
Qed.

(** What a move of a pulse does. *)
Lemma move_idle n reset c p c' p' drop evs :
  pulse_move n reset c p c' p' drop evs -> holds_lock p = false ->
  evs = [] /\ c' = c /\ holds_lock p' = false /\ p' <> PHeld.
Proof. by destruct 1. Qed.

Lemma move_lines n reset c p c' p' drop evs :
  pulse_move n reset c p c' p' drop evs ->
  (evs = [] /\ c' = c) \/ exists e, evs = [e] /\ forall l, ev_lines e = Some l -> conn_lines c' = Some l.
Proof.
  destruct 1; try (left; done); right; eexists; (split; [done|]); intros l; cbn.
  - destruct r; [|done]. intros [= <-]. by eapply set_lines.
  - destruct o; [|done..]. intros [= <-]. by eapply release_lines.
  - destruct o; [|done..]. intros [= <-]. by eapply release_lines.
Qed.

Lemma move_held n reset c p c' p' drop evs log :
  pulse_move n reset c p c' p' drop evs -> p' = PHeld ->
  last_event (evs ++ log) = Some (EvAssert n (assert_dtr reset) (assert_rts reset) true).
Proof. destruct 1; try done; [by destruct r|by destruct o..]. Qed.

Lemma move_owed n reset c p c' p' drop evs log m :
  pulse_move n reset c p c' p' drop evs -> owed m (evs ++ log) = true ->
  (m = n /\ (p' = PHeld \/ p' = PRetained \/ drop = true)) \/
  (owed m log = true /\ (m = n -> p <> PHeld /\ p <> PRetained)).
Proof.
  destruct 1; cbn [app owed]; intros Ho.
  - right. by split.
  - right. by split.
  - destruct (decide (n = m)) as [->|Hne].
    + left. split; [done|]. destruct r; cbn; auto.
    + rewrite (bool_decide_eq_false_2 _ Hne) in Ho. right. split; [done|]. by intros ->.
  - destruct (decide (m = n)) as [->|Hne]; [left; auto|right; by split].
  - destruct (decide (n = m)) as [->|Hne].
    + left. split; [done|]. rewrite bool_decide_eq_true_2 in Ho by done.
      destruct o; [done..|]. cbn. auto.
    + rewrite (bool_decide_eq_false_2 _ Hne) in Ho. right. split; [done|]. by intros ->.
  - destruct (decide (n = m)) as [->|Hne].
    + left. split; [done|]. rewrite bool_decide_eq_true_2 in Ho by done.
      destruct o; [done..|]. cbn. auto.
    + rewrite (bool_decide_eq_false_2 _ Hne) in Ho. right. split; [done|]. by intros ->.
  - right. by split.
  - destruct (decide (m = n)) as [->|Hne]; [left; auto|right; by split].
Qed.

Lemma pulse_moves_inv c lock calls cl log n reset p c' p' drop evs :
  pulse_inv (mkPulse c lock calls cl log) -> calls !! n = Some (reset, p) ->
  pulse_move n reset c p c' p' drop evs ->
  pulse_inv (mkPulse c' (if holds_lock p then (if holds_lock p' then lock else None) else lock)
    (<[n := (reset, p')]> calls) (cl ++ (if drop then [(n, reset)] else [])) (evs ++ log)).
Proof.
  intros [Hlock Hheld Hlines Howed] Hn Hm. cbn in *. split; cbn.
  - intros m reset' q. destruct (decide (m = n)) as [->|Hne]; rewrite ?lookup_insert_eq, ?lookup_insert_ne by done.
    + intros [= <- <-] Hq. rewrite Hq. destruct (holds_lock p) eqn:Hp; [by eapply Hlock|].
      by destruct (move_idle _ _ _ _ _ _ _ _ Hm Hp) as (_ & _ & Hf & _); rewrite Hf in Hq.
    + intros Hq1 Hq. specialize (Hlock _ _ _ Hq1 Hq) as Hl. destruct (holds_lock p) eqn:Hp; [|done].
      specialize (Hlock _ _ _ Hn Hp). congruence.
  - intros m reset'. destruct (decide (m = n)) as [->|Hne]; rewrite ?lookup_insert_eq, ?lookup_insert_ne by done.
    + intros [= <- ->]. by eapply move_held.
    + intros Hq. destruct (holds_lock p) eqn:Hp.
      * specialize (Hlock n _ _ Hn Hp) as Hl. specialize (Hlock m _ _ Hq eq_refl). congruence.
      * destruct (move_idle _ _ _ _ _ _ _ _ Hm Hp) as (-> & _). by eapply Hheld.
  - intros e log' He. destruct (move_lines _ _ _ _ _ _ _ _ Hm) as [ [-> ->]|(e' & -> & Hl)]; [by eapply Hlines|].
    injection He as -> _. destruct (ev_lines e) as [l|]; [|done]. left. by apply Hl.
  - intros m Ho. destruct (move_owed _ _ _ _ _ _ _ _ _ _ Hm Ho) as [ [-> [->|[->| ->] ] ]|[Hold Hne] ].
    + left. exists reset, PHeld. rewrite lookup_insert_eq. auto.
    + left. exists reset, PRetained. rewrite lookup_insert_eq. auto.
    + right. rewrite fmap_app. set_solver.
    + destruct (Howed m Hold) as [(reset' & q & Hq & Hc)|Hin]; [|right; rewrite fmap_app; set_solver].
      destruct (decide (m = n)) as [->|]; [|left; exists reset', q; by rewrite lookup_insert_ne].
      rewrite Hn in Hq. injection Hq as <- <-. destruct (Hne eq_refl). by destruct Hc.
Qed.

Lemma elem_of_delete_other (l : list (nat * CaptureBootReset)) i n x m :
  l !! i = Some (n, x) -> m <> n -> m ∈ l.*1 -> m ∈ (delete i l).*1.
Proof.
  intros Hi Hne. rewrite !list_elem_of_fmap. intros (y & -> & Hy). exists y. split; [done|].
  apply list_elem_of_lookup in Hy as [j Hj]. rewrite delete_take_drop.
  apply elem_of_app. rewrite <- (take_drop_middle l i _ Hi) in Hj.
  apply list_elem_of_lookup_2, elem_of_app in Hj as [?|[->|?]%elem_of_cons]; [by left|done|by right].
Qed.

Lemma pulse_step_inv s s' : pulse_inv s -> pulse_step s s' -> pulse_inv s'.
Proof.
  intros Hinv Hs. destruct Hs; [|by eapply pulse_moves_inv|..];
    destruct Hinv as [Hlock Hheld Hlines Howed]; cbn in *.
  - assert (Hnew : forall m reset' q, <[n := (reset, PLocked)]> calls !! m = Some (reset', q) ->
      (m = n /\ q = PLocked) \/ (m <> n /\ calls !! m = Some (reset', q))).
    { intros m reset' q. destruct (decide (m = n)) as [->|Hne];
        rewrite ?lookup_insert_eq, ?lookup_insert_ne by done; [intros [= _ <-]|]; auto. }
    split; cbn.
    + intros m reset' q Hq Hh. destruct (Hnew _ _ _ Hq) as [ [-> _]|[_ Hq'] ]; [done|].
      by specialize (Hlock _ _ _ Hq' Hh).
    + intros m reset' Hq. destruct (Hnew _ _ _ Hq) as [ [_ ?]|[_ Hq'] ]; [done|]. by eapply Hheld.
    + done.
    + intros m Ho. destruct (Howed m Ho) as [(reset' & q & Hq & Hc)|?]; [|by right].
      left. exists reset', q. rewrite lookup_insert_ne; [done|]. intros ->. congruence.
  - assert (Hidle : forall m reset' q, calls !! m = Some (reset', q) -> holds_lock q = true -> False)
      by (intros m reset' q Hq Hh; by specialize (Hlock _ _ _ Hq Hh)).
    split; cbn; [done| | |].
    + intros m reset' Hq. by destruct (Hidle _ _ _ Hq).
    + intros e log' [= <- <-]. cbn. destruct o; [|done..]. left. by eapply release_lines.
    + intros m Ho. destruct (decide (n = m)) as [->|Hne].
      { by rewrite bool_decide_eq_true_2 in Ho. }
      rewrite (bool_decide_eq_false_2 _ Hne) in Ho.
      destruct (Howed m Ho) as [?|Hin]; [by left|right].
      eapply elem_of_delete_other; [done| |done]. by intros ->.
  - assert (Hidle : forall m reset' q, calls !! m = Some (reset', q) -> holds_lock q = true -> False)
      by (intros m reset' q Hq Hh; by specialize (Hlock _ _ _ Hq Hh)).
    split; cbn; [done| | |done].
    + intros m reset' Hq. by destruct (Hidle _ _ _ Hq).
    + intros e log' [= <- <-]. cbn. destruct r; [|done]. left. by eapply set_lines.
  - split; cbn; [done|done| |done]. intros e log' He. specialize (Hlines e log' He).
    destruct (ev_lines e); [|done]. destruct H as [Hl|Hl]; [|by right].
    destruct Hlines as [Hd|Hd]; [left; congruence|right].
    unfold conn_lines in Hl. rewrite Hd in Hl. by destruct (sc_io c').
  - split; cbn; [done|done| |done]. by intros e log' [= <- <-].
Qed.


(** A pulse whose release fails: the cleanup brings the lines back. *)
Definition a_reset : CaptureBootReset := mkReset true false false true 100.
Definition io_fault : IoError := mkIoError OtherKind (bs "EIO").
Definition asserted : SerialConnection := (set_dtr_rts_unlocked a_connection true false None).2.
Definition cleaned : SerialConnection := (release_reset_lines asserted a_reset None).2.
Definition pulse_end : PulseSys :=
  mkPulse cleaned None (<[0%nat := (a_reset, PEnded)]> ∅) []
    [EvCleanup 0 false true Released; EvRelease 0 false true ReleaseFailed; EvAssert 0 true false true].


(** ** BREAK *)

(** [send_break] up to its hold; the guard exists from there on. *)
Definition send_break_begin (duration_ms : Z) (found : option SerialConnection) (fault : option SerialConfig.IoError)
    : result (ArgError + SerialError) unit * option SerialConnection :=
  match clamp_timeout_or_err "send_break.duration_ms" duration_ms MAX_TIMEOUT_MS, found with
  | Err e, _ => (Err (inl e), found)
  | Ok _, None => (Err (inl Tools.ConnectionNotFound), None)
  | Ok _, Some c => let '(r, c) := set_break_state c true fault in (map_err inr r, Some c)
  end.

(** The end of the hold: the result, and whether the guard is dropped armed, which
    queues [break_cleanup]. *)
Definition send_break_end (cancelled : bool) (c : SerialConnection) (fault : option SerialConfig.IoError)
    : option (result SerialError unit) * bool * SerialConnection :=
  if cancelled then (None, true, c)
  else let '(r, c) := set_break_state c false fault in (Some r, negb (is_ok r), c).

Definition break_cleanup (c : SerialConnection) (fault : option SerialConfig.IoError) : SerialConnection :=
  (set_break_state c false fault).2.

(** BREAK is off again after a call that was cancelled, or whose release failed
    once, as soon as the queued cleanup succeeds. *)
Lemma break_is_released c cancelled fault r armed c' :
  send_break_end cancelled c fault = (r, armed, c') -> sc_closed c = false ->
  forall io, sc_io (if armed then break_cleanup c' None else c') = Some io -> dev_break io = false.
Proof.
  unfold send_break_end, break_cleanup, set_break_state, ensure_open, io_or_closed. intros Hr Hc.
  destruct (sc_io c) as [d|] eqn:Hd; rewrite Hc in Hr; cbn in Hr; rewrite ?Hd in Hr; cbn in Hr.
  - destruct cancelled; [|destruct fault]; simplify_eq/=; rewrite ?Hc, ?Hd; cbn; by intros io [= <-].
  - destruct cancelled; simplify_eq/=; rewrite ?Hc, ?Hd; cbn; by rewrite ?Hd.
Qed.

(** Overlapping breaks do not know of each other: the end of the first ends the
    BREAK of the second. *)
Example overlapping_breaks :
  let c := default a_connection (send_break_begin 1000 (Some a_connection) None).2 in
  let c := default a_connection (send_break_begin 1000 (Some c) None).2 in
  let '(r, _, c) := send_break_end false c None in
  r = Some (Ok tt) /\ (dev_break <$> sc_io c) = Some false.
Proof. vm_compute. done. Qed.
