(* ===== verification/Resources.v ===== *)
(** * Resources and their events

    [src/resources/mod.rs], [src/resource_events.rs] and the listing and listening
    handlers of [src/server.rs]: resource URIs, which of them can be subscribed to,
    what a listener passes on, the port watcher, and pagination. *)

From stdpp Require Import sorting.
From S2P Require Import Prelude RustStr Extern ExternModel Profiles.

(** ** URIs *)

Definition URI_PORTS : list byte := bs "serial://ports".
Definition URI_CONNECTIONS : list byte := bs "serial://connections".
Definition URI_CONNECTION_PREFIX : list byte := bs "serial://connections/".
Definition SLASH : byte := x2f.

Inductive ResourceUriKind :=
  | UPorts
  | UConnectionsList
  | UConnectionDetail (id : list byte)
  | UConnectionDetailRaw (id : list byte)
  | UConnectionLog (id : list byte)
  | UUnknown.

(** A suffix that leaves an id without a slash. *)
Definition strip_id (rest suffix : list byte) : option (list byte) :=
  match strip_suffix rest suffix with
  | Some id => if bool_decide (id <> []) && negb (bool_decide (SLASH ∈ id)) then Some id else None
  | None => None
  end.

Definition parse_resource_uri (uri : list byte) : ResourceUriKind :=
  if bool_decide (uri = URI_PORTS) then UPorts
  else if bool_decide (uri = URI_CONNECTIONS) then UConnectionsList
  else
    match strip_prefix uri URI_CONNECTION_PREFIX with
    | Some ((_ :: _) as rest) =>
        match strip_id rest (bs "/raw") with
        | Some id => UConnectionDetailRaw id
        | None =>
            match strip_id rest (bs "/log") with
            | Some id => UConnectionLog id
            | None => if bool_decide (SLASH ∈ rest) then UUnknown else UConnectionDetail rest
            end
        end
    | _ => UUnknown
    end.

Definition valid_connection_id (id : list byte) : bool :=
  bool_decide (id <> []) &&
  negb (bool_decide (x2f ∈ id) || bool_decide (x7b ∈ id) || bool_decide (x7d ∈ id)).

Definition connection_uri (id suffix : list byte) : option (list byte) :=
  if negb (valid_connection_id id) then None
  else
    let uri := URI_CONNECTION_PREFIX ++ id ++ suffix in
    match parse_resource_uri uri with
    | UConnectionDetail i => if bool_decide (suffix = []) && bool_decide (i = id) then Some uri else None
    | UConnectionDetailRaw i =>
        if bool_decide (suffix = bs "/raw") && bool_decide (i = id) then Some uri else None
    | UConnectionLog i =>
        if bool_decide (suffix = bs "/log") && bool_decide (i = id) then Some uri else None
    | _ => None
    end.

Definition detail_uri (id : list byte) : option (list byte) := connection_uri id [].
Definition raw_uri (id : list byte) : option (list byte) := connection_uri id (bs "/raw").
Definition log_uri (id : list byte) : option (list byte) := connection_uri id (bs "/log").

Definition is_subscribable_uri (uri : list byte) : bool :=
  match parse_resource_uri uri with
  | UPorts | UConnectionsList => true
  | UConnectionDetail id => is_some (detail_uri id)
  | UConnectionDetailRaw id => is_some (raw_uri id)
  | UConnectionLog id => is_some (log_uri id)
  | UUnknown => false
  end.

(** *** Parsing what is built *)

Lemma strip_prefix_app s p : strip_prefix (p ++ s) p = Some s.
Proof.
  unfold strip_prefix. rewrite (proj2 (starts_with_spec _ _)) by (by eexists).
  by rewrite drop_app_length.
Qed.

Lemma strip_prefix_some s p r : strip_prefix s p = Some r -> s = p ++ r.
Proof.
  unfold strip_prefix. destruct (starts_with s p) eqn:E; [|done]. intros [= <-].
  apply starts_with_spec in E as [k ->]. by rewrite drop_app_length.
Qed.

Lemma ends_with_app (s p : list byte) : ends_with (s ++ p) p = true.
Proof.
  unfold ends_with. rewrite length_app. replace (length s + length p - length p)%nat with (length s) by lia.
  rewrite drop_app_length. by apply bool_decide_eq_true_2.
Qed.

Lemma strip_suffix_app s p : strip_suffix (s ++ p) p = Some s.
Proof.
  unfold strip_suffix. rewrite ends_with_app, length_app.
  replace (length s + length p - length p)%nat with (length s) by lia. by rewrite take_app_length.
Qed.

Lemma strip_suffix_some s p r : strip_suffix s p = Some r -> s = r ++ p.
Proof.
  unfold strip_suffix, ends_with. case_bool_decide as Hd; [|done]. intros [= <-].
  rewrite <- (take_drop (length s - length p) s) at 1. by rewrite Hd.
Qed.

Lemma strip_id_some rest suffix id : strip_id rest suffix = Some id -> rest = id ++ suffix.
Proof.
  unfold strip_id. destruct (strip_suffix rest suffix) eqn:E; [|done]. case_match; [|done].
  intros [= <-]. by apply strip_suffix_some.
Qed.

Lemma strip_id_app id suffix : id <> [] -> SLASH ∉ id -> strip_id (id ++ suffix) suffix = Some id.
Proof.
  intros Hn Hs. unfold strip_id. rewrite strip_suffix_app.
  by rewrite bool_decide_eq_true_2, bool_decide_eq_false_2 by done.
Qed.

Lemma strip_id_none rest suffix :
  SLASH ∈ suffix -> SLASH ∉ rest -> strip_id rest suffix = None.
Proof.
  intros Hs Hr. destruct (strip_id rest suffix) as [id|] eqn:E; [|done]. exfalso.
  apply strip_id_some in E. subst rest. set_solver.
Qed.

Lemma valid_id id : valid_connection_id id = true -> id <> [] /\ SLASH ∉ id.
Proof.
  unfold valid_connection_id. intros [Hn%bool_decide_eq_true Hs%negb_true_iff]%andb_true_iff.
  apply orb_false_iff in Hs as [ [Hs%bool_decide_eq_false _]%orb_false_iff _]. done.
Qed.

Lemma connection_rest rest : rest <> [] ->
  parse_resource_uri (URI_CONNECTION_PREFIX ++ rest) =
  match strip_id rest (bs "/raw") with
  | Some id => UConnectionDetailRaw id
  | None =>
      match strip_id rest (bs "/log") with
      | Some id => UConnectionLog id
      | None => if bool_decide (SLASH ∈ rest) then UUnknown else UConnectionDetail rest
      end
  end.
Proof.
  intros Hr. unfold parse_resource_uri.
  rewrite bool_decide_eq_false_2 by (intros E; apply (f_equal (fun l => nth 9 l x00)) in E; by vm_compute in E).
  rewrite bool_decide_eq_false_2.
  2: { intros E. apply (f_equal length) in E. rewrite length_app in E. destruct rest; [done|].
       unfold URI_CONNECTION_PREFIX, URI_CONNECTIONS in E. cbn in E. lia. }
  rewrite strip_prefix_app. destruct rest; [done|]. reflexivity.
Qed.

Lemma slash_in_suffixes : SLASH ∈ bs "/raw" /\ SLASH ∈ bs "/log".
Proof. split; apply list_elem_of_here. Qed.

(** The kind of the URI built from an id and a suffix. *)
Lemma parse_built id : valid_connection_id id = true ->
  parse_resource_uri (URI_CONNECTION_PREFIX ++ id ++ []) = UConnectionDetail id /\
  parse_resource_uri (URI_CONNECTION_PREFIX ++ id ++ bs "/raw") = UConnectionDetailRaw id /\
  parse_resource_uri (URI_CONNECTION_PREFIX ++ id ++ bs "/log") = UConnectionLog id.
Proof.
  intros [Hn Hs]%valid_id. rewrite app_nil_r. destruct slash_in_suffixes.
  assert (Hne : forall suffix, id ++ suffix <> []) by (by destruct id).
  rewrite !connection_rest by done. split_and!.
  - rewrite !strip_id_none by done. by rewrite bool_decide_eq_false_2.
  - by rewrite strip_id_app.
  - destruct (strip_id (id ++ bs "/log") (bs "/raw")) as [i|] eqn:E.
    + apply strip_id_some in E. apply app_inj_2 in E as [_ E]; [discriminate E|done].
    + by rewrite strip_id_app.
Qed.

(** What the publishers build for an id. *)
Lemma built_uris id : valid_connection_id id = true ->
  detail_uri id = Some (URI_CONNECTION_PREFIX ++ id ++ []) /\
  raw_uri id = Some (URI_CONNECTION_PREFIX ++ id ++ bs "/raw") /\
  log_uri id = Some (URI_CONNECTION_PREFIX ++ id ++ bs "/log").
Proof.
  intros Hv. destruct (parse_built id Hv) as (Hd & Hr & Hl).
  unfold detail_uri, raw_uri, log_uri, connection_uri. rewrite Hv. cbn [negb].
  rewrite Hd, Hr, Hl. by rewrite !bool_decide_eq_true_2 by done.
Qed.

Lemma parse_inv uri :
  match parse_resource_uri uri with
  | UPorts => uri = URI_PORTS
  | UConnectionsList => uri = URI_CONNECTIONS
  | UConnectionDetail id => uri = URI_CONNECTION_PREFIX ++ id
  | UConnectionDetailRaw id => uri = URI_CONNECTION_PREFIX ++ id ++ bs "/raw"
  | UConnectionLog id => uri = URI_CONNECTION_PREFIX ++ id ++ bs "/log"
  | UUnknown => True
  end.
Proof.
  unfold parse_resource_uri. repeat case_bool_decide; try done.
  destruct (strip_prefix uri _) as [ [|b rest]|] eqn:E; try done. apply strip_prefix_some in E.
  destruct (strip_id _ (bs "/raw")) as [id|] eqn:Er; [apply strip_id_some in Er; congruence|].
  destruct (strip_id _ (bs "/log")) as [id|] eqn:El; [apply strip_id_some in El; congruence|].
  by case_bool_decide.
Qed.

(** The URIs a client may subscribe to are exactly the two
    lists and the detail, raw and log URIs of a connection id without slash or
    brace; and each of these, as the publishers build it, parses back to its kind
    and its id, so what is published is what can be listened to. *)
Theorem subscribable_uris :
  (forall uri, is_subscribable_uri uri = true <->
     uri = URI_PORTS \/ uri = URI_CONNECTIONS \/
     exists id suffix, valid_connection_id id = true /\ suffix ∈ [ []; bs "/raw"; bs "/log"] /\
       uri = URI_CONNECTION_PREFIX ++ id ++ suffix) /\
  (forall id, valid_connection_id id = true ->
     (exists uri, detail_uri id = Some uri /\ parse_resource_uri uri = UConnectionDetail id) /\
     (exists uri, raw_uri id = Some uri /\ parse_resource_uri uri = UConnectionDetailRaw id) /\
     (exists uri, log_uri id = Some uri /\ parse_resource_uri uri = UConnectionLog id)) /\
  (forall id suffix, valid_connection_id id = false -> connection_uri id suffix = None).
Proof.
  pose proof built_uris as Hbuilt.
  split_and!.
  - intros uri. split.
    + unfold is_subscribable_uri. pose proof (parse_inv uri) as Hi.
      assert (Hv : forall id suffix, is_some (connection_uri id suffix) = true -> valid_connection_id id = true).
      { intros id suffix. unfold connection_uri. by destruct (valid_connection_id id). }
      destruct (parse_resource_uri uri) as [| |id|id|id|]; [by left|by right; left|..|done]; intros Hs%Hv;
        right; right; exists id.
      * exists []. rewrite app_nil_r. split_and!; [done|apply list_elem_of_here|done].
      * exists (bs "/raw"). split_and!; [done| |done]. apply list_elem_of_further, list_elem_of_here.
      * exists (bs "/log"). split_and!; [done| |done]. do 2 apply list_elem_of_further. apply list_elem_of_here.
    + intros [->|[->|(id & suffix & Hv & Hs & ->)] ]; [done|done|].
      destruct (parse_built id Hv) as (Hd & Hr & Hl). destruct (Hbuilt id Hv) as (Bd & Br & Bl).
      unfold is_subscribable_uri. rewrite !elem_of_cons, elem_of_nil in Hs.
      destruct Hs as [->|[->|[->|[] ] ] ]; [rewrite Hd, Bd|rewrite Hr, Br|rewrite Hl, Bl]; done.
  - intros id Hv. destruct (parse_built id Hv) as (Hd & Hr & Hl). destruct (Hbuilt id Hv) as (Bd & Br & Bl).
    split_and!; eauto.
  - intros id suffix Hv. unfold connection_uri. by rewrite Hv.
Qed.

(** ** Listening *)

(** [filter(|uri| seen.insert(uri.clone()))]: first occurrences, in order. *)
Fixpoint first_occurrences (seen : list (list byte)) (uris : list (list byte)) : list (list byte) :=
  match uris with
  | [] => []
  | uri :: uris =>
      if bool_decide (uri ∈ seen) then first_occurrences seen uris
      else uri :: first_occurrences (uri :: seen) uris
  end.

(** [accepted_subscription_filter]: the resource URIs of the filter. *)
Definition accepted_subscription_filter (requested : option (list (list byte))) : list (list byte) :=
  first_occurrences []
    (List.filter is_subscribable_uri (default [] requested)).

(** What [receiver.recv()] returns. *)
Inductive RecvResult := Got (uri : list byte) | Lagged (n : nat) | HubClosed.

#[export] Instance RecvResult_eq_dec : EqDecision RecvResult.
Proof. solve_decision. Defined.

(** What a listener asks the sink to send for one result. *)
Definition hints (accepted : list (list byte)) (r : RecvResult) : list (list byte) :=
  match r with
  | Got uri => if bool_decide (uri ∈ accepted) then [uri] else []
  | Lagged _ => accepted
  | HubClosed => []
  end.

(** The sink takes a number of notifications and then reports that the peer is
    gone, or takes them all ([None]). *)
Fixpoint notify_each (sink : option nat) (uris : list (list byte)) : list (list byte) * option (option nat) :=
  match uris with
  | [] => ([], Some sink)
  | uri :: uris =>
      match sink with
      | Some O => ([], None)
      | _ => let '(sent, rest) := notify_each (pred <$> sink) uris in (uri :: sent, rest)
      end
  end.

(** The loop of [listen]. *)
Fixpoint listen (accepted : list (list byte)) (sink : option nat) (results : list RecvResult)
    : list (list byte) :=
  match results with
  | [] | HubClosed :: _ => []
  | r :: results =>
      let '(sent, rest) := notify_each sink (hints accepted r) in
      sent ++ match rest with Some sink => listen accepted sink results | None => [] end
  end.

(** What the broadcast channel promises a receiver that has drained it: every
    event published since it subscribed, in order, except that runs of events are
    replaced by their number. *)
Inductive delivers : list (list byte) -> list RecvResult -> Prop :=
  | delivers_nil : delivers [] []
  | delivers_got e es rs : delivers es rs -> delivers (e :: es) (Got e :: rs)
  | delivers_lag skipped es rs :
      skipped <> [] -> delivers es rs -> delivers (skipped ++ es) (Lagged (length skipped) :: rs).

(** How many published events some results stand for. *)
Definition covers (rs : list RecvResult) : nat :=
  foldr (fun r n => (match r with Got _ => 1 | Lagged k => k | HubClosed => 0 end + n)%nat) 0%nat rs.

Lemma notify_each_all uris : notify_each None uris = (uris, Some None).
Proof. induction uris as [|u uris IH]; [done|]. simpl. by rewrite IH. Qed.

Lemma listen_open accepted r rs : r <> HubClosed ->
  listen accepted None (r :: rs) = hints accepted r ++ listen accepted None rs.
Proof. intros Hr. destruct r; [| |done]; simpl; by rewrite notify_each_all. Qed.

(** *** What a listener is owed *)

Lemma notify_each_finite uris : forall k, notify_each (Some k) uris =
  (take k uris, if bool_decide (length uris <= k)%nat then Some (Some (k - length uris)%nat) else None).
Proof.
  induction uris as [|u uris IH]; intros k; simpl.
  - by rewrite take_nil, Nat.sub_0_r.
  - destruct k as [|k]; [done|]. simpl. rewrite IH. f_equal.
    repeat case_bool_decide; try done; lia.
Qed.

Lemma listen_take accepted rs : forall k,
  listen accepted (Some k) rs = take k (listen accepted None rs).
Proof.
  induction rs as [|r rs IH]; intros k; [by destruct k|].
  destruct (decide (r = HubClosed)) as [->|Hr]; [by destruct k|]. rewrite listen_open by done.
  assert (E : listen accepted (Some k) (r :: rs) =
    (let '(sent, rest) := notify_each (Some k) (hints accepted r) in
     sent ++ match rest with Some sink => listen accepted sink rs | None => [] end)) by (by destruct r).
  rewrite E, notify_each_finite, take_app. f_equal. case_bool_decide; [apply IH|].
  by replace (k - length (hints accepted r))%nat with 0%nat by lia.
Qed.

Lemma listen_subset accepted rs : Forall (.∈ accepted) (listen accepted None rs).
Proof.
  induction rs as [|r rs IH]; [done|].
  destruct (decide (r = HubClosed)) as [->|Hr]; [done|]. rewrite listen_open by done.
  apply Forall_app. split; [|done]. destruct r as [uri|n|]; simpl; [|by apply Forall_forall|done].
  case_bool_decide; [|done]. by apply Forall_singleton.
Qed.

Lemma delivers_open es rs : delivers es rs -> HubClosed ∉ rs.
Proof. induction 1; rewrite ?not_elem_of_cons; [apply not_elem_of_nil|done..]. Qed.

Lemma delivers_covers es rs : delivers es rs -> covers rs = length es.
Proof. induction 1; simpl; rewrite ?length_app; lia. Qed.

(** An event is followed by a result that stands for it, and the results before
    that one stand only for earlier events. *)
Lemma delivers_split published rs p1 u p2 :
  delivers published rs -> published = p1 ++ u :: p2 ->
  exists r1 r r2, rs = r1 ++ r :: r2 /\ (covers r1 <= length p1)%nat /\
    (r = Got u \/ exists n, r = Lagged n).
Proof.
  intros Hd. revert p1. induction Hd as [|e es rs Hd IH|skipped es rs Hne Hd IH]; intros p1 E.
  - by destruct p1.
  - destruct p1 as [|x p1]; simplify_eq/=.
    + exists [], (Got u), rs. split_and!; [done|simpl; lia|by left].
    + destruct (IH p1 eq_refl) as (r1 & r & r2 & -> & Hc & Hr).
      exists (Got x :: r1), r, r2. split_and!; [done|simpl; lia|done].
  - destruct (decide (length p1 < length skipped)%nat) as [Hlt|Hge].
    + exists [], (Lagged (length skipped)), rs. split_and!; [done|simpl; lia|right; eauto].
    + assert (Hp : p1 = skipped ++ drop (length skipped) p1).
      { rewrite <- (take_drop (length skipped) p1) at 1. f_equal.
        apply (f_equal (take (length skipped))) in E.
        rewrite take_app_length, take_app_le in E by lia. done. }
      rewrite Hp, <- app_assoc in E. apply app_inv_head in E.
      destruct (IH _ E) as (r1 & r & r2 & -> & Hc & Hr).
      exists (Lagged (length skipped) :: r1), r, r2. split_and!; [done| |done].
      simpl. rewrite length_drop in Hc. lia.
Qed.

Lemma listen_app accepted r1 r2 : HubClosed ∉ r1 ->
  listen accepted None (r1 ++ r2) = listen accepted None r1 ++ listen accepted None r2.
Proof.
  induction r1 as [|r r1 IH]; [done|]. rewrite not_elem_of_cons. intros [Hr Hn]. cbn [app].
  rewrite !listen_open by done. by rewrite IH, app_assoc by done.
Qed.

Lemma listen_no_lag accepted published rs : delivers published rs ->
  (forall n, Lagged n ∉ rs) ->
  listen accepted None rs = List.filter (fun u => bool_decide (u ∈ accepted)) published.
Proof.
  induction 1 as [|e es rs Hd IH|skipped es rs Hne Hd IH]; intros Hl; [done| |].
  - rewrite listen_open by done. simpl. rewrite IH.
    + by case_bool_decide.
    + intros n Hn. apply (Hl n). by apply list_elem_of_further.
  - exfalso. apply (Hl (length skipped)), list_elem_of_here.
Qed.


Definition demo_uri : list byte := URI_CONNECTION_PREFIX ++ bs "c1".

