(* ===== verification/PortWatcher.v ===== *)
(** * The port watcher

    [PortWatcher] of [src/resource_events.rs]: one process-wide loop that enumerates
    the ports, brings every snapshot into a canonical order and publishes
    [serial://ports] when the canonical snapshot changed. The comparison of ports is
    the derived lexicographic one over eleven fields; the laws a sort needs are
    stated once, in [GoodCmp], and inherited field by field. *)

From stdpp Require Import sorting.
From S2P Require Import Prelude RustStr Profiles Resources.

(** ** Comparisons *)

(** [Ordering::then_with]. *)
Definition then_with (c1 c2 : comparison) : comparison :=
  match c1 with Eq => c2 | _ => c1 end.

(** [Ord for [T]]: lexicographic, a proper prefix first. *)
Fixpoint cmp_list {A} (cmp : A -> A -> comparison) (l1 l2 : list A) : comparison :=
  match l1, l2 with
  | [], [] => Eq
  | [], _ :: _ => Lt
  | _ :: _, [] => Gt
  | x :: l1, y :: l2 => then_with (cmp x y) (cmp_list cmp l1 l2)
  end.

(** [Ord for Option<T>]: [None] first. *)
Definition cmp_option {A} (cmp : A -> A -> comparison) (a b : option A) : comparison :=
  match a, b with
  | None, None => Eq
  | None, Some _ => Lt
  | Some _, None => Gt
  | Some x, Some y => cmp x y
  end.

(** [Ord for u8], and [Ord for str], which compares bytes. *)
Definition cmp_byte (a b : byte) : comparison := Z.compare (b2z a) (b2z b).
Definition cmp_str : list byte -> list byte -> comparison := cmp_list cmp_byte.

Definition cmp_pair {A B} (cmpA : A -> A -> comparison) (cmpB : B -> B -> comparison)
    (a b : A * B) : comparison :=
  then_with (cmpA (fst a) (fst b)) (cmpB (snd a) (snd b)).

Definition transport_rank (t : PortTransport) : Z :=
  match t with Usb => 0 | Pci => 1 | Bluetooth => 2 | UnknownTransport => 3 end.

Definition port_info_cmp (a b : PortInfo) : comparison :=
  let c := cmp_str (pi_name a) (pi_name b) in
  let c := then_with c (cmp_str (pi_display_name a) (pi_display_name b)) in
  let c := then_with c (cmp_str (pi_description a) (pi_description b)) in
  let c := then_with c (cmp_option cmp_str (pi_hardware_id a) (pi_hardware_id b)) in
  let c := then_with c (Z.compare (transport_rank (pi_transport a)) (transport_rank (pi_transport b))) in
  let c := then_with c (cmp_option Z.compare (pi_vid a) (pi_vid b)) in
  let c := then_with c (cmp_option Z.compare (pi_pid a) (pi_pid b)) in
  let c := then_with c (cmp_option cmp_str (pi_serial_number a) (pi_serial_number b)) in
  let c := then_with c (cmp_option cmp_str (pi_manufacturer a) (pi_manufacturer b)) in
  let c := then_with c (cmp_option cmp_str (pi_product a) (pi_product b)) in
  then_with c (cmp_option Z.compare (pi_interface a) (pi_interface b)).

(** ** The watcher *)

Definition port_le (a b : PortInfo) : Prop := port_info_cmp a b <> Gt.

#[export] Instance port_le_dec a b : Decision (port_le a b).
Proof. unfold port_le. solve_decision. Defined.

#[export] Instance PortInfo_eq_dec : EqDecision PortInfo.
Proof. solve_decision. Defined.

(** [ports.sort_by(port_info_cmp)]: a stable sort. *)
Definition canonicalize (ports : list PortInfo) : list PortInfo := merge_sort port_le ports.

(** [apply_snapshot]: the new baseline, and the URIs published. *)
Definition apply_snapshot (baseline : option (list PortInfo)) (ports : list PortInfo)
    : option (list PortInfo) * list (list byte) :=
  let ports := canonicalize ports in
  match baseline with
  | None => (Some ports, [])
  | Some prev =>
      if bool_decide (prev <> ports) then (Some ports, [URI_PORTS]) else (Some prev, [])
  end.

Section watcher.
Context {E : Type}.

(** [port_watcher_loop] over the results of the enumerations up to the
    cancellation: what each poll publishes. *)
Fixpoint port_watcher_loop (baseline : option (list PortInfo))
    (polls : list (result E (list PortInfo))) : list (list (list byte)) :=
  match polls with
  | [] => []
  | Ok ports :: polls =>
      let '(baseline, published) := apply_snapshot baseline ports in
      published :: port_watcher_loop baseline polls
  | Err _ :: polls => [] :: port_watcher_loop baseline polls
  end.

(** What the watcher promises: a poll publishes when it succeeds, an earlier poll
    did, and the last one that did saw another multiset of ports. *)
Fixpoint changes (last : option (list PortInfo))
    (polls : list (result E (list PortInfo))) : list (list (list byte)) :=
  match polls with
  | [] => []
  | Ok ports :: polls =>
      match last with
      | Some prev => if bool_decide (prev ≡ₚ ports) then [] else [URI_PORTS]
      | None => []
      end :: changes (Some ports) polls
  | Err _ :: polls => [] :: changes last polls
  end.
End watcher.

(** ** The comparisons are total orders *)

Class GoodCmp {A} (cmp : A -> A -> comparison) := {
  cmp_eq : forall a b, cmp a b = Eq <-> a = b;
  cmp_opp : forall a b, cmp b a = CompOpp (cmp a b);
  cmp_trans : forall a b c, cmp a b = Lt -> cmp b c = Lt -> cmp a c = Lt;
}.

#[export] Instance Z_compare_good : GoodCmp Z.compare.
Proof.
  split; [apply Z.compare_eq_iff|intros; apply Z.compare_antisym|].
  intros a b c. rewrite !Z.compare_lt_iff. lia.
Qed.

Lemma good_cmp_inj {A B} (f : A -> B) (cmp : B -> B -> comparison) `{!GoodCmp cmp} `{!Inj (=) (=) f} :
  GoodCmp (fun a b => cmp (f a) (f b)).
Proof.
  split; intros.
  - rewrite cmp_eq. split; [apply (inj f)|by intros ->].
  - apply cmp_opp.
  - by eapply cmp_trans.
Qed.

#[export] Instance cmp_byte_good : GoodCmp cmp_byte.
Proof. apply (good_cmp_inj b2z Z.compare (Inj0 := b2z_inj)). Qed.

#[export] Instance transport_rank_good :
  GoodCmp (fun a b => Z.compare (transport_rank a) (transport_rank b)).
Proof.
  assert (Inj (=) (=) transport_rank) by (by intros [] []). apply (good_cmp_inj transport_rank Z.compare).
Qed.

Lemma then_with_eq c1 c2 : then_with c1 c2 = Eq <-> c1 = Eq /\ c2 = Eq.
Proof. destruct c1; simpl; naive_solver. Qed.

Lemma then_with_lt c1 c2 : then_with c1 c2 = Lt <-> c1 = Lt \/ (c1 = Eq /\ c2 = Lt).
Proof. destruct c1; simpl; naive_solver. Qed.

Lemma then_with_opp c1 c2 : CompOpp (then_with c1 c2) = then_with (CompOpp c1) (CompOpp c2).
Proof. by destruct c1. Qed.

Lemma cmp_trans_r {A} (cmp : A -> A -> comparison) `{!GoodCmp cmp} a b c :
  cmp a b = Eq -> cmp b c = cmp a c.
Proof. by intros ->%cmp_eq. Qed.

#[export] Instance cmp_option_good {A} (cmp : A -> A -> comparison) :
  GoodCmp cmp -> GoodCmp (cmp_option cmp).
Proof.
  intros Hg. split.
  - intros [a|] [b|]; simpl; rewrite ?cmp_eq; naive_solver.
  - intros [a|] [b|]; simpl; [apply cmp_opp|done..].
  - intros [a|] [b|] [c|]; simpl; try done. apply cmp_trans.
Qed.

#[export] Instance cmp_pair_good {A B} (cmpA : A -> A -> comparison) (cmpB : B -> B -> comparison) :
  GoodCmp cmpA -> GoodCmp cmpB -> GoodCmp (cmp_pair cmpA cmpB).
Proof.
  intros HA HB. split; unfold cmp_pair.
  - intros [a b] [a' b']. rewrite then_with_eq, !cmp_eq. naive_solver.
  - intros a b. by rewrite then_with_opp, <- !cmp_opp.
  - intros [a1 b1] [a2 b2] [a3 b3]. rewrite !then_with_lt. simpl.
    intros [H1|[H1 H1'] ] [H2|[H2 H2'] ].
    + left. by eapply cmp_trans.
    + left. apply cmp_eq in H2. by subst.
    + left. apply cmp_eq in H1. by subst.
    + right. apply cmp_eq in H1, H2. subst. split; [by apply cmp_eq|by eapply cmp_trans].
Qed.

#[export] Instance cmp_list_good {A} (cmp : A -> A -> comparison) : GoodCmp cmp -> GoodCmp (cmp_list cmp).
Proof.
  intros Hg. split.
  - intros l1; induction l1 as [|x l1 IH]; intros [|y l2]; simpl; [done..|].
    rewrite then_with_eq, cmp_eq, IH. naive_solver.
  - intros l1; induction l1 as [|x l1 IH]; intros [|y l2]; simpl; [done..|].
    by rewrite then_with_opp, <- cmp_opp, IH.
  - intros l1; induction l1 as [|x l1 IH]; intros [|y l2] [|z l3]; simpl; try done.
    rewrite !then_with_lt. intros [H1|[H1 H1'] ] [H2|[H2 H2'] ].
    + left. by eapply cmp_trans.
    + left. apply cmp_eq in H2. by subst.
    + left. apply cmp_eq in H1. by subst.
    + right. apply cmp_eq in H1, H2. subst. split; [by apply cmp_eq|by eapply IH].
Qed.

(** A port as the tuple of its fields. *)
Definition port_key (p : PortInfo) :=
  (pi_name p, pi_display_name p, pi_description p, pi_hardware_id p, pi_transport p, pi_vid p,
   pi_pid p, pi_serial_number p, pi_manufacturer p, pi_product p, pi_interface p).

#[export] Instance port_key_inj : Inj (=) (=) port_key.
Proof. intros [] []. unfold port_key. simpl. congruence. Qed.

#[export] Instance port_info_cmp_good : GoodCmp port_info_cmp.
Proof.
  unfold cmp_str.
  pose proof (good_cmp_inj port_key
    (cmp_pair (cmp_pair (cmp_pair (cmp_pair (cmp_pair (cmp_pair (cmp_pair (cmp_pair (cmp_pair (cmp_pair
      cmp_str cmp_str) cmp_str) (cmp_option cmp_str))
      (fun a b => Z.compare (transport_rank a) (transport_rank b))) (cmp_option Z.compare))
      (cmp_option Z.compare)) (cmp_option cmp_str)) (cmp_option cmp_str)) (cmp_option cmp_str))
      (cmp_option Z.compare))) as H.
  apply H; try apply _.
Qed.

(** ** Canonical snapshots *)

(** What sorting by a comparison needs. *)
Lemma good_le_trans {A} (cmp : A -> A -> comparison) `{!GoodCmp cmp} a b c :
  cmp a b <> Gt -> cmp b c <> Gt -> cmp a c <> Gt.
Proof.
  intros Hab Hbc Hac.
  assert (Hca : cmp c a = Lt) by (by rewrite cmp_opp, Hac).
  destruct (cmp a b) eqn:E1; [|..|done].
  - apply cmp_eq in E1. by subst.
  - assert (E3 : cmp c b = Lt) by (by eapply cmp_trans).
    rewrite cmp_opp, E3 in Hbc. done.
Qed.

Lemma good_le_total {A} (cmp : A -> A -> comparison) `{!GoodCmp cmp} a b :
  cmp a b <> Gt \/ cmp b a <> Gt.
Proof. rewrite (cmp_opp (cmp := cmp) a b). destruct (cmp a b); [by left..|by right]. Qed.

#[export] Instance port_le_trans : Transitive port_le.
Proof. intros a b c. apply good_le_trans, _. Qed.

#[export] Instance port_le_total : Total port_le.
Proof. intros a b. apply good_le_total, _. Qed.

#[export] Instance port_le_antisym : AntiSymm (=) port_le.
Proof.
  intros a b. unfold port_le. rewrite (cmp_opp (cmp := port_info_cmp) a b). destruct (port_info_cmp a b) eqn:E; try done.
  by apply cmp_eq in E.
Qed.

Lemma canonicalize_spec l1 l2 : canonicalize l1 = canonicalize l2 <-> l1 ≡ₚ l2.
Proof.
  unfold canonicalize. split.
  - intros E. rewrite <- (merge_sort_Permutation port_le l1), E. apply merge_sort_Permutation.
  - intros E. apply (StronglySorted_unique port_le); [apply (StronglySorted_merge_sort _)..|].
    by rewrite !merge_sort_Permutation.
Qed.

(** C34: the watcher publishes [serial://ports] exactly when
    a successful enumeration sees another multiset of ports than the last successful
    one before it did: the first success, a reordered snapshot and a failed
    enumeration publish nothing, and a failure between two snapshots hides no
    change. *)
Theorem watcher_publishes_changes (E : Type) (polls : list (result E (list PortInfo))) :
  port_watcher_loop None polls = changes None polls.
Proof.
  assert (Hgen : forall last, port_watcher_loop (canonicalize <$> last) polls = changes last polls).
  { induction polls as [|[ports|e] polls IH]; intros last; [done| |].
    - assert (Ha : apply_snapshot (canonicalize <$> last) ports =
        (canonicalize <$> Some ports,
         match last with
         | Some prev => if bool_decide (prev ≡ₚ ports) then [] else [URI_PORTS]
         | None => []
         end)).
      { destruct last as [prev|]; [|done]. unfold apply_snapshot. cbn [fmap option_fmap option_map].
        pose proof (canonicalize_spec prev ports) as Hc.
        repeat case_bool_decide; try tauto. do 2 f_equal. tauto. }
      cbn [port_watcher_loop changes]. rewrite Ha. by rewrite IH.
    - cbn [port_watcher_loop changes]. by rewrite IH. }
  apply (Hgen None).
Qed.
