(* ===== verification/Pagination.v ===== *)
(** * Pagination

    [paginate] of [src/server.rs], used by the four listing handlers: pages of a
    vector behind an opaque cursor, the base64 text of the next offset. *)

From S2P Require Import Prelude RustStr Extern ExternModel.

Section pagination.
Context `{B64 : Base64Crate} {T : Type}.
Implicit Types all : list T.

(** The offset a cursor stands for; anything else is ignored. *)
Definition cursor_offset (cursor : option (list byte)) : option Z :=
  match cursor with
  | Some c =>
      match base64_standard_decode c with
      | Ok b => if utf8_valid b then parse_usize b else None
      | Err _ => None
      end
  | None => None
  end.

Definition paginate all (cursor : option (list byte)) (page_size : Z) : list T * option (list byte) :=
  let len := Z.of_nat (length all) in
  let offset := Z.min (default 0 (cursor_offset cursor)) len in
  let end_ := Z.min (saturating_add offset page_size) len in
  let items := take (Z.to_nat end_ - Z.to_nat offset) (drop (Z.to_nat offset) all) in
  let next_cursor :=
    if end_ <? len then Some (base64_standard_encode (usize_to_string end_)) else None in
  (items, next_cursor).

(** A client that follows the cursors; [None] when it has not reached the end
    after [fuel] requests. *)
Fixpoint all_pages (fuel : nat) all (cursor : option (list byte)) (page_size : Z)
    : option (list (list T)) :=
  match fuel with
  | O => None
  | S fuel =>
      let '(items, next) := paginate all cursor page_size in
      match next with
      | None => Some [items]
      | Some c => (fun pages => items :: pages) <$> all_pages fuel all (Some c) page_size
      end
  end.

(** *** The page at an offset *)

Definition page_at all (page_size : nat) (offset : nat) : list T * option (list byte) :=
  (take page_size (drop offset all),
   if (offset + page_size <? length all)%nat
   then Some (base64_standard_encode (usize_to_string (Z.of_nat (offset + page_size)))) else None).

Lemma parse_usize_range s n : parse_usize s = Some n -> 0 <= n <= U64_MAX.
Proof.
  assert (Hd : forall s acc m, 0 <= acc <= U64_MAX -> parse_digits acc s = Some m -> 0 <= m <= U64_MAX).
  { clear. induction s as [|b s IH]; intros acc m Ha; simpl; [by intros [= <-]|].
    destruct (is_ascii_digit b) eqn:Eb; [|done]. unfold is_ascii_digit, in_range in Eb.
    destruct (Z.ltb_spec U64_MAX (acc * 10 + (b2z b - 48))); [done|]. apply IH. lia. }
  assert (Hz : 0 <= 0 <= U64_MAX) by (by vm_compute).
  unfold parse_usize. intros Hp. repeat case_match; simplify_eq; by eapply Hd.
Qed.

Lemma paginate_at all cursor page_size :
  0 <= page_size -> Z.of_nat (length all) <= U64_MAX ->
  exists offset, (offset <= length all)%nat /\
    offset = Nat.min (Z.to_nat (default 0 (cursor_offset cursor))) (length all) /\
    paginate all cursor page_size = page_at all (Z.to_nat page_size) offset.
Proof.
  intros Hp Hl. eexists. split; [|split; [reflexivity|] ]; [lia|].
  assert (Hc : 0 <= default 0 (cursor_offset cursor)).
  { destruct (cursor_offset cursor) as [n|] eqn:E; simpl; [|lia]. unfold cursor_offset in E.
    repeat case_match; try done. apply parse_usize_range in E. lia. }
  unfold paginate, page_at. generalize dependent (default 0 (cursor_offset cursor)). intros c Hc.
  set (o := Nat.min (Z.to_nat c) (length all)).
  replace (Z.min c (Z.of_nat (length all))) with (Z.of_nat o) by lia. rewrite Nat2Z.id.
  unfold saturating_add. f_equal.
  - destruct (decide (o + Z.to_nat page_size <= length all)%nat).
    + f_equal. lia.
    + rewrite !take_ge; [done|rewrite length_drop; lia..].
  - destruct (Nat.ltb_spec (o + Z.to_nat page_size) (length all)).
    + replace (Z.min _ _) with (Z.of_nat (o + Z.to_nat page_size)) by lia.
      by rewrite (proj2 (Z.ltb_lt _ _)) by lia.
    + by rewrite (proj2 (Z.ltb_ge _ _)) by lia.
Qed.

Context `{!Base64Laws}.

Lemma cursor_offset_next n : 0 <= n <= U64_MAX ->
  cursor_offset (Some (base64_standard_encode (usize_to_string n))) = Some n.
Proof.
  intros Hn. unfold cursor_offset. rewrite base64_roundtrip, utf8_valid_ascii; [by apply parse_usize_to_string|].
  eapply Forall_impl; [apply usize_to_string_digits|]. intros b Hb.
  unfold is_ascii_digit, in_range, is_ascii in *. lia.
Qed.

Lemma all_pages_from all page_size fuel : forall cursor offset,
  0 < page_size -> Z.of_nat (length all) <= U64_MAX ->
  Nat.min (Z.to_nat (default 0 (cursor_offset cursor))) (length all) = offset ->
  (length all - offset < fuel)%nat ->
  exists pages, all_pages fuel all cursor page_size = Some pages /\
    concat pages = drop offset all /\
    Forall (fun p => Z.of_nat (length p) = page_size) (removelast pages) /\
    Forall (fun p => Z.of_nat (length p) <= page_size) pages.
Proof.
  induction fuel as [|fuel IH]; intros cursor offset Hp Hl Ho Hf; [lia|]. cbn [all_pages].
  destruct (paginate_at all cursor page_size) as (o & Hol & Eo & ->); [lia..|].
  rewrite Ho in Eo. subst o. unfold page_at.
  assert (Hlen : Z.of_nat (length (take (Z.to_nat page_size) (drop offset all))) <= page_size)
    by (rewrite length_take; lia).
  destruct (Nat.ltb_spec (offset + Z.to_nat page_size) (length all)) as [Hlt|Hge].
  - destruct (IH (Some (base64_standard_encode (usize_to_string (Z.of_nat (offset + Z.to_nat page_size)))))
      (offset + Z.to_nat page_size)%nat) as (pages & -> & Hc & Hfull & Hle); [done|done| |lia|].
    { rewrite cursor_offset_next by lia. simpl. lia. }
    eexists. split; [done|]. split_and!.
    + cbn [concat]. rewrite Hc, <- drop_drop. apply take_drop.
    + destruct pages as [|q pages]; [done|]. cbn [removelast]. constructor; [|done].
      rewrite length_take, length_drop. lia.
    + by constructor.
  - eexists. split; [done|]. split_and!; [|done|by constructor].
    cbn [concat]. rewrite app_nil_r. apply take_ge. rewrite length_drop. lia.
Qed.

(** Whatever the cursor, a page is a contiguous piece of
    the listing of at most [page_size] items, and it has a next cursor exactly when
    items follow it; and a client that starts without a cursor and follows the
    cursors it is given reaches the end, with every item once and in order, on pages
    that are all full but the last. *)
Theorem pages_cover_the_listing all page_size :
  0 < page_size -> Z.of_nat (length all) <= U64_MAX ->
  (forall cursor, exists before after,
     all = before ++ fst (paginate all cursor page_size) ++ after /\
     Z.of_nat (length (fst (paginate all cursor page_size))) <= page_size /\
     (snd (paginate all cursor page_size) = None <-> after = [])) /\
  (exists pages, all_pages (S (length all)) all None page_size = Some pages /\
     concat pages = all /\
     Forall (fun p => Z.of_nat (length p) = page_size) (removelast pages) /\
     Forall (fun p => Z.of_nat (length p) <= page_size) pages).
Proof.
  intros Hp Hl. split.
  - intros cursor. destruct (paginate_at all cursor page_size) as (o & Ho & _ & ->); [lia..|].
    exists (take o all), (drop (o + Z.to_nat page_size) all). cbn [page_at fst snd]. split_and!.
    + by rewrite <- drop_drop, !take_drop.
    + rewrite length_take. lia.
    + destruct (Nat.ltb_spec (o + Z.to_nat page_size) (length all)); split; try done; intros E.
      * apply (f_equal length) in E. rewrite length_drop in E. simpl in E. lia.
      * apply drop_ge. lia.
  - apply (all_pages_from all page_size _ None 0); [done|done|simpl; lia|lia].
Qed.
End pagination.

Definition listed : list nat := [1; 2; 3; 4; 5]%nat.

Lemma pages_cover_the_listing_witness :
  all_pages 6 listed None 2 = Some [ [1; 2]; [3; 4]; [5] ]%nat /\
  exists pages, all_pages 6 listed None 2 = Some pages /\ concat pages = listed.
Proof.
  split; [vm_compute; reflexivity|].
  destruct (pages_cover_the_listing listed 2) as (_ & pages & Hp & Hc & _).
  - lia.
  - vm_compute. discriminate.
  - exists pages. split; [exact Hp|exact Hc].
Defined.
