(* ===== verification/OpenSettings.v ===== *)
(** * Resolving the settings of an open

    [OpenOverlay] and [ResolvedOpenSettings] of [src/tools/helpers.rs]: explicit
    fields over a profile's defaults over the built-in ones, the configuration for
    the hardware, and the way back from effective settings to profile defaults. *)

From S2P Require Import Prelude RustStr FramingConfig Profiles LogBuffer SerialConfig Connection Tools Resources.

(** ** Data *)

Record OpenOverlay := mkOverlay {
  ov_name : option (list byte);
  ov_baud_rate : option Z;
  ov_data_bits : option (list byte);
  ov_stop_bits : option (list byte);
  ov_parity : option (list byte);
  ov_flow_control : option (list byte);
  ov_log_capacity : option Z;
  ov_log_enabled : option bool;
  ov_reconnect_policy : option ReconnectPolicy;
  ov_tx_framing : option TxFramingConfig;
  ov_rx_framing : option RxFramingConfig;
  ov_rx_parser : option ParserConfig;
  ov_protocol : option ProtocolPreset;
  ov_rx_buffer_size : option Z;
  ov_max_buffered_bytes : option Z;
}.

(** [OpenOverlay::default], and the overlay of [from_open_profile_args]. *)
Definition overlay_default : OpenOverlay :=
  mkOverlay None None None None None None None None None None None None None None None.

Definition overlay_of_profile_args (name : option (list byte)) (log_capacity : option Z)
    (log_enabled : option bool) (rx_buffer_size : option Z) : OpenOverlay :=
  mkOverlay name None None None None None log_capacity log_enabled None None None None None
    rx_buffer_size None.

Record ResolvedOpenSettings := mkResolvedOpen {
  ro_port : list byte;
  ro_name : option (list byte);
  ro_baud_rate : Z;
  ro_data_bits : DataBits;
  ro_stop_bits : StopBits;
  ro_parity : Parity;
  ro_flow_control : FlowControl;
  ro_log_capacity : Z;
  ro_log_enabled : bool;
  ro_reconnect_policy : ReconnectPolicy;
  ro_tx_framing : option TxFramingConfig;
  ro_rx_framing : option RxFramingConfig;
  ro_rx_parser : option ParserConfig;
  ro_protocol : option ProtocolPreset;
  ro_rx_buffer_size : Z;
  ro_max_buffered_bytes : Z;
}.

(** [PartialEq for ResolvedOpenSettings]. *)
Definition resolved_eqb (a b : ResolvedOpenSettings) : bool :=
  bool_decide (ro_port a = ro_port b) && bool_decide (ro_name a = ro_name b)
  && (ro_baud_rate a =? ro_baud_rate b)
  && bool_decide (data_bits_to_str (ro_data_bits a) = data_bits_to_str (ro_data_bits b))
  && bool_decide (stop_bits_to_str (ro_stop_bits a) = stop_bits_to_str (ro_stop_bits b))
  && bool_decide (parity_to_str (ro_parity a) = parity_to_str (ro_parity b))
  && bool_decide (flow_control_to_str (ro_flow_control a) = flow_control_to_str (ro_flow_control b))
  && (ro_log_capacity a =? ro_log_capacity b) && Bool.eqb (ro_log_enabled a) (ro_log_enabled b)
  && policy_eqb (ro_reconnect_policy a) (ro_reconnect_policy b)
  && bool_decide (ro_tx_framing a = ro_tx_framing b) && bool_decide (ro_rx_framing a = ro_rx_framing b)
  && bool_decide (ro_rx_parser a = ro_rx_parser b) && bool_decide (ro_protocol a = ro_protocol b)
  && (ro_rx_buffer_size a =? ro_rx_buffer_size b)
  && (ro_max_buffered_bytes a =? ro_max_buffered_bytes b).

(** ** Resolution *)

Inductive OpenSettingsError :=
  | BadDataBits (text : list byte)
  | BadStopBits (text : list byte)
  | BadParity (text : list byte)
  | BadFlowControl (text : list byte)
  | BadRxBufferSize (e : ArgError).

(** [port.rsplit('/').next()]: what follows the last slash. *)
Fixpoint short_port_name (port : list byte) : list byte :=
  match port with
  | [] => []
  | b :: rest =>
      if bool_decide (SLASH ∈ rest) then short_port_name rest
      else if bool_decide (b = SLASH) then rest else b :: rest
  end.

(** [format!("{prefix}-{short}")]. *)
Definition expand_name (prefix port : list byte) : list byte :=
  prefix ++ DASH :: short_port_name port.

Definition MAX_RX_BUFFER_SIZE : Z := 16 * 1024 * 1024.

Definition validate_open_rx_buffer_size (size : Z) : result ArgError Z :=
  size ← require_min_or_err "open.rx_buffer_size" size 1;
  clamp_or_err "open.rx_buffer_size" size MAX_RX_BUFFER_SIZE.

(** [Option::or]. *)
Definition or_else {A} (a b : option A) : option A := match a with Some _ => a | None => b end.

(** [ResolvedOpenSettings::resolve]. *)
Definition resolve (port : list byte) (overlay : OpenOverlay) (profile_defaults : option ProfileDefaults)
    : result OpenSettingsError ResolvedOpenSettings :=
  let base := default ProfileDefaults_default profile_defaults in
  let name :=
    match ov_name overlay with
    | Some n => Some n
    | None => (fun prefix => expand_name prefix port) <$> pd_name base
    end in
  data_bits ← map_err BadDataBits (data_bits_from_str (default (pd_data_bits base) (ov_data_bits overlay)));
  stop_bits ← map_err BadStopBits (stop_bits_from_str (default (pd_stop_bits base) (ov_stop_bits overlay)));
  parity ← map_err BadParity (parity_from_str (default (pd_parity base) (ov_parity overlay)));
  flow_control ←
    map_err BadFlowControl (flow_control_from_str (default (pd_flow_control base) (ov_flow_control overlay)));
  rx_buffer_size ←
    map_err BadRxBufferSize
      (validate_open_rx_buffer_size (default (pd_rx_buffer_size base) (ov_rx_buffer_size overlay)));
  Ok (mkResolvedOpen port name (default (pd_baud_rate base) (ov_baud_rate overlay))
        data_bits stop_bits parity flow_control
        (default (pd_log_capacity base) (ov_log_capacity overlay))
        (default (pd_log_enabled base) (ov_log_enabled overlay))
        (default (pd_reconnect_policy base) (ov_reconnect_policy overlay))
        (or_else (ov_tx_framing overlay) (pd_tx_framing base))
        (or_else (ov_rx_framing overlay) (pd_rx_framing base))
        (or_else (ov_rx_parser overlay) (pd_rx_parser base))
        (or_else (ov_protocol overlay) (pd_protocol base))
        rx_buffer_size
        (default (pd_max_buffered_bytes base) (ov_max_buffered_bytes overlay))).

(** [from_profile]. *)
Definition from_profile (port : list byte) (p : Profile) : result OpenSettingsError ResolvedOpenSettings :=
  resolve port overlay_default (Some (p_defaults p)).

Definition into_connection_config (r : ResolvedOpenSettings) (port_info : option PortInfo)
    : ConnectionConfig :=
  mkConfig (ro_port r) (ro_name r)
    (mkSettings (ro_baud_rate r) (ro_data_bits r) (ro_stop_bits r) (ro_parity r) (ro_flow_control r))
    port_info (Z.to_nat (ro_log_capacity r)) (ro_log_enabled r)
    (mkCallDefaults (ro_tx_framing r) (ro_rx_framing r) (ro_rx_parser r) (ro_protocol r)
       (ro_max_buffered_bytes r))
    (ro_rx_buffer_size r).

Definition as_profile_defaults (r : ResolvedOpenSettings) : ProfileDefaults :=
  mkDefaults (ro_baud_rate r) (data_bits_to_str (ro_data_bits r)) (stop_bits_to_str (ro_stop_bits r))
    (parity_to_str (ro_parity r)) (flow_control_to_str (ro_flow_control r)) (ro_name r)
    (ro_tx_framing r) (ro_rx_framing r) (ro_rx_parser r) (ro_protocol r) (ro_rx_buffer_size r)
    (ro_max_buffered_bytes r) (ro_reconnect_policy r) (ro_log_capacity r) (ro_log_enabled r).

(** [profile_only_differs] of [port_ops.rs]. *)
Definition profile_only_differs (r : ResolvedOpenSettings) (p : Profile)
    : result OpenSettingsError bool :=
  profile_only ← from_profile (ro_port r) p; Ok (negb (resolved_eqb r profile_only)).

(** [parse_open_args]. *)
Definition parse_open_args (port : list byte) (overlay : OpenOverlay)
    : result OpenSettingsError ConnectionConfig :=
  r ← resolve port overlay None; Ok (into_connection_config r None).

(** ** Lemmas *)

Lemma validate_open_ok n m : validate_open_rx_buffer_size n = Ok m <->
  m = n /\ 1 <= n <= MAX_RX_BUFFER_SIZE.
Proof.
  unfold validate_open_rx_buffer_size, require_min_or_err, clamp_or_err.
  destruct (Z.ltb_spec n 1); cbn [mbind result_bind]; [split; [done|lia]|].
  destruct (Z.ltb_spec MAX_RX_BUFFER_SIZE n); [split; [done|lia]|].
  split; [intros [= <-]; lia|by intros [-> _] ].
Qed.

(** The two directions of [resolve]: what a success consists of. *)
Lemma resolve_ok port o d r : let base := default ProfileDefaults_default d in
  resolve port o d = Ok r <->
  data_bits_from_str (default (pd_data_bits base) (ov_data_bits o)) = Ok (ro_data_bits r) /\
  stop_bits_from_str (default (pd_stop_bits base) (ov_stop_bits o)) = Ok (ro_stop_bits r) /\
  parity_from_str (default (pd_parity base) (ov_parity o)) = Ok (ro_parity r) /\
  flow_control_from_str (default (pd_flow_control base) (ov_flow_control o)) = Ok (ro_flow_control r) /\
  1 <= ro_rx_buffer_size r <= MAX_RX_BUFFER_SIZE /\
  r = mkResolvedOpen port
        match ov_name o with
        | Some n => Some n
        | None => (fun prefix => expand_name prefix port) <$> pd_name base
        end (default (pd_baud_rate base) (ov_baud_rate o))
        (ro_data_bits r) (ro_stop_bits r) (ro_parity r) (ro_flow_control r)
        (default (pd_log_capacity base) (ov_log_capacity o))
        (default (pd_log_enabled base) (ov_log_enabled o))
        (default (pd_reconnect_policy base) (ov_reconnect_policy o))
        (or_else (ov_tx_framing o) (pd_tx_framing base))
        (or_else (ov_rx_framing o) (pd_rx_framing base))
        (or_else (ov_rx_parser o) (pd_rx_parser base))
        (or_else (ov_protocol o) (pd_protocol base))
        (default (pd_rx_buffer_size base) (ov_rx_buffer_size o))
        (default (pd_max_buffered_bytes base) (ov_max_buffered_bytes o)).
Proof.
  intros base. unfold resolve. fold base. split.
  - intros (db & Hd%map_err_ok & H)%result_bind_ok. apply result_bind_ok in H as (sb & Hs%map_err_ok & H).
    apply result_bind_ok in H as (pa & Hp%map_err_ok & H).
    apply result_bind_ok in H as (fl & Hf%map_err_ok & H).
    apply result_bind_ok in H as (rx & Hr%map_err_ok & H).
    apply validate_open_ok in Hr as [-> Hr]. injection H as <-. done.
  - intros (Hd & Hs & Hp & Hf & Hr & E). rewrite E in Hr. cbn [ro_rx_buffer_size] in Hr.
    rewrite Hd, Hs, Hp, Hf. cbn [map_err mbind result_bind].
    rewrite (proj2 (validate_open_ok _ _) (conj eq_refl Hr)). cbn [map_err mbind result_bind].
    by rewrite E at 5.
Qed.

(** ** Settings survive as profile defaults *)

(** The overlay that only names the connection. *)
Definition overlay_named (name : option (list byte)) : OpenOverlay :=
  overlay_of_profile_args name None None None.

Definition with_name (r : ResolvedOpenSettings) (name : option (list byte)) : ResolvedOpenSettings :=
  mkResolvedOpen (ro_port r) name (ro_baud_rate r) (ro_data_bits r) (ro_stop_bits r) (ro_parity r)
    (ro_flow_control r) (ro_log_capacity r) (ro_log_enabled r) (ro_reconnect_policy r)
    (ro_tx_framing r) (ro_rx_framing r) (ro_rx_parser r) (ro_protocol r) (ro_rx_buffer_size r)
    (ro_max_buffered_bytes r).

(** [*connection.reconnect_policy.lock() = policy]. *)
Definition with_policy (c : SerialConnection) (policy : ReconnectPolicy) : SerialConnection :=
  mkConn (sc_identity c) (sc_settings c) (sc_defaults c) policy (sc_profile c) (sc_io c)
    (sc_close_token c) (sc_closed c) (sc_state c) (sc_last_error c) (sc_counters c) (sc_log c).

(** The connection an open with settings [r] makes. *)
Definition opened_connection (now : Z) (id : list byte) (r : ResolvedOpenSettings)
    (port_info : option PortInfo) (io : Device) : SerialConnection :=
  with_policy (from_io_with_config now id (into_connection_config r port_info) io) (ro_reconnect_policy r).

(** What the name becomes when only the defaults of a session are left. *)
Definition reopened_name (r : ResolvedOpenSettings) : option (list byte) :=
  (fun prefix => expand_name prefix (ro_port r)) <$> ro_name r.

Lemma or_else_none {A} (o : option A) : or_else None o = o.
Proof. done. Qed.

Lemma record_settings l now dir ev :
  log_capacity (record l now dir ev) = log_capacity l /\ enabled (record l now dir ev) = enabled l.
Proof. unfold record. by destruct (enabled l) eqn:E; cbn [negb log_capacity enabled]. Qed.

Lemma resolve_learned port name r : 1 <= ro_rx_buffer_size r <= MAX_RX_BUFFER_SIZE -> ro_port r = port ->
  resolve port (overlay_named name) (Some (as_profile_defaults r)) =
  Ok (with_name r (or_else name (reopened_name r))).
Proof.
  intros Hr <-. apply resolve_ok. destruct serial_parameters_roundtrip as (Hd & Hs & Hp & Hf).
  cbn [default as_profile_defaults pd_data_bits pd_stop_bits pd_parity pd_flow_control overlay_named
    overlay_of_profile_args ov_data_bits ov_stop_bits ov_parity ov_flow_control with_name ro_data_bits
    ro_stop_bits ro_parity ro_flow_control ro_rx_buffer_size].
  split_and!; [apply Hd|apply Hs|apply Hp|apply Hf|lia|lia|]. by destruct name.
Qed.

Lemma effective_of_opened now id r port_info io : 0 <= ro_log_capacity r ->
  effective_defaults (opened_connection now id r port_info io) = as_profile_defaults r.
Proof.
  intros Hlog. unfold effective_defaults, opened_connection, from_io_with_config, opened. cbn.
  destruct (record_settings (log_new (Z.to_nat (ro_log_capacity r)) (ro_log_enabled r)) now None Open)
    as [-> ->]. cbn [log_new log_capacity enabled]. by rewrite Z2Nat.id by done.
Qed.

(** The settings in force on a connection. *)
Definition settings_of (c : SerialConnection) : ResolvedOpenSettings :=
  let s := sc_settings c in let d := sc_defaults c in
  mkResolvedOpen (sc_port (sc_identity c)) (sc_name (sc_identity c)) (ss_baud_rate s) (ss_data_bits s)
    (ss_stop_bits s) (ss_parity s) (ss_flow_control s) (Z.of_nat (log_capacity (sc_log c)))
    (enabled (sc_log c)) (sc_policy c) (cd_tx_framing d) (cd_rx_framing d) (cd_rx_parser d)
    (cd_protocol d) (sc_rx_buffer_size (sc_identity c)) (cd_max_buffered_bytes d).

Lemma effective_settings c : effective_defaults c = as_profile_defaults (settings_of c).
Proof. done. Qed.

(** Settings that resolve have a ring size between 1
    byte and 16 MiB; the connection opened with them has exactly them as its effective
    defaults, the ones a generated profile gets and learning writes; and opening from
    those defaults gives the same settings again, when the caller repeats the name.
    Without a name, only the name changes: the port's short name is appended to it
    once more. *)
Theorem settings_survive_as_profile port overlay defaults r now id port_info io :
  resolve port overlay defaults = Ok r -> 0 <= ro_log_capacity r ->
  1 <= ro_rx_buffer_size r <= MAX_RX_BUFFER_SIZE /\
  effective_defaults (opened_connection now id r port_info io) = as_profile_defaults r /\
  resolve port (overlay_named (ro_name r)) (Some (as_profile_defaults r)) = Ok r /\
  resolve port overlay_default (Some (as_profile_defaults r)) = Ok (with_name r (reopened_name r)).
Proof.
  intros Hr Hlog. apply resolve_ok in Hr as (_ & _ & _ & _ & Hrx & E).
  assert (Hport : ro_port r = port) by (by rewrite E). clear E. split_and!; [lia|lia|..].
  - by apply effective_of_opened.
  - rewrite resolve_learned by done. unfold reopened_name. destruct r as [? [] ]; reflexivity.
  - by apply (resolve_learned port None).
Qed.

(** A profile whose name is a prefix: the name of its connections grows by the
    port's short name whenever the effective defaults are learned. *)
Definition tty : list byte := bs "/dev/ttyUSB0".
Definition prefixed : ProfileDefaults :=
  as_profile_defaults (mkResolvedOpen tty (Some (bs "gps")) 9600 DEight SOne PNone FNone 16 true
    ReconnectPolicy_default None None None None 1024 512).

Example learned_name_grows :
  exists r1 r2, resolve tty overlay_default (Some prefixed) = Ok r1 /\
    ro_name r1 = Some (bs "gps-ttyUSB0") /\
    resolve tty overlay_default (Some (as_profile_defaults r1)) = Ok r2 /\
    ro_name r2 = Some (bs "gps-ttyUSB0-ttyUSB0").
Proof. do 2 eexists. repeat split; vm_compute; reflexivity. Qed.

Lemma settings_survive_as_profile_witness :
  let r := mkResolvedOpen tty (Some (bs "gps-ttyUSB0")) 9600 DEight SOne PNone FNone 16 true
             ReconnectPolicy_default None None None None 1024 512 in
  resolve tty overlay_default (Some prefixed) = Ok r /\ 0 <= ro_log_capacity r /\
  resolve tty (overlay_named (ro_name r)) (Some (as_profile_defaults r)) = Ok r.
Proof.
  set (r := mkResolvedOpen tty (Some (bs "gps-ttyUSB0")) 9600 DEight SOne PNone FNone 16 true
             ReconnectPolicy_default None None None None 1024 512).
  assert (E : resolve tty overlay_default (Some prefixed) = Ok r) by (vm_compute; reflexivity).
  assert (Hl : 0 <= ro_log_capacity r) by (vm_compute; discriminate).
  split; [exact E|]. split; [exact Hl|].
  apply (settings_survive_as_profile tty overlay_default (Some prefixed) r 0 (bs "id") None a_device E Hl).
Defined.
