(* ===== verification/PortPlan.v ===== *)
(** * The profile session of an open, and its preview

    [src/tools/port_ops.rs]: what [list_ports] announces for every port, and what a
    bare [open] decides before it touches the hardware. *)

From stdpp Require Import sorting.
From S2P Require Import Prelude RustStr Extern ExternModel FramingConfig Profiles ProfileStore PortWatcher.

#[export] Instance HighIdentity_eq_dec : EqDecision HighIdentity.
Proof. solve_decision. Defined.

#[export] Instance IdentityConfidence_eq_dec : EqDecision IdentityConfidence.
Proof. solve_decision. Defined.

(** ** The preview *)

Inductive ProfileMatchOutcome := PmSelected | PmAmbiguous | PmIneligible | PmDuplicate | PmNone.

Record ProfileMatchCandidate := mkCandidate {
  pc_profile_name : list byte;
  pc_generated : bool;
  pc_revision : Z;
  pc_last_used_at_ms : option Z;
}.

Record PortProfileMatch := mkMatch {
  pm_port : list byte;
  pm_confidence : IdentityConfidence;
  pm_outcome : ProfileMatchOutcome;
  pm_selected_profile : option (list byte);
  pm_candidates : list ProfileMatchCandidate;
}.

Definition candidate_of (p : Profile) : ProfileMatchCandidate :=
  let m := p_metadata p in
  mkCandidate (p_name p) (pm_generated m) (pm_revision m) (pm_last_used_at_ms m).

(** [candidates.sort_by(|a, b| a.profile_name.cmp(&b.profile_name))]. *)
Definition candidate_le (a b : ProfileMatchCandidate) : Prop :=
  cmp_str (pc_profile_name a) (pc_profile_name b) <> Gt.

#[export] Instance candidate_le_dec a b : Decision (candidate_le a b).
Proof. unfold candidate_le. solve_decision. Defined.

(** The display order of [ranked_profile_match]: newest first, then by name. *)
Definition display_le (a b : Profile) : Prop :=
  then_with (Z.compare (last_used b) (last_used a)) (cmp_str (p_name a) (p_name b)) <> Gt.

#[export] Instance display_le_dec a b : Decision (display_le a b).
Proof. unfold display_le. solve_decision. Defined.

(** The entry of [high_counts] for an identity. *)
Definition high_count (ports : list PortInfo) (identity : HighIdentity) : nat :=
  length (filter (fun p => high_identity p = Some identity) ports).

(** [ranked_profile_match], for a list of candidates that is not empty. *)
Definition ranked_profile_match (port : PortInfo) (confidence : IdentityConfidence)
    (eligible : list Profile) : PortProfileMatch :=
  let ranked := rank_candidates eligible in
  let candidates := candidate_of <$> merge_sort display_le ranked in
  let '(selected, outcome) :=
    match ranked with
    | [top] => (Some (p_name top), PmSelected)
    | top :: next :: _ =>
        if negb (last_used top =? last_used next) then (Some (p_name top), PmSelected)
        else (None, PmAmbiguous)
    | [] => (None, PmNone)
    end in
  mkMatch (pi_name port) confidence outcome selected candidates.

Section Plan.
Context `{GlobCrate}.

Definition weak_identity_profile_match (port : PortInfo) (confidence : IdentityConfidence)
    (profiles : list Profile) : PortProfileMatch :=
  let candidates :=
    merge_sort candidate_le
      (candidate_of <$>
         filter (fun p => negb (selector_is_empty (p_selector p)) && matches p port = true) profiles) in
  mkMatch (pi_name port) confidence
    (match candidates with [] => PmNone | _ => PmIneligible end) None candidates.

(** The closure of [compute_profile_matches]. *)
Definition profile_match (ports : list PortInfo) (profiles : list Profile) (port : PortInfo)
    : PortProfileMatch :=
  let confidence := identity_confidence port in
  match high_identity port with
  | None => weak_identity_profile_match port confidence profiles
  | Some identity =>
      let duplicated := (1 <? high_count ports identity)%nat in
      let eligible := auto_candidates profiles port identity in
      if duplicated then mkMatch (pi_name port) confidence PmDuplicate None []
      else
        match eligible with
        | [] => mkMatch (pi_name port) confidence PmNone None []
        | _ => ranked_profile_match port confidence eligible
        end
  end.

Definition compute_profile_matches (ports : list PortInfo) (profiles : list Profile)
    : list PortProfileMatch :=
  profile_match ports profiles <$> ports.

Context `{TomlCrate}.

(** [list_fresh]. *)
Definition list_fresh (io : IoFaults) (file : option TomlText) (s : ProfileStore)
    : result StoreError (list Profile) * ProfileStore :=
  run_read (fun profiles => Ok profiles) io file s.

Inductive ListPortsError := LpEnumerate (text : list byte) | LpProfiles (e : StoreError).

(** [list_ports]; the count is the length. *)
Definition list_ports (enumerated : result (list byte) (list PortInfo)) (io : IoFaults)
    (file : option TomlText) (s : ProfileStore)
    : result ListPortsError (list PortInfo * list PortProfileMatch) * ProfileStore :=
  match enumerated with
  | Err e => (Err (LpEnumerate e), s)
  | Ok ports =>
      let '(r, s) := list_fresh io file s in
      (profiles ← map_err LpProfiles r; Ok (ports, compute_profile_matches ports profiles), s)
  end.

(** ** The plan *)

Inductive ProfileMode := ModeAuto | ModeNone.

Inductive SessionPlan :=
  | PlanDisabled (confidence : IdentityConfidence)
  | PlanTransient (confidence : IdentityConfidence) (candidates : list (list byte))
  | PlanSelected (profile : Profile)
  | PlanExplicit (profile : Profile)
  | PlanGenerate.

(** [ProfileStore::resolve_automatic]. *)
Definition store_resolve_automatic (target : PortInfo) (io : IoFaults) (file : option TomlText)
    (s : ProfileStore) : result StoreError AutomaticResolution * ProfileStore :=
  match high_identity target with
  | None => (Err NoHighIdentity, s)
  | Some identity => run_read (fun profiles => Ok (resolve_candidates profiles target identity)) io file s
  end.

Definition confidence_of (port_info : option PortInfo) : IdentityConfidence :=
  default ConfNone (identity_confidence <$> port_info).

Definition plan_session (mode : option ProfileMode) (port_info : option PortInfo)
    (live_ports : list PortInfo) (io : IoFaults) (file : option TomlText) (s : ProfileStore)
    : result StoreError SessionPlan * ProfileStore :=
  let confidence := confidence_of port_info in
  match mode with
  | Some ModeNone => (Ok (PlanDisabled confidence), s)
  | _ =>
      match port_info with
      | None => (Ok (PlanTransient confidence []), s)
      | Some port =>
          match high_identity port with
          | None => (Ok (PlanTransient confidence []), s)
          | Some identity =>
              if (1 <? high_count live_ports identity)%nat
              then (Ok (PlanTransient ConfHigh []), s)
              else
                let '(r, s) := store_resolve_automatic port io file s in
                (resolution ← r;
                 Ok (match ar_selected resolution with
                     | Some profile => PlanSelected profile
                     | None =>
                         if ar_ambiguous resolution
                         then PlanTransient ConfHigh (ar_candidates resolution) else PlanGenerate
                     end), s)
          end
      end
  end.

(** [live_ports.iter().find(|p| p.name == port)]. *)
Definition find_port (ports : list PortInfo) (name : list byte) : option PortInfo :=
  snd <$> list_find (fun p => pi_name p = name) ports.

(** ** The preview announces the plan *)

(** What each outcome says about a bare open. *)
Definition announces (m : PortProfileMatch) (plan : SessionPlan) : Prop :=
  match pm_outcome m with
  | PmSelected => exists p, plan = PlanSelected p /\ pm_selected_profile m = Some (p_name p)
  | PmAmbiguous => exists names, plan = PlanTransient ConfHigh names /\ names <> [] /\
      names ≡ₚ pc_profile_name <$> pm_candidates m
  | PmDuplicate => plan = PlanTransient ConfHigh []
  | PmIneligible => pm_confidence m <> ConfHigh /\ plan = PlanTransient (pm_confidence m) []
  | PmNone =>
      if bool_decide (pm_confidence m = ConfHigh) then plan = PlanGenerate
      else plan = PlanTransient (pm_confidence m) []
  end.

Lemma high_identity_confidence port :
  is_some (high_identity port) = true <-> identity_confidence port = ConfHigh.
Proof.
  unfold high_identity, identity_confidence.
  destruct (pi_transport port); cbn; try (split; [done|by repeat case_match]).
  destruct (pi_vid port), (pi_pid port); cbn; try (split; [done|by repeat case_match]).
  by destruct (non_empty (pi_serial_number port)).
Qed.

Lemma run_read_again {T} (compute : list Profile -> result StoreError T) io file s ps s' :
  list_fresh io file s = (Ok ps, s') -> run_read compute io file s' = (compute ps, s').
Proof.
  unfold list_fresh, run_read. destruct (st_persistent s) eqn:Ep; [|intros [= <- <-]; by rewrite Ep].
  destruct (io_lock io); [done|]. destruct (load_validated file (io_read io)); [|done].
  intros [= <- <-]. done.
Qed.

Lemma ranked_announces port eligible confidence id profiles :
  auto_candidates profiles port id = eligible -> eligible <> [] ->
  announces (ranked_profile_match port confidence eligible)
    (let resolution := resolve_candidates profiles port id in
     match ar_selected resolution with
     | Some profile => PlanSelected profile
     | None =>
         if ar_ambiguous resolution
         then PlanTransient ConfHigh (ar_candidates resolution) else PlanGenerate
     end).
Proof.
  intros He Hne. unfold resolve_candidates, ranked_profile_match. rewrite He.
  pose proof (rank_candidates_perm eligible) as Hperm.
  destruct eligible as [|p [|q l] ]; [done| |]; cbv zeta.
  - cbn. by exists p.
  - set (cands := p :: q :: l) in *.
    pose proof (merge_sort_Permutation display_le (rank_candidates cands)) as Hm.
    destruct (rank_candidates cands) as [|top [|next rest] ] eqn:Er.
    + by apply Permutation_length in Hperm.
    + by apply Permutation_length in Hperm.
    + destruct (last_used top =? last_used next); cbn [negb ar_selected ar_ambiguous ar_candidates].
      * exists (p_name <$> cands). split_and!; [done|done|]. cbn [pm_candidates].
        rewrite <- list_fmap_compose.
        transitivity (p_name <$> merge_sort display_le (top :: next :: rest)); [|done].
        by rewrite Hm, Hperm.
      * by exists top.
Qed.

Lemma match_port ports ps p : pm_port (profile_match ports ps p) = pi_name p.
Proof. unfold profile_match, ranked_profile_match. by repeat case_match. Qed.

Lemma plan_announced ports io file s ps s' port mode :
  list_fresh io file s = (Ok ps, s') -> mode <> Some ModeNone ->
  exists plan, plan_session mode (Some port) ports io file s' = (Ok plan, s') /\
    announces (profile_match ports ps port) plan.
Proof.
  intros Hfresh Hmode. unfold plan_session.
  replace (match mode with Some ModeNone => _ | _ => _ end) with
    (match high_identity port with
     | None => (Ok (PlanTransient (identity_confidence port) []), s')
     | Some identity =>
         if (1 <? high_count ports identity)%nat
         then (Ok (PlanTransient ConfHigh []), s')
         else
           let '(r, s) := store_resolve_automatic port io file s' in
           (resolution ← r;
            Ok (match ar_selected resolution with
                | Some profile => PlanSelected profile
                | None =>
                    if ar_ambiguous resolution
                    then PlanTransient ConfHigh (ar_candidates resolution) else PlanGenerate
                end), s)
     end) by (by destruct mode as [ [] |]).
  pose proof (high_identity_confidence port) as Hconf. unfold store_resolve_automatic.
  destruct (high_identity port) as [identity|] eqn:Hid.
  - assert (Hc : identity_confidence port = ConfHigh) by (by apply Hconf).
    rewrite (run_read_again _ _ _ _ _ _ Hfresh).
    destruct (1 <? high_count ports identity)%nat eqn:Hdup.
    + eexists. split; [done|].
      unfold profile_match. by rewrite Hid, Hdup.
    + eexists. split; [done|].
      unfold profile_match. rewrite Hid, Hdup, Hc.
      destruct (auto_candidates ps port identity) as [|p l] eqn:He.
      * unfold resolve_candidates. by rewrite He.
      * by apply ranked_announces.
  - assert (Hc : identity_confidence port <> ConfHigh) by (by intros E%Hconf).
    eexists. split; [done|].
    unfold profile_match. rewrite Hid. unfold weak_identity_profile_match, announces.
    destruct (merge_sort _ _); cbn [pm_outcome pm_confidence]; [|done].
    by rewrite bool_decide_eq_false_2.
Qed.

(** C36: the preview of [list_ports] announces what a bare open
    of the port then decides, as long as ports and profiles stay as they are:
    [selected] is followed by the selection of that very profile, [ambiguous] by a
    transient session with the announced candidates, [duplicate] by a transient
    session without, [ineligible] and, for a weak identity, [none] by a transient
    session, and [none] for a high-confidence identity by a generated profile.  The
    matches are in the order of the ports. *)
Theorem preview_announces_open ports io file s ps s' shown matches_ port mode :
  list_fresh io file s = (Ok ps, s') ->
  list_ports (Ok ports) io file s = (Ok (shown, matches_), s') ->
  find_port ports (pi_name port) = Some port -> mode <> Some ModeNone ->
  shown = ports /\ pm_port <$> matches_ = pi_name <$> ports /\
  exists m plan, m ∈ matches_ /\ pm_port m = pi_name port /\
    plan_session mode (find_port shown (pi_name port)) shown io file s' = (Ok plan, s') /\
    announces m plan.
Proof.
  intros Hfresh Hlist Hport Hmode. unfold list_ports in Hlist. rewrite Hfresh in Hlist.
  injection Hlist as <- <-. split; [done|]. split.
  { unfold compute_profile_matches. rewrite <- list_fmap_compose. apply list_fmap_ext. intros i p _. apply match_port. }
  assert (Hin : port ∈ ports).
  { unfold find_port in Hport. apply fmap_Some in Hport as ( [i p] & (Hl & _)%list_find_Some & ->).
    by eapply list_elem_of_lookup_2. }
  destruct (plan_announced ports io file s ps s' port mode Hfresh Hmode) as (plan & Hplan & Ha).
  exists (profile_match ports ps port), plan. rewrite Hport.
  split; [by apply list_elem_of_fmap_2|]. split; [|done]. rewrite match_port.
  unfold find_port in Hport. apply fmap_Some in Hport as ( [i p] & (_ & Hn & _)%list_find_Some & ->). done.
Qed.
End Plan.
