(* ===== verification/PortTools.v ===== *)
(** * The connection and profile tools

    [src/tools/port_ops.rs]: opening, closing and reconfiguring connections, and
    saving, configuring, deleting and rolling back profiles.  Each handler is one
    function on the process's state, composed of the registry, the connection, the
    RX sessions, the profile store and the learning as the code composes them.  What
    the outside decides is an argument: the enumerated ports, the fresh id, the
    device, the clock, and the I/O faults of every file transaction. *)

From S2P Require Import Prelude RustStr Extern ExternModel FramingConfig RxRing BufferBudget LogBuffer RxConsume Tools RxSession Profiles ProfileStore Learning SerialConfig Connection Manager OpenSettings PortPlan.

(** [format!("usb-{vid:04x}-{pid:04x}")], for 16-bit numbers. *)
Definition hex4 (z : Z) : list byte :=
  [hex_char false (z / 4096 mod 16); hex_char false (z / 256 mod 16);
   hex_char false (z / 16 mod 16); hex_char false (z mod 16)].

Definition generated_label (port_info : option PortInfo) : list byte :=
  match port_info with
  | Some p =>
      match non_empty (pi_product p), non_empty (pi_manufacturer p), pi_vid p, pi_pid p with
      | Some product, _, _, _ => product
      | None, Some mfr, _, _ => mfr
      | None, None, Some vid, Some pid => bs "usb-" ++ hex4 vid ++ DASH :: hex4 pid
      | _, _, _, _ => bs "serial-device"
      end
  | None => bs "serial-device"
  end.

(** ** Bindings *)

Definition disabled_binding (confidence : IdentityConfidence) : ActiveProfileBinding :=
  mkBinding [] SrcDisabled confidence false false None false false [] None.

Definition transient_binding (confidence : IdentityConfidence) (candidates : list (list byte))
    (persistence_error : option (list byte)) : ActiveProfileBinding :=
  mkBinding [] SrcTransient confidence false false None false false candidates persistence_error.

Definition persistent_binding (profile : Profile) (source : ProfileSelectionSource)
    (confidence : IdentityConfidence) (dirty : bool) (persistence_error : option (list byte))
    : ActiveProfileBinding :=
  mkBinding (p_name profile) source confidence true (pm_generated (p_metadata profile))
    (Some (pm_revision (p_metadata profile))) dirty false [] persistence_error.

(** The errors of the tools. *)
Inductive PortError :=
  | PeNotAllowed (port summary : list byte)
  | PeSettings (e : OpenSettingsError)
  | PeSerial (e : SerialError)
  | PeSession (e : RxSessionError)
  | PeNoIdentity
  | PeEnumerate (text : list byte)
  | PeStore (e : StoreError)
  | PeUnknownConnection (id : list byte)
  | PeUnknownProfile (name : list byte)
  | PeNoPort (profile : list byte)
  | PeManyPorts (profile : list byte) (ports : list (list byte))
  | PeOneTarget
  | PeNoPortInfo (id : list byte)
  | PeBound (profile : list byte) (ids : list (list byte)).

Section PortTools.
Context `{GlobCrate} `{TomlCrate}.

(** The path of the profile file, which appears in error texts. *)
Context (path : list byte).

(** ** The state of the process *)

(** The registry, the connection objects by id, the RX sessions, and the profile
    file with this process's store. *)
Record Server := mkServer {
  sv_registry : ConnectionRegistry;
  sv_conns : gmap (list byte) SerialConnection;
  sv_rx : SessionSys;
  sv_file : option TomlText;
  sv_store : ProfileStore;
}.

Definition set_registry (s : Server) (r : ConnectionRegistry) : Server :=
  mkServer r (sv_conns s) (sv_rx s) (sv_file s) (sv_store s).
Definition set_conn (s : Server) (id : list byte) (c : SerialConnection) : Server :=
  mkServer (sv_registry s) (<[id := c]> (sv_conns s)) (sv_rx s) (sv_file s) (sv_store s).
Definition set_rx (s : Server) (m : RxSessionManager AtomicB.AtomicBudget) : Server :=
  mkServer (sv_registry s) (sv_conns s) (mkSessionSys m (ss_tools (sv_rx s))) (sv_file s) (sv_store s).
Definition set_profiles (s : Server) (file : option TomlText) (store : ProfileStore) : Server :=
  mkServer (sv_registry s) (sv_conns s) (sv_rx s) file store.

(** [ConnectionManager::get], and [lookup_connection] of the tools. *)
Definition server_get (s : Server) (id : list byte) : result SerialError SerialConnection :=
  _ ← manager_get (sv_registry s) id;
  ok_or (sv_conns s !! id) (ConnectionNotFound id).

Definition lookup (s : Server) (id : list byte) : result PortError SerialConnection :=
  map_err (fun _ => PeUnknownConnection id) (server_get s id).

(** What one open draws from the outside. *)
Record OpenEnv := mkEnv {
  oe_now : Z;
  oe_id : list byte;
  oe_build_stream : ConnectionConfig -> result SerialError Device;
  oe_pump_task : nat;
  oe_attach_io : IoFaults;
  oe_learn_io : IoFaults;
}.

(** [ConnectionManager::open]; a failed opener gives the reservation back. *)
Definition manager_open (e : OpenEnv) (config : ConnectionConfig) (s : Server)
    : result SerialError (list byte) * Server :=
  let port := cc_port config in
  match open_begin (sv_registry s) port with
  | Err err => (Err err, s)
  | Ok reg =>
      match connection_open (oe_now e) (oe_id e) config (oe_build_stream e) with
      | Err err => (Err err, set_registry s (release_reservation reg port))
      | Ok c =>
          let id := sc_id (sc_identity c) in
          (Ok id, set_conn (set_registry s (open_finish reg port (sc_identity c))) id c)
      end
  end.

(** ** Learning on a connection *)

Definition learn_conn (operation : ProfilePersistenceOperation) (io : IoFaults) (now : Z)
    (id : list byte) (c : SerialConnection) (s : Server)
    : option ProfileSessionResult * ProfilePersistenceResult * Server :=
  let '(session, res, file, store, binding) :=
    learn path io now (sv_file s) (sv_store s) (sc_profile c) (effective_defaults c) operation in
  (session, res, set_conn (set_profiles s file store) id (with_profile c binding)).

(** ** Opening *)

(** [mark_used_binding]. *)
Definition mark_used_binding (io : IoFaults) (now : Z) (profile : Profile)
    (source : ProfileSelectionSource) (confidence : IdentityConfidence) (dirty : bool)
    (file : option TomlText) (store : ProfileStore)
    : ActiveProfileBinding * option TomlText * ProfileStore :=
  let '(r, file, store) :=
    run_mutation (fun ps now => apply_mark_used ps (p_name profile) now) io now file store in
  (match r with
   | Ok used => persistent_binding used source confidence dirty None
   | Err e => persistent_binding profile source confidence dirty (Some (store_error_text path e))
   end, file, store).

(** [attach_session_binding], up to the assignment to the connection. *)
Definition session_binding (io : IoFaults) (now : Z) (plan : SessionPlan)
    (resolved : ResolvedOpenSettings) (port_info : option PortInfo) (dirty : option bool)
    (file : option TomlText) (store : ProfileStore)
    : result PortError ActiveProfileBinding * option TomlText * ProfileStore :=
  let confidence := confidence_of port_info in
  let ok (r : ActiveProfileBinding * option TomlText * ProfileStore) :=
    let '(b, file, store) := r in (@Ok PortError _ b, file, store) in
  match plan with
  | PlanDisabled confidence => (Ok (disabled_binding confidence), file, store)
  | PlanTransient confidence candidates =>
      (Ok (transient_binding confidence candidates None), file, store)
  | PlanSelected profile =>
      ok (mark_used_binding io now profile SrcAutomatic ConfHigh (default false dirty) file store)
  | PlanExplicit profile =>
      ok (mark_used_binding io now profile SrcExplicit confidence (default false dirty) file store)
  | PlanGenerate =>
      match port_info ≫= canonical_high_selector with
      | None => (Err PeNoIdentity, file, store)
      | Some selector =>
          let '(r, file, store) :=
            run_mutation
              (fun ps now =>
                 apply_create_generated ps (generated_label port_info) selector
                   (as_profile_defaults resolved) now) io now file store in
          (Ok (match r with
               | Ok created => persistent_binding created SrcGenerated ConfHigh false None
               | Err e => transient_binding ConfHigh [] (Some (store_error_text path e))
               end), file, store)
      end
  end.

Record OpenResult := mkOpenResult {
  or_connection_id : list byte;
  or_name : option (list byte);
  or_port : list byte;
  or_baud_rate : Z;
  or_profile : ProfileSessionResult;
  or_profile_persistence : option ProfilePersistenceResult;
}.

(** The dirty comparison, before the hardware is opened. *)
Definition plan_dirty (plan : SessionPlan) (resolved : ResolvedOpenSettings)
    : result OpenSettingsError (option bool) :=
  match plan with
  | PlanSelected profile | PlanExplicit profile =>
      differs ← profile_only_differs resolved profile; Ok (Some differs)
  | _ => Ok None
  end.

(** What [open_connection] does once the hardware is open. *)
Definition open_session (e : OpenEnv) (resolved : ResolvedOpenSettings) (port_info : option PortInfo)
    (plan : SessionPlan) (dirty : option bool) (id : list byte) (c : SerialConnection) (s : Server)
    : result PortError OpenResult * Server :=
  let c := with_policy c (ro_reconnect_policy resolved) in
  let s := set_conn s id c in
  let '(r, m) := get_or_create (ss_sessions (sv_rx s)) id (ro_rx_buffer_size resolved) (oe_pump_task e) in
  let s := set_rx s m in
  match r with
  | Err err => (Err (PeSession err), s)
  | Ok _ =>
      let '(r, file, store) :=
        session_binding (oe_attach_io e) (oe_now e) plan resolved port_info dirty (sv_file s) (sv_store s) in
      let s := set_profiles s file store in
      match r with
      | Err err => (Err err, s)
      | Ok binding =>
          let c := with_profile c (Some binding) in
          let s := set_conn s id c in
          let result session persistence :=
            Ok (mkOpenResult id (ro_name resolved) (ro_port resolved) (ro_baud_rate resolved)
                  session persistence) in
          if ab_dirty binding then
            let '(learned, persistence, s) :=
              learn_conn PoOpenOverride (oe_learn_io e) (oe_now e) id c s in
            (result (default (to_session_result binding) learned) (Some persistence), s)
          else (result (to_session_result binding) None, s)
      end
  end.

Definition open_connection (security : SecurityManager) (e : OpenEnv) (port : list byte)
    (overlay : OpenOverlay) (profile_defaults : option ProfileDefaults)
    (port_info : option PortInfo) (plan : SessionPlan) (s : Server)
    : result PortError OpenResult * Server :=
  if negb (is_port_allowed security port)
  then (Err (PeNotAllowed port (allowlist_summary security)), s)
  else
    match resolved ← map_err PeSettings (resolve port overlay profile_defaults);
          dirty ← map_err PeSettings (plan_dirty plan resolved);
          Ok (resolved, dirty) with
    | Err err => (Err err, s)
    | Ok (resolved, dirty) =>
        let '(r, s) := manager_open e (into_connection_config resolved port_info) s in
        match r with
        | Err err => (Err (PeSerial err), s)
        | Ok id =>
            match server_get s id with
            | Err err => (Err (PeSerial err), s)
            | Ok c => open_session e resolved port_info plan dirty id c s
            end
        end
    end.

(** [open]: [mode] and [overlay] are the arguments. *)
Definition open (security : SecurityManager) (enumerated : result (list byte) (list PortInfo))
    (plan_io : IoFaults) (e : OpenEnv) (port : list byte) (overlay : OpenOverlay)
    (mode : option ProfileMode) (s : Server) : result PortError OpenResult * Server :=
  match enumerated with
  | Err text => (Err (PeEnumerate text), s)
  | Ok live_ports =>
      let port_info := find_port live_ports port in
      let '(r, store) := plan_session mode port_info live_ports plan_io (sv_file s) (sv_store s) in
      let s := set_profiles s (sv_file s) store in
      match r with
      | Err err => (Err (PeStore err), s)
      | Ok plan =>
          let profile_defaults :=
            match plan with PlanSelected profile => Some (p_defaults profile) | _ => None end in
          open_connection security e port overlay profile_defaults port_info plan s
      end
  end.

(** [open_profile], with the profile the handler of [server.rs] looks up in the
    store's cache. *)
Definition open_profile (security : SecurityManager) (enumerated : result (list byte) (list PortInfo))
    (e : OpenEnv) (name : list byte) (overlay : OpenOverlay) (s : Server)
    : result PortError OpenResult * Server :=
  match store_get (sv_store s) name with
  | None => (Err (PeUnknownProfile name), s)
  | Some profile =>
      match enumerated with
      | Err text => (Err (PeEnumerate text), s)
      | Ok ports =>
          match filter (fun p => matches profile p = true) ports with
          | [] => (Err (PeNoPort name), s)
          | [port] =>
              open_connection security e (pi_name port) overlay (Some (p_defaults profile)) (Some port)
                (PlanExplicit profile) s
          | matched => (Err (PeManyPorts name (pi_name <$> matched)), s)
          end
      end
  end.

(** ** Closing *)

Record CloseResult := mkCloseResult {
  cl_name : option (list byte);
  cl_profile : option ProfileSessionResult;
  cl_profile_persistence : ProfilePersistenceResult;
}.

(** [ConnectionManager::close]: the result, the closed connection, the state. *)
Definition manager_close (now : Z) (id : list byte) (fault : option IoError) (c : SerialConnection)
    (s : Server) : result SerialError unit * SerialConnection * Server :=
  match manager_close_begin (sv_registry s) id with
  | Err e => (Err e, c, s)
  | Ok (ident, reg) =>
      let c := with_log c (closed (sc_log c) now) in
      let '(r, c) := close c fault in
      let reg := manager_close_finish (cancel_reconnect reg id) (sc_port ident) in
      (r, c, set_conn (set_registry s reg) id c)
  end.

Definition close_tool (now : Z) (fault : option IoError) (io : IoFaults) (id : list byte) (s : Server)
    : result PortError CloseResult * Server :=
  match lookup s id with
  | Err e => (Err e, s)
  | Ok c =>
      let '(r, c, s) := manager_close now id fault c s in
      match r with
      | Err e => (Err (PeSerial e), s)
      | Ok _ =>
          let '(profile, persistence, s) := learn_conn PoCloseSnapshot io now id c s in
          (Ok (mkCloseResult (sc_name (sc_identity c)) profile persistence), s)
      end
  end.

(** ** Changing a live connection *)

Record ReconfigureArgs := mkReconfigureArgs {
  ra_baud_rate : option Z;
  ra_data_bits : option (list byte);
  ra_stop_bits : option (list byte);
  ra_parity : option (list byte);
  ra_flow_control : option (list byte);
}.

(** [args.x.map(|s| s.parse()).transpose()?]. *)
Definition parse_opt {A} (err : list byte -> OpenSettingsError)
    (parse : list byte -> result (list byte) A) (s : option (list byte)) : result PortError (option A) :=
  match s with
  | None => Ok None
  | Some s => Some <$> map_err (PeSettings ∘ err) (parse s)
  end.

Definition parse_reconfigure (args : ReconfigureArgs) : result PortError Reconfigure :=
  data_bits ← parse_opt BadDataBits data_bits_from_str (ra_data_bits args);
  stop_bits ← parse_opt BadStopBits stop_bits_from_str (ra_stop_bits args);
  parity ← parse_opt BadParity parity_from_str (ra_parity args);
  flow_control ← parse_opt BadFlowControl flow_control_from_str (ra_flow_control args);
  Ok (mkReconfigure (ra_baud_rate args) data_bits stop_bits parity flow_control).

Definition reconfigure_tool (now : Z) (fault : option (nat * IoError)) (io : IoFaults)
    (id : list byte) (args : ReconfigureArgs) (s : Server)
    : result PortError (ConnectionStatus * option ProfileSessionResult * ProfilePersistenceResult) * Server :=
  match c ← lookup s id; r ← parse_reconfigure args; Ok (c, r) with
  | Err e => (Err e, s)
  | Ok (c, r) =>
      let '(status, c) := reconfigure c r fault in
      let s := set_conn s id c in
      match status with
      | Err e => (Err (PeSerial e), s)
      | Ok status =>
          let '(profile, persistence, s) := learn_conn PoLearned io now id c s in
          (Ok (status, profile, persistence), s)
      end
  end.

(** [set_flow_control] of [src/tools/control_ops.rs]. *)
Definition set_flow_control_tool (now : Z) (fault : option IoError) (io : IoFaults)
    (id : list byte) (flow : list byte) (s : Server)
    : result PortError (FlowControl * option ProfileSessionResult * ProfilePersistenceResult) * Server :=
  match flow ← map_err (PeSettings ∘ BadFlowControl) (flow_control_from_str flow);
        c ← lookup s id; Ok (flow, c) with
  | Err e => (Err e, s)
  | Ok (flow, c) =>
      let '(r, c) := set_flow_control c flow fault in
      let s := set_conn s id c in
      match r with
      | Err e => (Err (PeSerial e), s)
      | Ok _ =>
          let '(profile, persistence, s) := learn_conn PoLearned io now id c s in
          (Ok (flow, profile, persistence), s)
      end
  end.

(** The setters of connection mode. *)
Definition configure_conn (c : SerialConnection) (d : ProfileDefaults) : SerialConnection :=
  with_policy
    (with_defaults c (mkCallDefaults (pd_tx_framing d) (pd_rx_framing d) (pd_rx_parser d)
                        (pd_protocol d) (pd_max_buffered_bytes d)))
    (pd_reconnect_policy d).

Inductive ConfigureResult :=
  | ConfiguredProfile (defaults : ProfileDefaults) (created : bool)
  | ConfiguredConnection (defaults : ProfileDefaults) (profile : option ProfileSessionResult)
      (persistence : ProfilePersistenceResult).

Definition configure (now : Z) (io : IoFaults) (profile connection_id : option (list byte))
    (defaults : ProfileDefaults) (overwrite : bool) (s : Server)
    : result PortError ConfigureResult * Server :=
  match profile, connection_id with
  | Some _, Some _ | None, None => (Err PeOneTarget, s)
  | Some name, None =>
      let '(r, file, store) :=
        run_mutation (fun ps now => apply_update_defaults ps name defaults overwrite now)
          io now (sv_file s) (sv_store s) in
      ('(created, p) ← map_err PeStore r; Ok (ConfiguredProfile (p_defaults p) created),
       set_profiles s file store)
  | None, Some id =>
      match lookup s id with
      | Err e => (Err e, s)
      | Ok c =>
          let '(session, persistence, s) := learn_conn PoLearned io now id (configure_conn c defaults) s in
          (Ok (ConfiguredConnection defaults session persistence), s)
      end
  end.

(** [reconnect]. *)
Definition reconnect_tool (now : Z) (build_stream : ConnectionConfig -> result SerialError Device)
    (to_string : SerialError -> list byte) (id : list byte) (s : Server)
    : result PortError (option (list byte) * list byte * ConnectionState) * Server :=
  match lookup s id with
  | Err e => (Err e, s)
  | Ok c =>
      let '(r, c) := reconnect c now build_stream to_string in
      (_ ← map_err PeSerial r;
       Ok (sc_name (sc_identity c), sc_port (sc_identity c), sc_state c), set_conn s id c)
  end.

(** ** Profiles *)

(** The selector [save_profile] takes from a port. *)
Definition selector_of_port (p : PortInfo) : ProfileSelector :=
  mkSelector (pi_vid p) (pi_pid p) (pi_serial_number p) (pi_manufacturer p) (pi_product p)
    (pi_interface p) None None (Some (transport_to_string (pi_transport p))) (pi_hardware_id p).

(** [ProfileMetadata::default]. *)
Definition ProfileMetadata_default : ProfileMetadata := mkMetadata false 0 None None None 0.

Definition save_profile (now : Z) (io : IoFaults) (id name : list byte) (overwrite : bool) (s : Server)
    : result PortError (Profile * bool) * Server :=
  match c ← lookup s id; info ← ok_or (sc_port_info (sc_identity c)) (PeNoPortInfo id); Ok (c, info) with
  | Err e => (Err e, s)
  | Ok (c, info) =>
      let profile := mkProfile name (selector_of_port info) (effective_defaults c) ProfileMetadata_default [] in
      let '(r, file, store) :=
        run_mutation (fun ps now => apply_upsert ps profile overwrite now) io now (sv_file s) (sv_store s) in
      (created ← map_err PeStore r; Ok (profile, created), set_profiles s file store)
  end.

(** [binding.persistent && binding.profile_name == name]. *)
Definition bound_to (name : list byte) (c : SerialConnection) : bool :=
  match sc_profile c with
  | Some b => ab_persistent b && bool_decide (ab_profile_name b = name)
  | None => false
  end.

(** The registered connections bound to a profile, in the order of the map. *)
Definition bound_ids (s : Server) (name : list byte) : list (list byte) :=
  filter (fun id => default false (bound_to name <$> sv_conns s !! id) = true)
    (fst <$> list_all (sv_registry s)).

Definition delete_profile (now : Z) (io : IoFaults) (name : list byte) (s : Server)
    : result PortError unit * Server :=
  match bound_ids s name with
  | [] =>
      let '(r, file, store) :=
        run_mutation (fun ps _ => apply_delete ps name) io now (sv_file s) (sv_store s) in
      (map_err PeStore r, set_profiles s file store)
  | bound => (Err (PeBound name bound), s)
  end.

(** [b.stale = true; b.dirty = true; b.last_persistence_error = Some(..)]. *)
Definition stale_binding (name : list byte) (revision : Z) (b : ActiveProfileBinding)
    : ActiveProfileBinding :=
  binding_failed b true
    (bs "profile '" ++ name ++ bs "' rolled back to revision " ++ number_text revision
     ++ bs " by rollback_profile; connection stays on its live state until reopened").

Definition rollback_profile (now : Z) (io : IoFaults) (name : list byte)
    (expected_revision revision : Z) (s : Server) : result PortError (Profile * nat) * Server :=
  let '(r, file, store) :=
    run_mutation (fun ps now => apply_rollback ps name expected_revision revision now)
      io now (sv_file s) (sv_store s) in
  let s := set_profiles s file store in
  match r with
  | Err e => (Err (PeStore e), s)
  | Ok rolled_back =>
      let ids := bound_ids s name in
      let conns :=
        foldr (fun id => alter (fun c => update_active_profile_binding c (stale_binding name revision)) id)
          (sv_conns s) ids in
      (Ok (rolled_back, length ids), mkServer (sv_registry s) conns (sv_rx s) (sv_file s) (sv_store s))
  end.

(** ** Reading *)

(** The ring fields of [get_status]. *)
Record RingStatus := mkRingStatus {
  rg_buffer_size : Z;
  rg_start_offset : Z;
  rg_end_offset : Z;
  rg_cursor : Z;
  rg_buffered_unread : Z;
  rg_bytes_wrapped_total : Z;
}.

Definition ring_status (session : option RxSession) : RingStatus :=
  match session with
  | Some r =>
      let ring := rs_ring r in
      mkRingStatus (rs_ring_capacity r) (start_offset (inner ring)) (end_offset (inner ring)) (rs_read_cursor r)
        (saturating_sub (end_offset (inner ring)) (rs_read_cursor r)) (bytes_wrapped_total ring)
  | None => mkRingStatus 0 0 0 0 0 0
  end.

Definition get_status (id : list byte) (s : Server) : result PortError (ConnectionStatus * RingStatus) :=
  c ← lookup s id;
  Ok (status_snapshot c, ring_status (session_get (ss_sessions (sv_rx s)) id)).

(** [list_connections]: the summaries, in the order of the map. *)
Definition list_connections (s : Server) : list ConnectionSummary :=
  omap (fun e => summary <$> sv_conns s !! e.1) (list_all (sv_registry s)).

End PortTools.
