(* ===== verification/PortProofs.v ===== *)
(** * The connection and profile tools keep their promises

    Properties of [PortTools]: what an open does on every branch, that a rolled-back
    profile is not overwritten by the sessions bound to it, and that what a session
    persists opens again. *)

From S2P Require Import Prelude RustStr Extern ExternModel FramingConfig RxRing BufferBudget LogBuffer RxConsume Tools RxSession SerialConfig Manager Connection Profiles ProfileStore Learning OpenSettings PortPlan PortTools.

(** ** The store and the file through a handler *)

Section Handlers.
Context `{GlobCrate} `{TomlLaws} (path : list byte).

(** [learn], as far as the file goes: only the bound profile can change, and only
    when the binding is persistent and not stale; a binding keeps its profile and
    stays stale. *)
Lemma learn_file io now file store binding eff op ps session res file' store' binding' :
  holds file ps -> st_persistent store = true ->
  learn path io now file store binding eff op = (session, res, file', store', binding') ->
  st_persistent store' = true /\
  session = to_session_result <$> binding' /\
  match binding, binding' with
  | Some b, Some b' => ab_profile_name b' = ab_profile_name b /\ ab_persistent b' = ab_persistent b /\
      (ab_stale b = true -> ab_stale b' = true)
  | None, None => True
  | _, _ => False
  end /\
  exists ps', holds file' ps' /\
    (forall m, find_profile m ps' = find_profile m ps \/
       exists b, binding = Some b /\ ab_persistent b = true /\ ab_stale b = false /\
         ab_profile_name b = m) /\
    (pp_state res = PsPersisted -> exists b p', binding = Some b /\
       find_profile (ab_profile_name b) ps' = Some p' /\ p_defaults p' = eff).
Proof.
  intros Hh Hp. unfold learn.
  assert (Hsame : forall st op name rev err, st <> PsPersisted -> exists ps', holds file ps' /\
    (forall m, find_profile m ps' = find_profile m ps \/
       exists b, binding = Some b /\ ab_persistent b = true /\ ab_stale b = false /\ ab_profile_name b = m) /\
    (pp_state (mkPersistence st op name rev err) = PsPersisted -> exists b p', binding = Some b /\
       find_profile (ab_profile_name b) ps' = Some p' /\ p_defaults p' = eff)).
  { intros st ? ? ? ? Hst. exists ps. split; [done|]. split; [by left|]. intros E. by destruct Hst. }
  destruct binding as [b|]; [|intros [= <- <- <- <- <-]; split_and!; try done; by apply Hsame].
  destruct (ab_persistent b) eqn:Hpers; cbn [negb];
    [|intros [= <- <- <- <- <-]; split_and!; try done; by apply Hsame].
  destruct (ab_stale b) eqn:Hst.
  { intros [= <- <- <- <- <-]. split_and!; try done. by apply Hsame. }
  destruct (run_conditional_mutation _ _ _ _ _) as [ [outcome file1] store1] eqn:Hrun.
  destruct (transaction_atomic _ _ _ _ _ _ _ _ _ Hh Hp Hrun) as [Hp1 Hres].
  pose proof (apply_learned_inv ps (ab_profile_name b) (default 0 (ab_revision b)) eff now) as Hl.
  destruct outcome as [ [profile changed]|e].
  - destruct Hres as (next & Ha & Hf & _). rewrite Ha in Hl. destruct Hl as (p & Hfp & Hrev & Hn & Hc).
    destruct changed; cbn [lu_changed lu_profile] in Hc; intros [= <- <- <- <- <-].
    + destruct Hc as (ps' & -> & Hp' & Hd & Hs & Hothers).
      do 2 (split; [done|]). split; [done|]. exists ps'. split; [done|]. split.
      * intros m. destruct (decide (m = ab_profile_name b)) as [->|Hm]; [right; eauto|left; by apply Hothers].
      * intros _. by exists b, profile.
    + destruct Hc as (-> & -> & He). do 2 (split; [done|]). split; [done|]. exists ps.
      split; [done|]. split; [by left|done].
  - destruct Hres as (-> & Hio & _). intros [= <- <- <- <- <-].
    do 2 (split; [done|]). split; [done|]. exists ps. split; [done|]. split; [by left|done].
Qed.

(** The bindings of the registered connections to [name] are all stale. *)
Definition all_stale (name : list byte) (s : Server) : Prop :=
  forall id c, is_some (connections (sv_registry s) !! id) = true -> sv_conns s !! id = Some c ->
    bound_to name c = true -> exists b, sc_profile c = Some b /\ ab_stale b = true.

(** The file holds a list in which [name] is [p]. *)
Definition has_profile (name : list byte) (p : Profile) (s : Server) : Prop :=
  st_persistent (sv_store s) = true /\
  exists ps, holds (sv_file s) ps /\ find_profile name ps = Some p.

Definition frozen (name : list byte) (p : Profile) (s : Server) : Prop :=
  has_profile name p s /\ all_stale name s.

(** ** Calls on open connections *)

Inductive ConnCall :=
  | CallReconfigure (now : Z) (fault : option (nat * IoError)) (io : IoFaults) (id : list byte)
      (args : ReconfigureArgs)
  | CallFlow (now : Z) (fault : option IoError) (io : IoFaults) (id : list byte) (flow : list byte)
  | CallConfigure (now : Z) (io : IoFaults) (id : list byte) (defaults : ProfileDefaults)
  | CallClose (now : Z) (fault : option IoError) (io : IoFaults) (id : list byte)
  | CallReconnect (now : Z) (build_stream : ConnectionConfig -> result SerialError Device) (id : list byte).

Definition run_conn_call (s : Server) (call : ConnCall) : Server :=
  match call with
  | CallReconfigure now fault io id args => (reconfigure_tool path now fault io id args s).2
  | CallFlow now fault io id flow => (set_flow_control_tool path now fault io id flow s).2
  | CallConfigure now io id defaults => (configure path now io None (Some id) defaults true s).2
  | CallClose now fault io id => (close_tool path now fault io id s).2
  | CallReconnect now build_stream id => (reconnect_tool now build_stream (fun _ => []) id s).2
  end.

(** *** None of them touches the profile of a stale binding *)

Lemma lookup_ok s id c : lookup s id = Ok c ->
  is_some (connections (sv_registry s) !! id) = true /\ sv_conns s !! id = Some c.
Proof.
  unfold lookup, server_get, manager_get.
  destruct (connections _ !! id); cbn [ok_or mbind result_bind map_err]; [|done].
  destruct (sv_conns s !! id); cbn; [|done]. by intros [= <-].
Qed.

(** A connection is replaced by one with the same binding. *)
Lemma set_conn_frozen name p s id c c' :
  frozen name p s -> lookup s id = Ok c -> sc_profile c' = sc_profile c -> frozen name p (set_conn s id c').
Proof.
  intros [Hp Hs] [Hr Hc]%lookup_ok Hb. split; [done|]. intros i d Hi Hd Hbound.
  cbn [set_conn sv_conns sv_registry] in *.
  apply lookup_insert_Some in Hd as [ [<- <-]|[Hne Hd] ]; [|by eapply Hs].
  rewrite Hb. apply (Hs id c Hi Hc). unfold bound_to in *. by rewrite <- Hb.
Qed.

Lemma learn_frozen name p s op io now id c r :
  has_profile name p s -> all_stale name s ->
  (bound_to name c = true -> exists b, sc_profile c = Some b /\ ab_stale b = true) ->
  learn_conn path op io now id c s = r -> frozen name p r.2.
Proof.
  intros (Hst & ps & Hh & Hf) Hs Hc <-. unfold learn_conn.
  destruct (learn _ _ _ _ _ _ _ _) as [ [ [ [session res] file'] store'] binding'] eqn:Hl.
  destruct (learn_file _ _ _ _ _ _ _ _ _ _ _ _ _ Hh Hst Hl) as (Hst' & _ & Hb & ps' & Hh' & Hm & _).
  cbn [snd]. split.
  - split; [done|]. exists ps'. split; [done|].
    destruct (Hm name) as [->|(b & Hb' & Hpers & Hstale & Hn)]; [done|]. exfalso.
    destruct Hc as (b' & Eb & Hb2); [|congruence].
    unfold bound_to. rewrite Hb', Hpers, Hn. by rewrite bool_decide_eq_true_2.
  - intros i d Hi Hd Hbound. cbn [set_conn set_profiles sv_conns sv_registry] in *.
    apply lookup_insert_Some in Hd as [ [<- <-]|[Hne Hd] ]; [|by eapply Hs].
    cbn [with_profile sc_profile] in *. unfold bound_to in Hbound, Hc. cbn [with_profile sc_profile] in Hbound.
    destruct binding' as [b'|]; [|done]. destruct (sc_profile c) as [b|]; [|done].
    destruct Hb as (Hn & Hpe & Hsb). rewrite Hn, Hpe in Hbound.
    destruct (Hc Hbound) as (b0 & [= <-] & Hb0). eauto.
Qed.

Lemma close_profile c fault : sc_profile (Connection.close c fault).2 = sc_profile c.
Proof.
  unfold Connection.close, close_begin, close_io. destruct (sc_closed c); [done|]. by destruct (sc_io _).
Qed.

Lemma reconfigure_profile c r fault : sc_profile (reconfigure c r fault).2 = sc_profile c.
Proof. unfold reconfigure. by repeat case_match. Qed.

Lemma flow_profile c flow fault : sc_profile (set_flow_control c flow fault).2 = sc_profile c.
Proof. unfold set_flow_control. by repeat case_match. Qed.

Lemma reconnect_profile c now build to_string : sc_profile (reconnect c now build to_string).2 = sc_profile c.
Proof. unfold reconnect, reconnect_begin. by repeat case_match; simplify_eq/=. Qed.

Lemma stale_of name s id c : all_stale name s -> lookup s id = Ok c ->
  bound_to name c = true -> exists b, sc_profile c = Some b /\ ab_stale b = true.
Proof. intros Hs [Hr Hc]%lookup_ok. exact (Hs id c Hr Hc). Qed.

(** Learning what a call changed on a connection. *)
Lemma learned_frozen name p s s1 op io now id c c' r :
  all_stale name s -> lookup s id = Ok c -> sc_profile c' = sc_profile c ->
  frozen name p s1 -> learn_conn path op io now id c' s1 = r -> frozen name p r.2.
Proof.
  intros Hs Hl Hb [Hp1 Hs1] Hlc. eapply learn_frozen; [done..| |exact Hlc].
  unfold bound_to. rewrite Hb. by apply (stale_of name s id c).
Qed.

(** A change of the hardware that leaves the binding, and learning it. *)
Lemma changed_frozen name p s op io now id c c' r :
  frozen name p s -> lookup s id = Ok c -> sc_profile c' = sc_profile c ->
  learn_conn path op io now id c' (set_conn s id c') = r -> frozen name p r.2.
Proof.
  intros Hfr Hl Hb. eapply learned_frozen; [apply Hfr|done..|]. by eapply set_conn_frozen.
Qed.

Lemma manager_close_frozen name p s id now fault c :
  frozen name p s -> lookup s id = Ok c ->
  let '(_, c', s') := manager_close now id fault c s in frozen name p s' /\ sc_profile c' = sc_profile c.
Proof.
  intros [Hp Hs] Hl. destruct (lookup_ok _ _ _ Hl) as [Hr Hc].
  unfold manager_close, manager_close_begin.
  destruct (connections (sv_registry s) !! id) as [ident|] eqn:Hi; [|done].
  cbn [ok_or mbind result_bind].
  pose proof (close_profile (with_log c (closed (sc_log c) now)) fault) as Hb.
  destruct (Connection.close _ fault) as [r c']. cbn [snd with_log sc_profile] in Hb.
  split; [|done]. split; [done|]. intros i d Hri Hd.
  cbn [set_conn set_registry sv_conns sv_registry manager_close_finish cancel_reconnect connections] in *.
  destruct (decide (i = id)) as [->|Hne]; [by rewrite lookup_delete_eq in Hri|].
  rewrite lookup_delete_ne in Hri by done. rewrite lookup_insert_ne in Hd by done. by apply (Hs i).
Qed.

Lemma conn_call_frozen name p s call : frozen name p s -> frozen name p (run_conn_call s call).
Proof.
  intros Hfr. pose proof Hfr as [Hp Hs]. destruct call; cbn [run_conn_call].
  - unfold reconfigure_tool. destruct (lookup s id) as [c|] eqn:Hl; cbn [mbind result_bind]; [|done].
    destruct (parse_reconfigure args) as [r|]; cbn [mbind result_bind]; [|done].
    pose proof (reconfigure_profile c r fault) as Hb.
    destruct (reconfigure c r fault) as [ [] c']; [|by eapply set_conn_frozen].
    destruct (learn_conn _ _ _ _ _ _ _) as [ [session res] s'] eqn:Hlc.
    by apply (changed_frozen name p s _ _ _ _ c) in Hlc.
  - unfold set_flow_control_tool. destruct (flow_control_from_str flow) as [f|]; cbn [map_err mbind result_bind]; [|done].
    destruct (lookup s id) as [c|] eqn:Hl; cbn [mbind result_bind]; [|done].
    pose proof (flow_profile c f fault) as Hb.
    destruct (set_flow_control c f fault) as [ [] c']; [|by eapply set_conn_frozen].
    destruct (learn_conn _ _ _ _ _ _ _) as [ [session res] s'] eqn:Hlc.
    by apply (changed_frozen name p s _ _ _ _ c) in Hlc.
  - unfold configure. destruct (lookup s id) as [c|] eqn:Hl; [|done].
    destruct (learn_conn _ _ _ _ _ _ _) as [ [session res] s'] eqn:Hlc.
    by apply (learned_frozen name p s s _ _ _ _ c) in Hlc.
  - unfold close_tool. destruct (lookup s id) as [c|] eqn:Hl; [|done].
    pose proof (manager_close_frozen name p s id now fault c Hfr Hl) as Hm.
    destruct (manager_close _ _ _ _ _) as [ [r c'] s1]. destruct Hm as [Hs1 Hb]. destruct r; [|done].
    destruct (learn_conn _ _ _ _ _ _ _) as [ [session res] s'] eqn:Hlc.
    by apply (learned_frozen name p s s1 _ _ _ _ c) in Hlc.
  - unfold reconnect_tool. destruct (lookup s id) as [c|] eqn:Hl; [|done].
    pose proof (reconnect_profile c now build_stream (fun _ => [])) as Hb.
    destruct (reconnect c now build_stream _) as [r c']. cbn [snd] in *.
    by eapply set_conn_frozen.
Qed.

(** *** The rollback makes them stale *)

Lemma bound_ids_spec s name id :
  id ∈ bound_ids s name <->
  is_some (connections (sv_registry s) !! id) = true /\
  exists c, sv_conns s !! id = Some c /\ bound_to name c = true.
Proof.
  unfold bound_ids, list_all. rewrite list_elem_of_filter, list_elem_of_fmap. split.
  - intros [Hb ([i ident] & -> & Hi%elem_of_map_to_list)]. cbn in *. rewrite Hi. split; [done|].
    destruct (sv_conns s !! i) as [c|]; [|done]. eauto.
  - intros [Hi (c & Hc & Hb)]. destruct (connections _ !! id) as [ident|] eqn:E; [|done].
    split; [by rewrite Hc|]. exists (id, ident). split; [done|]. by apply elem_of_map_to_list.
Qed.

Lemma foldr_alter_lookup {A} (f : A -> A) ids : forall (m : gmap (list byte) A) id, NoDup ids ->
  foldr (fun i => alter f i) m ids !! id = (if bool_decide (id ∈ ids) then f <$> m !! id else m !! id).
Proof.
  induction ids as [|i ids IH]; intros m id Hnd; cbn [foldr]; [by rewrite bool_decide_eq_false_2 by apply not_elem_of_nil|].
  apply NoDup_cons in Hnd as [Hi Hnd]. destruct (decide (i = id)) as [->|Hne].
  - rewrite lookup_alter_eq, IH by done. rewrite bool_decide_eq_false_2, bool_decide_eq_true_2; [done| |done].
    apply list_elem_of_here.
  - rewrite lookup_alter_ne, IH by done. 
    assert (E : id ∈ i :: ids <-> id ∈ ids) by (rewrite elem_of_cons; naive_solver).
    by rewrite (bool_decide_ext _ _ E).
Qed.

Lemma bound_ids_nodup s name : NoDup (bound_ids s name).
Proof. unfold bound_ids, list_all. apply NoDup_filter, NoDup_fst_map_to_list. Qed.

(** C37: a rollback is final as far as the connections of this
    process go.  When a rollback succeeds, the profile file holds the restored
    profile, the handler reports how many registered connections are bound to it, and
    then any sequence of reconfigurations, flow-control changes, configurations,
    reconnects and closes of any connections, with I/O failing anywhere, leaves that
    profile in the file exactly as it was restored. *)
Theorem rolled_back_profile_stays now io name expected target s p n s' ps calls :
  holds (sv_file s) ps -> st_persistent (sv_store s) = true ->
  rollback_profile now io name expected target s = (Ok (p, n), s') ->
  n = length (bound_ids s name) /\
  exists ps', holds (sv_file (foldl run_conn_call s' calls)) ps' /\ find_profile name ps' = Some p.
Proof.
  intros Hh Hst. unfold rollback_profile.
  destruct (run_mutation _ _ _ _ _) as [ [r file] store] eqn:Hrun.
  unfold run_mutation in Hrun. destruct (transaction_atomic _ _ _ _ _ _ _ _ _ Hh Hst Hrun) as [Hst' Hres].
  destruct r as [q|e]; [|done]. intros [= -> <- <-]. split; [done|].
  destruct Hres as (next & Ha & Hf & _).
  apply result_bind_ok in Ha as ([q ps1] & Ha & [= -> <-]).
  apply rollback_ok in Ha as (cur & snap & _ & _ & _ & _ & _ & _ & _ & _ & Hfind).
  set (s1 := mkServer _ _ _ _ _).
  assert (Hfr : frozen name p s1).
  { split.
    - split; [done|]. exists ps1. split; [done|]. by rewrite Hfind, bool_decide_eq_true_2.
    - intros id c Hi Hc Hb. subst s1. cbn [sv_conns sv_registry] in *.
      change (bound_ids (set_profiles s file store) name) with (bound_ids s name) in Hc.
      cbn [set_profiles sv_conns] in Hc. rewrite foldr_alter_lookup in Hc by apply bound_ids_nodup.
      case_bool_decide as Hin.
      + apply fmap_Some in Hc as (c0 & Hc0 & ->). apply bound_ids_spec in Hin as (_ & c1 & Hc1 & Hb1).
        assert (c1 = c0) as -> by congruence.
        unfold bound_to in Hb1. unfold update_active_profile_binding.
        destruct (sc_profile c0) as [b|]; [|done]. cbn. eauto.
      + destruct Hin. apply bound_ids_spec. split; [done|]. eauto. }
  clearbody s1. revert s1 Hfr. induction calls as [|call calls IH]; intros s1 Hfr; cbn [foldl].
  - by destruct Hfr as [ [_ ?] _].
  - apply IH. by apply conn_call_frozen.
Qed.

(** ** What a tool persists opens again *)

Definition call_id (call : ConnCall) : list byte :=
  match call with
  | CallReconfigure _ _ _ id _ | CallFlow _ _ _ id _ | CallConfigure _ _ id _ | CallClose _ _ _ id | CallReconnect _ _ id => id
  end.

(** The persistence report in the result of a call, if it has one. *)
Definition persistence_of (s : Server) (call : ConnCall) : option ProfilePersistenceResult :=
  match call with
  | CallReconfigure now fault io id args =>
      match (reconfigure_tool path now fault io id args s).1 with Ok (_, _, r) => Some r | Err _ => None end
  | CallFlow now fault io id flow =>
      match (set_flow_control_tool path now fault io id flow s).1 with Ok (_, _, r) => Some r | Err _ => None end
  | CallConfigure now io id defaults =>
      match (configure path now io None (Some id) defaults true s).1 with
      | Ok (ConfiguredConnection _ _ r) => Some r
      | _ => None
      end
  | CallClose now fault io id =>
      match (close_tool path now fault io id s).1 with Ok r => Some (cl_profile_persistence r) | Err _ => None end
  | CallReconnect _ _ _ => None
  end.

(** A call with a report ended by learning on a connection with the old identity. *)
Lemma call_learns s call res : persistence_of s call = Some res ->
  exists c c' op io now s1 session,
    lookup s (call_id call) = Ok c /\ sc_identity c' = sc_identity c /\
    sv_file s1 = sv_file s /\ sv_store s1 = sv_store s /\
    learn_conn path op io now (call_id call) c' s1 = (session, res, run_conn_call s call).
Proof.
  destruct call as [now fault io id args|now fault io id flow|now io id d|now fault io id|]; cbn [persistence_of run_conn_call call_id]; [..|done].
  - unfold reconfigure_tool. destruct (lookup s id) as [c|] eqn:Hl; cbn [mbind result_bind]; [|done].
    destruct (parse_reconfigure args) as [r|]; cbn [mbind result_bind]; [|done].
    assert (Hid : sc_identity (reconfigure c r fault).2 = sc_identity c) by (unfold reconfigure; by repeat case_match).
    destruct (reconfigure c r fault) as [ [status|] c']; [|done]. cbn [snd] in Hid.
    destruct (learn_conn _ _ _ _ _ _ _) as [ [session res'] s'] eqn:Hlc. cbn [fst snd]. intros [= ->].
    exists c, c', PoLearned, io, now, (set_conn s id c'), session. done.
  - unfold set_flow_control_tool. destruct (flow_control_from_str flow) as [f|]; cbn [map_err mbind result_bind]; [|done].
    destruct (lookup s id) as [c|] eqn:Hl; cbn [mbind result_bind]; [|done].
    assert (Hid : sc_identity (set_flow_control c f fault).2 = sc_identity c) by (unfold set_flow_control; by repeat case_match).
    destruct (set_flow_control c f fault) as [ [u|] c']; [|done]. cbn [snd] in Hid.
    destruct (learn_conn _ _ _ _ _ _ _) as [ [session res'] s'] eqn:Hlc. cbn [fst snd]. intros [= ->].
    exists c, c', PoLearned, io, now, (set_conn s id c'), session. done.
  - unfold configure. destruct (lookup s id) as [c|] eqn:Hl; [|done].
    destruct (learn_conn _ _ _ _ _ _ _) as [ [session res'] s'] eqn:Hlc. cbn [fst snd]. intros [= ->].
    exists c, (configure_conn c d), PoLearned, io, now, s, session. done.
  - unfold close_tool. destruct (lookup s id) as [c|] eqn:Hl; [|done].
    unfold manager_close. destruct (manager_close_begin _ id) as [ [ident reg]|]; [|done].
    assert (Hid : forall c, sc_identity (Connection.close c fault).2 = sc_identity c).
    { intros c0. unfold Connection.close, close_begin, close_io. destruct (sc_closed c0); [done|]. by destruct (sc_io _). }
    specialize (Hid (with_log c (closed (sc_log c) now))).
    destruct (Connection.close _ fault) as [ [u|] c']; [|done]. cbn [snd] in Hid.
    destruct (learn_conn _ _ _ _ _ _ _) as [ [session res'] s'] eqn:Hlc. cbn [fst snd cl_profile_persistence].
    intros [= ->]. do 7 eexists. split; [done|]. split; [exact Hid|]. split; [|split; [|exact Hlc] ]; done.
Qed.

(** C38: when a reconfiguration, a flow-control change, a
    [configure] in connection mode or a close of a connection reports that its settings were persisted, the profile in the file
    carries the connection's effective settings, and opening the port from that
    profile gives exactly these settings again: with the connection's name if the
    caller repeats it, and otherwise with the port's short name appended to it.  (Of
    [configure] in connection mode the tool description says that it does not persist
    to disk; the code learns into the bound profile and reports it persisted, as
    [OpenProofs.connection_configure_persists] shows.) *)
Theorem persisted_settings_reopen s call c ps res :
  holds (sv_file s) ps -> st_persistent (sv_store s) = true ->
  lookup s (call_id call) = Ok c -> 1 <= sc_rx_buffer_size (sc_identity c) <= MAX_RX_BUFFER_SIZE ->
  persistence_of s call = Some res -> pp_state res = PsPersisted ->
  exists c' b ps' p,
    sv_conns (run_conn_call s call) !! call_id call = Some c' /\ sc_identity c' = sc_identity c /\
    sc_profile c' = Some b /\ holds (sv_file (run_conn_call s call)) ps' /\
    find_profile (ab_profile_name b) ps' = Some p /\
    let port := sc_port (sc_identity c) in
    resolve port (overlay_named (sc_name (sc_identity c))) (Some (p_defaults p)) = Ok (settings_of c') /\
    from_profile port p = Ok (with_name (settings_of c') (reopened_name (settings_of c'))).
Proof.
  intros Hh Hst Hc Hrx Hres Hp.
  destruct (call_learns _ _ _ Hres) as (c0 & c1 & op & io & now & s1 & session & Hc0 & Hid & Hf & Hs & Hl).
  assert (c0 = c) as -> by congruence. unfold learn_conn in Hl. rewrite Hf, Hs in Hl.
  destruct (learn _ _ _ _ _ _ _ _) as [ [ [ [sess res'] file'] store'] binding'] eqn:Hlearn.
  injection Hl as <- -> Hs'.
  destruct (learn_file _ _ _ _ _ _ _ _ _ _ _ _ _ Hh Hst Hlearn) as (_ & _ & Hb & ps' & Hh' & _ & Hpers).
  destruct (Hpers Hp) as (b & p & Eb & Hfind & Hd). rewrite Eb in Hb.
  destruct binding' as [b'|]; [|done]. destruct Hb as (Hn & _ & _).
  assert (Heff : p_defaults p = as_profile_defaults (settings_of (with_profile c1 (Some b')))) by (by rewrite Hd).
  assert (Hport : ro_port (settings_of (with_profile c1 (Some b'))) = sc_port (sc_identity c)) by (cbn; by rewrite Hid).
  assert (Hrx' : 1 <= ro_rx_buffer_size (settings_of (with_profile c1 (Some b'))) <= MAX_RX_BUFFER_SIZE)
    by (cbn; by rewrite Hid).
  exists (with_profile c1 (Some b')), b', ps', p. rewrite <- Hs'. split_and!.
  - apply lookup_insert_eq.
  - done.
  - done.
  - done.
  - by rewrite Hn.
  - cbv zeta. unfold from_profile. rewrite Heff. split.
    + rewrite resolve_learned by done. rewrite <- Hid. unfold reopened_name, settings_of. cbn.
      by destruct (sc_name _).
    + by apply (resolve_learned _ None).
Qed.
End Handlers.
