(* ===== verification/OpenProofs.v ===== *)
(** * Opening a port, on every branch

    [open] and [open_profile] of [PortTools]: what a failed open leaves behind, and
    what a successful one establishes; with the witnesses of the tools' properties
    and the runs behind the findings. *)

From S2P Require Import Prelude RustStr Extern ExternModel FramingConfig RxRing BufferBudget LogBuffer RxConsume Tools RxSession SerialConfig Manager Connection Profiles ProfileStore Learning OpenSettings PortPlan PortTools PortProofs.

Section Open.
Context `{GlobCrate} `{TomlCrate} (path : list byte).

(** What the session plan says about the binding of an open connection. *)
Definition binding_fits (plan : SessionPlan) (b : ActiveProfileBinding) : Prop :=
  match plan with
  | PlanDisabled _ => ab_source b = SrcDisabled /\ ab_persistent b = false
  | PlanTransient _ names =>
      ab_source b = SrcTransient /\ ab_persistent b = false /\ ab_candidates b = names
  | PlanSelected p => ab_source b = SrcAutomatic /\ ab_persistent b = true /\ ab_profile_name b = p_name p
  | PlanExplicit p => ab_source b = SrcExplicit /\ ab_persistent b = true /\ ab_profile_name b = p_name p
  | PlanGenerate =>
      ab_source b = SrcGenerated /\ ab_persistent b = true \/
      ab_source b = SrcTransient /\ ab_persistent b = false /\
        is_some (ab_last_persistence_error b) = true
  end.

(** The profiles stay as they are when the plan concerns none. *)
Definition touches_profiles (plan : SessionPlan) : bool :=
  match plan with PlanDisabled _ | PlanTransient _ _ => false | _ => true end.

(** *** What learning keeps of a binding *)

Lemma learn_keeps io now file store b eff op session res file' store' binding' :
  learn path io now file store (Some b) eff op = (session, res, file', store', binding') ->
  exists b', binding' = Some b' /\ session = Some (to_session_result b') /\
    ab_source b' = ab_source b /\ ab_persistent b' = ab_persistent b /\
    ab_profile_name b' = ab_profile_name b /\ ab_candidates b' = ab_candidates b /\
    (ab_persistent b = false -> b' = b).
Proof.
  unfold learn. destruct (ab_persistent b) eqn:Hp; cbn [negb].
  - destruct (ab_stale b).
    { intros [= <- <- <- <- <-]. by eexists. }
    destruct (run_conditional_mutation _ _ _ _ _) as [ [ [ [p [] ]|e] f] st];
      intros [= <- <- <- <- <-]; by eexists.
  - intros [= <- <- <- <- <-]. by eexists.
Qed.

(** The value of a transaction comes from its function. *)
Lemma mutation_value {T} (apply : list Profile -> Z -> result StoreError (T * list Profile))
    io now file s v file' s' :
  run_mutation apply io now file s = (Ok v, file', s') -> exists ps next, apply ps now = Ok (v, next).
Proof.
  unfold run_mutation, run_conditional_mutation. destruct (st_persistent s).
  - destruct (io_lock io); [done|].
    destruct (load_validated file (io_read io)) as [ps|]; cbn [mbind result_bind]; [|done].
    destruct (apply ps now) as [ [w next]|] eqn:Ha; cbn [mbind result_bind]; [|done].
    destruct (write_atomic next (io_write io)); cbn [mbind result_bind]; [|done].
    intros [= <- _ _]. eauto.
  - destruct (apply (st_cache s) now) as [ [w next]|] eqn:Ha; cbn [mbind result_bind]; [|done].
    intros [= <- _ _]. eauto.
Qed.

Lemma mark_used_fits io now p source conf dirty file store b file' store' :
  mark_used_binding path io now p source conf dirty file store = (b, file', store') ->
  ab_source b = source /\ ab_persistent b = true /\ ab_profile_name b = p_name p.
Proof.
  unfold mark_used_binding. destruct (run_mutation _ _ _ _ _) as [ [ [used|e] f] st] eqn:Hr;
    intros [= <- _ _]; [|done].
  apply mutation_value in Hr as (ps & next & Ha). unfold apply_mark_used in Ha.
  apply result_bind_ok in Ha as ([idx old] & (_ & _ & Hn)%find_or_err_ok & Ha). by injection Ha as <- _.
Qed.

Lemma session_binding_fits io now plan resolved pi dirty file store r file' store' :
  session_binding path io now plan resolved pi dirty file store = (r, file', store') ->
  match r with
  | Ok b => binding_fits plan b
  | Err e => e = PeNoIdentity /\ plan = PlanGenerate /\ pi ≫= canonical_high_selector = None
  end /\ (touches_profiles plan = false -> file' = file /\ store' = store /\
           forall b, r = Ok b -> ab_dirty b = false).
Proof.
  unfold session_binding. destruct plan as [conf|conf names|p|p|]; cbv zeta.
  - intros [= <- <- <-]. split; [done|]. intros _. split_and!; [done..|]. by intros b [= <-].
  - intros [= <- <- <-]. split; [done|]. intros _. split_and!; [done..|]. by intros b [= <-].
  - destruct (mark_used_binding _ _ _ _ _ _ _ _ _) as [ [b f] st] eqn:Hm.
    intros [= <- <- <-]. by apply mark_used_fits in Hm.
  - destruct (mark_used_binding _ _ _ _ _ _ _ _ _) as [ [b f] st] eqn:Hm.
    intros [= <- <- <-]. by apply mark_used_fits in Hm.
  - destruct (pi ≫= canonical_high_selector) as [sel|]; [|by intros [= <- <- <-] ].
    destruct (run_mutation _ _ _ _ _) as [ [ [created|e] f] st]; intros [= <- <- <-];
      (split; [|done]); cbn; [by left|by right].
Qed.

(** *** The registry through an open *)

Lemma manager_open_spec e config s r s' :
  manager_open e config s = (r, s') ->
  match r with
  | Err _ => s' = s
  | Ok id => id = oe_id e /\ exists io,
      s' = set_conn (set_registry s (open_finish (sv_registry s) (cc_port config)
             (sc_identity (from_io_with_config (oe_now e) (oe_id e) config io)))) (oe_id e)
             (from_io_with_config (oe_now e) (oe_id e) config io)
  end.
Proof.
  unfold manager_open, open_begin. destruct (check_port _ _) as [u|] eqn:Hc; cbn [mbind result_bind];
    [|by intros [= <- <-] ].
  apply check_port_ok in Hc as (_ & Ho & _).
  assert (Hset : ({[cc_port config]} ∪ opening_ports (sv_registry s)) ∖ {[cc_port config]}
                 = opening_ports (sv_registry s)) by set_solver.
  destruct (connection_open _ _ _ _) as [c|err] eqn:Hco.
  - unfold connection_open in Hco. apply result_bind_ok in Hco as (_ & _ & Hco).
    apply result_bind_ok in Hco as (io & _ & [= <-]). intros [= <- <-]. split; [done|]. exists io.
    unfold open_finish. cbn [connections opening_ports closing_ports reconnect_tasks]. rewrite Hset.
    do 2 f_equal. f_equal. set_solver.
  - intros [= <- <-]. unfold release_reservation, set_registry. cbn. rewrite Hset.
    by destruct s as [ [] ].
Qed.

(** Only the new connection differs. *)
Definition others_kept (id : list byte) (s s' : Server) : Prop :=
  forall i, i <> id -> sv_conns s' !! i = sv_conns s !! i /\
    connections (sv_registry s') !! i = connections (sv_registry s) !! i.

(** What an open that went through establishes. *)
Definition established (e : OpenEnv) (resolved : ResolvedOpenSettings) (plan : SessionPlan)
    (res : OpenResult) (s' : Server) : Prop :=
  or_connection_id res = oe_id e /\ or_port res = ro_port resolved /\
  exists c b, server_get s' (oe_id e) = Ok c /\ sc_profile c = Some b /\ binding_fits plan b /\
    or_profile res = to_session_result b /\
    sc_state c = CsOpen /\ is_some (sc_io c) = true /\
    (0 <= ro_log_capacity resolved -> effective_defaults c = as_profile_defaults resolved) /\
    is_some (session_get (ss_sessions (sv_rx s')) (oe_id e)) = true.

Lemma get_or_create_get {St} `{BufferBudget St} (m : RxSessionManager St) id cap task r m' :
  get_or_create m id cap task = (Ok r, m') -> session_get m' id = Some r.
Proof.
  unfold get_or_create, session_get. destruct (sm_sessions m !! id) eqn:Hm; [by intros [= <- <-]|].
  destruct (session_new _ _ _) as [ [session|] b]; [|done].
  destruct (ensure_pump_running _ _ _) as [k session']. intros [= <- <-]. apply lookup_insert_eq.
Qed.

Lemma registered_get s s0 id c :
  is_some (connections (sv_registry s) !! id) = true -> sv_registry s0 = sv_registry s ->
  sv_conns s0 !! id = Some c -> server_get s0 id = Ok c.
Proof.
  intros Hreg E Hx. unfold server_get, manager_get. rewrite E, Hx. by destruct (connections _ !! _).
Qed.

(** The result of an open whose connection carries the binding [b]. *)
Lemma establish e resolved plan res s' pi io b :
  or_connection_id res = oe_id e -> or_port res = ro_port resolved -> or_profile res = to_session_result b ->
  server_get s' (oe_id e)
    = Ok (with_profile (opened_connection (oe_now e) (oe_id e) resolved pi io) (Some b)) ->
  binding_fits plan b -> is_some (session_get (ss_sessions (sv_rx s')) (oe_id e)) = true ->
  established e resolved plan res s'.
Proof.
  intros Hid Hport Hprofile Hget Hb Hsession. split; [done|]. split; [done|]. eexists _, b.
  split_and!; [exact Hget|done..| |done].
  intros Hlog. by rewrite <- (effective_of_opened (oe_now e) (oe_id e) resolved pi io Hlog).
Qed.

Lemma open_session_spec e resolved pi plan dirty c s r s' :
  is_some (connections (sv_registry s) !! oe_id e) = true ->
  (exists io, c = from_io_with_config (oe_now e) (oe_id e) (into_connection_config resolved pi) io) ->
  open_session path e resolved pi plan dirty (oe_id e) c s = (r, s') ->
  others_kept (oe_id e) s s' /\ sv_registry s' = sv_registry s /\
  (touches_profiles plan = false -> sv_file s' = sv_file s /\ sv_store s' = sv_store s) /\
  match r with
  | Ok res => established e resolved plan res s'
  | Err (PeSession _) => sv_file s' = sv_file s /\ sv_store s' = sv_store s /\
      exists c', server_get s' (oe_id e) = Ok c' /\ sc_profile c' = None /\ is_some (sc_io c') = true
  | Err PeNoIdentity => plan = PlanGenerate /\ pi ≫= canonical_high_selector = None
  | Err _ => False
  end.
Proof.
  intros Hreg [io ->] Ho. unfold open_session in Ho. cbv zeta in Ho.
  assert (Hget := fun x s0 => registered_get s s0 (oe_id e) x Hreg).
  set (c := with_policy _ _) in Ho.
  assert (Hc : c = opened_connection (oe_now e) (oe_id e) resolved pi io) by done.
  destruct (get_or_create _ _ _ _) as [session m] eqn:Hrx.
  destruct session as [session|err].
  2: { injection Ho as <- <-. split; [|split; [done|split; [done|split_and!; try done] ] ].
       - intros i Hi. cbn. by rewrite lookup_insert_ne.
       - exists c. split; [|done]. apply Hget; [done|]. cbn. apply lookup_insert_eq. }
  apply get_or_create_get in Hrx.
  destruct (session_binding _ _ _ _ _ _ _ _ _) as [ [rb file] store] eqn:Hsb.
  apply session_binding_fits in Hsb as [Hb Hsame]. cbn [set_rx set_conn sv_file sv_store] in Hsame.
  destruct rb as [b|err].
  2: { destruct Hb as (-> & Hplan). injection Ho as <- <-.
       split; [|split; [done|split; [|done] ] ]; [intros i Hi; cbn; by rewrite lookup_insert_ne|].
       intros Ht. by destruct (Hsame Ht) as (-> & -> & _). }
  destruct (ab_dirty b) eqn:Hdirty.
  - destruct (learn_conn _ _ _ _ _ _ _) as [ [learned persistence] s2] eqn:Hl. injection Ho as <- <-.
    unfold learn_conn in Hl. cbn [with_profile sc_profile] in Hl.
    destruct (learn _ _ _ _ _ _ _ _) as [ [ [ [sess res'] file'] store'] binding'] eqn:Hlearn.
    injection Hl as <- _ <-. pose proof Hlearn as Hk.
    apply learn_keeps in Hk as (b' & -> & -> & Hsrc & Hpe & Hn & Hca & Hnp).
    split; [|split; [done|split] ].
    + intros i Hi. cbn. by rewrite !lookup_insert_ne.
    + intros Ht. destruct (Hsame Ht) as (_ & _ & Hclean). by rewrite (Hclean b eq_refl) in Hdirty.
    + apply (establish e resolved plan _ _ pi io b'); try done.
      * apply Hget; [done|]. apply lookup_insert_eq.
      * unfold binding_fits in *. rewrite Hsrc, Hpe, Hn, Hca. destruct plan; try done.
        destruct Hb as [Hb|(Hb1 & Hb2 & Hb3)]; [by left|right]. by rewrite (Hnp Hb2).
      * cbn. by rewrite Hrx.
  - injection Ho as <- <-. split; [|split; [done|split] ].
    2: { intros Ht. by destruct (Hsame Ht) as (-> & -> & _). }
    + intros i Hi. cbn. by rewrite !lookup_insert_ne.
    + apply (establish e resolved plan _ _ pi io b); try done.
      * apply Hget; [done|]. apply lookup_insert_eq.
      * cbn. by rewrite Hrx.
Qed.

(** C39: [open_connection], from the session plan on.  An open that is refused by the allowlist, by the settings
    or by the registry or the device leaves the process exactly as it was; one whose
    RX session cannot be paid for returns an error with the port open, without a
    binding and without a change to the profiles; and one that succeeds leaves a
    registered open connection whose effective defaults are the resolved settings,
    with an RX session and with the binding that the plan calls for, which is the one
    reported.  No other connection changes, and a transient or disabled plan touches
    no profile. *)
Theorem open_on_every_branch security e port overlay d pi plan s r s' :
  open_connection path security e port overlay d pi plan s = (r, s') ->
  others_kept (oe_id e) s s' /\
  (touches_profiles plan = false -> sv_file s' = sv_file s /\ sv_store s' = sv_store s) /\
  match r with
  | Err (PeNotAllowed _ _) => is_port_allowed security port = false /\ s' = s
  | Err (PeSettings err) => s' = s /\
      (resolve port overlay d = Err err \/
       exists p, (plan = PlanSelected p \/ plan = PlanExplicit p) /\ from_profile port p = Err err)
  | Err (PeSerial _) => s' = s
  | Err (PeSession _) => sv_file s' = sv_file s /\ sv_store s' = sv_store s /\
      exists c, server_get s' (oe_id e) = Ok c /\ sc_profile c = None /\ is_some (sc_io c) = true
  | Err PeNoIdentity => plan = PlanGenerate /\ pi ≫= canonical_high_selector = None
  | Err _ => False
  | Ok res => is_port_allowed security port = true /\
      exists resolved, resolve port overlay d = Ok resolved /\ established e resolved plan res s'
  end.
Proof.
  unfold open_connection. destruct (is_port_allowed security port) eqn:Ha; cbn [negb].
  2: { by intros [= <- <-]. }
  destruct (resolve port overlay d) as [resolved|err] eqn:Hr; cbn [map_err mbind result_bind].
  2: { intros [= <- <-]. split; [done|]. split; [done|]. split; [done|]. by left. }
  assert (Hport : ro_port resolved = port).
  { apply resolve_ok in Hr as (_ & _ & _ & _ & _ & E). by rewrite E. }
  destruct (plan_dirty plan resolved) as [dirty|err] eqn:Hd; cbn [map_err mbind result_bind].
  2: { intros [= <- <-]. split; [done|]. split; [done|]. split; [done|]. right.
       unfold plan_dirty, profile_only_differs in Hd. rewrite Hport in Hd.
       destruct plan as [| |p|p|]; try done; exists p; (split; [auto|]);
         destruct (from_profile port p) as [x|x]; cbn [mbind result_bind] in Hd; congruence. }
  destruct (manager_open _ _ _) as [ [id|err] s1] eqn:Hm; apply manager_open_spec in Hm.
  2: { subst s1. by intros [= <- <-]. }
  destruct Hm as (-> & io & ->). set (c := from_io_with_config _ _ _ io). set (s1 := set_conn _ _ c).
  assert (Hreg : is_some (connections (sv_registry s1) !! oe_id e) = true).
  { cbn. by rewrite lookup_insert_eq. }
  assert (Hget : server_get s1 (oe_id e) = Ok c).
  { unfold server_get, manager_get. destruct (connections (sv_registry s1) !! oe_id e); [|done].
    cbn [ok_or mbind result_bind]. subst s1. cbn. by rewrite lookup_insert_eq. }
  rewrite Hget. intros Ho. apply open_session_spec in Ho as (Hothers & Hregs & Hsame & Hres); [|done|by exists io].
  split.
  { intros i Hi. destruct (Hothers i Hi) as [-> ->]. subst s1. cbn. by rewrite !lookup_insert_ne. }
  split; [done|]. destruct r as [res|err]; [by eauto|]. by destruct err.
Qed.
End Open.

(** ** Runs *)

Definition tty_acm : list byte := bs "/dev/ttyACM1".
Definition demo_port : PortInfo := stm_port tty_acm (Some 2).
Definition demo_device (config : ConnectionConfig) : result SerialError Device :=
  Ok (mkDevice [] [] false false false (cc_settings config)).
Definition demo_env (id : list byte) : OpenEnv := mkEnv 5 id demo_device 7 no_faults no_faults.
Definition anywhere : SecurityManager := mkSecurity [].

(** A process whose store cached [cached], with [ps] in the file and [pool] bytes of
    buffer budget. *)
Definition demo_server (pool : Z) (cached ps : list Profile) : Server :=
  mkServer registry_new ∅ (session_start (AtomicB.mk pool pool pool)) (Some (2, ps)) (mkStore true cached).

Definition gps : Profile := device_profile (bs "gps") 10.

Definition plain_open (s : Server) : result PortError OpenResult * Server :=
  open_connection (bs "p.toml") anywhere (demo_env (bs "id")) tty_acm overlay_default
    (Some (p_defaults gps)) (Some demo_port) (PlanSelected gps) s.

Lemma open_on_every_branch_witness :
  let s := demo_server 1000000 [gps] [gps] in
  let r := (plain_open s).1 in let s' := (plain_open s).2 in
  plain_open s = (r, s') /\ others_kept (bs "id") s s' /\
  match r with
  | Ok res => exists resolved,
      resolve tty_acm overlay_default (Some (p_defaults gps)) = Ok resolved /\
      established (demo_env (bs "id")) resolved (PlanSelected gps) res s'
  | Err _ => False
  end.
Proof.
  intros s r s'. assert (E : plain_open s = (r, s')) by apply surjective_pairing. split; [exact E|].
  pose proof (open_on_every_branch (bs "p.toml") anywhere (demo_env (bs "id")) tty_acm overlay_default
    (Some (p_defaults gps)) (Some demo_port) (PlanSelected gps) s r s' E) as (Ho & _ & Hr).
  split; [exact Ho|]. destruct r as [res|err] eqn:Er.
  - exact (proj2 Hr).
  - subst r. assert (F : is_ok (plain_open s).1 = true) by (vm_compute; reflexivity).
    rewrite Er in F. discriminate F.
Defined.

(** With the default limits of [main.rs], 1 GiB for the program and 1 MiB for a tool, a
    ring of 2 MiB passes the check of [rx_buffer_size] and is refused by the budget
    once the hardware is open: the call fails, and the port is open and taken. *)
Definition default_limits_server : Server :=
  mkServer registry_new ∅ (session_start (AtomicB.mk (1024 * 1024 * 1024) (1024 * 1024) (1024 * 1024 * 1024)))
    (Some (2, [])) (mkStore true []).

Definition open_with_ring (size : Z) (s : Server) : result PortError OpenResult * Server :=
  open_connection (bs "p.toml") anywhere (demo_env (bs "id")) tty_acm
    (overlay_of_profile_args None None None (Some size)) None (Some demo_port) (PlanDisabled ConfHigh) s.

Example failed_session_leaves_port_open :
  let '(r, s) := open_with_ring (2 * 1024 * 1024) default_limits_server in
  match r with Err (PeSession (RingBudget (OverToolLimit _ _))) => True | _ => False end /\
  match (open_with_ring 1024 s).1 with Err (PeSerial (PortAlreadyOpen _ _ _)) => True | _ => False end.
Proof. vm_compute. done. Qed.

(** Another process has set the profile to 19200 baud; this process opens the port
    from its cached profile, at 115200, and marks the fresh one used: the binding gets
    the new revision with the old settings, and the close writes them over the
    change. *)
Definition changed_elsewhere : list Profile :=
  run_store [gps] [(OpUpdateDefaults (bs "gps")
    (mkDefaults 19200 (bs "8") (bs "1") (bs "none") (bs "none") None None None None None
       (256 * 1024) 32768 ReconnectPolicy_default 1024 true) true, 2)].

Definition baud_in (file : option (Z * list Profile)) (name : list byte) : option Z :=
  '(_, ps) ← file; p ← find_profile name ps; Some (pd_baud_rate (p_defaults p)).

Example cached_open_overwrites_newer_profile :
  let s := demo_server 1000000 [gps] changed_elsewhere in
  let '(_, s1) := open_profile (bs "p.toml") anywhere (Ok [demo_port]) (demo_env (bs "id")) (bs "gps")
                    overlay_default s in
  let '(r, s2) := close_tool (bs "p.toml") 6 None no_faults (bs "id") s1 in
  baud_in (sv_file s) (bs "gps") = Some 19200 /\ baud_in (sv_file s2) (bs "gps") = Some 115200 /\
  match r with
  | Ok res => match pp_state (cl_profile_persistence res) with PsPersisted => True | _ => False end
  | Err _ => False
  end.
Proof. vm_compute. done. Qed.

(** [configure] with one field given resets the others. *)
Example configure_resets_omitted_fields :
  let s := (plain_open (demo_server 1000000 [gps] [gps])).2 in
  let with_max n := mkDefaults 115200 (bs "8") (bs "1") (bs "none") (bs "none") None None None None None
                      (256 * 1024) n ReconnectPolicy_default 1024 true in
  let with_protocol := mkDefaults 115200 (bs "8") (bs "1") (bs "none") (bs "none") None None None None
                      (Some PAtCommand) (256 * 1024) 32768 ReconnectPolicy_default 1024 true in
  let s := (configure (bs "p.toml") 6 no_faults None (Some (bs "id")) with_protocol false s).2 in
  let before := (fun c => cd_protocol (sc_defaults c)) <$> sv_conns s !! bs "id" in
  let s := (configure (bs "p.toml") 7 no_faults None (Some (bs "id")) (with_max 100) false s).2 in
  before = Some (Some PAtCommand) /\
  (fun c => cd_protocol (sc_defaults c)) <$> sv_conns s !! bs "id" = Some None.
Proof. vm_compute. done. Qed.

(** [configure] in connection mode writes the profile file, although the description of
    the tool says that it does not persist to disk: the result reports
    [state = "persisted"], and the profile the connection was opened from has the new
    limit and a new revision. *)
Example connection_configure_persists :
  let s := (plain_open (demo_server 1000000 [gps] [gps])).2 in
  let d := mkDefaults 115200 (bs "8") (bs "1") (bs "none") (bs "none") None None None None None
             (256 * 1024) 4096 ReconnectPolicy_default 1024 true in
  let limits file := match load_validated file None with
                     | Ok ps => (fun p => (pm_revision (p_metadata p), pd_max_buffered_bytes (p_defaults p))) <$>
                                  find_profile (bs "gps") ps
                     | Err _ => None end in
  let '(r, s') := configure (bs "p.toml") 6 no_faults None (Some (bs "id")) d false s in
  match r with
  | Ok (ConfiguredConnection _ _ persistence) => pp_state persistence = PsPersisted
  | _ => False
  end /\
  limits (sv_file s) = Some (1, 32768) /\ limits (sv_file s') = Some (2, 4096).
Proof. vm_compute. done. Qed.

(** *** Witnesses of the other properties of the tools *)

Lemma preview_announces_open_witness :
  let s := mkStore true [] in let file : option (@TomlText toml_reference) := Some (2, [gps]) in
  exists shown matches_ m plan,
    list_ports (Ok [demo_port]) no_faults file s = (Ok (shown, matches_), mkStore true [gps]) /\
    m ∈ matches_ /\ announces m plan /\
    plan_session None (find_port shown tty_acm) shown no_faults file (mkStore true [gps])
    = (Ok plan, mkStore true [gps]).
Proof.
  intros s file. exists [demo_port], (compute_profile_matches [demo_port] [gps]).
  destruct (preview_announces_open [demo_port] no_faults file s [gps] (mkStore true [gps]) [demo_port]
    (compute_profile_matches [demo_port] [gps]) demo_port None) as (_ & _ & m & plan & Hin & _ & Hplan & Ha).
  - reflexivity.
  - reflexivity.
  - reflexivity.
  - discriminate.
  - exists m, plan. split; [reflexivity|]. split; [exact Hin|]. split; [exact Ha|exact Hplan].
Defined.

(** A process with the port open from the profile [gps], whose revision 1 has been
    changed to 2. *)
Definition opened_gps : Server := (plain_open (demo_server 1000000 [gps] changed_elsewhere)).2.

Definition after_rollback : result PortError (Profile * nat) * Server :=
  rollback_profile 8 no_faults (bs "gps") 2 1 opened_gps.

Definition file_profiles (file : option (@TomlText toml_reference)) : list Profile :=
  match file with Some (_, ps) => ps | None => [] end.

Definition busy_session : list ConnCall :=
  [CallReconfigure 9 None no_faults (bs "id") (mkReconfigureArgs (Some 4800) None None None None);
   CallConfigure 10 no_faults (bs "id") ProfileDefaults_default;
   CallClose 11 None no_faults (bs "id")].

Lemma rolled_back_profile_stays_witness :
  match after_rollback with
  | (Ok (p, n), s') =>
      n = 1%nat /\ exists ps', holds (sv_file (foldl (run_conn_call (bs "p.toml")) s' busy_session)) ps' /\
        find_profile (bs "gps") ps' = Some p
  | _ => False
  end.
Proof.
  destruct after_rollback as [ [ [p n]|err] s'] eqn:E.
  - destruct (rolled_back_profile_stays (bs "p.toml") 8 no_faults (bs "gps") 2 1 opened_gps p n s'
      (file_profiles (sv_file opened_gps)) busy_session) as [Hn Hps].
    + vm_compute. reflexivity.
    + vm_compute. reflexivity.
    + exact E.
    + split; [rewrite Hn; vm_compute; reflexivity|exact Hps].
  - assert (F : is_ok after_rollback.1 = true) by (vm_compute; reflexivity).
    rewrite E in F. discriminate F.
Defined.

Definition to_4800 : ConnCall :=
  CallReconfigure 9 None no_faults (bs "id") (mkReconfigureArgs (Some 4800) None None None None).
Definition clean_gps : Server := (plain_open (demo_server 1000000 [gps] [gps])).2.

Definition rx_of (c : result PortError SerialConnection) : Z :=
  match c with Ok c => sc_rx_buffer_size (sc_identity c) | Err _ => 0 end.

Lemma persisted_settings_reopen_witness :
  match lookup clean_gps (bs "id"), persistence_of (bs "p.toml") clean_gps to_4800 with
  | Ok c, Some res => exists c' p,
      sv_conns (run_conn_call (bs "p.toml") clean_gps to_4800) !! bs "id" = Some c' /\
      from_profile (sc_port (sc_identity c)) p
      = Ok (with_name (settings_of c') (reopened_name (settings_of c')))
  | _, _ => False
  end.
Proof.
  destruct (lookup clean_gps (bs "id")) as [c|err] eqn:Ec.
  2: { assert (F : is_ok (lookup clean_gps (bs "id")) = true) by (vm_compute; reflexivity).
       rewrite Ec in F. discriminate F. }
  assert (Hrx : bool_decide (1 <= rx_of (lookup clean_gps (bs "id")) <= MAX_RX_BUFFER_SIZE) = true)
    by (vm_compute; reflexivity).
  rewrite Ec in Hrx. apply bool_decide_eq_true in Hrx.
  destruct (persistence_of (bs "p.toml") clean_gps to_4800) as [res|] eqn:Er.
  2: { assert (F : is_some (persistence_of (bs "p.toml") clean_gps to_4800) = true) by (vm_compute; reflexivity).
       rewrite Er in F. discriminate F. }
  assert (Hp : pp_state <$> persistence_of (bs "p.toml") clean_gps to_4800 = Some PsPersisted)
    by (vm_compute; reflexivity).
  rewrite Er in Hp. injection Hp as Hp.
  destruct (persisted_settings_reopen (bs "p.toml") clean_gps to_4800 c (file_profiles (sv_file clean_gps)) res)
    as (c' & b & ps' & p & Hc' & _ & _ & _ & _ & _ & Hre).
  - vm_compute. reflexivity.
  - vm_compute. reflexivity.
  - exact Ec.
  - exact Hrx.
  - exact Er.
  - exact Hp.
  - exists c', p. split; [exact Hc'|exact Hre].
Defined.
