(* ===== verification/Startup.v ===== *)
(** * Starting the server

    [src/main.rs], [src/mcp_protocol.rs] and [src/http_transport.rs]: the command
    line, as far as the options' values decide, the stores it starts, and the
    protocol versions a client can enter with.  Parsing an option out of the argument
    list is the business of [pico_args]; what it yields is an argument here. *)

From S2P Require Import Prelude RustStr Extern ExternModel BufferBudget Tools CaptureStore.

(** ** The version flag *)

Definition VALUE_TAKING_OPTIONS : list (list byte) :=
  [bs "--transport"; bs "--allowlist"; bs "--bind"; bs "--max-program-buffered-bytes";
   bs "--max-tool-buffered-bytes"; bs "--profiles-path"; bs "--capture-dir";
   bs "--capture-max-file-bytes"; bs "--capture-max-total-bytes"; bs "--capture-max-files"].

(** The loop of [argv_has_version_flag]. *)
Fixpoint version_flag_loop (expect_value : bool) (args : list (list byte)) : bool :=
  match args with
  | [] => false
  | arg :: args =>
      if expect_value then version_flag_loop false args
      else if bool_decide (arg = bs "--") then false
      else if bool_decide (arg ∈ VALUE_TAKING_OPTIONS) then version_flag_loop true args
      else if bool_decide (arg = bs "-V") || bool_decide (arg = bs "--version") then true
      else version_flag_loop false args
  end.

Definition argv_has_version_flag (argv : list (list byte)) : bool :=
  version_flag_loop false (drop 1 argv).

(** The version requests of [parse_args]. *)
Definition version_requested (argv : list (list byte)) : bool :=
  argv_has_version_flag argv || bool_decide (argv !! 1%nat = Some (bs "version")).

(** ** The options *)

Definition DEFAULT_HTTP_BIND : list byte := bs "127.0.0.1:8000".
Definition DEFAULT_MAX_PROGRAM_BUFFERED_BYTES : Z := 1024 * 1024 * 1024.
Definition DEFAULT_MAX_TOOL_BUFFERED_BYTES : Z := 1024 * 1024.
Definition DEFAULT_CAPTURE_MAX_FILE_BYTES : Z := 16 * 1024 * 1024.
Definition DEFAULT_CAPTURE_MAX_TOTAL_BYTES : Z := 256 * 1024 * 1024.
Definition DEFAULT_CAPTURE_MAX_FILES : Z := 256.

(** What [pico_args] finds. *)
Record RawArgs := mkRaw {
  raw_transport : option (list byte);
  raw_allowlist : option (list byte);
  raw_bind : option (list byte);
  raw_max_program : option Z;
  raw_max_tool : option Z;
  raw_profiles_path : option (list byte);
  raw_capture_dir : option (list byte);
  raw_capture_file : option Z;
  raw_capture_total : option Z;
  raw_capture_files : option Z;
  raw_remaining : list (list byte);
}.

Inductive Transport := Stdio | Http.

Record Args := mkArgs {
  a_transport : Transport;
  a_allowlist : list (list byte);
  a_bind : list byte;
  a_max_program_buffered_bytes : Z;
  a_max_tool_buffered_bytes : Z;
  a_profiles_path : option (list byte);
  a_capture_dir : option (list byte);
  a_capture_limits : CaptureLimits;
}.

Inductive ArgsError :=
  | UnknownTransport (other : list byte)
  | UnexpectedArguments (remaining : list (list byte))
  | ProgramBudgetZero
  | ToolBudgetZero
  | ToolOverProgram (tool program : Z)
  | QuotaWithoutDir
  | CaptureLimitZero
  | CaptureFileOverTotal (file total : Z).

(** [s.split(',')]. *)
Fixpoint split_comma (current s : list byte) : list (list byte) :=
  match s with
  | [] => [current]
  | x2c :: s => current :: split_comma [] s
  | b :: s => split_comma (current ++ [b]) s
  end.

Definition parse_allowlist (s : option (list byte)) : list (list byte) :=
  filter (fun p => p <> []) (trim <$> split_comma [] (default [] s)).

(** [parse_args], after the version and help requests. *)
Definition parse_args (r : RawArgs) : result ArgsError Args :=
  transport ← match raw_transport r with
              | None => Ok Stdio
              | Some t =>
                  if bool_decide (t = bs "http") then Ok Http
                  else if bool_decide (t = bs "stdio") then Ok Stdio else Err (UnknownTransport t)
              end;
  let max_program := default DEFAULT_MAX_PROGRAM_BUFFERED_BYTES (raw_max_program r) in
  let max_tool := default DEFAULT_MAX_TOOL_BUFFERED_BYTES (raw_max_tool r) in
  let limits :=
    mkLimits (default DEFAULT_CAPTURE_MAX_FILE_BYTES (raw_capture_file r))
      (default DEFAULT_CAPTURE_MAX_TOTAL_BYTES (raw_capture_total r))
      (default DEFAULT_CAPTURE_MAX_FILES (raw_capture_files r)) in
  let quotas_supplied :=
    is_some (raw_capture_file r) || is_some (raw_capture_total r) || is_some (raw_capture_files r) in
  if negb (bool_decide (raw_remaining r = [])) then Err (UnexpectedArguments (raw_remaining r))
  else if max_program =? 0 then Err ProgramBudgetZero
  else if max_tool =? 0 then Err ToolBudgetZero
  else if max_program <? max_tool then Err (ToolOverProgram max_tool max_program)
  else if quotas_supplied && negb (is_some (raw_capture_dir r)) then Err QuotaWithoutDir
  else if (max_file_bytes limits =? 0) || (max_total_bytes limits =? 0) || (max_files limits =? 0)
  then Err CaptureLimitZero
  else if max_total_bytes limits <? max_file_bytes limits
  then Err (CaptureFileOverTotal (max_file_bytes limits) (max_total_bytes limits))
  else
    Ok (mkArgs transport (parse_allowlist (raw_allowlist r)) (default DEFAULT_HTTP_BIND (raw_bind r))
          max_program max_tool (raw_profiles_path r) (raw_capture_dir r) limits).

(** [wants_ephemeral_port]; [parse::<u16>] refuses what is over 65535 and, like
    every unsigned parse, accepts a leading plus sign. *)
Definition parse_u16 (s : list byte) : option Z :=
  match parse_usize s with Some n => if n <=? 65535 then Some n else None | None => None end.

Fixpoint after_last_colon (s : list byte) : option (list byte) :=
  match s with
  | [] => None
  | b :: s =>
      match after_last_colon s with
      | Some port => Some port
      | None => if bool_decide (b = x3a) then Some s else None
      end
  end.

Definition wants_ephemeral_port (bind : list byte) : bool :=
  match after_last_colon bind with Some port => bool_decide (parse_u16 port = Some 0) | None => false end.

(** ** What [main] starts *)

(** The capture store: [dir] is what the file system says about the directory. *)
Record DirFacts := mkDirFacts {
  df_absolute : bool;
  df_meta : result (list byte) Entry;
  df_is_dir : bool;
  df_canonical : result (list byte) (list byte);
}.

Definition start_capture (a : Args) (io_ : CommitFaults) (f : DirFacts) (d : Dir)
    : result CaptureError CaptureStore * Dir :=
  match a_capture_dir a with
  | Some _ =>
      capture_open io_ (df_absolute f) (df_meta f) (df_is_dir f) (df_canonical f) d (a_capture_limits a)
  | None => (Ok capture_disabled, d)
  end.

(** [AtomicBudget::new]; [None] is its panic. *)
Definition start_budget (a : Args) : option AtomicB.AtomicBudget :=
  AtomicB.new (a_max_program_buffered_bytes a) (a_max_tool_buffered_bytes a).

Definition start_security `{GlobCrate} (a : Args) : SecurityManager := from_patterns (a_allowlist a).

(** ** Protocol versions *)

Inductive ProtocolLifecycle := InitializeSession | DiscoverStateless.
Inductive CachePolicy := CacheOmit | CacheImmediatePrivate.

#[export] Instance ProtocolLifecycle_eq_dec : EqDecision ProtocolLifecycle.
Proof. solve_decision. Defined.

Record ProtocolPolicy := mkProtocol {
  pp_version : list byte;
  pp_lifecycle : ProtocolLifecycle;
  pp_cache : CachePolicy;
  pp_resource_subscriptions : bool;
}.

Definition SUPPORTED_PROTOCOLS : list ProtocolPolicy :=
  [mkProtocol (bs "2026-07-28") DiscoverStateless CacheImmediatePrivate true;
   mkProtocol (bs "2025-11-25") InitializeSession CacheOmit false].

(** [policy_for] and [policy_for_str]. *)
Definition policy_for (version : list byte) : option ProtocolPolicy :=
  snd <$> list_find (fun p => pp_version p = version) SUPPORTED_PROTOCOLS.

Definition preferred_policy : ProtocolPolicy :=
  mkProtocol (bs "2026-07-28") DiscoverStateless CacheImmediatePrivate true.

Definition supported_protocol_versions : list (list byte) := pp_version <$> SUPPORTED_PROTOCOLS.

Definition cache_fields_for (version : option (list byte)) : bool :=
  match version ≫= policy_for with
  | Some p => match pp_cache p with CacheImmediatePrivate => true | CacheOmit => false end
  | None => false
  end.

(** [initialize] of [server.rs]; [None] is the method-not-found error. *)
Definition initialize (version : list byte) : option ProtocolPolicy :=
  match policy_for version with
  | Some p => if bool_decide (pp_lifecycle p = InitializeSession) then Some p else None
  | None => None
  end.

(** The session mode [http_transport::router] gives the transport for one request;
    [legacy] is the configured one. *)
Definition legacy_session_mode (legacy : bool) (header : option (list byte)) : bool :=
  match header ≫= policy_for with
  | Some p => if bool_decide (pp_lifecycle p = DiscoverStateless) then false else legacy
  | None => legacy
  end.

(** ** Properties *)

(** The rows of the table. *)
Lemma policy_cases version :
  (version = bs "2026-07-28" /\ policy_for version = Some preferred_policy) \/
  (version = bs "2025-11-25" /\
   policy_for version = Some (mkProtocol (bs "2025-11-25") InitializeSession CacheOmit false)) \/
  (version ∉ supported_protocol_versions /\ policy_for version = None).
Proof.
  destruct (decide (version = bs "2026-07-28")) as [->|H1]; [by left|].
  destruct (decide (version = bs "2025-11-25")) as [->|H2]; [by right; left|].
  right; right. split.
  - unfold supported_protocol_versions. cbn [fmap list_fmap map SUPPORTED_PROTOCOLS pp_version].
    rewrite !elem_of_cons, elem_of_nil. naive_solver.
  - unfold policy_for. rewrite (proj2 (list_find_None _ _)); [done|].
    repeat (apply Forall_cons; split; [intros E; cbn in E; by subst|]). by apply Forall_nil.
Qed.

(** The three rows of the table for a version. *)
Ltac row v Hv :=
  destruct (policy_cases v) as [ [-> ->]|[ [-> ->]|[Hv ->] ] ];
  (split; [cbn; intros ?; try done|intros E]); simplify_eq; try done.

(** A version admits a client in exactly one way:
    [initialize] accepts the 2025-11-25 version and nothing else, the HTTP transport
    turns sessions off for the 2026-07-28 version and nothing else, cache fields go to
    the 2026-07-28 version only, and the first supported version is the preferred one,
    which has the resource subscriptions. *)
Theorem protocol_versions_are_exact :
  (forall version, is_some (initialize version) = true <-> version = bs "2025-11-25") /\
  (forall header, legacy_session_mode true header = false <-> header = Some (bs "2026-07-28")) /\
  (forall version, cache_fields_for version = true <-> version = Some (bs "2026-07-28")) /\
  (forall version legacy, is_some (initialize version) = true ->
     legacy_session_mode legacy (Some version) = legacy /\ cache_fields_for (Some version) = false) /\
  head SUPPORTED_PROTOCOLS = Some preferred_policy /\
  (forall p, p ∈ SUPPORTED_PROTOCOLS -> pp_resource_subscriptions p = true <-> p = preferred_policy).
Proof.
  assert (Hne : bs "2026-07-28" <> bs "2025-11-25") by discriminate.
  assert (Hnone : forall v, v ∉ supported_protocol_versions -> v <> bs "2026-07-28" /\ v <> bs "2025-11-25").
  { intros v Hv. split; intros ->; apply Hv; apply (bool_decide_eq_true_1 _); by vm_compute. }
  split_and!.
  - intros v. unfold initialize. row v Hv. by destruct (Hnone _ Hv).
  - intros [v|]; unfold legacy_session_mode; cbn [mbind option_bind]; [|by split]. row v Hv.
    by destruct (Hnone _ Hv).
  - intros [v|]; unfold cache_fields_for; cbn [mbind option_bind]; [|by split]. row v Hv.
    by destruct (Hnone _ Hv).
  - intros v legacy. unfold initialize, legacy_session_mode, cache_fields_for. cbn [mbind option_bind].
    by destruct (policy_cases v) as [ [-> ->]|[ [-> ->]|[Hv ->] ] ].
  - done.
  - intros p. unfold SUPPORTED_PROTOCOLS. rewrite !elem_of_cons, elem_of_nil.
    intros [->|[->|[] ] ]; cbn; split; done.
Qed.

(** The sizes on the command line are unsigned. *)
Definition raw_sizes_ok (raw : RawArgs) : Prop :=
  (forall n, raw_max_program raw = Some n -> 0 <= n) /\ (forall n, raw_max_tool raw = Some n -> 0 <= n).

(** What the checks of [parse_args] leave: the options as they were given, with limits
    that are not zero and in order. *)
Lemma parse_args_ok raw a :
  parse_args raw = Ok a ->
  a_profiles_path a = raw_profiles_path raw /\ a_capture_dir a = raw_capture_dir raw /\
  a_max_program_buffered_bytes a = default DEFAULT_MAX_PROGRAM_BUFFERED_BYTES (raw_max_program raw) /\
  a_max_tool_buffered_bytes a = default DEFAULT_MAX_TOOL_BUFFERED_BYTES (raw_max_tool raw) /\
  a_max_program_buffered_bytes a <> 0 /\ a_max_tool_buffered_bytes a <> 0 /\
  a_max_tool_buffered_bytes a <= a_max_program_buffered_bytes a /\
  (let l := a_capture_limits a in
   (max_file_bytes l =? 0) || (max_total_bytes l =? 0) || (max_files l =? 0) = false /\
   (max_total_bytes l <? max_file_bytes l) = false).
Proof.
  intros Hp. unfold parse_args in Hp. apply result_bind_ok in Hp as (t & _ & Hp). cbv zeta in Hp.
  destruct (negb (bool_decide (raw_remaining raw = []))); [done|].
  destruct (Z.eqb_spec (default DEFAULT_MAX_PROGRAM_BUFFERED_BYTES (raw_max_program raw)) 0) as [|Hp0]; [done|].
  destruct (Z.eqb_spec (default DEFAULT_MAX_TOOL_BUFFERED_BYTES (raw_max_tool raw)) 0) as [|Ht0]; [done|].
  destruct (Z.ltb_spec (default DEFAULT_MAX_PROGRAM_BUFFERED_BYTES (raw_max_program raw))
    (default DEFAULT_MAX_TOOL_BUFFERED_BYTES (raw_max_tool raw))) as [|Hle]; [done|].
  destruct (_ && negb _); [done|].
  set (limits := mkLimits _ _ _) in Hp. destruct (_ || _ || _) eqn:Hz in Hp; [done|].
  destruct (max_total_bytes limits <? max_file_bytes limits) eqn:Hft in Hp; [done|].
  injection Hp as <-. by split_and!.
Qed.

Lemma accepted_options raw a :
  parse_args raw = Ok a ->
  a_profiles_path a = raw_profiles_path raw /\ a_capture_dir a = raw_capture_dir raw.
Proof. intros Hp%parse_args_ok. split; apply Hp. Qed.

Lemma accepted_budget raw a :
  parse_args raw = Ok a -> raw_sizes_ok raw ->
  exists b, start_budget a = Some b /\ AtomicB.available b = a_max_program_buffered_bytes a /\
    0 < AtomicB.tool_limit b <= AtomicB.program_limit b.
Proof.
  intros (_ & _ & Ep & Et & Hp0 & Ht0 & Hle & _)%parse_args_ok [Hpos1 Hpos2].
  assert (0 < a_max_program_buffered_bytes a).
  { rewrite Ep in *. destruct (raw_max_program raw) as [n|]; cbn in *; [specialize (Hpos1 n eq_refl); lia|done]. }
  assert (0 < a_max_tool_buffered_bytes a).
  { rewrite Et in *. destruct (raw_max_tool raw) as [n|]; cbn in *; [specialize (Hpos2 n eq_refl); lia|done]. }
  unfold start_budget, AtomicB.new. rewrite !(proj2 (Z.ltb_lt _ _)), (proj2 (Z.leb_le _ _)) by lia.
  cbn [andb]. eexists. split; [done|]. cbn. lia.
Qed.

(** Whenever the command line is accepted, the buffer
    budget is made (its assertions hold), with the whole program limit free and a
    positive tool limit within it, and the capture store refuses to start only because
    of its directory: the checks of the limits that it repeats cannot fail. *)
Theorem checked_arguments_start raw a :
  parse_args raw = Ok a ->
  (forall n, raw_max_program raw = Some n -> 0 <= n) -> (forall n, raw_max_tool raw = Some n -> 0 <= n) ->
  (exists b, start_budget a = Some b /\ AtomicB.available b = a_max_program_buffered_bytes a /\
     0 < AtomicB.tool_limit b <= AtomicB.program_limit b) /\
  (forall io_ f d r d', start_capture a io_ f d = (Err r, d') ->
     is_some (raw_capture_dir raw) = true /\ r <> LimitZero /\ forall x y, r <> FileLimitOverTotal x y).
Proof.
  intros Hp Hpos1 Hpos2. split; [by apply (accepted_budget raw)|].
  intros io_ f d r d'. apply parse_args_ok in Hp as (_ & Hdir & _ & _ & _ & _ & _ & Hz & Hft).
  unfold start_capture. rewrite Hdir. destruct (raw_capture_dir raw) as [dir|]; [|done].
  unfold capture_open. rewrite Hz, Hft.
  destruct (df_absolute f); cbn [negb]; [|by intros [= <- <-] ].
  destruct (df_meta f) as [ [ | | ]|e]; cbn [map_err];
    try (destruct (df_is_dir f); cbn [negb]; [|by intros [= <- <-] ]); try (by intros [= <- <-]);
    (destruct (df_canonical f); cbn [map_err]; [|by intros [= <- <-] ]);
    destruct (acquire_root_lock io_ d) as [locked d1] eqn:Hl; intros [= Hr <-];
    unfold acquire_root_lock, symlink_metadata, io in Hl; repeat case_match; simplify_eq/=; done.
Qed.

Definition plain_args : RawArgs :=
  mkRaw None (Some (bs "/dev/ttyACM*, ,/dev/ttyUSB*")) None None None None (Some (bs "/srv/captures"))
    (Some 1024) None None [].

Lemma checked_arguments_start_witness :
  match parse_args plain_args with
  | Ok a => a_allowlist a = [bs "/dev/ttyACM*"; bs "/dev/ttyUSB*"] /\
      exists b, start_budget a = Some b /\ AtomicB.available b = a_max_program_buffered_bytes a /\
        0 < AtomicB.tool_limit b <= AtomicB.program_limit b
  | Err _ => False
  end.
Proof.
  destruct (parse_args plain_args) as [a|e] eqn:E.
  - split; [assert (F : a_allowlist <$> parse_args plain_args = Ok [bs "/dev/ttyACM*"; bs "/dev/ttyUSB*"])
              by (vm_compute; reflexivity); rewrite E in F; injection F as F; exact F|].
    destruct (checked_arguments_start plain_args a E) as [Hb _].
    + intros n F. discriminate F.
    + intros n F. discriminate F.
    + exact Hb.
  - assert (F : is_ok (parse_args plain_args) = true) by (vm_compute; reflexivity).
    rewrite E in F. discriminate F.
Defined.

(** Patterns that do not compile are left out, so a list of nothing else allows every
    port. *)
Lemma invalid_allowlist_allows_everything `{GlobCrate} a port :
  (forall p, p ∈ a_allowlist a -> is_ok (pattern_new p) = false) ->
  is_port_allowed (start_security a) port = true.
Proof.
  intros Hp. unfold is_port_allowed, start_security, from_patterns. cbn [allowlist].
  assert (E : omap (fun s => match pattern_new s with Ok p => Some p | Err _ => None end) (a_allowlist a) = []).
  { induction (a_allowlist a) as [|q l IH]; [done|]. cbn [omap list_omap].
    specialize (Hp q) as Hq. destruct (pattern_new q); [by specialize (Hq (list_elem_of_here _ _))|].
    apply IH. intros p Hin. apply Hp. by apply list_elem_of_further. }
  by rewrite E.
Qed.

Example version_is_a_value : argv_has_version_flag [bs "serial-mcp"; bs "--bind"; bs "--version"] = false /\
  argv_has_version_flag [bs "serial-mcp"; bs "--bind=x"; bs "--version"] = true.
Proof. vm_compute. done. Qed.
