(* ===== verification/ServerTools.v ===== *)
(** * The log tools, the checksum tool and the resources

    [get_log], [clear_log] and [export_log] of [src/tools/port_ops.rs],
    [src/tools/utility_ops.rs], and the resource and completion handlers of
    [src/server.rs]. *)

From S2P Require Import Prelude RustStr Checksums Extern ExternModel Codec LogBuffer CaptureStore BufferBudget RxSession SerialConfig Manager Connection Profiles ProfileStore PortPlan PortTools Resources Startup.

(** ** The log of a connection *)

Record GetLogResult := mkGetLog {
  gl_log_enabled : bool;
  gl_capacity : nat;
  gl_total_events : nat;
  gl_events : list LogEntry;
}.

(** [get_log], once the connection is found. *)
Definition get_log (c : SerialConnection) (since_ms : option Z) (limit : option nat) : GetLogResult :=
  let log := sc_log c in
  let all := snapshot log in
  let filtered :=
    List.filter (fun e => match since_ms with Some since => since <=? timestamp_ms e | None => true end) all in
  let events :=
    match limit with
    | Some limit =>
        if (limit <? length filtered)%nat then drop (length filtered - limit) filtered else filtered
    | None => filtered
    end in
  mkGetLog (enabled log) (log_capacity log) (length all) events.

Definition clear_log (c : SerialConnection) : SerialConnection := with_log c (log_clear (sc_log c)).

Record ExportLogResult := mkExport {
  ex_path : list byte;
  ex_events_written : Z;
  ex_bytes_written : Z;
  ex_files_used : Z;
  ex_total_bytes_used : Z;
  ex_durability_warning : option (list byte);
}.

Inductive ExportError (E : Type) :=
  | ExportCapture (e : CaptureError)
  | ExportNotFound
  | ExportSnapshot (e : JsonlError E).
Arguments ExportCapture {_} _.
Arguments ExportNotFound {_}.
Arguments ExportSnapshot {_} _.

(** [export_log] on the capture directory; [tmp] is the temporary name drawn. *)
Definition export_log {E} (to_string : LogEntry -> result E (list byte)) (store : CaptureStore)
    (io_ : CommitFaults) (tmp : list byte) (d : Dir) (found : option SerialConnection) (name : list byte)
    : result (ExportError E) ExportLogResult * Dir :=
  if negb (is_enabled store) then (Err (ExportCapture CaptureDisabled), d)
  else
    match _ ← map_err ExportCapture (validate_capture_filename name);
          c ← ok_or found ExportNotFound;
          map_err ExportSnapshot (jsonl_snapshot to_string (sc_log c) (max_file_bytes (limits store))) with
    | Err e => (Err e, d)
    | Ok snapshot =>
        let '(r, d) := write_new store io_ tmp d name (jsonl_bytes snapshot) in
        (write ← map_err ExportCapture r;
         Ok (mkExport (cw_path write) (jsonl_events snapshot) (bytes_written write) (files_used write)
               (total_bytes_used write) (durability_warning write)), d)
    end.

(** ** [compute_checksum] *)

Inductive ChecksumAlgorithm := CkXor | CkLrc.

Record ComputeChecksumResult := mkChecksum {
  cc_algorithm : list byte;
  cc_checksum_hex : list byte;
  cc_checksum : byte;
  cc_byte_count : Z;
}.

Section Checksum.
Context `{HexCrate, Base64Crate}.

Definition compute_checksum (encoding data : list byte) (algorithm : ChecksumAlgorithm)
    : result CodecError ComputeChecksumResult :=
  encoding ← Encoding_from_str encoding;
  bytes ← decode encoding data;
  let '(algo_name, cs) :=
    match algorithm with
    | CkXor => (bs "xor", xor_checksum bytes)
    | CkLrc => (bs "lrc", lrc bytes)
    end in
  Ok (mkChecksum algo_name (hex2 true cs) cs (zlen bytes)).
End Checksum.

(** ** Reading a resource *)

(** The polls of [read(dst, Some(timeout))] with their times; [None] when none of
    them ended the call. *)
Fixpoint conn_read (c : SerialConnection) (deadline : Z) (max : nat) (polls : list (Z * PollResult))
    : option (result SerialError (list byte)) * SerialConnection :=
  match polls with
  | [] => (None, c)
  | (now, poll) :: polls =>
      let '(r, c) := read_poll c now deadline max poll in
      match r with Some r => (Some r, c) | None => conn_read c deadline max polls end
  end.

(** [read_latest]. *)
Definition read_latest (c : SerialConnection) (start : Z) (max_bytes : nat) (polls : list (Z * PollResult))
    : option (result SerialError (list byte)) * SerialConnection :=
  conn_read c (start + 100) max_bytes polls.

(** The contents of a resource before it is rendered as JSON. *)
Inductive ResourceBody :=
  | BodyPorts (ports : list PortInfo) (profile_matches : list PortProfileMatch)
  | BodyConnections (connections : list ConnectionSummary)
  | BodyConnection (summary : ConnectionSummary)
  | BodyRaw (blob : list byte)
  | BodyLog (text : list byte).

Inductive ResourceError (E : Type) :=
  | RePorts (e : ListPortsError)
  | ReConnectionNotFound (uri id : list byte)
  | ReResourceNotFound (uri : list byte)
  | ReRead (e : SerialError)
  | ReSerialize (e : E).
Arguments RePorts {_} _.
Arguments ReConnectionNotFound {_} _ _.
Arguments ReResourceNotFound {_} _.
Arguments ReRead {_} _.
Arguments ReSerialize {_} _.

Section ReadResource.
Context `{Base64Crate, GlobCrate, TomlCrate} {E : Type} (to_string : LogEntry -> result E (list byte)).

(** The loop over the events of a log. *)
Fixpoint log_text (events : list LogEntry) : result E (list byte) :=
  match events with
  | [] => Ok []
  | event :: events =>
      line ← to_string event; rest ← log_text events; Ok (line ++ [x0a] ++ rest)
  end.

(** [read_resource] up to the rendering: the contents, whether cache fields are
    added, and the state.  [None] is a raw read that still waits. *)
Definition read_resource (uri : list byte) (version : option (list byte))
    (enumerated : result (list byte) (list PortInfo)) (io : IoFaults) (start : Z)
    (polls : list (Z * PollResult)) (s : Server)
    : option (result (ResourceError E) (ResourceBody * bool)) * Server :=
  let done r := Some (body ← r; Ok (body, cache_fields_for version)) in
  let found id := map_err (fun _ => ReConnectionNotFound uri id) (server_get s id) in
  match parse_resource_uri uri with
  | UPorts =>
      let '(r, store) := list_ports enumerated io (sv_file s) (sv_store s) in
      (done ('(ports, ms) ← map_err RePorts r; Ok (BodyPorts ports ms)),
       set_profiles s (sv_file s) store)
  | UConnectionsList => (done (Ok (BodyConnections (list_connections s))), s)
  | UConnectionDetail id => (done (c ← found id; Ok (BodyConnection (summary c))), s)
  | UConnectionDetailRaw id =>
      match found id with
      | Err e => (done (Err e), s)
      | Ok c =>
          let '(r, c) := read_latest c start 256 polls in
          (r ≫= (fun r => done (bytes ← map_err ReRead r; Ok (BodyRaw (base64_standard_encode bytes)))),
           set_conn s id c)
      end
  | UConnectionLog id =>
      (done (c ← found id; text ← map_err ReSerialize (log_text (snapshot (sc_log c))); Ok (BodyLog text)), s)
  | UUnknown => (done (Err (ReResourceNotFound uri)), s)
  end.
End ReadResource.

(** [get_completions]: port names, for the port argument of the ports resource and of
    the diagnosis prompt. *)
Inductive Reference := RefResource (uri : list byte) | RefPrompt (name : list byte) | RefOther.

Definition get_completions (r : Reference) (argument : list byte)
    (enumerated : result (list byte) (list PortInfo)) : list (list byte) :=
  let ports := match enumerated with Ok ports => pi_name <$> ports | Err _ => [] end in
  match r with
  | RefResource uri =>
      if bool_decide (uri = URI_PORTS) && bool_decide (argument = bs "port") then ports else []
  | RefPrompt name =>
      if bool_decide (name = bs "diagnose_port") && bool_decide (argument = bs "port") then ports else []
  | RefOther => []
  end.

(** ** Properties *)

Lemma log_text_lines {E} (to_string : LogEntry -> result E (list byte)) events text :
  log_text to_string events = Ok text -> jsonl_lines to_string events = Some text.
Proof.
  revert text. induction events as [|e events IH]; intros text; cbn [log_text]; [by intros [= <-]|].
  intros (line & Hl & (rest & Hr & [= <-])%result_bind_ok)%result_bind_ok.
  unfold jsonl_lines in *. cbn [foldr]. by rewrite Hl, (IH _ Hr).
Qed.

(** [get_log] returns a suffix of the entries that are
    new enough, at most [limit] of them and all of them when they fit; with no limit
    and no bound in time it is the whole log; and the log resource of the same
    connection shows exactly the lines a full export of it would hold. *)
Theorem get_log_returns_the_latest {E} (to_string : LogEntry -> result E (list byte)) c since limit :
  let r := get_log c since limit in
  let recent := List.filter (fun e => match since with Some t => t <=? timestamp_ms e | None => true end)
                  (events (sc_log c)) in
  gl_total_events r = length (events (sc_log c)) /\
  (exists older, recent = older ++ gl_events r /\
     (older <> [] -> limit = Some (length (gl_events r)))) /\
  (forall n, limit = Some n -> (length (gl_events r) <= n)%nat) /\
  (gl_events (get_log c None None) = events (sc_log c)) /\
  (forall text, log_text to_string (snapshot (sc_log c)) = Ok text ->
     jsonl_lines to_string (gl_events (get_log c None None)) = Some text).
Proof.
  assert (Hall : gl_events (get_log c None None) = events (sc_log c)).
  { unfold get_log, snapshot. cbn [gl_events]. by induction (events (sc_log c)) as [|e l IH]; cbn; [|rewrite IH]. }
  intros r recent. split; [done|]. split; [|split; [|split; [exact Hall|] ] ].
  - subst r. unfold get_log. cbn [gl_events]. fold (snapshot (sc_log c)) in recent. fold recent.
    destruct limit as [n|]; [|by exists []]. destruct (Nat.ltb_spec n (length recent)) as [Hlt|Hge]; [|by exists []].
    exists (take (length recent - n) recent). rewrite take_drop. split; [done|]. intros _.
    rewrite length_drop. f_equal. lia.
  - intros n ->. subst r. unfold get_log. cbn [gl_events]. fold (snapshot (sc_log c)) in recent. fold recent.
    destruct (Nat.ltb_spec n (length recent)); [rewrite length_drop|]; lia.
  - intros text Ht. rewrite Hall. by apply log_text_lines.
Qed.

(** The resource and the tool agree on the ports. *)
Lemma ports_resource_is_the_tool `{Base64Crate, GlobCrate, TomlCrate} {E}
    (to_string : LogEntry -> result E (list byte)) version enumerated io start polls s :
  let '(r, s') := read_resource to_string URI_PORTS version enumerated io start polls s in
  let '(t, store) := list_ports enumerated io (sv_file s) (sv_store s) in
  sv_store s' = store /\
  r = Some (match t with
            | Ok (ports, ms) => Ok (BodyPorts ports ms, cache_fields_for version)
            | Err e => Err (RePorts e)
            end).
Proof.
  unfold read_resource. change (parse_resource_uri URI_PORTS) with UPorts. cbv zeta.
  destruct (list_ports _ _ _ _) as [ [ [ports ms]|e] store]; done.
Qed.
