(* ===== verification/SessionView.v ===== *)
(** * A session while a call waits

    What the tools of [IoTools] and [CaptureBoot] see of an RX session: its shared
    cursor and its ring, and how the pump changes them at the awaits of a call. *)

From S2P Require Import Prelude Extern Codec RxRing BufferBudget RxConsume ReadLoop SerialConfig RxSession Tools IoTools.

(** ** The session *)

(** The pump appends [bss]; nobody else does anything. *)
Definition pumping (id : list byte) (bss : list (list byte)) : Others :=
  mkOthers (SAppend id <$> bss) (fun conns => conns) (fun registered => registered).

(** The session of [id] has this shared cursor and this ring. *)
Definition shows (id : list byte) (cursor : Z) (ring : RxRing) (s : IoState) : Prop :=
  exists x, session_get (ss_sessions (io_sys s)) id = Some x /\ rs_ring x = ring /\ rs_read_cursor x = cursor.

Lemma shows_sys id cursor ring s s' :
  sm_sessions (ss_sessions (io_sys s')) = sm_sessions (ss_sessions (io_sys s)) ->
  shows id cursor ring s -> shows id cursor ring s'.
Proof. intros E (x & Hx & Hr & Hc). exists x. unfold session_get in *. by rewrite E. Qed.

Lemma shows_pumping id cursor ring held bss s :
  shows id cursor ring s -> shows id cursor (foldl append ring bss) (run_others held (pumping id bss) s).
Proof.
  intros (x & Hx & <- & <-). unfold run_others, pumping. cbn [ot_ops ot_conns ot_registered].
  unfold shows. cbn [io_sys].
  revert Hx. generalize (io_sys s) as sys. revert x.
  induction bss as [|b bss IH]; intros x sys Hx; [by exists x|].
  cbn [fmap list_fmap foldl shift_op]. apply (IH (pump_append x b)).
  unfold session_get in *. cbn [session_op ss_sessions]. unfold update_session. rewrite Hx. cbn [sm_sessions].
  apply lookup_insert_eq.
Qed.

(** ** The ring after the pump *)

Definition feed (capacity : Z) (sp : Spec) (bss : list (list byte)) : Spec :=
  foldl (spec_append capacity) sp bss.

Lemma feed_stream capacity sp bss : stream (feed capacity sp bss) = stream sp ++ concat bss.
Proof.
  revert sp. induction bss as [|b bss IH]; intros sp; [by rewrite app_nil_r|].
  change (feed capacity sp (b :: bss)) with (feed capacity (spec_append capacity sp b) bss).
  rewrite IH. cbn [spec_append stream concat]. by rewrite app_assoc.
Qed.

Lemma fed_capacity ring bss : ring_capacity (foldl append ring bss) = ring_capacity ring.
Proof. revert ring. induction bss as [|b bss IH]; intros ring; [done|]. cbn [foldl]. rewrite IH. apply append_capacity. Qed.

Lemma feed_rep ring sp bss :
  ring_rep ring sp -> zlen (stream sp ++ concat bss) < 2 ^ 64 ->
  ring_rep (foldl append ring bss) (feed (ring_capacity ring) sp bss).
Proof.
  revert ring sp. induction bss as [|b bss IH]; intros ring sp Hr Hb; [done|].
  cbn [concat] in Hb. rewrite app_assoc, zlen_app in Hb. pose proof (zlen_nonneg (concat bss)).
  change (feed (ring_capacity ring) sp (b :: bss)) with
    (feed (ring_capacity ring) (spec_append (ring_capacity ring) sp b) bss).
  cbn [foldl]. rewrite <- (append_capacity ring b) at 1.
  apply IH.
  - apply append_rep; [done|]. rewrite zlen_app in Hb. lia.
  - cbn [spec_append stream]. rewrite zlen_app. lia.
Qed.

(** ** Parts of a call *)

Section Call.
Context `{HexCrate, Base64Crate, JsonCrate, RegexCrate, GlobCrate}.

Lemma with_reservation_shows {A} id cursor n (rest : IoState -> ToolEnd IoToolError A * IoState) s ring
    (P : ToolEnd IoToolError A -> RxRing -> Prop) :
  shows id cursor ring s ->
  (forall s1, shows id cursor ring s1 -> exists ring', P (rest s1).1 ring' /\ shows id cursor ring' (rest s1).2) ->
  (forall e, P (ToolErr (IoBudget e)) ring) ->
  exists ring', P (with_reservation n rest s).1 ring' /\ shows id cursor ring' (with_reservation n rest s).2.
Proof.
  intros Hs Hrest Herr. unfold with_reservation. destruct (try_reserve _ _) as [ [m|e] b]; [|by exists ring; split; [apply Herr|] ].
  set (s1 := with_sys _ _). assert (Hs1 : shows id cursor ring s1) by (revert Hs; by apply shows_sys).
  destruct (Hrest s1 Hs1) as (ring' & HP & Hs'). destruct (rest s1) as [out s2]. cbn [fst snd] in *.
  exists ring'. split; [done|]. destruct (ended out); [|done]. revert Hs'. apply shows_sys.
  cbn. by destruct (ss_tools (io_sys s2)).
Qed.

Lemma build_read_result_data `{!HexLaws, !Base64Laws} outcome id name enc timeout silence r :
  build_read_result outcome id name enc timeout silence = Ok r ->
  decode (rr_encoding r) (rr_data r) = Ok (r_bytes outcome) /\ rr_bytes_read r = zlen (r_bytes outcome).
Proof.
  unfold build_read_result. destruct (encode_or_hex_decodes enc (r_bytes outcome)) as (p & -> & Hd).
  cbn [mbind result_bind]. destruct (encode_frames enc (r_frames outcome)) as [encoded failed].
  by intros [= <-].
Qed.
End Call.
