(* ===== verification/ReadSession.v ===== *)
(** * Reading a connection, call after call

    [read] of [src/tools/io_ops.rs] as a client uses it: many calls on one
    connection, the pump appending before, between and during them, and other calls
    in between that leave the session alone. *)

From S2P Require Import Prelude RustStr Extern ExternModel Codec FramingConfig MatchConfig RxRing BufferBudget RxConsume ReadLoop ReadStream LogBuffer Profiles SerialConfig Connection RxSession Tools IoTools SessionView.

Section ReadSession.
Context `{HexCrate, Base64Crate, JsonCrate, RegexCrate, GlobCrate}.

(** ** Calls *)

(** A read from the shared cursor, without framing, with a matcher without context if
    any.  The pump appends [w] before it reads and [d] while it waits. *)
Definition reads_cursor (id : list byte) (args : ReadArgs) (k : ReadScript) (w d : list (list byte))
    (s : IoState) : Prop :=
  ra_connection_id args = id /\ default FromCursor (ra_from args) = FromCursor /\
  (forall c, lookup_connection s id = Some c ->
     resolve_field (ra_rx_framing args) (ra_protocol args) preset_rx_framing
       (cd_rx_framing (sc_defaults c)) (cd_protocol (sc_defaults c)) = None /\
     resolve_field (ra_rx_parser args) (ra_protocol args) preset_rx_parser
       (cd_rx_parser (sc_defaults c)) (cd_protocol (sc_defaults c)) = None) /\
  (forall m matcher, ra_match args = Some m -> validate_match_request m = Ok matcher ->
     context_amount_of matcher = None) /\
  rs_before k = pumping id w /\ rs_during k = pumping id d.

(** The rounds of the read show rings of the same pump, none of which has lost bytes
    from [cursor] on. *)
Definition keeps_up (cursor : Z) (sp after : Spec) (k : ReadScript) : Prop :=
  retained_from sp <= cursor /\ rings_grow cursor (stream after) sp (rs_rounds k).

(** The shared cursor of the session. *)
Definition shared_cursor (id : list byte) (s : IoState) : Z :=
  default 0 (rs_read_cursor <$> session_get (ss_sessions (io_sys s)) id).

(** What becomes of a connection: the pump appends; some call leaves its session
    alone; a read from the shared cursor succeeds, with the pump appending before and
    during it.  The list has the results of the reads; the specifications say what has
    been received and what the ring still has of it. *)
Inductive reading (id : list byte) (capacity : Z)
    : Spec -> IoState -> list ReadResult -> Spec -> IoState -> Prop :=
  | reading_done sp s : reading id capacity sp s [] sp s
  | reading_pump sp s bss rs sp' s' :
      reading id capacity (feed capacity sp bss) (run_others 0 (pumping id bss) s) rs sp' s' ->
      reading id capacity sp s rs sp' s'
  | reading_other sp s s1 rs sp' s' :
      session_get (ss_sessions (io_sys s1)) id = session_get (ss_sessions (io_sys s)) id ->
      reading id capacity sp s1 rs sp' s' -> reading id capacity sp s rs sp' s'
  | reading_call sp s args k w d r s1 rs sp' s' :
      let now := feed capacity sp w in
      let after := feed capacity now d in
      reads_cursor id args k w d s -> keeps_up (shared_cursor id s) now after k ->
      read_tool args k s = (ToolOk r, s1) ->
      reading id capacity after s1 rs sp' s' -> reading id capacity sp s (r :: rs) sp' s'.

(** ** One call *)

Lemma shows_set_cursor id cursor ring off s :
  shows id cursor ring s -> shows id off ring (with_sys s (session_op (io_sys s) (SSetCursor id off))).
Proof.
  intros (x & Hx & <- & _). exists (set_read_cursor x off). split; [|done].
  unfold session_get in *. cbn. unfold update_session. rewrite Hx. apply lookup_insert_eq.
Qed.

Lemma finish_read_call `{!HexLaws, !Base64Laws} id args enc max m c session cursor k w d s0 s r s1 ring sp :
  reads_cursor id args k w d s0 -> lookup_connection s0 id = Some c ->
  match m with Some m => context_amount_of m = None | None => True end ->
  let after := feed (ring_capacity ring) sp d in
  shows id cursor ring s -> ring_rep ring sp -> rs_ring session = ring ->
  0 <= cursor -> 0 <= max -> cursor <= zlen (stream sp) -> zlen (stream after) < 2 ^ 64 ->
  keeps_up cursor sp after k ->
  finish_read args enc max m c session cursor k s = (ToolOk r, s1) ->
  exists p, decode (rr_encoding r) (rr_data r) = Ok p /\ rr_bytes_read r = zlen p /\
    p = take (length p) (drop (Z.to_nat cursor) (stream after)) /\
    shows id (cursor + zlen p) (foldl append ring d) s1.
Proof.
  intros (<- & _ & Hplain & _ & _ & Hd) Hc Hm after Hs Hrep Hring Hcur Hmax Hle Hfull [Hret Hgrow].
  destruct (Hplain c Hc) as [Hframing Hparser]. unfold finish_read, read_bytes_from_ring.
  rewrite Hframing, Hparser, Hring, Hd. cbv zeta.
  assert (Hat : ring_at cursor (stream after) ring sp).
  { split_and!; [done| |done]. unfold after. rewrite feed_stream. by apply prefix_app_r. }
  pose proof (raw_private_read cursor max (stream after) Hcur Hmax Hfull (ra_timeout_ms args)
    (ra_no_new_rx_timeout_ms args) m (rs_start k) (rs_elapsed k) (rs_now k) ring sp (rs_rounds k)
    Hat Hle Hgrow Hm) as Hraw. unfold raw_config in Hraw.
  destruct (read_from_private_cursor _ _ _ _ _ _ _ _ _) as [ [ [outcome final]|]|e| |]; try done.
  destruct Hraw as (Hbytes & Hfinal & _).
  destruct (build_read_result _ _ _ _ _ _) as [r'|e] eqn:Hbuild; [|done]. intros [= <- <-].
  apply build_read_result_data in Hbuild as [Hdec Hn]. exists (r_bytes outcome). split_and!; [done..|].
  rewrite <- Hfinal. eapply shows_sys; [|eapply shows_set_cursor, shows_pumping, Hs]. done.
Qed.

Lemma validate_rx_matcher found args limits n v m :
  validate_rx_request found args limits n = Ok v -> rx_matcher v = Some m ->
  exists request, a_match args = Some request /\ validate_match_request request = Ok m.
Proof.
  unfold validate_rx_request. intros Hv Hm. apply result_bind_ok in Hv as (enc & _ & Hv).
  destruct found; [|done]. cbn [negb] in Hv. do 4 apply result_bind_ok in Hv as (? & _ & Hv).
  apply result_bind_ok in Hv as (matcher & Hmatch & [= <-]). cbn [rx_matcher] in Hm. subst matcher.
  destruct (a_match args) as [request|]; [|done].
  apply result_bind_ok in Hmatch as (m' & Hm'%map_err_ok & [= ->]). by exists request.
Qed.

Lemma read_call `{!HexLaws, !Base64Laws} id args k w d s r s1 cursor ring sp :
  shows id cursor ring s -> ring_rep ring sp -> reads_cursor id args k w d s ->
  let now := feed (ring_capacity ring) sp w in
  let after := feed (ring_capacity ring) now d in
  0 <= cursor -> cursor <= zlen (stream sp) -> zlen (stream after) < 2 ^ 64 -> keeps_up cursor now after k ->
  read_tool args k s = (ToolOk r, s1) ->
  exists p, decode (rr_encoding r) (rr_data r) = Ok p /\ rr_bytes_read r = zlen p /\
    p = take (length p) (drop (Z.to_nat cursor) (stream after)) /\
    shows id (cursor + zlen p) (foldl append (foldl append ring w) d) s1.
Proof.
  intros Hs Hrep Hplain now after Hcur Hle Hfull Hkeep. pose proof Hplain as (Hid & Hfrom & _ & Hctx & Hw & _).
  unfold read_tool. rewrite Hid, Hfrom.
  destruct (validate_rx_request _ _ _ _) as [v|e] eqn:Hv; [|done].
  destruct (lookup_connection s id) as [c|] eqn:Hc; [|done].
  unfold with_reservation. destruct (try_reserve _ _) as [ [n|e] b]; [|done].
  set (s' := with_sys s _). assert (Hs' : shows id cursor ring s') by (revert Hs; by apply shows_sys).
  destruct (with_session _ _ _ _ s') as [out s2] eqn:Hsession. intros [= -> <-]. cbn [ended].
  revert Hsession. unfold with_session. rewrite Hw.
  pose proof (shows_pumping id cursor ring 1 w s' Hs') as Hs3. set (s3 := run_others 1 _ s') in *.
  pose proof Hs3 as (x & Hx & Hring & Hcursor). unfold get_or_create, session_get in *. rewrite Hx.
  cbn [initial_cursor]. rewrite Hcursor. intros Hfinish.
  assert (Hwb : zlen (stream sp ++ concat w) < 2 ^ 64).
  { unfold after, now in Hfull. rewrite !feed_stream, zlen_app in Hfull. pose proof (zlen_nonneg (concat d)). lia. }
  eapply (finish_read_call id args _ _ _ c x cursor k w d s _ r s2 (foldl append ring w) now) in Hfinish
    as (p & Hd & Hn & Hp & Hshow); rewrite ?fed_capacity in *; try done.
  - exists p. split_and!; [done..|]. revert Hshow. apply shows_sys. cbn. by destruct (ss_tools (io_sys s2)).
  - destruct (rx_matcher v) as [m|] eqn:Hm; [|done].
    destruct (validate_rx_matcher _ _ _ _ _ _ Hv Hm) as (request & Hr & Hvm). by eapply Hctx.
  - apply (shows_set_cursor id cursor). revert Hs3. by apply shows_sys.
  - by apply feed_rep.
  - apply validate_rx_request_size in Hv as [-> [Hmin _] ]. cbn in Hmin. unfold MIN_READ_BYTES in Hmin. lia.
  - unfold now. rewrite feed_stream, zlen_app. pose proof (zlen_nonneg (concat w)). lia.
Qed.

(** ** Many calls *)

Lemma feed_prefix capacity sp bss : stream sp `prefix_of` stream (feed capacity sp bss).
Proof. rewrite feed_stream. by apply prefix_app_r. Qed.

Lemma reading_extends id capacity sp s rs sp' s' :
  reading id capacity sp s rs sp' s' -> stream sp `prefix_of` stream sp'.
Proof.
  induction 1 as [|sp s bss rs sp' s' _ IH| |sp s args k w d r s1 rs sp' s' now after _ _ _ _ IH]; [done| |done|].
  - etransitivity; [apply feed_prefix|exact IH].
  - etransitivity; [apply feed_prefix|]. etransitivity; [apply feed_prefix|exact IH].
Qed.

(** A piece of a stream stays where it is when the stream grows. *)
Lemma piece_extends (p full full' : list byte) (c : nat) :
  (c <= length full)%nat -> p = take (length p) (drop c full) -> full `prefix_of` full' ->
  drop c full' = p ++ drop (c + length p) full'.
Proof.
  intros Hc Hp [t ->]. rewrite <- drop_drop, drop_app_le by done.
  rewrite <- (take_drop (length p) (drop c full ++ t)) at 1. f_equal.
  rewrite Hp at 2. apply take_app_le. rewrite Hp, length_take at 1. lia.
Qed.

Lemma pieces_join (p q after full : list byte) (cursor : Z) :
  0 <= cursor -> cursor + zlen p <= zlen after -> p = take (length p) (drop (Z.to_nat cursor) after) ->
  after `prefix_of` full -> q = take (length q) (drop (Z.to_nat (cursor + zlen p)) full) ->
  p ++ q = take (length (p ++ q)) (drop (Z.to_nat cursor) full).
Proof.
  intros Hc Hle Hp Hext Hq. rewrite length_app, (piece_extends p after full (Z.to_nat cursor)); try done.
  - replace (Z.to_nat cursor + length p)%nat with (Z.to_nat (cursor + zlen p)) by (unfold zlen; lia).
    rewrite take_app_add. by f_equal.
  - unfold zlen in *. lia.
Qed.

Lemma piece_inside (p full : list byte) (cursor : Z) :
  0 <= cursor <= zlen full -> p = take (length p) (drop (Z.to_nat cursor) full) ->
  cursor + zlen p <= zlen full.
Proof.
  intros Hc Hp%(f_equal length). rewrite length_take, length_drop in Hp. unfold zlen in *. lia.
Qed.

(** C5: a client that reads a connection gets its stream.
    From any state on, the pump appends when it likes, other calls leave the session
    alone, and unframed reads from the shared cursor succeed, with whatever encodings,
    limits, timeouts and matchers without context; no read starts or waits when the
    ring has already dropped bytes from its cursor on.  Then the results, decoded under
    the encodings they name and put one after the other, are the stream from the first
    cursor on: nothing is lost, repeated or out of order between two reads; and the
    shared cursor is at the end of what was returned. *)
Theorem reads_partition_the_stream `{!HexLaws, !Base64Laws} id capacity sp s rs sp' s' cursor ring :
  shows id cursor ring s -> ring_rep ring sp -> ring_capacity ring = capacity ->
  0 <= cursor <= zlen (stream sp) -> zlen (stream sp') < 2 ^ 64 ->
  reading id capacity sp s rs sp' s' ->
  exists payloads ring',
    Forall2 (fun r p => decode (rr_encoding r) (rr_data r) = Ok p /\ rr_bytes_read r = zlen p) rs payloads /\
    concat payloads = take (length (concat payloads)) (drop (Z.to_nat cursor) (stream sp')) /\
    shows id (cursor + zlen (concat payloads)) ring' s' /\ ring_rep ring' sp' /\
    cursor + zlen (concat payloads) <= zlen (stream sp').
Proof.
  intros Hs Hrep Hcap Hcur Hfull Hrun. revert cursor ring Hs Hrep Hcap Hcur Hfull.
  induction Hrun as [sp s|sp s bss rs sp' s' Hrun IH|sp s s1 rs sp' s' Hsame Hrun IH
                    |sp s args k w d r s1 rs sp' s' now after Hplain Hkeep Hread Hrun IH];
    intros cursor ring Hs Hrep Hcap Hcur Hfull.
  - exists [], ring. cbn [concat]. rewrite zlen_nil, Z.add_0_r. split_and!; [constructor|done..|lia].
  - subst capacity. eapply (IH cursor (foldl append ring bss)); try done.
    + by apply shows_pumping.
    + apply feed_rep; [done|]. apply reading_extends, prefix_length in Hrun. rewrite feed_stream in Hrun.
      unfold zlen in *. lia.
    + apply fed_capacity.
    + rewrite feed_stream, zlen_app. pose proof (zlen_nonneg (concat bss)). lia.
  - apply (IH cursor ring); try done. destruct Hs as (x & Hx & Hr). exists x. by rewrite Hsame.
  - subst capacity. pose proof (reading_extends _ _ _ _ _ _ _ Hrun) as Hext.
    pose proof (prefix_length _ _ Hext) as Hlen.
    assert (Hcursor : shared_cursor id s = cursor).
    { destruct Hs as (x & Hx & _ & <-). unfold shared_cursor. by rewrite Hx. }
    rewrite Hcursor in Hkeep.
    assert (Hafter : stream after = stream sp ++ concat (w ++ d))
      by (unfold after, now; by rewrite !feed_stream, concat_app, app_assoc).
    assert (Hin : 0 <= cursor <= zlen (stream after)).
    { rewrite Hafter, zlen_app. pose proof (zlen_nonneg (concat (w ++ d))). lia. }
    assert (Hbound : zlen (stream after) < 2 ^ 64) by (unfold zlen in *; lia).
    destruct (read_call id args k w d s r s1 cursor ring sp Hs Hrep Hplain) as (p & Hd & Hn & Hp & Hs1);
      [lia..|done|done|done|].
    pose proof (piece_inside _ _ _ Hin Hp) as Hle. pose proof (zlen_nonneg p).
    destruct (IH (cursor + zlen p) _ Hs1) as (ps & ring' & Hps & Hc & Hshow & Hrep' & Hend); try done.
    + rewrite <- foldl_app. replace after with (feed (ring_capacity ring) sp (w ++ d)) by apply foldl_app.
      apply feed_rep; [done|]. by rewrite <- Hafter.
    + by rewrite !fed_capacity.
    + lia.
    + exists (p :: ps), ring'. cbn [concat]. rewrite zlen_app, Z.add_assoc.
      split_and!; [by constructor| |done..]. apply (pieces_join p _ (stream after)); lia || done.
Qed.
End ReadSession.

(** ** A client *)

(** The connection of [io_start]: the ring of eight bytes holds ["ab"].  The first
    read takes it; the pump appends ["cdefgh"], then, before the second read looks,
    ["ij"], which overwrites what was read. *)
Definition first_read : ToolEnd IoToolError ReadResult * IoState :=
  read_tool (plain_read_args "hex" None) (mkScript 0 0 0 [] (pumping (bs "id") []) (pumping (bs "id") []) 1) io_start.

Definition between_reads : IoState := run_others 0 (pumping (bs "id") [bs "cdefgh"]) first_read.2.

Definition second_read : ToolEnd IoToolError ReadResult * IoState :=
  read_tool (plain_read_args "utf8" None)
    (mkScript 0 0 0 [] (pumping (bs "id") [bs "ij"]) (pumping (bs "id") [bs "k"]) 1) between_reads.

Definition received_by_reads : Spec := feed 8 (mkSpec (bs "ab") 0 0) [bs "cdefgh"; bs "ij"; bs "k"].

Lemma reads_partition_the_stream_witness :
  match first_read.1, second_read.1 with
  | ToolOk r1, ToolOk r2 =>
      exists p1 p2, decode (rr_encoding r1) (rr_data r1) = Ok p1 /\
        decode (rr_encoding r2) (rr_data r2) = Ok p2 /\ p1 ++ p2 = bs "abcdefghij"
  | _, _ => False
  end.
Proof.
  assert (Hn1 : match first_read.1 with ToolOk r => rr_bytes_read r = 2 | _ => False end) by (vm_compute; reflexivity).
  assert (Hn2 : match second_read.1 with ToolOk r => rr_bytes_read r = 8 | _ => False end) by (vm_compute; reflexivity).
  assert (Hcur : shared_cursor (bs "id") between_reads = 2) by (vm_compute; reflexivity).
  assert (Hcur0 : shared_cursor (bs "id") io_start = 0) by (vm_compute; reflexivity).
  assert (Hdef : sc_defaults <$> lookup_connection between_reads (bs "id")
               = sc_defaults <$> lookup_connection io_start (bs "id")) by (vm_compute; reflexivity).
  unfold second_read, between_reads, first_read in *.
  destruct (read_tool (plain_read_args "hex" None) _ io_start) as [o1 s1] eqn:E1. cbn [fst snd] in *.
  destruct (read_tool (plain_read_args "utf8" None) _ _) as [o2 s2] eqn:E2. cbn [fst snd] in *.
  destruct o1 as [r1|e1| | |]; try (exfalso; exact Hn1). destruct o2 as [r2|e2| | |]; try (exfalso; exact Hn2).
  assert (Hrun : reading (bs "id") 8 (mkSpec (bs "ab") 0 0) io_start [r1; r2] received_by_reads s2).
  { assert (Hplain : forall e w d s,
      sc_defaults <$> lookup_connection s (bs "id") = sc_defaults <$> lookup_connection io_start (bs "id") ->
      reads_cursor (bs "id") (plain_read_args e None)
        (mkScript 0 0 0 [] (pumping (bs "id") w) (pumping (bs "id") d) 1) w d s).
    { intros e w d s Hl. split_and!; try reflexivity; [|done]. intros c Hc. rewrite Hc in Hl.
      injection Hl as ->. split; reflexivity. }
    eapply (reading_call (bs "id") 8 _ _ _ _ [] []); [by apply Hplain| |exact E1|].
    { rewrite Hcur0. split; [discriminate|exact I]. }
    apply (reading_pump (bs "id") 8 _ _ [bs "cdefgh"]).
    eapply (reading_call (bs "id") 8 _ _ _ _ [bs "ij"] [bs "k"]); [by apply Hplain| |exact E2|].
    - rewrite Hcur. split; [discriminate|exact I].
    - apply reading_done. }
  assert (Hs : shows (bs "id") 0 (ring_with 8 (bs "ab")) io_start).
  { eexists. split; [vm_compute; reflexivity|]. split; vm_compute; reflexivity. }
  assert (Hrep : ring_rep (ring_with 8 (bs "ab")) (mkSpec (bs "ab") 0 0)).
  { apply (ring_with_at 8 (bs "ab") (bs "ab") 0); try reflexivity; try discriminate. }
  destruct (reads_partition_the_stream (bs "id") 8 (mkSpec (bs "ab") 0 0) io_start [r1; r2] received_by_reads s2 0
    (ring_with 8 (bs "ab")) Hs Hrep) as (ps & ring' & Hps & Hcat & _); [reflexivity|vm_compute; split; discriminate|
    vm_compute; reflexivity|exact Hrun|].
  inversion Hps as [|? p1 ? ps1 [Hd1 Hb1] Hps1]; subst. inversion Hps1 as [|? p2 ? ps2 [Hd2 Hb2] Hps2]; subst.
  inversion Hps2; subst. exists p1, p2. split; [exact Hd1|]. split; [exact Hd2|].
  rewrite Hb1 in Hn1. rewrite Hb2 in Hn2. cbn [concat] in Hcat. rewrite app_nil_r in Hcat.
  rewrite Hcat. replace (length (p1 ++ p2)) with 10%nat; [reflexivity|].
  rewrite length_app. unfold zlen in Hn1, Hn2. lia.
Defined.
