(* ===== verification/CaptureBoot.v ===== *)
(** * Capturing a boot

    [capture_boot] of [src/tools/control_ops.rs] from end to end: validation, the
    budget, the session, the purge and the mark under the pump gate, the reset pulse
    with its release guard, the settle delay and the read from the mark.  The
    exclusion of the pulse and of the pump while the mark is taken are the step
    relations of [ControlTools] and [RxPump]; here one call runs, and others act where
    it waits. *)

From S2P Require Import Prelude Util RustStr Extern ExternModel Codec FramingConfig TxCodecs Parsers Decoder MatchConfig StopController RxRing BufferBudget RxConsume ReadLoop ReadLoopProofs ReadStream LogBuffer Profiles SerialConfig Connection RxSession TxSession Tools IoTools ControlTools SessionView.

Section CaptureBoot.
Context `{HexCrate, Base64Crate, JsonCrate, RegexCrate, GlobCrate}.

(** What the outside decides: the other calls while this one waits for the lock and
    the gate, during the hold, during the settle delay and during the read; the
    answers of the device to the purge, the assertion, the release and the queued
    cleanup; whether the hold is cancelled; the clock and the rounds of the read. *)
Record BootScript := mkBootScript {
  bs_task : nat;
  bs_waiting : Others;
  bs_purge : option IoError;
  bs_assert : option LineFault;
  bs_hold : Others;
  bs_cancelled : bool;
  bs_release : option LineFault;
  bs_cleanup : option LineFault;
  bs_settle : Others;
  bs_read : ReadScript;
}.

Record CaptureBootResult := mkBootResult {
  br_reset : option CaptureBootReset;
  br_mark_offset : Z;
  br_pre_mark_bytes : Z;
  br_os_input_flushed : bool;
  br_read : ReadResult;
}.

Definition boot_error (e : BootError) : IoToolError :=
  match e with BootRequest e => IoRequest e | BootFraming e => IoFraming e end.

(** An operation on the connection object, which the call holds even when it is no
    longer registered. *)
Definition on_conn {A} (id : list byte) (s : IoState) (op : SerialConnection -> A * SerialConnection)
    : option A * IoState :=
  match io_conns s !! id with
  | Some c => let '(a, c) := op c in (Some a, update_conn s id c)
  | None => (None, s)
  end.

(** The drop of the guard: while armed, it queues the release. *)
Definition drop_guard (id : list byte) (reset : option CaptureBootReset) (armed : bool)
    (fault : option LineFault) (s : IoState) : IoState :=
  match reset with
  | Some r =>
      if armed
      then (on_conn id s (fun c => set_dtr_rts_unlocked c (release_dtr r) (release_rts r) fault)).2
      else s
  | None => s
  end.

(** The ring the session shows: the one in the table, or the one the call holds. *)
Definition session_ring (s : IoState) (id : list byte) (session : RxSession) : RxRing :=
  rs_ring (default session (session_get (ss_sessions (io_sys s)) id)).

(** From the settle delay to the result; [armed] is the guard. *)
Definition boot_read (id : list byte) (args : CaptureBootArgs) (b : ResolvedBoot) (c : SerialConnection)
    (session : RxSession) (mark : Z) (armed : bool) (k : BootScript) (s : IoState)
    : ToolEnd IoToolError CaptureBootResult * IoState :=
  let s := match cb_settle_ms args with
           | Some ms => if 0 <? ms then run_others 1 (bs_settle k) s else s
           | None => s
           end in
  let r := bs_read k in
  let read :=
    read_from_private_cursor
      (mkReadConfig mark (bt_max_buffered_bytes b) (bt_rx_framing b) (bt_rx_parser b))
      (Some (bt_timeout_ms b)) (cb_no_new_rx_timeout_ms args) (bt_matcher b) (rs_start r) (rs_elapsed r)
      (rs_now r) (session_ring s id session) (rs_rounds r) in
  let s := run_others 1 (rs_during r) s in
  let dropped := drop_guard id (cb_reset args) armed (bs_cleanup k) in
  match read with
  | Done None => (ToolPending, s)
  | Diverged => (ToolDiverged, s)
  | Panicked => (ToolPanicked, dropped s)
  | Failed e => (ToolErr (IoFraming e), dropped s)
  | Done (Some (outcome, _)) =>
      match build_read_result outcome id (sc_name (sc_identity c)) (bt_encoding b)
              (Some (bt_timeout_ms b)) (cb_no_new_rx_timeout_ms args) with
      | Err e => (ToolErr (IoEncode e), dropped s)
      | Ok r =>
          let s := with_conns s
                     (alter (fun c => record_read_completion c (rs_now (bs_read k)) r (cb_match args)) id) in
          (ToolOk (mkBootResult (cb_reset args) mark mark true r), dropped s)
      end
  end.

(** The failure of a pulse: the guard is dropped armed. *)
Definition pulse_fails (id : list byte) (reset : CaptureBootReset) (k : BootScript) (e : SerialError)
    (s : IoState) : ToolEnd IoToolError CaptureBootResult * IoState :=
  (ToolErr (IoSerial e), drop_guard id (Some reset) true (bs_cleanup k) s).

(** The hold and the release; a cancelled hold swallows a failed release and keeps
    the guard armed. *)
Definition boot_release (id : list byte) (reset : CaptureBootReset) (k : BootScript)
    (rest : bool -> IoState -> ToolEnd IoToolError CaptureBootResult * IoState) (s : IoState)
    : ToolEnd IoToolError CaptureBootResult * IoState :=
  let s := run_others 1 (bs_hold k) s in
  match on_conn id s (fun c => set_dtr_rts_unlocked c (release_dtr reset) (release_rts reset) (bs_release k)) with
  | (Some (Err e), s) =>
      if disarmed (release_outcome (Err e)) then rest false s
      else if bs_cancelled k then rest true s
      else pulse_fails id reset k e s
  | (_, s) => rest false s
  end.

(** The pulse, from the armed guard on; [rest] goes on with the guard. *)
Definition boot_pulse (id : list byte) (reset : CaptureBootReset) (k : BootScript)
    (rest : bool -> IoState -> ToolEnd IoToolError CaptureBootResult * IoState) (s : IoState)
    : ToolEnd IoToolError CaptureBootResult * IoState :=
  match on_conn id s (fun c => set_dtr_rts_unlocked c (assert_dtr reset) (assert_rts reset) (bs_assert k)) with
  | (Some (Err e), s) => pulse_fails id reset k e s
  | (_, s) => boot_release id reset k rest s
  end.

(** [capture_boot]. *)
Definition capture_boot (id : list byte) (args : CaptureBootArgs) (k : BootScript) (s : IoState)
    : ToolEnd IoToolError CaptureBootResult * IoState :=
  match validate_boot args (sc_defaults <$> lookup_connection s id), lookup_connection s id with
  | Err e, _ => (ToolErr (boot_error e), s)
  | Ok _, None => (ToolErr IoNotFound, s)
  | Ok b, Some c =>
      with_reservation (bt_max_buffered_bytes b)
        (fun s =>
           let '(r, m) := get_or_create (ss_sessions (io_sys s)) id
                            (sc_rx_buffer_size (sc_identity c)) (bs_task k) in
           let s := with_sessions s m in
           match r with
           | Err e => (ToolErr (IoSession e), s)
           | Ok session =>
               let s := run_others 1 (bs_waiting k) s in
               match on_conn id s (fun c => flush_buffers c FlushInput (bs_purge k)) with
               | (Some (Err e), s) => (ToolErr (IoSerial e), s)
               | (_, s) =>
                   let mark := end_offset (inner (session_ring s id session)) in
                   let read := boot_read id args b c session mark in
                   match cb_reset args with
                   | Some reset => boot_pulse id reset k (fun armed => read armed k) s
                   | None => read false k s
                   end
               end
           end) s
  end.

(** ** What the session shows meanwhile *)

Lemma shows_on_conn {A} id cursor ring id' s (op : SerialConnection -> A * SerialConnection) :
  shows id cursor ring s -> shows id cursor ring (on_conn id' s op).2.
Proof.
  apply shows_sys. unfold on_conn. destruct (io_conns s !! id') as [c|]; [|done]. by destruct (op c).
Qed.

Lemma shows_drop_guard id cursor ring reset armed fault s :
  shows id cursor ring s -> shows id cursor ring (drop_guard id reset armed fault s).
Proof.
  intros Hs. unfold drop_guard. destruct reset; [|done]. destruct armed; [|done]. by apply shows_on_conn.
Qed.

Lemma session_ring_shows id cursor ring s session : shows id cursor ring s -> session_ring s id session = ring.
Proof. intros (x & Hx & <- & _). unfold session_ring. by rewrite Hx. Qed.

(** ** The parts of a capture *)

(** What the pump receives where the call waits: the hold is there with a reset
    only, the settle delay with a positive one only. *)
Definition held (args : CaptureBootArgs) (h : list (list byte)) : list (list byte) :=
  if cb_reset args then h else [].
Definition settled (args : CaptureBootArgs) (t : list (list byte)) : list (list byte) :=
  match cb_settle_ms args with Some ms => if 0 <? ms then t else [] | None => [] end.

(** The read from the mark on a ring, and the result it is turned into. *)
Definition captured (id : list byte) (args : CaptureBootArgs) (b : ResolvedBoot) (k : BootScript)
    (mark : Z) (ring : RxRing) (r : CaptureBootResult) : Prop :=
  br_mark_offset r = mark /\ br_pre_mark_bytes r = mark /\ br_os_input_flushed r = true /\
  br_reset r = cb_reset args /\
  exists outcome final name,
    read_from_private_cursor
      (mkReadConfig mark (bt_max_buffered_bytes b) (bt_rx_framing b) (bt_rx_parser b))
      (Some (bt_timeout_ms b)) (cb_no_new_rx_timeout_ms args) (bt_matcher b) (rs_start (bs_read k))
      (rs_elapsed (bs_read k)) (rs_now (bs_read k)) ring (rs_rounds (bs_read k))
    = Done (Some (outcome, final)) /\
    build_read_result outcome id name (bt_encoding b) (Some (bt_timeout_ms b))
      (cb_no_new_rx_timeout_ms args) = Ok (br_read r).

Lemma boot_read_spec id args b c session mark armed k s cursor ring t d :
  shows id cursor ring s -> bs_settle k = pumping id t -> rs_during (bs_read k) = pumping id d ->
  let '(out, s') := boot_read id args b c session mark armed k s in
  shows id cursor (foldl append ring (settled args t ++ d)) s' /\
  forall r, out = ToolOk r -> captured id args b k mark (foldl append ring (settled args t)) r.
Proof.
  intros Hs Ht Hd. unfold boot_read. rewrite Ht, Hd. cbv zeta.
  set (s1 := match cb_settle_ms args with Some _ => _ | None => _ end).
  assert (Hs1 : shows id cursor (foldl append ring (settled args t)) s1).
  { unfold s1, settled. destruct (cb_settle_ms args) as [ms|]; [|done]. destruct (0 <? ms); [|done].
    by apply shows_pumping. }
  rewrite (session_ring_shows id cursor _ s1 session Hs1).
  assert (Hs2 : shows id cursor (foldl append ring (settled args t ++ d)) (run_others 1 (pumping id d) s1)).
  { rewrite foldl_app. by apply shows_pumping. }
  destruct (read_from_private_cursor _ _ _ _ _ _ _ _ _) as [ [ [outcome final]|]|e| |] eqn:Hread;
    try (split; [by try apply shows_drop_guard|done]).
  destruct (build_read_result _ _ _ _ _ _) as [r|e] eqn:Hbuild; (split; [|done || idtac]).
  - apply shows_drop_guard. revert Hs2. by apply shows_sys.
  - intros r' [= <-]. split_and!; try done. by exists outcome, final, (sc_name (sc_identity c)).
  - by apply shows_drop_guard.
Qed.

Lemma pulse_fails_shows id cursor ring reset k e s :
  shows id cursor ring s -> shows id cursor ring (pulse_fails id reset k e s).2.
Proof. apply shows_drop_guard. Qed.

(** Whatever [rest] promises on the ring after the hold, with or without the guard,
    the pulse promises. *)
Section Pulse.
Context (id : list byte) (reset : CaptureBootReset) (k : BootScript).
Context (rest : bool -> IoState -> ToolEnd IoToolError CaptureBootResult * IoState).
Context (cursor : Z) (ring : RxRing) (h : list (list byte)).
Context (P : ToolEnd IoToolError CaptureBootResult -> RxRing -> Prop).
Hypothesis Hold : bs_hold k = pumping id h.
Hypothesis Hrest : forall armed s, shows id cursor (foldl append ring h) s ->
  exists ring', P (rest armed s).1 ring' /\ shows id cursor ring' (rest armed s).2.
Hypothesis Herr : forall e, P (ToolErr (IoSerial e)) ring /\ P (ToolErr (IoSerial e)) (foldl append ring h).

Lemma boot_release_spec s : shows id cursor ring s ->
  exists ring', P (boot_release id reset k rest s).1 ring' /\
    shows id cursor ring' (boot_release id reset k rest s).2.
Proof.
  intros Hs. unfold boot_release. rewrite Hold. cbv zeta.
  pose proof (shows_pumping id cursor ring 1 h s Hs) as Hp.
  pose proof (shows_on_conn id cursor _ id _
    (fun c => set_dtr_rts_unlocked c (release_dtr reset) (release_rts reset) (bs_release k)) Hp) as Hr.
  destruct (on_conn id (run_others 1 (pumping id h) s) _) as [ [ [u|e]|] s2]; cbn [snd] in Hr;
    [by apply Hrest| |by apply Hrest].
  destruct (disarmed _); [by apply Hrest|]. destruct (bs_cancelled k); [by apply Hrest|].
  exists (foldl append ring h). split; [apply Herr|by apply pulse_fails_shows].
Qed.

Lemma boot_pulse_spec s : shows id cursor ring s ->
  exists ring', P (boot_pulse id reset k rest s).1 ring' /\
    shows id cursor ring' (boot_pulse id reset k rest s).2.
Proof.
  intros Hs. unfold boot_pulse.
  pose proof (shows_on_conn id cursor ring id s
    (fun c => set_dtr_rts_unlocked c (assert_dtr reset) (assert_rts reset) (bs_assert k)) Hs) as Ha.
  destruct (on_conn id s _) as [ [ [u|e]|] s1]; cbn [snd] in Ha; [by apply boot_release_spec| |by apply boot_release_spec].
  exists ring. split; [apply Herr|by apply pulse_fails_shows].
Qed.
End Pulse.

(** ** From the mark on *)

(** Every way through a capture leaves the shared session as the pump made it; and a
    capture that succeeds read from the end of the ring when the gate was held. *)
Lemma capture_boot_spec id args k s cursor ring w h t d :
  shows id cursor ring s ->
  bs_waiting k = pumping id w -> bs_hold k = pumping id h -> bs_settle k = pumping id t ->
  rs_during (bs_read k) = pumping id d ->
  let pumped := w ++ held args h ++ settled args t in
  let '(out, s') := capture_boot id args k s in
  (exists n, shows id cursor (foldl append ring (take n (pumped ++ d))) s') /\
  forall r, out = ToolOk r -> exists b, validate_boot args (sc_defaults <$> lookup_connection s id) = Ok b /\
    captured id args b k (end_offset (inner (foldl append ring w))) (foldl append ring pumped) r.
Proof.
  intros Hs Hw Hh Ht Hd pumped.
  assert (Hnone : forall e, (exists n, shows id cursor (foldl append ring (take n (pumped ++ d))) s) /\
    forall r, (ToolErr e : ToolEnd IoToolError CaptureBootResult) = ToolOk r -> exists b,
      validate_boot args (sc_defaults <$> lookup_connection s id) = Ok b /\
      captured id args b k (end_offset (inner (foldl append ring w))) (foldl append ring pumped) r).
  { intros e. split; [by exists 0%nat|done]. }
  destruct (capture_boot id args k s) as [out s'] eqn:E. unfold capture_boot in E.
  destruct (validate_boot _ _) as [b|e] eqn:Hb; [|injection E as <- <-; apply Hnone].
  destruct (lookup_connection s id) as [c|]; [|injection E as <- <-; apply Hnone].
  pose (Q := fun (o : ToolEnd IoToolError CaptureBootResult) (ring' : RxRing) =>
    (exists n, ring' = foldl append ring (take n (pumped ++ d))) /\
    forall r, o = ToolOk r ->
      captured id args b k (end_offset (inner (foldl append ring w))) (foldl append ring pumped) r).
  assert (Hq : forall e l, (exists rest, pumped ++ d = l ++ rest) -> Q (ToolErr e) (foldl append ring l)).
  { intros e l [rest Hl]. split; [|done]. exists (length l). by rewrite Hl, take_app_length. }
  match type of E with with_reservation ?n ?rest s = _ =>
    destruct (with_reservation_shows id cursor n rest s ring Q Hs) as (ring' & HQ & Hs') end.
  3: { rewrite E in HQ, Hs'. destruct HQ as [ [m ->] HQ]. split; [by exists m|]. intros r Hr. exists b. auto. }
  2: { intros e. apply (Hq _ []). by exists (pumped ++ d). }
  intros s1 Hs1. pose proof Hs1 as (x & Hx & _). unfold get_or_create, session_get in *. rewrite Hx.
  rewrite Hw. set (s2 := run_others 1 (pumping id w) _).
  assert (Hs2 : shows id cursor (foldl append ring w) s2).
  { apply shows_pumping. revert Hs1. by apply shows_sys. }
  pose proof (shows_on_conn id cursor _ id s2 (fun c => flush_buffers c FlushInput (bs_purge k)) Hs2) as Hs3.
  destruct (on_conn id s2 _) as [ [ [u|e]|] s3]; cbn [snd] in Hs3.
  2: { exists (foldl append ring w). split; [|done]. apply Hq. exists (held args h ++ settled args t ++ d).
       unfold pumped. by rewrite <- !app_assoc. }
  all: rewrite (session_ring_shows id cursor _ s3 x Hs3); cbv zeta.
  all: assert (Hread : forall armed s4, shows id cursor (foldl append (foldl append ring w) (held args h)) s4 ->
    exists ring', Q (boot_read id args b c x (end_offset (inner (foldl append ring w))) armed k s4).1 ring' /\
      shows id cursor ring' (boot_read id args b c x (end_offset (inner (foldl append ring w))) armed k s4).2)
    by (intros armed s4 Hs4;
        pose proof (boot_read_spec id args b c x (end_offset (inner (foldl append ring w))) armed k s4
                      cursor _ t d Hs4 Ht Hd) as Hr;
        destruct (boot_read _ _ _ _ _ _ _ _ _) as [out4 s5]; destruct Hr as [Hr1 Hr2];
        rewrite <- !foldl_app, <- ?app_assoc in Hr1, Hr2;
        exists (foldl append ring (w ++ held args h ++ settled args t ++ d)); split; [|exact Hr1];
        split; [exists (length (pumped ++ d)); unfold pumped; by rewrite firstn_all, <- ?app_assoc|exact Hr2]).
  all: unfold held in Hread; destruct (cb_reset args) as [reset|] eqn:Hreset; [|by apply Hread].
  all: apply (boot_pulse_spec id reset k _ cursor (foldl append ring w) h Q Hh);
    [intros armed s4 Hs4; by apply Hread| |exact Hs3].
  all: intros e; rewrite <- foldl_app; split; apply Hq; unfold pumped, held; rewrite Hreset;
    [exists (h ++ settled args t ++ d)|exists (settled args t ++ d)]; by rewrite <- !app_assoc.
Qed.

(** ** The device under a capture *)

(** What the device of the connection holds: the bytes it received and nobody has
    read, and the bytes written to it. *)
Definition conn_buffers (c : SerialConnection) : option (list byte * list byte) :=
  d ← sc_io c; Some (dev_input d, dev_output d).
Definition device_buffers (id : list byte) (s : IoState) : option (list byte * list byte) :=
  c ← io_conns s !! id; conn_buffers c.

Lemma set_lines_buffers c dtr rts fault : conn_buffers (set_dtr_rts_unlocked c dtr rts fault).2 = conn_buffers c.
Proof.
  unfold set_dtr_rts_unlocked, ensure_open, io_or_closed, conn_buffers.
  destruct (sc_closed c); [done|]. cbn. destruct (sc_io c) as [d|] eqn:Hd; cbn; [|by rewrite Hd].
  by destruct fault as [ [e|e]|].
Qed.

Lemma completion_buffers c now r m : conn_buffers (record_read_completion c now r m) = conn_buffers c.
Proof. unfold record_read_completion. by repeat case_match. Qed.

Lemma on_conn_buffers {A} id s (op : SerialConnection -> A * SerialConnection) :
  (forall c, conn_buffers (op c).2 = conn_buffers c) -> device_buffers id (on_conn id s op).2 = device_buffers id s.
Proof.
  intros Hop. unfold on_conn, device_buffers. destruct (io_conns s !! id) as [c|] eqn:Hc; [|by cbn; rewrite Hc].
  specialize (Hop c). destruct (op c) as [a c']. cbn in *. by rewrite lookup_insert_eq.
Qed.

Lemma set_lines_device id s dtr rts fault :
  device_buffers id (on_conn id s (fun c => set_dtr_rts_unlocked c dtr rts fault)).2 = device_buffers id s.
Proof. apply on_conn_buffers. intros c. apply set_lines_buffers. Qed.

Lemma drop_guard_device id reset armed fault s :
  device_buffers id (drop_guard id reset armed fault s) = device_buffers id s.
Proof. unfold drop_guard. destruct reset, armed; try done. apply set_lines_device. Qed.

Lemma boot_read_device id args b c session mark armed k s t d :
  bs_settle k = pumping id t -> rs_during (bs_read k) = pumping id d ->
  device_buffers id (boot_read id args b c session mark armed k s).2 = device_buffers id s.
Proof.
  intros Ht Hd. unfold boot_read. rewrite Ht, Hd. cbv zeta.
  assert (Hs1 : device_buffers id (match cb_settle_ms args with
    | Some ms => if 0 <? ms then run_others 1 (pumping id t) s else s | None => s end) = device_buffers id s)
    by (destruct (cb_settle_ms args) as [ms|]; [by destruct (0 <? ms)|done]).
  destruct (read_from_private_cursor _ _ _ _ _ _ _ _ _) as [ [ [outcome final]|]|e| |];
    try (cbn [snd]; by rewrite ?drop_guard_device).
  destruct (build_read_result _ _ _ _ _ _) as [r|e]; cbn [snd]; rewrite drop_guard_device; [|exact Hs1].
  rewrite <- Hs1. unfold device_buffers. cbn [with_conns io_conns run_others pumping ot_conns].
  rewrite lookup_alter_eq. destruct (io_conns _ !! id); cbn; [apply completion_buffers|done].
Qed.

Section PulseDevice.
Context (id : list byte) (reset : CaptureBootReset) (k : BootScript) (h : list (list byte)).
Context (rest : bool -> IoState -> ToolEnd IoToolError CaptureBootResult * IoState).
Hypothesis Hhold : bs_hold k = pumping id h.
Hypothesis Hrest : forall armed s, device_buffers id (rest armed s).2 = device_buffers id s.

Lemma boot_release_device s : device_buffers id (boot_release id reset k rest s).2 = device_buffers id s.
Proof.
  unfold boot_release. rewrite Hhold. cbv zeta.
  pose proof (set_lines_device id (run_others 1 (pumping id h) s) (release_dtr reset) (release_rts reset)
    (bs_release k)) as Hr.
  destruct (on_conn id (run_others 1 (pumping id h) s) _) as [ [ [u|e]|] s2]; cbn [snd] in Hr;
    [by rewrite Hrest| |by rewrite Hrest].
  destruct (disarmed _); [by rewrite Hrest|]. destruct (bs_cancelled k); [by rewrite Hrest|].
  unfold pulse_fails. cbn [snd]. by rewrite drop_guard_device.
Qed.

Lemma boot_pulse_device s : device_buffers id (boot_pulse id reset k rest s).2 = device_buffers id s.
Proof.
  unfold boot_pulse. pose proof (set_lines_device id s (assert_dtr reset) (assert_rts reset) (bs_assert k)) as Ha.
  destruct (on_conn id s _) as [ [ [u|e]|] s1]; cbn [snd] in Ha;
    [by rewrite boot_release_device| |by rewrite boot_release_device].
  unfold pulse_fails. cbn [snd]. by rewrite drop_guard_device.
Qed.
End PulseDevice.

(** What the purge does to the device, when it works and when it does not. *)
Lemma purge_device c fault :
  match flush_buffers c FlushInput fault with
  | (Ok _, c') => fault = None /\
      exists input output, conn_buffers c = Some (input, output) /\ conn_buffers c' = Some ([], output)
  | (Err _, c') => c' = c
  end.
Proof.
  unfold flush_buffers, ensure_open, io_or_closed, conn_buffers.
  destruct (sc_closed c); [done|]. cbn. destruct (sc_io c) as [d|] eqn:Hd; cbn; [|done].
  destruct fault; [done|]. split; [done|]. by exists (dev_input d), (dev_output d).
Qed.

(** A capture that succeeds has emptied the input of the device and left its output;
    one whose purge fails does not succeed and leaves the connection alone. *)
Lemma capture_boot_device id args k s out s' w h t d :
  bs_waiting k = pumping id w -> bs_hold k = pumping id h -> bs_settle k = pumping id t ->
  rs_during (bs_read k) = pumping id d -> capture_boot id args k s = (out, s') ->
  (forall r, out = ToolOk r -> exists input output,
     device_buffers id s = Some (input, output) /\ device_buffers id s' = Some ([], output)) /\
  (forall e, bs_purge k = Some e -> (forall r, out <> ToolOk r) /\ io_conns s' !! id = io_conns s !! id).
Proof.
  intros Hw Hh Ht Hd E. unfold capture_boot in E.
  assert (Hsame : forall e s1, io_conns s1 !! id = io_conns s !! id -> (ToolErr e, s1) = (out, s') ->
    (forall r, out = ToolOk r -> exists input output,
       device_buffers id s = Some (input, output) /\ device_buffers id s' = Some ([], output)) /\
    (forall e, bs_purge k = Some e -> (forall r, out <> ToolOk r) /\ io_conns s' !! id = io_conns s !! id)).
  { intros e s1 Hs1 [= <- <-]. done. }
  destruct (validate_boot _ _) as [b|e]; [|by eapply Hsame].
  destruct (lookup_connection s id) as [c0|] eqn:Hl; [|by eapply Hsame].
  assert (Hc : exists c, io_conns s !! id = Some c).
  { unfold lookup_connection in Hl. case_bool_decide; [by exists c0|done]. }
  destruct Hc as [c Hc]. unfold with_reservation in E.
  destruct (try_reserve _ _) as [ [n|e] bud]; [|by eapply Hsame].
  destruct (get_or_create _ _ _ _) as [ [session|e] m]; [|cbn in E; by eapply Hsame, E].
  rewrite Hw in E. cbv zeta in E. set (s2 := run_others 1 (pumping id w) _) in E.
  assert (Hc2 : io_conns s2 !! id = Some c) by done.
  unfold on_conn in E at 1. rewrite Hc2 in E. pose proof (purge_device c (bs_purge k)) as Hpurge.
  destruct (flush_buffers c FlushInput (bs_purge k)) as [ [u|e] c1].
  2: { subst c1. cbn [ended] in E. eapply Hsame; [|exact E]. cbn. by rewrite lookup_insert_eq. }
  destruct Hpurge as (Hnone & input & output & Hbefore & Hafter).
  split; [|congruence]. intros r _. exists input, output. unfold device_buffers at 1. rewrite Hc. split; [done|].
  set (s3 := update_conn s2 id c1) in E.
  assert (Hs3 : device_buffers id s3 = Some ([], output)) by (unfold device_buffers; cbn; by rewrite lookup_insert_eq).
  destruct (cb_reset args) as [reset|].
  - match type of E with context [boot_pulse id reset k ?rest s3] => set (go := rest) in E end.
    assert (Hgo : device_buffers id (boot_pulse id reset k go s3).2 = Some ([], output)).
    { rewrite (boot_pulse_device id reset k h go Hh); [done|]. intros. by apply boot_read_device with (t := t) (d := d). }
    destruct (boot_pulse id reset k go s3) as [o s4]. cbn [snd] in Hgo. injection E as _ <-. by destruct (ended o).
  - match type of E with context [boot_read ?a1 ?a2 ?a3 ?a4 ?a5 ?a6 ?a7 ?a8 s3] =>
      pose proof (boot_read_device a1 a2 a3 a4 a5 a6 a7 a8 s3 t d Ht Hd) as Hgo;
      destruct (boot_read a1 a2 a3 a4 a5 a6 a7 a8 s3) as [o s4] end.
    cbn [snd] in Hgo. rewrite Hs3 in Hgo. injection E as _ <-. by destruct (ended o).
Qed.

(** C14: a capture on a connection whose session shows a cursor and a
    ring.  While it waits, holds the reset, settles and reads, the pump appends; nobody
    else acts.  However it ends, the shared cursor is where it was and the ring is what
    the pump made it.  When it succeeds, the bytes the device held unread are gone and
    those written to it are still there; when the purge fails, the call fails and the
    connection is as it was, its lines included.  On success the mark is the number of
    bytes received before the gate was held.  An unframed capture, with a matcher
    without context if any, whose ring has not wrapped past the mark, returns, under
    the encoding it names, the stream from the mark on, at most [max_buffered_bytes] of
    it: nothing from before the mark, and nothing received during the hold or the
    settle delay is skipped. *)
Theorem capture_boot_reads_from_mark `{!HexLaws, !Base64Laws} id args k s out s' cursor ring sp w h t d :
  shows id cursor ring s -> ring_rep ring sp ->
  bs_waiting k = pumping id w -> bs_hold k = pumping id h -> bs_settle k = pumping id t ->
  rs_during (bs_read k) = pumping id d ->
  zlen (stream sp ++ concat (w ++ held args h ++ settled args t)) < 2 ^ 64 ->
  capture_boot id args k s = (out, s') ->
  let pumped := w ++ held args h ++ settled args t in
  let mark := zlen (stream sp ++ concat w) in
  (exists n, shows id cursor (foldl append ring (take n (pumped ++ d))) s') /\
  (forall e, bs_purge k = Some e -> (forall r, out <> ToolOk r) /\ io_conns s' !! id = io_conns s !! id) /\
  forall r, out = ToolOk r ->
    (exists input output, device_buffers id s = Some (input, output) /\ device_buffers id s' = Some ([], output)) /\
    br_mark_offset r = mark /\ br_pre_mark_bytes r = mark /\
    forall b full, validate_boot args (sc_defaults <$> lookup_connection s id) = Ok b ->
      bt_rx_framing b = None -> bt_rx_parser b = None ->
      match bt_matcher b with Some m => context_amount_of m = None | None => True end ->
      let sp' := feed (ring_capacity ring) sp pumped in
      stream sp' `prefix_of` full -> zlen full < 2 ^ 64 -> retained_from sp' <= mark ->
      rings_grow mark full sp' (rs_rounds (bs_read k)) ->
      rr_bytes_read (br_read r) <= bt_max_buffered_bytes b /\
      decode (rr_encoding (br_read r)) (rr_data (br_read r))
      = Ok (take (Z.to_nat (rr_bytes_read (br_read r))) (drop (Z.to_nat mark) full)).
Proof.
  intros Hs Hrep Hw Hh Ht Hd Hbound E pumped mark.
  pose proof (capture_boot_spec id args k s cursor ring w h t d Hs Hw Hh Ht Hd) as Hspec.
  cbv zeta in Hspec. rewrite E in Hspec. destruct Hspec as [Hshow Hres]. split; [exact Hshow|].
  destruct (capture_boot_device id args k s out s' w h t d Hw Hh Ht Hd E) as [Hdev Hfail]. split; [exact Hfail|].
  intros r Hr. split; [by apply (Hdev r)|]. destruct (Hres r Hr) as (b0 & Hb0 & Hm & Hp & Hf & _ & outcome & final & name & Hread & Hbuild).
  assert (Hmark : end_offset (inner (foldl append ring w)) = mark).
  { assert (Hwb : zlen (stream sp ++ concat w) < 2 ^ 64).
    { rewrite concat_app, app_assoc, zlen_app in Hbound.
      pose proof (zlen_nonneg (concat (held args h ++ settled args t))). lia. }
    rewrite (rep_end _ _ (feed_rep ring sp w Hrep Hwb)), feed_stream. done. }
  rewrite Hmark in *. split; [done|]. split; [done|].
  intros b full Hb Hfr Hpa Hctx sp' Hpre Hfull Hret Hgrow. rewrite Hb0 in Hb. injection Hb as <-.
  pose proof (validate_boot_ok _ _ _ Hb0) as (Hmax & _).
  apply build_read_result_data in Hbuild as [Hdec Hn]. rewrite Hfr, Hpa in Hread.
  pose proof (zlen_nonneg (stream sp ++ concat w)) as Hmark0. fold mark in Hmark0.
  assert (Hat : ring_at mark full (foldl append ring pumped) sp').
  { split_and!; [|done|done]. by apply feed_rep. }
  assert (Hle : mark <= zlen (stream sp')).
  { unfold sp', mark, pumped. rewrite feed_stream, concat_app, !zlen_app. pose proof (zlen_nonneg (concat (held args h ++ settled args t))). lia. }
  pose proof (raw_private_read mark (bt_max_buffered_bytes b0) full Hmark0 ltac:(lia) Hfull
    (Some (bt_timeout_ms b0)) (cb_no_new_rx_timeout_ms args) (bt_matcher b0) (rs_start (bs_read k))
    (rs_elapsed (bs_read k)) (rs_now (bs_read k)) (foldl append ring pumped) sp' (rs_rounds (bs_read k))
    Hat Hle Hgrow Hctx) as Hraw.
  unfold raw_config in Hraw. fold pumped in Hread. rewrite Hread in Hraw. destruct Hraw as (Hbytes & _ & Hlen).
  rewrite Hdec, Hn. split; [done|]. f_equal. rewrite Hbytes at 1. f_equal. unfold zlen. lia.
Qed.

(** ** The lines after a capture *)

(** The connection is open, with these lines. *)
Definition lined (id : list byte) (v : bool * bool) (s : IoState) : Prop :=
  exists c, io_conns s !! id = Some c /\ sc_closed c = false /\ conn_lines c = Some v.

Lemma lined_conns id v s s' : io_conns s' !! id = io_conns s !! id -> lined id v s -> lined id v s'.
Proof. intros E (c & Hc & Ho & Hl). exists c. by rewrite E. Qed.

Lemma lined_set id v s dtr rts fault :
  lined id v s ->
  exists v', lined id v' (on_conn id s (fun c => set_dtr_rts_unlocked c dtr rts fault)).2 /\
    match (on_conn id s (fun c => set_dtr_rts_unlocked c dtr rts fault)).1 with
    | Some (Ok _) => v' = (dtr, rts)
    | Some (Err e) => fault <> None /\ disarmed (release_outcome (Err e)) = false
    | None => False
    end.
Proof.
  intros (c & Hc & Ho & Hl). unfold on_conn. rewrite Hc. unfold conn_lines in Hl.
  unfold set_dtr_rts_unlocked, ensure_open, io_or_closed. rewrite Ho.
  destruct (sc_io c) as [io|] eqn:Hio; cbn [ok_or mbind result_bind fmap option_fmap option_map] in *; [|done].
  destruct fault as [ [e|e]|]; cbn; eexists; (split; [eexists; split; [apply lookup_insert_eq|split; [done|reflexivity] ]|done]).
Qed.

(** A guard dropped armed releases the lines, when the device lets it. *)
Lemma lined_drop_armed id v reset k s :
  bs_cleanup k = None -> lined id v s ->
  lined id (release_dtr reset, release_rts reset) (drop_guard id (Some reset) true (bs_cleanup k) s).
Proof.
  intros -> Hl. unfold drop_guard. destruct (lined_set id v s (release_dtr reset) (release_rts reset) None Hl)
    as (v' & Hl' & Hr). destruct (on_conn id s _) as [ [ [u|e]|] s']; cbn [fst snd] in *;
    [by subst v'|by destruct Hr|done].
Qed.

Lemma lined_drop id v reset armed k s :
  bs_cleanup k = None -> lined id v s -> (armed = false -> v = (release_dtr reset, release_rts reset)) ->
  lined id (release_dtr reset, release_rts reset) (drop_guard id (Some reset) armed (bs_cleanup k) s).
Proof.
  intros Hk Hl Hv. destruct armed; [by eapply lined_drop_armed|]. by rewrite <- Hv.
Qed.

Lemma boot_read_lines id args reset b c session mark armed k s t d v :
  cb_reset args = Some reset -> bs_settle k = pumping id t -> rs_during (bs_read k) = pumping id d ->
  bs_cleanup k = None -> lined id v s -> (armed = false -> v = (release_dtr reset, release_rts reset)) ->
  ended (boot_read id args b c session mark armed k s).1 = true ->
  lined id (release_dtr reset, release_rts reset) (boot_read id args b c session mark armed k s).2.
Proof.
  intros Hr Ht Hd Hk Hl Hv. unfold boot_read. rewrite Hr, Ht, Hd. cbv zeta.
  set (s1 := match cb_settle_ms args with Some _ => _ | None => _ end).
  assert (Hs1 : lined id v s1).
  { unfold s1. destruct (cb_settle_ms args) as [ms|]; [|done]. by destruct (0 <? ms). }
  assert (Hs2 : lined id v (run_others 1 (pumping id d) s1)) by done.
  destruct (read_from_private_cursor _ _ _ _ _ _ _ _ _) as [ [ [outcome final]|]|e| |]; try done;
    [|intros _; by eapply lined_drop..].
  destruct (build_read_result _ _ _ _ _ _) as [r|e]; intros _; (eapply lined_drop; [done| |done]); [|exact Hs2].
  destruct Hs2 as (x & Hx & Ho & Hli). eexists. cbn [with_conns io_conns].
  rewrite lookup_alter_eq, Hx. split; [done|]. unfold record_read_completion. by repeat case_match.
Qed.

(** The purge of the input leaves the lines; when it works, the device is there. *)
Lemma purge_lines c fault u c1 :
  flush_buffers c FlushInput fault = (u, c1) ->
  conn_lines c1 = conn_lines c /\ (is_ok u = true -> sc_closed c1 = false /\ is_some (conn_lines c1) = true).
Proof.
  unfold flush_buffers, ensure_open, io_or_closed, conn_lines. intros Hf.
  destruct (sc_closed c) eqn:Hcl; cbn [mbind result_bind] in Hf; [by injection Hf as <- <-|].
  destruct (sc_io c) as [io|] eqn:Hio; cbn [ok_or] in Hf; [|by injection Hf as <- <-; rewrite Hio].
  destruct fault; injection Hf as <- <-; cbn; by rewrite ?Hio.
Qed.

(** A pulse that ends has released the lines, if what follows keeps them. *)
Lemma boot_pulse_lines id reset k go s v h :
  bs_cleanup k = None -> bs_hold k = pumping id h -> lined id v s ->
  (forall armed s4 v4, lined id v4 s4 ->
    (armed = false -> v4 = (release_dtr reset, release_rts reset)) -> ended (go armed s4).1 = true ->
    lined id (release_dtr reset, release_rts reset) (go armed s4).2) ->
  ended (boot_pulse id reset k go s).1 = true ->
  lined id (release_dtr reset, release_rts reset) (boot_pulse id reset k go s).2.
Proof.
  intros Hk Hh Hs3 Hgo. unfold boot_pulse, pulse_fails.
  destruct (lined_set id v s (assert_dtr reset) (assert_rts reset) (bs_assert k) Hs3) as (v4 & Hl4 & Ha).
  destruct (on_conn id s _) as [ [ [a|e]|] s4]; cbn [fst snd] in *; [|intros _; by eapply lined_drop_armed|done].
  unfold boot_release. rewrite Hh. cbv zeta. set (s5 := run_others 1 (pumping id h) s4).
  assert (Hl5 : lined id v4 s5) by done.
  destruct (lined_set id v4 s5 (release_dtr reset) (release_rts reset) (bs_release k) Hl5) as (v6 & Hl6 & Hb).
  destruct (on_conn id s5 _) as [ [ [a'|e]|] s6]; cbn [fst snd] in *; [by apply (Hgo _ _ v6)| |done].
  destruct Hb as [_ ->]. destruct (bs_cancelled k); [by apply (Hgo true s6 v6)|].
  intros _. unfold pulse_fails. by eapply lined_drop_armed.
Qed.

(** With the queued cleanup working, a capture that got past its purge leaves the
    lines released: after a failed assertion, a failed release, a cancelled hold, a
    failed or successful read. *)
Lemma capture_boot_releases_lines id args reset k s out s' c w h t d :
  cb_reset args = Some reset -> bs_cleanup k = None ->
  bs_waiting k = pumping id w -> bs_hold k = pumping id h -> bs_settle k = pumping id t ->
  rs_during (bs_read k) = pumping id d ->
  io_conns s !! id = Some c -> capture_boot id args k s = (out, s') -> ended out = true ->
  exists c', io_conns s' !! id = Some c' /\
    (conn_lines c' = Some (release_dtr reset, release_rts reset) \/
     ((forall r, out <> ToolOk r) /\ conn_lines c' = conn_lines c)).
Proof.
  intros Hr Hk Hw Hh Ht Hd Hc E He. unfold capture_boot in E.
  assert (Hsame : forall e, (ToolErr e, s) = (out, s') -> exists c', io_conns s' !! id = Some c' /\
    (conn_lines c' = Some (release_dtr reset, release_rts reset) \/
     ((forall r, out <> ToolOk r) /\ conn_lines c' = conn_lines c))).
  { intros e [= <- <-]. exists c. split; [done|]. by right. }
  destruct (validate_boot _ _) as [b|e]; [|by eapply Hsame].
  destruct (lookup_connection s id) as [c0|]; [|by eapply Hsame].
  unfold with_reservation in E. destruct (try_reserve _ _) as [ [n|e] bud]; [|by eapply Hsame].
  destruct (get_or_create _ _ _ _) as [ [session|e] m].
  2: { cbn in E. injection E as <- <-. cbn. exists c. split; [done|]. by right. }
  rewrite Hw in E. cbv zeta in E. set (s2 := run_others 1 (pumping id w) _) in E.
  assert (Hc2 : io_conns s2 !! id = Some c) by done.
  unfold on_conn in E at 1. rewrite Hc2 in E.
  destruct (flush_buffers c FlushInput (bs_purge k)) as [u c1] eqn:Hf.
  apply purge_lines in Hf as [Hl1 Hok].
  destruct u as [u|e].
  2: { injection E as <- <-. cbn [ended]. exists c1. split; [|by right]. cbn. apply lookup_insert_eq. }
  destruct (Hok eq_refl) as [Hop Hli]. destruct (conn_lines c1) as [v|] eqn:Hv; [|done].
  set (s3 := update_conn s2 id c1) in E.
  assert (Hs3 : lined id v s3) by (exists c1; split; [apply lookup_insert_eq|done]).
  rewrite Hr in E. match type of E with context [boot_pulse id reset k ?rest s3] => set (go := rest) in E end.
  assert (Hpulse : ended (boot_pulse id reset k go s3).1 = true ->
    lined id (release_dtr reset, release_rts reset) (boot_pulse id reset k go s3).2).
  { apply (boot_pulse_lines id reset k go s3 v h Hk Hh Hs3). intros armed s4 v4 Hl4 Hv4.
    by apply (boot_read_lines id args reset b c0 session _ armed k s4 t d v4). }
  destruct (boot_pulse id reset k go s3) as [o s4]. cbn [fst snd] in Hpulse. injection E as <- <-.
  destruct (Hpulse He) as (c' & Hc' & _ & Hl'). exists c'. rewrite He. cbn [with_sys io_conns]. auto.
Qed.

(** ** Budget *)

Definition boot_others (k : BootScript) : list Others :=
  [bs_waiting k; bs_hold k; bs_settle k; rs_during (bs_read k)].
Definition valid_boot (k : BootScript) : Prop := Forall (fun o => Forall valid_session_op (ot_ops o)) (boot_others k).
Definition quiet_boot (k : BootScript) : Prop := Forall (fun o => Forall quiet_op (ot_ops o)) (boot_others k).

Section Budget.
Context (program tool : Z) (k : BootScript).
Hypothesis Hprogram : program <= U64_MAX.
Hypothesis Hvalid : valid_boot k.

Lemma boot_others_keep o s : o ∈ boot_others k ->
  keeps_budget program tool (quiet_boot k) s (run_others 1 o s).
Proof.
  intros Ho. unfold valid_boot in Hvalid. rewrite Forall_forall in Hvalid.
  eapply keeps_weaken; [|apply keeps_others; [done|by apply Hvalid] ].
  unfold quiet_boot. rewrite Forall_forall. auto.
Qed.

Lemma on_conn_keeps {A} id s (op : SerialConnection -> A * SerialConnection) :
  keeps_budget program tool (quiet_boot k) s (on_conn id s op).2.
Proof.
  apply keeps_refl. unfold on_conn. destruct (io_conns s !! id) as [c|]; [|done]. by destruct (op c).
Qed.

Lemma drop_guard_keeps id reset armed fault s :
  keeps_budget program tool (quiet_boot k) s (drop_guard id reset armed fault s).
Proof.
  unfold drop_guard. destruct reset; [|by apply keeps_refl]. destruct armed; [apply on_conn_keeps|by apply keeps_refl].
Qed.

Lemma boot_read_keeps id args b c session mark armed s :
  keeps_budget program tool (quiet_boot k) s (boot_read id args b c session mark armed k s).2.
Proof.
  unfold boot_read. cbv zeta. set (s1 := match cb_settle_ms args with Some _ => _ | None => _ end).
  assert (Hs1 : keeps_budget program tool (quiet_boot k) s s1).
  { unfold s1. destruct (cb_settle_ms args) as [ms|]; [|by apply keeps_refl].
    destruct (0 <? ms); [|by apply keeps_refl]. apply boot_others_keep. unfold boot_others. set_solver. }
  set (s2 := run_others 1 (rs_during (bs_read k)) s1).
  assert (Hs2 : keeps_budget program tool (quiet_boot k) s s2).
  { eapply keeps_trans; [exact Hs1|]. apply boot_others_keep. unfold boot_others. set_solver. }
  assert (Hdrop : forall s3, io_sys s3 = io_sys s2 -> keeps_budget program tool (quiet_boot k) s
    (drop_guard id (cb_reset args) armed (bs_cleanup k) s3)).
  { intros s3 E. eapply keeps_trans; [exact Hs2|]. eapply keeps_trans; [by apply keeps_refl|]. apply drop_guard_keeps. }
  destruct (read_from_private_cursor _ _ _ _ _ _ _ _ _) as [ [ [outcome final]|]|e| |]; cbn [snd]; auto.
  destruct (build_read_result _ _ _ _ _ _); cbn [snd]; by apply Hdrop.
Qed.

Section Keeps.
Context (id : list byte) (reset : CaptureBootReset).
Context (rest : bool -> IoState -> ToolEnd IoToolError CaptureBootResult * IoState).
Hypothesis Hrest : forall armed s, keeps_budget program tool (quiet_boot k) s (rest armed s).2.

Lemma boot_release_keeps s : keeps_budget program tool (quiet_boot k) s (boot_release id reset k rest s).2.
Proof.
  unfold boot_release, pulse_fails. cbv zeta. set (s1 := run_others 1 (bs_hold k) s).
  assert (Hs1 : keeps_budget program tool (quiet_boot k) s s1)
    by (apply boot_others_keep; unfold boot_others; set_solver).
  pose proof (on_conn_keeps id s1
    (fun c => set_dtr_rts_unlocked c (release_dtr reset) (release_rts reset) (bs_release k))) as Hb.
  eapply keeps_trans; [exact Hs1|].
  destruct (on_conn id s1 _) as [ [ [v|e]|] s3]; cbn [snd] in Hb; (eapply keeps_trans; [exact Hb|]); [apply Hrest| |apply Hrest].
  destruct (disarmed _); [apply Hrest|]. destruct (bs_cancelled k); [apply Hrest|apply drop_guard_keeps].
Qed.

Lemma boot_pulse_keeps s : keeps_budget program tool (quiet_boot k) s (boot_pulse id reset k rest s).2.
Proof.
  unfold boot_pulse, pulse_fails.
  pose proof (on_conn_keeps id s
    (fun c => set_dtr_rts_unlocked c (assert_dtr reset) (assert_rts reset) (bs_assert k))) as Ha.
  destruct (on_conn id s _) as [ [ [u|e]|] s1]; cbn [snd] in Ha; (eapply keeps_trans; [exact Ha|]);
    [apply boot_release_keeps|apply drop_guard_keeps|apply boot_release_keeps].
Qed.
End Keeps.

(** A capture keeps the budget balanced, and holds no reservation once it has
    ended. *)
Lemma capture_boot_budget id args s out s' :
  io_inv program tool s ->
  (forall c, io_conns s !! id = Some c -> 0 <= sc_rx_buffer_size (sc_identity c)) ->
  capture_boot id args k s = (out, s') ->
  io_inv program tool s' /\ (quiet_boot k -> ended out = true -> ss_tools (io_sys s') = ss_tools (io_sys s)).
Proof.
  intros Hinv Hcap. unfold capture_boot.
  destruct (validate_boot _ _) as [b|e] eqn:Hb; [|by intros [= <- <-] ].
  destruct (lookup_connection s id) as [c|] eqn:Hc; [|by intros [= <- <-] ].
  assert (Hsize : 0 <= sc_rx_buffer_size (sc_identity c)).
  { apply Hcap. unfold lookup_connection in Hc. by case_bool_decide. }
  intros Hw. apply validate_boot_ok in Hb as (Hmax & _).
  eapply with_reservation_keeps with (quiet := quiet_boot k) in Hw as [Hi Ht]; try done.
  - split; [done|]. intros Hq He. destruct (Ht Hq) as [?|[? _] ]; [done|congruence].
  - lia.
  - intros s1 _.
    pose proof (keeps_op program tool (quiet_boot k) s1
      (SGetOrCreate id (sc_rx_buffer_size (sc_identity c)) (bs_task k)) Hprogram Hsize I) as Hg. cbn [session_op] in Hg.
    destruct (get_or_create _ _ _ _) as [r m]. cbn [snd] in Hg. fold (with_sessions s1 m) in Hg.
    eapply keeps_trans; [exact Hg|]. destruct r as [session|e]; [|by apply keeps_refl].
    cbv zeta. eapply keeps_trans; [apply (boot_others_keep (bs_waiting k)); unfold boot_others; set_solver|].
    match goal with |- keeps_budget _ _ _ ?s2 _ =>
      pose proof (on_conn_keeps id s2 (fun c => flush_buffers c FlushInput (bs_purge k))) as Hf;
      destruct (on_conn id s2 _) as [ [ [u|e]|] s3]; cbn [snd] in Hf end.
    2: { exact Hf. }
    all: eapply keeps_trans; [exact Hf|]; destruct (cb_reset args) as [reset|];
      [apply boot_pulse_keeps; intros; apply boot_read_keeps|apply boot_read_keeps].
Qed.
End Budget.
End CaptureBoot.

(** ** A capture *)

(** The connection of [io_start], whose ring of eight bytes holds ["ab"].  The pump
    appends ["cd"] before the gate is held, ["ef"] during the hold and ["g"] while the
    capture settles. *)
Definition boot_args : CaptureBootArgs :=
  mkBootArgs (bs "utf8") (Some a_reset) (Some 20) (Some 1000) None None None None None.

Definition boot_script : BootScript :=
  mkBootScript 1 (pumping (bs "id") [bs "cd"]) None None (pumping (bs "id") [bs "ef"]) false None None
    (pumping (bs "id") [bs "g"]) (mkScript 0 0 0 [] nobody (pumping (bs "id") []) 1).

Definition boot_run : ToolEnd IoToolError CaptureBootResult * IoState :=
  capture_boot (bs "id") boot_args boot_script io_start.

Definition boot_resolved : result BootError ResolvedBoot :=
  validate_boot boot_args (sc_defaults <$> lookup_connection io_start (bs "id")).

Lemma capture_boot_reads_from_mark_witness :
  match boot_run with
  | (ToolOk r, s') =>
      br_mark_offset r = 4 /\ rr_bytes_read (br_read r) = 3 /\
      decode (rr_encoding (br_read r)) (rr_data (br_read r)) = Ok (bs "efg") /\
      (exists output, device_buffers (bs "id") s' = Some ([], output)) /\
      exists ring, shows (bs "id") 0 ring s'
  | _ => False
  end.
Proof.
  assert (Hout : match boot_run.1 with ToolOk r => rr_bytes_read (br_read r) = 3 | _ => False end)
    by (vm_compute; reflexivity).
  unfold boot_run in *. destruct (capture_boot _ _ _ _) as [out s'] eqn:E.
  assert (Hrep : ring_rep (ring_with 8 (bs "ab")) (mkSpec (bs "ab") 0 0)).
  { apply (ring_with_at 8 (bs "ab") (bs "ab") 0); try reflexivity; try discriminate. }
  assert (Hs : shows (bs "id") 0 (ring_with 8 (bs "ab")) io_start).
  { eexists. split; [vm_compute; reflexivity|]. split; vm_compute; reflexivity. }
  assert (Hw : bs_waiting boot_script = pumping (bs "id") [bs "cd"]) by reflexivity.
  assert (Hh : bs_hold boot_script = pumping (bs "id") [bs "ef"]) by reflexivity.
  assert (Ht : bs_settle boot_script = pumping (bs "id") [bs "g"]) by reflexivity.
  assert (Hd : rs_during (bs_read boot_script) = pumping (bs "id") []) by reflexivity.
  assert (Hbound : zlen (stream (mkSpec (bs "ab") 0 0) ++
    concat ([bs "cd"] ++ held boot_args [bs "ef"] ++ settled boot_args [bs "g"])) < 2 ^ 64) by (vm_compute; reflexivity).
  pose proof (capture_boot_reads_from_mark (bs "id") boot_args boot_script io_start out s' 0
    (ring_with 8 (bs "ab")) (mkSpec (bs "ab") 0 0) [bs "cd"] [bs "ef"] [bs "g"] [] Hs Hrep Hw Hh Ht Hd Hbound E) as Hthm.
  cbv zeta in Hthm. destruct Hthm as ([n Hshow] & _ & Hres).
  cbn [fst] in Hout. destruct out as [r|e| | |]; try (exfalso; exact Hout).
  destruct (Hres r eq_refl) as ((_ & output & _ & Hdev) & Hm & _ & Hread).
  split; [exact Hm|]. split; [exact Hout|].
  split; [|split; [exists output; exact Hdev|eexists; exact Hshow] ].
  assert (Hb : match boot_resolved with
    | Ok b => match bt_rx_framing b, bt_rx_parser b, bt_matcher b with None, None, None => true | _, _, _ => false end
    | Err _ => false end = true) by (vm_compute; reflexivity).
  destruct boot_resolved as [b|e] eqn:Eb; [|discriminate].
  destruct (bt_rx_framing b) eqn:Hf; [discriminate|]. destruct (bt_rx_parser b) eqn:Hp; [discriminate|].
  destruct (bt_matcher b) eqn:Hmt; [discriminate|].
  destruct (Hread b (bs "abcdefg") Eb Hf Hp) as [_ Hdec].
  - by rewrite Hmt.
  - exists []. vm_compute. reflexivity.
  - vm_compute. reflexivity.
  - vm_compute. discriminate.
  - exact I.
  - rewrite Hdec, Hout. reflexivity.
Defined.
