(* ===== verification/Handlers.v ===== *)
(** * The handlers of the server

    [SerialHandler] of [src/server.rs]: every tool but [export_log], as the handler
    composes it: the call of the tool, the hints it publishes on the event hub after a
    success, and the sessions it removes after a close.  ([export_log] works on the
    capture directory, which is no part of the process: [ServerTools.export_log].) *)

From S2P Require Import Prelude RustStr Extern ExternModel Codec FramingConfig RxRing BufferBudget LogBuffer MatchConfig RxConsume ReadLoop Tools RxSession TxSession SerialConfig Manager Connection Profiles ProfileStore Learning IoTools ControlTools CaptureBoot Resources ServerTools OpenSettings PortPlan PortTools OpenProofs.

(** ** The event hub ([src/resource_events.rs]) *)

Definition publish_ports_changed : list (list byte) := [URI_PORTS].
Definition publish_connections_changed : list (list byte) := [URI_CONNECTIONS].
Definition publish_connection_detail_changed (id : list byte) : list (list byte) :=
  option_list (detail_uri id).
Definition publish_connection_raw_changed (id : list byte) : list (list byte) :=
  option_list (raw_uri id).
Definition publish_connection_log_changed (id : list byte) : list (list byte) :=
  option_list (log_uri id).
Definition publish_connection_changed (id : list byte) : list (list byte) :=
  publish_connection_detail_changed id ++ publish_connection_raw_changed id
    ++ publish_connection_log_changed id.

Section Handlers.
Context `{HexCrate, Base64Crate, JsonCrate, RegexCrate, GlobCrate, TomlCrate}.
Context (path : list byte).

(** ** The process *)

(** What the handlers share: the state of the connection and profile tools, and the
    TX sessions. *)
Record Process := mkProcess {
  pr_server : Server;
  pr_tx : TxSessionManager;
}.

Definition with_server (p : Process) (s : Server) : Process := mkProcess s (pr_tx p).

(** The part of it the I/O tools work on; a call of theirs registers and
    unregisters nothing itself. *)
Definition io_view (p : Process) : IoState :=
  let s := pr_server p in
  mkIo (sv_conns s) (dom (connections (sv_registry s))) (sv_rx s) (pr_tx p).
Definition io_back (p : Process) (i : IoState) : Process :=
  let s := pr_server p in
  mkProcess (mkServer (sv_registry s) (io_conns i) (io_sys i) (sv_file s) (sv_store s)) (io_tx i).

(** What a call gives: whether it succeeded, what it published, in order, and the
    process after it. *)
Definition Outcome : Type := bool * list (list byte) * Process.

(** [let result = tool(..).await?; publish(..); Ok(result)]. *)
Definition publishing {E A} (uris : A -> list (list byte)) (p : Process)
    (r : result E A * Server) : Outcome :=
  match r with
  | (Ok a, s) => (true, uris a, with_server p s)
  | (Err _, s) => (false, [], with_server p s)
  end.

Definition publishing_io {A} (uris : A -> list (list byte)) (p : Process)
    (r : ToolEnd IoToolError A * IoState) : Outcome :=
  match r with
  | (ToolOk a, i) => (true, uris a, io_back p i)
  | (_, i) => (false, [], io_back p i)
  end.

(** [list + detail], after an open or a close. *)
Definition publish_open_close (id : list byte) : list (list byte) :=
  publish_connections_changed ++ publish_connection_detail_changed id.

(** ** The handlers *)

Definition handle_open (security : SecurityManager) (enumerated : result (list byte) (list PortInfo))
    (plan_io : IoFaults) (e : OpenEnv) (port : list byte) (overlay : OpenOverlay)
    (mode : option ProfileMode) (p : Process) : Outcome :=
  publishing (fun o => publish_open_close (or_connection_id o)) p
    (open path security enumerated plan_io e port overlay mode (pr_server p)).

Definition handle_open_profile (security : SecurityManager)
    (enumerated : result (list byte) (list PortInfo)) (e : OpenEnv) (name : list byte)
    (overlay : OpenOverlay) (p : Process) : Outcome :=
  publishing (fun o => publish_open_close (or_connection_id o)) p
    (open_profile path security enumerated e name overlay (pr_server p)).

(** [RxSessionManager::remove], run to its end. *)
Definition rx_remove (m : RxSessionManager AtomicB.AtomicBudget) (id : list byte)
    : RxSessionManager AtomicB.AtomicBudget :=
  match sm_sessions m !! id with
  | Some _ => remove_finish (remove_begin m id) (length (sm_leaving m))
  | None => m
  end.

(** [close]: the reconnect task is cancelled first; only a successful close
    publishes and removes the sessions. *)
Definition handle_close (now : Z) (fault : option SerialConfig.IoError) (io : IoFaults) (id : list byte)
    (p : Process) : Outcome :=
  let s := pr_server p in
  let s := set_registry s (cancel_reconnect (sv_registry s) id) in
  match PortTools.close_tool path now fault io id s with
  | (Err _, s) => (false, [], with_server p s)
  | (Ok _, s) =>
      (true, publish_open_close id,
       mkProcess (set_rx s (rx_remove (ss_sessions (sv_rx s)) id)) (tx_remove (pr_tx p) id).2)
  end.

Definition handle_write (args : WriteArgs) (now : Z) (fate : TxFate) (p : Process) : Outcome :=
  publishing_io (fun r => publish_connection_detail_changed (wr_connection_id r)) p
    (write_tool args now fate (io_view p)).

Definition handle_transact (wargs : WriteArgs) (rargs : ReadArgs) (now : Z) (fate : TxFate)
    (k : ReadScript) (p : Process) : Outcome :=
  publishing_io (fun r => publish_connection_detail_changed (wr_connection_id r.1)) p
    (transact_tool wargs rargs now fate k (io_view p)).

Definition handle_read (args : ReadArgs) (k : ReadScript) (p : Process) : Outcome :=
  publishing_io (fun _ => []) p (read_tool args k (io_view p)).

(** [capture_boot] publishes nothing: the pump hints what it appends. *)
Definition handle_capture_boot (id : list byte) (args : CaptureBootArgs) (k : BootScript) (p : Process)
    : Outcome :=
  publishing_io (fun _ => []) p (capture_boot id args k (io_view p)).

Definition handle_flush (id : list byte) (target : FlushTarget) (ff : FlushFaults) (p : Process) : Outcome :=
  publishing_io
    (fun _ => match target with
              | FlushInput | FlushBoth =>
                  publish_connection_detail_changed id ++ publish_connection_raw_changed id
              | FlushOutput => []
              end) p
    (flush_tool id target ff (io_view p)).

Definition handle_set_dtr_rts (id : list byte) (dtr rts : bool) (fault : option LineFault) (p : Process)
    : Outcome :=
  let s := pr_server p in
  match lookup s id with
  | Err _ => (false, [], p)
  | Ok c =>
      let '(r, c) := set_dtr_rts_unlocked c dtr rts fault in
      publishing (fun _ => publish_connection_detail_changed id) p (r, set_conn s id c)
  end.

Definition handle_set_flow_control (now : Z) (fault : option SerialConfig.IoError) (io : IoFaults)
    (id flow : list byte) (p : Process) : Outcome :=
  publishing (fun _ => publish_connection_detail_changed id) p
    (set_flow_control_tool path now fault io id flow (pr_server p)).

(** [send_break], with the cleanup its guard queues when it is dropped armed. *)
Definition handle_send_break (id : list byte) (duration_ms : Z) (cancelled : bool)
    (f_assert f_release f_cleanup : option SerialConfig.IoError) (p : Process) : Outcome :=
  let s := pr_server p in
  let found := match lookup s id with Ok c => Some c | Err _ => None end in
  match send_break_begin duration_ms found f_assert with
  | (Ok _, Some c) =>
      let '(r, armed, c) := send_break_end cancelled c f_release in
      let c := if armed then break_cleanup c f_cleanup else c in
      match r with
      | Some (Ok _) => (true, publish_connection_detail_changed id, with_server p (set_conn s id c))
      | _ => (false, [], with_server p (set_conn s id c))
      end
  | (_, Some c) => (false, [], with_server p (set_conn s id c))
  | (_, None) => (false, [], p)
  end.

Definition handle_reconfigure (now : Z) (fault : option (nat * SerialConfig.IoError)) (io : IoFaults)
    (id : list byte) (args : ReconfigureArgs) (p : Process) : Outcome :=
  publishing (fun r => publish_connection_detail_changed (st_connection_id r.1.1)) p
    (reconfigure_tool path now fault io id args (pr_server p)).

Definition handle_configure (now : Z) (io : IoFaults) (profile connection_id : option (list byte))
    (defaults : ProfileDefaults) (overwrite : bool) (p : Process) : Outcome :=
  publishing
    (fun r => match r with
              | ConfiguredConnection _ _ _ =>
                  from_option publish_connection_detail_changed [] connection_id
              | ConfiguredProfile _ _ => []
              end) p
    (configure path now io profile connection_id defaults overwrite (pr_server p)).

Definition handle_reconnect (now : Z) (build_stream : ConnectionConfig -> result SerialError Device)
    (to_string : SerialError -> list byte) (id : list byte) (p : Process) : Outcome :=
  publishing (fun _ => publish_connection_detail_changed id) p
    (reconnect_tool now build_stream to_string id (pr_server p)).

Definition handle_clear_log (id : list byte) (p : Process) : Outcome :=
  let s := pr_server p in
  match lookup s id with
  | Err _ => (false, [], p)
  | Ok c => (true, publish_connection_log_changed id, with_server p (set_conn s id (clear_log c)))
  end.

Definition handle_save_profile (now : Z) (io : IoFaults) (id name : list byte) (overwrite : bool)
    (p : Process) : Outcome :=
  publishing (fun _ => []) p (save_profile now io id name overwrite (pr_server p)).

Definition handle_delete_profile (now : Z) (io : IoFaults) (name : list byte) (p : Process) : Outcome :=
  publishing (fun _ => []) p (delete_profile now io name (pr_server p)).

Definition handle_rollback_profile (now : Z) (io : IoFaults) (name : list byte)
    (expected_revision revision : Z) (p : Process) : Outcome :=
  publishing (fun _ => []) p (rollback_profile now io name expected_revision revision (pr_server p)).

(** The tools that look.  Their answers are those of [PortTools], [PortPlan] and
    [ServerTools]; a listing of the ports reads the profile file afresh. *)
Definition handle_list_ports (enumerated : result (list byte) (list PortInfo)) (io : IoFaults)
    (p : Process) : Outcome :=
  let s := pr_server p in
  let '(r, store) := list_ports enumerated io (sv_file s) (sv_store s) in
  publishing (fun _ => []) p (r, set_profiles s (sv_file s) store).

Definition handle_list_connections (p : Process) : Outcome :=
  publishing (fun _ => []) p (Ok (list_connections (pr_server p)) : result PortError _, pr_server p).

Definition handle_get_status (id : list byte) (p : Process) : Outcome :=
  publishing (fun _ => []) p (get_status id (pr_server p), pr_server p).

Definition handle_list_profiles (p : Process) : Outcome :=
  publishing (fun _ => []) p (Ok (store_list (sv_store (pr_server p))) : result PortError _, pr_server p).

Definition handle_get_log (id : list byte) (since_ms : option Z) (limit : option nat) (p : Process) : Outcome :=
  publishing (fun _ => []) p
    (c ← lookup (pr_server p) id; Ok (get_log c since_ms limit), pr_server p).

Definition handle_compute_checksum (encoding data : list byte) (algorithm : ChecksumAlgorithm) (p : Process)
    : Outcome :=
  publishing (fun _ => []) p (compute_checksum encoding data algorithm, pr_server p).

(** ** Every call *)

Inductive HandlerCall :=
  | HOpen (security : SecurityManager) (enumerated : result (list byte) (list PortInfo))
      (plan_io : IoFaults) (e : OpenEnv) (port : list byte) (overlay : OpenOverlay)
      (mode : option ProfileMode)
  | HOpenProfile (security : SecurityManager) (enumerated : result (list byte) (list PortInfo))
      (e : OpenEnv) (name : list byte) (overlay : OpenOverlay)
  | HClose (now : Z) (fault : option SerialConfig.IoError) (io : IoFaults) (id : list byte)
  | HWrite (args : WriteArgs) (now : Z) (fate : TxFate)
  | HTransact (wargs : WriteArgs) (rargs : ReadArgs) (now : Z) (fate : TxFate) (k : ReadScript)
  | HRead (args : ReadArgs) (k : ReadScript)
  | HCaptureBoot (id : list byte) (args : CaptureBootArgs) (k : BootScript)
  | HFlush (id : list byte) (target : FlushTarget) (ff : FlushFaults)
  | HSetDtrRts (id : list byte) (dtr rts : bool) (fault : option LineFault)
  | HSetFlowControl (now : Z) (fault : option SerialConfig.IoError) (io : IoFaults)
      (id flow : list byte)
  | HSendBreak (id : list byte) (duration_ms : Z) (cancelled : bool)
      (f_assert f_release f_cleanup : option SerialConfig.IoError)
  | HReconfigure (now : Z) (fault : option (nat * SerialConfig.IoError)) (io : IoFaults)
      (id : list byte) (args : ReconfigureArgs)
  | HConfigure (now : Z) (io : IoFaults) (profile connection_id : option (list byte))
      (defaults : ProfileDefaults) (overwrite : bool)
  | HReconnect (now : Z) (build_stream : ConnectionConfig -> result SerialError Device)
      (to_string : SerialError -> list byte) (id : list byte)
  | HClearLog (id : list byte)
  | HSaveProfile (now : Z) (io : IoFaults) (id name : list byte) (overwrite : bool)
  | HDeleteProfile (now : Z) (io : IoFaults) (name : list byte)
  | HRollbackProfile (now : Z) (io : IoFaults) (name : list byte) (expected_revision revision : Z)
  | HListPorts (enumerated : result (list byte) (list PortInfo)) (io : IoFaults)
  | HListConnections
  | HGetStatus (id : list byte)
  | HListProfiles
  | HGetLog (id : list byte) (since_ms : option Z) (limit : option nat)
  | HComputeChecksum (encoding data : list byte) (algorithm : ChecksumAlgorithm).

Definition run_handler (call : HandlerCall) : Process -> Outcome :=
  match call with
  | HOpen security enumerated plan_io e port overlay mode =>
      handle_open security enumerated plan_io e port overlay mode
  | HOpenProfile security enumerated e name overlay => handle_open_profile security enumerated e name overlay
  | HClose now fault io id => handle_close now fault io id
  | HWrite args now fate => handle_write args now fate
  | HTransact wargs rargs now fate k => handle_transact wargs rargs now fate k
  | HRead args k => handle_read args k
  | HCaptureBoot id args k => handle_capture_boot id args k
  | HFlush id target ff => handle_flush id target ff
  | HSetDtrRts id dtr rts fault => handle_set_dtr_rts id dtr rts fault
  | HSetFlowControl now fault io id flow => handle_set_flow_control now fault io id flow
  | HSendBreak id ms cancelled f1 f2 f3 => handle_send_break id ms cancelled f1 f2 f3
  | HReconfigure now fault io id args => handle_reconfigure now fault io id args
  | HConfigure now io profile id defaults overwrite => handle_configure now io profile id defaults overwrite
  | HReconnect now build_stream to_string id => handle_reconnect now build_stream to_string id
  | HClearLog id => handle_clear_log id
  | HSaveProfile now io id name overwrite => handle_save_profile now io id name overwrite
  | HDeleteProfile now io name => handle_delete_profile now io name
  | HRollbackProfile now io name expected revision => handle_rollback_profile now io name expected revision
  | HListPorts enumerated io => handle_list_ports enumerated io
  | HListConnections => handle_list_connections
  | HGetStatus id => handle_get_status id
  | HListProfiles => handle_list_profiles
  | HGetLog id since_ms limit => handle_get_log id since_ms limit
  | HComputeChecksum encoding data algorithm => handle_compute_checksum encoding data algorithm
  end.

(** ** What the resources show *)

(** The body of [serial://connections/{id}], and of [serial://connections]: the ids
    it lists. *)
Definition detail_body (p : Process) (id : list byte) : option ConnectionSummary :=
  match server_get (pr_server p) id with Ok c => Some (summary c) | Err _ => None end.
Definition listed (p : Process) (id : list byte) : bool := is_some (detail_body p id).

(** Connections are stored under their own ids. *)
Definition ids_agree (p : Process) : Prop :=
  forall id c, sv_conns (pr_server p) !! id = Some c -> sc_id (sc_identity c) = id.

(** A read and a capture wait alone. *)
Definition alone_script (k : ReadScript) : Prop := rs_before k = nobody /\ rs_during k = nobody.
Definition alone_boot (k : BootScript) : Prop := Forall (fun o => o = nobody) (boot_others k).
Definition alone_call (call : HandlerCall) : Prop :=
  match call with
  | HTransact _ _ _ _ k | HRead _ k => alone_script k
  | HCaptureBoot _ _ k => alone_boot k
  | _ => True
  end.

(** *** Operations that keep the summary *)

Lemma flush_buffers_summary c target fault : summary (flush_buffers c target fault).2 = summary c.
Proof. unfold flush_buffers, ensure_open, io_or_closed. by repeat (case_match; simplify_eq/=). Qed.

Lemma set_dtr_rts_summary c dtr rts fault : summary (set_dtr_rts_unlocked c dtr rts fault).2 = summary c.
Proof. unfold set_dtr_rts_unlocked, dev_set_dtr_rts. by repeat (case_match; simplify_eq/=). Qed.

Lemma set_break_summary c asserted fault : summary (set_break_state c asserted fault).2 = summary c.
Proof. unfold set_break_state. by repeat (case_match; simplify_eq/=). Qed.

Lemma conn_write_summary c now data fault : summary (conn_write c now data fault).2 = summary c.
Proof. unfold conn_write. by repeat (case_match; simplify_eq/=). Qed.

Lemma reconnect_summary c now build to_string : summary (reconnect c now build to_string).2 = summary c.
Proof. unfold reconnect, reconnect_begin. by repeat (case_match; simplify_eq/=). Qed.

Lemma record_read_summary c now r m : summary (record_read_completion c now r m) = summary c.
Proof. unfold record_read_completion. by repeat (case_match; simplify_eq/=). Qed.

(** The operations that can change it keep the id, and keep all of it when they
    fail. *)
Lemma set_flow_control_id c flow fault r c' : set_flow_control c flow fault = (r, c') ->
  sc_identity c' = sc_identity c /\ (is_ok r = false -> c' = c).
Proof. unfold set_flow_control. intros E. by repeat (case_match; simplify_eq/=). Qed.

Lemma reconfigure_id c rc fault r c' : reconfigure c rc fault = (r, c') ->
  sc_identity c' = sc_identity c /\ (is_ok r = false -> summary c' = summary c) /\
  (forall status, r = Ok status -> st_connection_id status = sc_id (sc_identity c)).
Proof. unfold reconfigure. intros E. repeat (case_match; simplify_eq/=); split_and!; naive_solver. Qed.

(** *** Frames *)

Definition summaries (p : Process) (id : list byte) : option ConnectionSummary :=
  summary <$> sv_conns (pr_server p) !! id.
Definition registered (p : Process) (id : list byte) : option Identity :=
  connections (sv_registry (pr_server p)) !! id.

Lemma detail_body_eq p id :
  detail_body p id = _ ← registered p id; summaries p id.
Proof.
  unfold detail_body, server_get, manager_get, registered, summaries.
  destruct (connections _ !! id); [|done]. by destruct (sv_conns _ !! id).
Qed.

Lemma ids_agree_summaries p :
  ids_agree p <-> forall id m, summaries p id = Some m -> sm_connection_id m = id.
Proof.
  unfold ids_agree, summaries. split.
  - intros Hi id m (c & Hc & ->)%fmap_Some. by apply Hi.
  - intros Hs id c Hc. apply (Hs id (summary c)). by rewrite Hc.
Qed.

Definition same_registry (p p' : Process) : Prop :=
  sv_registry (pr_server p') = sv_registry (pr_server p).

(** What never changes of a connection. *)
Definition who (m : ConnectionSummary) : list byte * list byte := (sm_connection_id m, sm_port m).

(** The process differs, as far as the two resources go, only in the connection
    [id], whose id and port stay; or not at all. *)
Definition changes_only (id : list byte) (p p' : Process) : Prop :=
  same_registry p p' /\
  (forall i, i <> id -> summaries p' i = summaries p i) /\
  who <$> summaries p' id = who <$> summaries p id.

Definition changes_nothing (p p' : Process) : Prop :=
  same_registry p p' /\ (forall i, summaries p' i = summaries p i).

Lemma changes_nothing_only id p p' : changes_nothing p p' -> changes_only id p p'.
Proof. intros [Hr Hs]. split_and!; [done|auto|by rewrite Hs]. Qed.

Lemma same_registered p p' : same_registry p p' -> forall i, registered p' i = registered p i.
Proof. unfold registered. by intros ->. Qed.

(** The registry stays, and so do the id and the port of every connection. *)
Definition keeps (p p' : Process) : Prop :=
  same_registry p p' /\ (forall i, who <$> summaries p' i = who <$> summaries p i).

Lemma changes_only_keeps id p p' : changes_only id p p' -> keeps p p'.
Proof.
  intros (Hr & Hs & Hw). split; [done|]. intros i. destruct (decide (i = id)) as [->|Hi]; [done|by rewrite Hs].
Qed.

(** What is promised of a call. *)
Definition hinted (closing rolling : bool) (p : Process) (o : Outcome) : Prop :=
  let '(ok, published, p') := o in
  (closing = false -> keeps p p') /\ ids_agree p' /\
  (ok = false -> published = [] /\ (closing = false -> forall id, detail_body p' id = detail_body p id)) /\
  (ok = true -> forall id, detail_body p' id <> detail_body p id ->
     (rolling = false -> forall uri, detail_uri id = Some uri -> uri ∈ published) /\
     (listed p' id <> listed p id -> URI_CONNECTIONS ∈ published)) /\
  (forall uri, uri ∈ published -> is_subscribable_uri uri = true).

Lemma built_subscribable id uri :
  uri ∈ publish_connection_changed id -> is_subscribable_uri uri = true.
Proof.
  destruct subscribable_uris as (Hsub & Hvalid & Hinvalid). unfold publish_connection_changed,
    publish_connection_detail_changed, publish_connection_raw_changed, publish_connection_log_changed.
  destruct (valid_connection_id id) eqn:Hv.
  - destruct (Hvalid id Hv) as ((d & Hd & Pd) & (r & Hr & Pr) & (l & Hl & Pl)). rewrite Hd, Hr, Hl. cbn.
    rewrite !elem_of_cons, elem_of_nil. unfold is_subscribable_uri.
    intros [->|[->|[->|[] ] ] ]; [rewrite Pd, Hd|rewrite Pr, Hr|rewrite Pl, Hl]; done.
  - unfold detail_uri, raw_uri, log_uri. rewrite !(Hinvalid id _ Hv). cbn. by rewrite elem_of_nil.
Qed.

Lemma detail_subscribable id uri :
  uri ∈ publish_connection_detail_changed id -> is_subscribable_uri uri = true.
Proof. intros Hu. apply (built_subscribable id). unfold publish_connection_changed. set_solver. Qed.

Lemma open_close_subscribable id uri : uri ∈ publish_open_close id -> is_subscribable_uri uri = true.
Proof.
  unfold publish_open_close, publish_connections_changed. rewrite elem_of_app, list_elem_of_singleton.
  intros [->|Hu]; [by vm_compute|by eapply detail_subscribable].
Qed.

Lemma keeps_ids p p' : ids_agree p -> keeps p p' -> ids_agree p'.
Proof.
  rewrite !ids_agree_summaries. intros Hi [_ Hw] i m Hm. specialize (Hw i). rewrite Hm in Hw.
  destruct (summaries p i) as [m'|] eqn:E; [|done]. injection Hw as -> _. by apply Hi.
Qed.

(** A call that changes one connection and publishes its detail URI when it
    succeeds; with more URIs of that connection, if it likes. *)
Lemma hinted_only closing rolling id p p' ok published :
  ids_agree p -> changes_only id p p' ->
  (ok = false -> published = [] /\ changes_nothing p p') ->
  (ok = true -> (rolling = false -> forall uri, detail_uri id = Some uri -> uri ∈ published) \/ changes_nothing p p') ->
  (forall uri, uri ∈ published -> is_subscribable_uri uri = true) ->
  hinted closing rolling p (ok, published, p').
Proof.
  intros Hids Hc Hfail Hok Hsub. pose proof (changes_only_keeps _ _ _ Hc) as Hk.
  unfold hinted. split_and!; [done|by eapply keeps_ids| | |done].
  - intros E. destruct (Hfail E) as (-> & Hr & Hs). split; [done|]. intros _ i. pose proof (same_registered p p' Hr) as Hreg.
    by rewrite !detail_body_eq, Hreg, Hs.
  - intros E i Hne. destruct Hc as (Hr0 & Hs & Hid). pose proof (same_registered p p' Hr0) as Hr.
    rewrite !detail_body_eq, Hr in Hne.
    split.
    + destruct (decide (i = id)) as [->|Hni]; [|by rewrite (Hs i Hni) in Hne].
      destruct (Hok E) as [Hu|(_ & Hs')]; [done|]. by rewrite Hs' in Hne.
    + unfold listed. rewrite !detail_body_eq, Hr. intros []. destruct (registered p i); [|done]. cbn.
      destruct (decide (i = id)) as [->|Hni]; [|by rewrite Hs].
      by destruct (summaries p' id), (summaries p id).
Qed.

(** A call that changes no summary. *)
Lemma hinted_nothing closing rolling p p' ok published :
  ids_agree p -> changes_nothing p p' -> (ok = false -> published = []) ->
  (forall uri, uri ∈ published -> is_subscribable_uri uri = true) ->
  hinted closing rolling p (ok, published, p').
Proof.
  intros Hids Hc Hf Hsub.
  apply (hinted_only _ _ []); [done|by apply changes_nothing_only|auto|by right|done].
Qed.

(** *** The I/O tools *)

Definition same_conns (i i' : IoState) : Prop :=
  forall id, summary <$> io_conns i' !! id = summary <$> io_conns i !! id.

#[local] Instance same_conns_refl : Reflexive same_conns.
Proof. by intros i id. Qed.

#[local] Instance same_conns_trans : Transitive same_conns.
Proof. intros i j k Hij Hjk id. by rewrite Hjk, Hij. Qed.

Lemma same_conns_update i id c c' :
  io_conns i !! id = Some c -> summary c' = summary c -> same_conns i (update_conn i id c').
Proof.
  intros Hc Hs j. cbn. destruct (decide (id = j)) as [<-|Hne]; [|by rewrite lookup_insert_ne].
  rewrite lookup_insert_eq, Hc. cbn. by rewrite Hs.
Qed.

Lemma same_conns_alter i id (g : SerialConnection -> SerialConnection) :
  (forall c, summary (g c) = summary c) -> same_conns i (with_conns i (alter g id)).
Proof.
  intros Hg j. cbn. destruct (decide (id = j)) as [<-|Hne]; [|by rewrite lookup_alter_ne].
  rewrite lookup_alter_eq. destruct (io_conns i !! id); cbn; [|done]. by rewrite Hg.
Qed.

Lemma lookup_connection_some i id c : lookup_connection i id = Some c -> io_conns i !! id = Some c.
Proof. unfold lookup_connection. by case_bool_decide. Qed.

Lemma write_tool_same args now fate i : same_conns i (write_tool args now fate i).2.
Proof.
  unfold write_tool, session_write.
  destruct (parse_encoding _); [|done]. destruct (lookup_connection _ _) as [c|] eqn:Hc; [|done].
  apply lookup_connection_some in Hc.
  destruct (decode_tx_payload _ _) as [decoded|]; [|done]. destruct (apply_tx_framing _ _) as [wire|]; [|done].
  destruct (tx_get_or_create _ _ _) as [session tx]. set (i1 := mkIo _ _ _ tx).
  assert (Hi1 : same_conns i i1) by done.
  destruct fate as [|fault]; [done|]. pose proof (conn_write_summary c now wire fault) as Hs.
  destruct (conn_write c now wire fault) as [r c']. cbn [snd] in Hs.
  assert (Hi2 : same_conns i1 (update_conn i1 (wa_connection_id args) c')) by (by eapply same_conns_update).
  destruct r as [n|e]; cbn [snd]; [|by etransitivity]. etransitivity; [by etransitivity|].
  by apply same_conns_alter.
Qed.

Lemma with_reservation_same {A} n (rest : IoState -> ToolEnd IoToolError A * IoState) i :
  (forall j, same_conns j (rest j).2) -> same_conns i (with_reservation n rest i).2.
Proof.
  intros Hrest. unfold with_reservation. destruct (try_reserve _ _) as [ [m|e] b]; [|done].
  set (i1 := with_sys _ _). assert (Hi1 : same_conns i i1) by done.
  pose proof (Hrest i1) as Hi2. destruct (rest i1) as [out j]. cbn [snd] in *.
  destruct (ended out); by etransitivity.
Qed.

Lemma with_session_same id from k rest i :
  rs_before k = nobody -> (forall session cursor j, same_conns j (rest session cursor j).2) ->
  same_conns i (with_session id from k rest i).2.
Proof.
  intros Hk Hrest. unfold with_session. rewrite Hk. set (i1 := run_others _ _ _).
  assert (Hi1 : same_conns i i1) by done.
  destruct (get_or_create _ _ _ _) as [ [session|e] m]; [|done]. cbv zeta.
  etransitivity; [|apply Hrest]. by etransitivity.
Qed.

Lemma finish_read_same args encoding max m c session cursor k i :
  rs_during k = nobody -> same_conns i (finish_read args encoding max m c session cursor k i).2.
Proof.
  intros Hk. unfold finish_read. rewrite Hk. cbv zeta. set (i1 := run_others _ _ _).
  assert (Hi1 : same_conns i i1) by done.
  destruct (read_bytes_from_ring _ _ _ _ _ _ _ _ _ _ _ _) as [ [ [outcome final]|]| | |]; [|done..].
  destruct (build_read_result _ _ _ _ _ _); [|done]. cbn [snd].
  etransitivity; [|apply same_conns_alter; intros; apply record_read_summary]. done.
Qed.

Lemma read_tool_same args k i : alone_script k -> same_conns i (read_tool args k i).2.
Proof.
  intros [Hb Hd]. unfold read_tool.
  destruct (validate_rx_request _ _ _ _) as [v|]; [|done]. destruct (lookup_connection _ _); [|done].
  apply with_reservation_same. intros j. apply with_session_same; [done|]. intros. by apply finish_read_same.
Qed.

Lemma transact_tool_same wargs rargs now fate k i :
  alone_script k -> same_conns i (transact_tool wargs rargs now fate k i).2.
Proof.
  intros [Hb Hd]. unfold transact_tool. pose proof (write_tool_same wargs now fate i) as Hw.
  destruct (write_tool wargs now fate i) as [ [w|e| | |] i1]; cbn [snd] in *; try done.
  destruct (io_conns i1 !! _) as [c|]; [|done].
  match goal with |- context [with_reservation ?n ?rest i1] =>
    pose proof (with_reservation_same n rest i1) as Hr; destruct (with_reservation n rest i1) as [r i2] end.
  cbn [snd] in *. etransitivity; [exact Hw|]. apply Hr. intros j. apply with_session_same; [done|].
  intros session cursor j'. destruct (ra_match rargs) as [m|]; cbn [mbind result_bind].
  - destruct (validate_match_request m); cbn [mbind result_bind]; [|done]. by apply finish_read_same.
  - by apply finish_read_same.
Qed.

Lemma flush_output_same i id c fate : io_conns i !! id = Some c ->
  same_conns i (flush_output i id c fate).2.
Proof.
  intros Hc. unfold flush_output. destruct (tx_get_or_create _ _ _) as [session tx]. destruct fate as [|fault]; [done|].
  pose proof (flush_buffers_summary c FlushOutput (snd <$> fault)) as Hs.
  destruct (flush_buffers _ _ _) as [r c']. cbn [snd] in *.
  etransitivity; [|by eapply same_conns_update]. done.
Qed.

Lemma flush_input_same i id c fault : io_conns i !! id = Some c ->
  same_conns i (flush_input i id c fault).2.
Proof.
  intros Hc. unfold flush_input. pose proof (flush_buffers_summary c FlushInput fault) as Hs.
  destruct (flush_buffers _ _ _) as [r c']. cbn [snd] in *.
  assert (Hi1 : same_conns i (update_conn i id c')) by (by eapply same_conns_update). by destruct r.
Qed.

Lemma flush_tool_same id target ff i : same_conns i (flush_tool id target ff i).2.
Proof.
  unfold flush_tool. destruct (lookup_connection _ _) as [c|] eqn:Hc; [|done].
  apply lookup_connection_some in Hc. destruct target; cbn [snd].
  - by apply flush_input_same.
  - by apply flush_output_same.
  - pose proof (flush_output_same i id c (ff_output ff) Hc) as Hi1.
    destruct (flush_output _ _ _ _) as [ [u|e] i1]; cbn [snd] in *; [|done].
    etransitivity; [exact Hi1|]. destruct (io_conns i1 !! id) as [c1|] eqn:Hc1; cbn [default].
    + by apply flush_input_same.
    + specialize (Hi1 id). by rewrite Hc, Hc1 in Hi1.
Qed.

Lemma publishing_io_hinted {A} closing rolling (uris : A -> list (list byte)) p r i' :
  ids_agree p -> same_conns (io_view p) i' ->
  (forall a uri, r = ToolOk a -> uri ∈ uris a -> is_subscribable_uri uri = true) ->
  hinted closing rolling p (publishing_io uris p (r, i')).
Proof.
  intros Hids Hs Hsub. assert (Hn : changes_nothing p (io_back p i')) by (split; [done|apply Hs]).
  destruct r as [a|e| | |]; apply hinted_nothing; try done; eauto; by intros uri ?%elem_of_nil.
Qed.

(** *** The boot capture *)

Lemma on_conn_same {A} id i (op : SerialConnection -> A * SerialConnection) :
  (forall c, summary (op c).2 = summary c) -> same_conns i (on_conn id i op).2.
Proof.
  intros Hop. unfold on_conn. destruct (io_conns i !! id) as [c|] eqn:Hc; [|done].
  specialize (Hop c). destruct (op c) as [a c']. by eapply same_conns_update.
Qed.

Lemma drop_guard_same id reset armed fault i : same_conns i (drop_guard id reset armed fault i).
Proof.
  unfold drop_guard. destruct reset; [|done]. destruct armed; [|done].
  apply on_conn_same. intros. apply set_dtr_rts_summary.
Qed.

Section Boot.
Context (k : BootScript) (Halone : alone_boot k).

Lemma boot_others_same o i : o ∈ boot_others k -> same_conns i (run_others 1 o i).
Proof. intros Ho. unfold alone_boot in Halone. rewrite Forall_forall in Halone. by rewrite (Halone o Ho). Qed.

Lemma boot_read_same id args b c session mark armed i :
  same_conns i (boot_read id args b c session mark armed k i).2.
Proof.
  unfold boot_read. cbv zeta. set (i1 := match cb_settle_ms args with Some _ => _ | None => _ end).
  assert (Hbefore : same_conns i i1).
  { unfold i1. destruct (cb_settle_ms args) as [ms|]; [|done].
    destruct (0 <? ms); [|done]. apply boot_others_same. unfold boot_others. set_solver. }
  assert (Hafter : same_conns i (run_others 1 (rs_during (bs_read k)) i1)).
  { etransitivity; [exact Hbefore|]. apply boot_others_same. unfold boot_others. set_solver. }
  destruct (read_from_private_cursor _ _ _ _ _ _ _ _ _) as [ [ [outcome final]|]|e| |]; cbn [snd]; try done;
    [|etransitivity; [exact Hafter|apply drop_guard_same]..].
  destruct (build_read_result _ _ _ _ _ _); cbn [snd]; (etransitivity; [|apply drop_guard_same]); [|done].
  etransitivity; [exact Hafter|]. apply same_conns_alter. intros. apply record_read_summary.
Qed.

Lemma boot_pulse_same id reset rest i :
  (forall armed j, same_conns j (rest armed j).2) -> same_conns i (boot_pulse id reset k rest i).2.
Proof.
  intros Hrest.
  assert (Hrelease : forall j, same_conns j (boot_release id reset k rest j).2).
  { intros j. unfold boot_release, pulse_fails. cbv zeta. set (j1 := run_others 1 (bs_hold k) j).
    assert (Hbefore : same_conns j j1) by (apply boot_others_same; unfold boot_others; set_solver).
    pose proof (on_conn_same id j1
      (fun c => set_dtr_rts_unlocked c (release_dtr reset) (release_rts reset) (bs_release k))
      (fun c => set_dtr_rts_summary c _ _ _)) as Hafter.
    etransitivity; [exact Hbefore|].
    destruct (on_conn id j1 _) as [ [ [v|e]|] j2]; cbn [snd] in Hafter; (etransitivity; [exact Hafter|]);
      [apply Hrest| |apply Hrest].
    destruct (disarmed _); [apply Hrest|]. destruct (bs_cancelled k); [apply Hrest|apply drop_guard_same]. }
  unfold boot_pulse, pulse_fails.
  pose proof (on_conn_same id i
    (fun c => set_dtr_rts_unlocked c (assert_dtr reset) (assert_rts reset) (bs_assert k))
    (fun c => set_dtr_rts_summary c _ _ _)) as Ha.
  destruct (on_conn id i _) as [ [ [u|e]|] j]; cbn [snd] in Ha; (etransitivity; [exact Ha|]);
    [apply Hrelease|apply drop_guard_same|apply Hrelease].
Qed.

Lemma capture_boot_same id args i : same_conns i (capture_boot id args k i).2.
Proof.
  unfold capture_boot. destruct (validate_boot _ _) as [b|e]; [|done].
  destruct (lookup_connection i id) as [c|]; [|done]. apply with_reservation_same. intros j.
  destruct (get_or_create _ _ _ _) as [ [session|e] m]; [|done]. cbv zeta.
  set (j1 := run_others 1 _ _).
  assert (Hbefore : same_conns j j1).
  { transitivity (with_sessions j m); [done|]. apply boot_others_same. unfold boot_others. set_solver. }
  pose proof (on_conn_same id j1 (fun c => flush_buffers c FlushInput (bs_purge k))
    (fun c => flush_buffers_summary c _ _)) as Hf.
  destruct (on_conn id j1 _) as [ [ [u|e]|] j2]; cbn [snd] in Hf; [|by etransitivity|];
    (etransitivity; [exact Hbefore|]; etransitivity; [exact Hf|]);
    (destruct (cb_reset args); [apply boot_pulse_same; intros|]; apply boot_read_same).
Qed.
End Boot.

(** *** The tools on one connection *)

Lemma lookup_conn s id c : lookup s id = Ok c -> sv_conns s !! id = Some c.
Proof.
  unfold lookup, server_get. destruct (manager_get _ _); cbn [mbind result_bind map_err]; [|done].
  destruct (sv_conns s !! id); cbn; [|done]. by intros [= <-].
Qed.

(** One connection is replaced by one of the same id. *)
Lemma replaced_only p id c c' s' :
  sv_conns (pr_server p) !! id = Some c ->
  sv_registry s' = sv_registry (pr_server p) ->
  (forall i, i <> id -> sv_conns s' !! i = sv_conns (pr_server p) !! i) ->
  sv_conns s' !! id = Some c' -> sc_identity c' = sc_identity c ->
  changes_only id p (with_server p s').
Proof.
  intros Hc Hr Hs Hc' Hid. unfold changes_only, same_registry, summaries. cbn. rewrite Hc, Hc'.
  split_and!; [done|intros i Hi; by rewrite Hs|]. unfold who, summary. cbn. by rewrite Hid.
Qed.

Lemma replaced_nothing p id c c' s' :
  sv_conns (pr_server p) !! id = Some c ->
  sv_registry s' = sv_registry (pr_server p) ->
  (forall i, i <> id -> sv_conns s' !! i = sv_conns (pr_server p) !! i) ->
  sv_conns s' !! id = Some c' -> summary c' = summary c ->
  changes_nothing p (with_server p s').
Proof.
  intros Hc Hr Hs Hc' Hsum. unfold changes_nothing, summaries. cbn.
  split; [done|]. intros i. destruct (decide (i = id)) as [->|Hi]; [|by rewrite Hs].
  rewrite Hc, Hc'. cbn. by rewrite Hsum.
Qed.

Lemma set_conn_nothing p id c c' :
  lookup (pr_server p) id = Ok c -> summary c' = summary c ->
  changes_nothing p (with_server p (set_conn (pr_server p) id c')).
Proof.
  intros Hc%lookup_conn Hs. apply (replaced_nothing p id c c'); [done|done| |apply lookup_insert_eq|done].
  intros i Hi. cbn. by rewrite lookup_insert_ne.
Qed.

(** Learning on a connection that has been replaced by [c']. *)
Lemma learn_conn_only p s op io now id c c' session persistence s' :
  lookup (pr_server p) id = Ok c -> sc_identity c' = sc_identity c ->
  sv_registry s = sv_registry (pr_server p) ->
  (forall i, i <> id -> sv_conns s !! i = sv_conns (pr_server p) !! i) ->
  learn_conn path op io now id c' s = (session, persistence, s') ->
  changes_only id p (with_server p s').
Proof.
  intros Hc%lookup_conn Hid Hr Hs. unfold learn_conn.
  destruct (learn _ _ _ _ _ _ _ _) as [ [ [ [x y] file] store] b]. intros [= <- <- <-].
  eapply (replaced_only p id c); [done|done| |apply lookup_insert_eq|done].
  intros i Hi. cbn. rewrite lookup_insert_ne by done. by apply Hs.
Qed.

Lemma same_process p : changes_nothing p (with_server p (pr_server p)).
Proof. done. Qed.

(** The two ways a tool of one connection ends, for [hinted_only]. *)
Lemma publishing_only {E A} closing rolling id (uris : A -> list (list byte)) p (r : result E A) s' :
  ids_agree p -> changes_only id p (with_server p s') ->
  (is_ok r = false -> changes_nothing p (with_server p s')) ->
  (forall a, r = Ok a -> uris a = publish_connection_detail_changed id) ->
  hinted closing rolling p (publishing uris p (r, s')).
Proof.
  intros Hids Hc Hf Hu. unfold publishing. destruct r as [a|e].
  - rewrite (Hu a eq_refl). apply (hinted_only _ _ id); [done|done|done| |by apply detail_subscribable].
    intros _. left. intros _ uri Huri. unfold publish_connection_detail_changed. rewrite Huri. cbn. set_solver.
  - apply hinted_nothing; [done|by apply Hf|done|]. by intros uri ?%elem_of_nil.
Qed.

Lemma publishing_nothing {E A} closing rolling (uris : A -> list (list byte)) p (r : result E A) s' :
  ids_agree p -> changes_nothing p (with_server p s') ->
  (forall a uri, r = Ok a -> uri ∈ uris a -> is_subscribable_uri uri = true) ->
  hinted closing rolling p (publishing uris p (r, s')).
Proof.
  intros Hids Hc Hu. unfold publishing. destruct r as [a|e]; apply hinted_nothing; try done; eauto.
  by intros uri ?%elem_of_nil.
Qed.

Lemma set_flow_control_hinted closing rolling now fault io id flow p :
  ids_agree p -> hinted closing rolling p (handle_set_flow_control now fault io id flow p).
Proof.
  intros Hids. unfold handle_set_flow_control, set_flow_control_tool.
  destruct (flow_control_from_str flow) as [fl|]; cbn [map_err mbind result_bind];
    [|by apply publishing_nothing].
  destruct (lookup (pr_server p) id) as [c|] eqn:Hc; cbn [mbind result_bind]; [|by apply publishing_nothing].
  destruct (set_flow_control c fl fault) as [r c'] eqn:Hset. apply set_flow_control_id in Hset as [Hid Hfail].
  destruct r as [u|e].
  - destruct (learn_conn _ _ _ _ _ _ _) as [ [profile persistence] s'] eqn:Hl.
    eapply (learn_conn_only p) in Hl; [|done|done|done|intros i Hi; cbn; by rewrite lookup_insert_ne].
    by apply (publishing_only _ _ id).
  - apply publishing_nothing; [done| |done]. rewrite (Hfail eq_refl). by apply (set_conn_nothing p id c).
Qed.

Lemma reconfigure_hinted closing rolling now fault io id args p :
  ids_agree p -> hinted closing rolling p (handle_reconfigure now fault io id args p).
Proof.
  intros Hids. unfold handle_reconfigure, reconfigure_tool.
  destruct (lookup (pr_server p) id) as [c|] eqn:Hc; cbn [mbind result_bind]; [|by apply publishing_nothing].
  destruct (parse_reconfigure args) as [rc|]; cbn [mbind result_bind]; [|by apply publishing_nothing].
  destruct (Connection.reconfigure c rc fault) as [r c'] eqn:Hset.
  apply reconfigure_id in Hset as (Hid & Hfail & Hst).
  destruct r as [status|e].
  - destruct (learn_conn _ _ _ _ _ _ _) as [ [profile persistence] s'] eqn:Hl.
    eapply (learn_conn_only p) in Hl; [|done|done|done|intros i Hi; cbn; by rewrite lookup_insert_ne].
    apply (publishing_only _ _ id); [done|done|done|]. intros a [= <-]. cbn.
    rewrite (Hst status eq_refl). f_equal. by apply Hids, lookup_conn.
  - apply publishing_nothing; [done| |done]. apply (set_conn_nothing p id c); [done|by apply Hfail].
Qed.

Lemma configure_hinted closing rolling now io profile cid defaults overwrite p :
  ids_agree p -> hinted closing rolling p (handle_configure now io profile cid defaults overwrite p).
Proof.
  intros Hids. unfold handle_configure, configure. destruct profile as [name|], cid as [id|].
  - by apply publishing_nothing.
  - destruct (run_mutation _ _ _ _ _) as [ [r file] store]. apply publishing_nothing; [done|done|].
    intros a uri Ha. destruct r as [ [created x]|]; cbn [map_err mbind result_bind] in Ha; [|done].
    injection Ha as <-. by intros ?%elem_of_nil.
  - destruct (lookup (pr_server p) id) as [c|] eqn:Hc; [|by apply publishing_nothing].
    destruct (learn_conn _ _ _ _ _ _ _) as [ [session persistence] s'] eqn:Hl.
    eapply (learn_conn_only p) in Hl; [|done|done|done|done].
    apply (publishing_only _ _ id); [done|done|done|]. by intros a [= <-].
  - by apply publishing_nothing.
Qed.

Lemma reconnect_hinted closing rolling now build to_string id p :
  ids_agree p -> hinted closing rolling p (handle_reconnect now build to_string id p).
Proof.
  intros Hids. unfold handle_reconnect, reconnect_tool.
  destruct (lookup (pr_server p) id) as [c|] eqn:Hc; [|by apply publishing_nothing].
  pose proof (reconnect_summary c now build to_string) as Hs.
  destruct (reconnect c now build to_string) as [r c']. cbn [snd] in Hs.
  apply publishing_nothing; [done|by apply (set_conn_nothing p id c)|]. intros a uri _. apply detail_subscribable.
Qed.

Lemma set_dtr_rts_hinted closing rolling id dtr rts fault p :
  ids_agree p -> hinted closing rolling p (handle_set_dtr_rts id dtr rts fault p).
Proof.
  intros Hids. unfold handle_set_dtr_rts.
  destruct (lookup (pr_server p) id) as [c|] eqn:Hc; [|apply hinted_nothing; try done; by intros uri ?%elem_of_nil].
  pose proof (set_dtr_rts_summary c dtr rts fault) as Hs.
  destruct (set_dtr_rts_unlocked c dtr rts fault) as [r c']. cbn [snd] in Hs.
  apply publishing_nothing; [done|by apply (set_conn_nothing p id c)|]. intros a uri _. apply detail_subscribable.
Qed.

Lemma send_break_hinted closing rolling id ms cancelled f1 f2 f3 p :
  ids_agree p -> hinted closing rolling p (handle_send_break id ms cancelled f1 f2 f3 p).
Proof.
  intros Hids. unfold handle_send_break, send_break_begin.
  assert (Hnone : hinted closing rolling p (false, [], p)).
  { apply hinted_nothing; try done. by intros uri ?%elem_of_nil. }
  assert (Hset : forall ok published c c', lookup (pr_server p) id = Ok c -> summary c' = summary c ->
    (ok = false -> published = []) -> (forall uri, uri ∈ published -> is_subscribable_uri uri = true) ->
    hinted closing rolling p (ok, published, with_server p (set_conn (pr_server p) id c'))).
  { intros. apply hinted_nothing; [done| |done..]. by eapply set_conn_nothing. }
  assert (Hempty : forall uri : list byte, uri ∈ @nil (list byte) -> is_subscribable_uri uri = true)
    by (by intros uri ?%elem_of_nil).
  destruct (lookup (pr_server p) id) as [c|] eqn:Hc.
  2: { by destruct (clamp_timeout_or_err _ _ _). }
  destruct (clamp_timeout_or_err _ _ _) as [z|e]; [|by apply (Hset _ _ c)].
  pose proof (set_break_summary c true f1) as Hs1. destruct (set_break_state c true f1) as [r c1]. cbn [snd] in Hs1.
  destruct r as [u|e]; cbn [map_err]; [|by apply (Hset _ _ c)].
  unfold send_break_end. destruct cancelled.
  - apply (Hset _ _ c); try done. unfold break_cleanup. by rewrite set_break_summary.
  - pose proof (set_break_summary c1 false f2) as Hs2. destruct (set_break_state c1 false f2) as [r c2].
    cbn [snd] in Hs2. destruct r as [u'|e]; cbn [is_ok negb]; apply (Hset _ _ c); try done.
    + by rewrite Hs2.
    + apply detail_subscribable.
    + unfold break_cleanup. by rewrite set_break_summary, Hs2.
Qed.

Lemma clear_log_hinted closing rolling id p :
  ids_agree p -> hinted closing rolling p (handle_clear_log id p).
Proof.
  intros Hids. unfold handle_clear_log. destruct (lookup (pr_server p) id) as [c|] eqn:Hc.
  - apply hinted_nothing; [done|by eapply set_conn_nothing|done|]. intros uri Hu.
    apply (built_subscribable id). unfold publish_connection_changed. set_solver.
  - apply hinted_nothing; try done. by intros uri ?%elem_of_nil.
Qed.

(** *** The profile tools *)

Lemma silent {A E} closing rolling p (r : result E A) s' :
  ids_agree p -> changes_nothing p (with_server p s') ->
  hinted closing rolling p (publishing (fun _ => []) p (r, s')).
Proof. intros Hids Hc. apply publishing_nothing; [done|done|]. by intros a uri _ ?%elem_of_nil. Qed.

Lemma save_profile_hinted closing rolling now io id name overwrite p :
  ids_agree p -> hinted closing rolling p (handle_save_profile now io id name overwrite p).
Proof.
  intros Hids. unfold handle_save_profile, save_profile.
  destruct (_ ← lookup (pr_server p) id; _) as [ [c info]|]; [|by apply silent].
  destruct (run_mutation _ _ _ _ _) as [ [r file] store]. by apply silent.
Qed.

Lemma delete_profile_hinted closing rolling now io name p :
  ids_agree p -> hinted closing rolling p (handle_delete_profile now io name p).
Proof.
  intros Hids. unfold handle_delete_profile, delete_profile. destruct (bound_ids _ _); [|by apply silent].
  destruct (run_mutation _ _ _ _ _) as [ [r file] store]. by apply silent.
Qed.

(** A rollback marks the bindings, nothing else. *)
Lemma stale_marks_id (name : list byte) (revision : Z) (ids : list (list byte)) (m : gmap (list byte) SerialConnection) (i : list byte) :
  (fun c => sc_identity c) <$> foldr (fun id => alter (fun c => update_active_profile_binding c (stale_binding name revision)) id) m ids !! i
  = (fun c => sc_identity c) <$> m !! i.
Proof.
  induction ids as [|id ids IH]; [done|]. cbn [foldr].
  destruct (decide (id = i)) as [<-|Hne]; [|by rewrite lookup_alter_ne].
  rewrite lookup_alter_eq, <- IH. destruct (foldr _ _ _ !! id) as [c|]; [|done]. cbn.
  unfold update_active_profile_binding. by destruct (sc_profile c).
Qed.

Lemma rollback_profile_hinted closing now io name expected revision p :
  ids_agree p -> hinted closing true p (handle_rollback_profile now io name expected revision p).
Proof.
  intros Hids. unfold handle_rollback_profile, rollback_profile.
  destruct (run_mutation _ _ _ _ _) as [ [r file] store]. cbv zeta.
  destruct r as [rolled|e]; [|by apply silent]. unfold publishing. set (s' := mkServer _ _ _ _ _).
  assert (Hid : forall i, who <$> summaries (with_server p s') i = who <$> summaries p i).
  { intros i. unfold summaries. cbn.
    pose proof (stale_marks_id name revision (bound_ids (set_profiles (pr_server p) file store) name)
                  (sv_conns (pr_server p)) i) as Hi.
    destruct (foldr _ _ _ !! i) as [c|], (sv_conns (pr_server p) !! i) as [c0|]; try done.
    cbn in *. injection Hi as Hi. unfold who, summary. cbn. by rewrite Hi. }
  unfold hinted. split_and!; [done|by apply (keeps_ids p)|done| |by intros uri ?%elem_of_nil].
  - intros _ i _. split; [done|]. unfold listed. rewrite !detail_body_eq. specialize (Hid i).
    intros []. cbn. change (registered (with_server p s') i) with (registered p i).
    destruct (registered p i); [|done]. cbn. by destruct (summaries _ i), (summaries p i).
Qed.

(** *** Opening and closing *)

Lemma opened_or_closed rolling id p p' :
  ids_agree p' -> (forall i, i <> id -> detail_body p' i = detail_body p i) ->
  hinted true rolling p (true, publish_open_close id, p').
Proof.
  intros Hids Hs. unfold hinted. split_and!; [done|done|done| |by apply open_close_subscribable].
  intros _ i Hne. destruct (decide (i = id)) as [->|Hni]; [|by destruct Hne; apply Hs].
  unfold publish_open_close, publish_connections_changed, publish_connection_detail_changed. split.
  - intros _ uri ->. cbn. set_solver.
  - intros _. set_solver.
Qed.

Lemma not_opened_or_closed rolling p p' : ids_agree p' -> hinted true rolling p (false, [], p').
Proof. intros Hids. unfold hinted. split_and!; try done. by intros uri ?%elem_of_nil. Qed.

Lemma close_hinted rolling now fault io id p :
  ids_agree p -> hinted true rolling p (handle_close now fault io id p).
Proof.
  intros Hids. unfold handle_close, PortTools.close_tool. set (s0 := set_registry _ _).
  destruct (lookup s0 id) as [c|] eqn:Hc; [|by apply not_opened_or_closed].
  pose proof (lookup_conn _ _ _ Hc) as Hconn. change (sv_conns s0) with (sv_conns (pr_server p)) in Hconn.
  unfold manager_close, manager_close_begin.
  destruct (connections (sv_registry s0) !! id) as [ident|]; cbn [ok_or mbind result_bind];
    [|by apply not_opened_or_closed].
  destruct (close _ fault) as [r c'] eqn:Hclose.
  assert (Hid : sc_identity c' = sc_identity c).
  { unfold close, close_begin, close_io in Hclose. by repeat (case_match; simplify_eq/=). }
  assert (Hagree : forall c2 tx m f st, sc_identity c2 = sc_identity c -> forall reg,
    ids_agree (mkProcess (mkServer reg (<[id := c2]> (sv_conns (pr_server p))) m f st) tx)).
  { intros c2 tx m f st Hc2 reg i d. cbn. intros [ [<- <-]|[_ Hd] ]%lookup_insert_Some; [|by apply Hids].
    rewrite Hc2. by apply Hids. }
  destruct r as [u|e]; [|by apply not_opened_or_closed, Hagree].
  unfold learn_conn. destruct (learn _ _ _ _ _ _ _ _) as [ [ [ [x y] file] store] b].
  apply opened_or_closed.
  - intros j d. cbn. rewrite insert_insert_eq. intros [ [<- <-]|[_ Hd] ]%lookup_insert_Some; [|by apply Hids].
    cbn. rewrite Hid. by apply Hids.
  - intros i Hi. unfold detail_body, server_get, manager_get. cbn.
    by rewrite lookup_delete_ne, !lookup_insert_ne by done.
Qed.

(** What an open does to the two resources, whether it succeeds or not. *)
Lemma open_session_frame e resolved pi plan dirty id c s r s' :
  sv_conns s !! id = Some c -> open_session path e resolved pi plan dirty id c s = (r, s') ->
  sv_registry s' = sv_registry s /\ (forall i, i <> id -> sv_conns s' !! i = sv_conns s !! i) /\
  (exists c', sv_conns s' !! id = Some c' /\ sc_identity c' = sc_identity c) /\
  (forall res, r = Ok res -> or_connection_id res = id).
Proof.
  intros Hc. unfold open_session. cbv zeta. destruct (get_or_create _ _ _ _) as [ [session|err] m].
  2: { intros [= <- <-]. split_and!; [done|intros i Hi; cbn; by rewrite lookup_insert_ne| |done].
       eexists. split; [apply lookup_insert_eq|done]. }
  destruct (session_binding _ _ _ _ _ _ _ _ _) as [ [ [b|err] file] store].
  2: { intros [= <- <-]. split_and!; [done|intros i Hi; cbn; by rewrite lookup_insert_ne| |done].
       eexists. split; [apply lookup_insert_eq|done]. }
  destruct (ab_dirty b).
  - unfold learn_conn. destruct (learn _ _ _ _ _ _ _ _) as [ [ [ [x y] file'] store'] b']. intros [= <- <-].
    split_and!; [done|intros i Hi; cbn; by rewrite !lookup_insert_ne| |by intros res [= <-] ].
    eexists. split; [apply lookup_insert_eq|done].
  - intros [= <- <-].
    split_and!; [done|intros i Hi; cbn; by rewrite !lookup_insert_ne| |by intros res [= <-] ].
    eexists. split; [apply lookup_insert_eq|done].
Qed.

Lemma open_connection_frame security e port overlay d pi plan s r s' :
  open_connection path security e port overlay d pi plan s = (r, s') ->
  others_kept (oe_id e) s s' /\
  (forall c, sv_conns s' !! oe_id e = Some c -> sv_conns s !! oe_id e = Some c \/ sc_id (sc_identity c) = oe_id e) /\
  (forall res, r = Ok res -> or_connection_id res = oe_id e).
Proof.
  assert (Hsame : forall err : PortError, (Err err : result PortError OpenResult, s) = (r, s') ->
    others_kept (oe_id e) s s' /\
    (forall c, sv_conns s' !! oe_id e = Some c -> sv_conns s !! oe_id e = Some c \/ sc_id (sc_identity c) = oe_id e) /\
    (forall res, r = Ok res -> or_connection_id res = oe_id e)).
  { intros err [= <- <-]. split_and!; [done|by left|done]. }
  unfold open_connection. destruct (negb _); [apply Hsame|].
  destruct (resolve port overlay d) as [resolved|]; cbn [map_err mbind result_bind]; [|apply Hsame].
  destruct (plan_dirty plan resolved) as [dirty|]; cbn [map_err mbind result_bind]; [|apply Hsame].
  destruct (manager_open _ _ _) as [ [id|err] s1] eqn:Hm; apply manager_open_spec in Hm; [|subst s1; apply Hsame].
  destruct Hm as (-> & io & ->). set (c := from_io_with_config _ _ _ io). set (s1 := set_conn _ _ c).
  assert (Hk : others_kept (oe_id e) s s1).
  { intros i Hi. cbn. by rewrite !lookup_insert_ne. }
  assert (Hc : sv_conns s1 !! oe_id e = Some c) by apply lookup_insert_eq.
  destruct (server_get s1 (oe_id e)) as [c1|err] eqn:Hget.
  - assert (Hc1 : lookup s1 (oe_id e) = Ok c1) by (unfold lookup; by rewrite Hget).
    apply lookup_conn in Hc1. rewrite Hc in Hc1. injection Hc1 as <-. intros Ho.
    apply open_session_frame in Ho as (Hr & Hs & (c' & Hc' & Hid) & Hres); [|done]. split_and!; [| |done].
    + intros i Hi. rewrite (Hs i Hi), Hr. by apply Hk.
    + intros x Hx. right. rewrite Hc' in Hx. injection Hx as <-. by rewrite Hid.
  - intros [= <- <-]. split_and!; [done| |done]. rewrite Hc. intros x [= <-]. by right.
Qed.

Lemma opening_hinted rolling id p (r : result PortError OpenResult) s' :
  ids_agree p -> others_kept id (pr_server p) s' ->
  (forall c, sv_conns s' !! id = Some c -> sv_conns (pr_server p) !! id = Some c \/ sc_id (sc_identity c) = id) ->
  (forall res, r = Ok res -> or_connection_id res = id) ->
  hinted true rolling p (publishing (fun o => publish_open_close (or_connection_id o)) p (r, s')).
Proof.
  intros Hids Hk Hc Hres.
  assert (Hids' : ids_agree (with_server p s')).
  { intros i c Hi. cbn in Hi. destruct (decide (i = id)) as [->|Hne].
    - destruct (Hc c Hi) as [Ho|Hid]; [by apply Hids|done].
    - destruct (Hk i Hne) as [Ho _]. rewrite Ho in Hi. by apply Hids. }
  unfold publishing. destruct r as [res|err]; [|by apply not_opened_or_closed].
  rewrite (Hres res eq_refl). apply opened_or_closed; [done|]. intros i Hi.
  destruct (Hk i Hi) as [Hs Hr]. rewrite !detail_body_eq. unfold registered, summaries. cbn. by rewrite Hs, Hr.
Qed.

Lemma open_hinted rolling security enumerated plan_io e port overlay mode p :
  ids_agree p -> hinted true rolling p (handle_open security enumerated plan_io e port overlay mode p).
Proof.
  intros Hids. unfold handle_open, open. destruct enumerated as [live|text]; [|by apply not_opened_or_closed].
  destruct (plan_session _ _ _ _ _ _) as [ [plan|err] store]; cbv zeta; [|by apply not_opened_or_closed].
  destruct (open_connection _ _ _ _ _ _ _ _ _) as [r s'] eqn:Ho.
  apply open_connection_frame in Ho as (Hk & Hc & Hres). by apply (opening_hinted _ (oe_id e)).
Qed.

Lemma open_profile_hinted rolling security enumerated e name overlay p :
  ids_agree p -> hinted true rolling p (handle_open_profile security enumerated e name overlay p).
Proof.
  intros Hids. unfold handle_open_profile, open_profile.
  destruct (store_get _ _) as [profile|]; [|by apply not_opened_or_closed].
  destruct enumerated as [ports|text]; [|by apply not_opened_or_closed].
  destruct (filter _ ports) as [|port [|? ?] ]; [by apply not_opened_or_closed| |by apply not_opened_or_closed].
  destruct (open_connection _ _ _ _ _ _ _ _ _) as [r s'] eqn:Ho.
  apply open_connection_frame in Ho as (Hk & Hc & Hres). by apply (opening_hinted _ (oe_id e)).
Qed.

(** ** The hints cover the changes *)

Definition opens_or_closes (call : HandlerCall) : bool :=
  match call with HOpen _ _ _ _ _ _ _ | HOpenProfile _ _ _ _ _ | HClose _ _ _ _ => true | _ => false end.
Definition rolls_back (call : HandlerCall) : bool :=
  match call with HRollbackProfile _ _ _ _ _ => true | _ => false end.

Lemma list_ports_hinted closing rolling enumerated io p :
  ids_agree p -> hinted closing rolling p (handle_list_ports enumerated io p).
Proof. intros Hids. unfold handle_list_ports. destruct (list_ports _ _ _ _) as [r store]. by apply silent. Qed.

(** Every call keeps its promise. *)
Lemma handler_hinted p call :
  ids_agree p -> alone_call call ->
  hinted (opens_or_closes call) (rolls_back call) p (run_handler call p).
Proof.
  intros Hids Halone. destruct call; cbn [run_handler opens_or_closes rolls_back alone_call] in *.
  - by apply open_hinted.
  - by apply open_profile_hinted.
  - by apply close_hinted.
  - unfold handle_write. destruct (write_tool _ _ _ _) as [r i] eqn:E.
    apply publishing_io_hinted; [done|change i with (r, i).2; rewrite <- E; apply write_tool_same|].
    intros a uri _. apply detail_subscribable.
  - unfold handle_transact. destruct (transact_tool _ _ _ _ _ _) as [r i] eqn:E.
    apply publishing_io_hinted; [done|change i with (r, i).2; rewrite <- E; by apply transact_tool_same|].
    intros a uri _. apply detail_subscribable.
  - unfold handle_read. destruct (read_tool _ _ _) as [r i] eqn:E.
    apply publishing_io_hinted; [done|change i with (r, i).2; rewrite <- E; by apply read_tool_same|].
    by intros a uri _ ?%elem_of_nil.
  - unfold handle_capture_boot. destruct (capture_boot _ _ _ _) as [r i] eqn:E.
    apply publishing_io_hinted; [done|change i with (r, i).2; rewrite <- E; by apply capture_boot_same|].
    by intros a uri _ ?%elem_of_nil.
  - unfold handle_flush. destruct (flush_tool _ _ _ _) as [r i] eqn:E.
    apply publishing_io_hinted; [done|change i with (r, i).2; rewrite <- E; apply flush_tool_same|].
    intros a uri _ Hu. apply (built_subscribable id). unfold publish_connection_changed.
    destruct target; set_solver.
  - by apply set_dtr_rts_hinted.
  - by apply set_flow_control_hinted.
  - by apply send_break_hinted.
  - by apply reconfigure_hinted.
  - by apply configure_hinted.
  - by apply reconnect_hinted.
  - by apply clear_log_hinted.
  - by apply save_profile_hinted.
  - by apply delete_profile_hinted.
  - by apply rollback_profile_hinted.
  - by apply list_ports_hinted.
  - by apply silent.
  - by apply silent.
  - by apply silent.
  - by apply silent.
  - by apply silent.
Qed.

(** C15: connections stay under their own ids through every call
    of a handler.  A call that fails publishes nothing; unless it is an open or a
    close, the resource of every connection reads as before.  After a call that
    succeeds, every connection whose resource reads differently has had its detail
    URI published, unless the call is a rollback, and if it entered or left the list,
    the URI of the list has been published too.  Whatever is published can be
    subscribed to. *)
Theorem hints_cover_changes p call ok published p' :
  ids_agree p -> alone_call call -> run_handler call p = (ok, published, p') ->
  ids_agree p' /\
  (ok = false -> published = [] /\
     (opens_or_closes call = false -> forall id, detail_body p' id = detail_body p id)) /\
  (ok = true -> forall id, detail_body p' id <> detail_body p id ->
     (rolls_back call = false -> forall uri, detail_uri id = Some uri -> uri ∈ published) /\
     (listed p' id <> listed p id -> URI_CONNECTIONS ∈ published)) /\
  (forall uri, uri ∈ published -> is_subscribable_uri uri = true).
Proof.
  intros Hids Halone Hrun. pose proof (handler_hinted p call Hids Halone) as Hh.
  rewrite Hrun in Hh. apply Hh.
Qed.
End Handlers.

(** ** Runs *)

Definition demo_process : Process := mkProcess (demo_server 1000000 [gps] [gps]) ∅.

Definition run_demo : HandlerCall -> Process -> Outcome := run_handler (bs "p.toml").

(** A bare open of the device of [gps]. *)
Definition demo_open : HandlerCall :=
  HOpen anywhere (Ok [demo_port]) no_faults (demo_env (bs "id")) tty_acm overlay_default None.

Lemma hints_cover_changes_witness :
  let '(ok, published, p') := run_demo demo_open demo_process in
  ok = true /\ listed demo_process (bs "id") = false /\ listed p' (bs "id") = true /\
  URI_CONNECTIONS ∈ published /\ detail_uri (bs "id") = Some (URI_CONNECTION_PREFIX ++ bs "id") /\
  URI_CONNECTION_PREFIX ++ bs "id" ∈ published.
Proof.
  destruct (run_demo demo_open demo_process) as [ [ok published] p'] eqn:E.
  assert (Hids : ids_agree demo_process).
  { intros id c Hc. unfold demo_process, demo_server in Hc. cbn in Hc. by rewrite lookup_empty in Hc. }
  destruct (hints_cover_changes (bs "p.toml") demo_process demo_open ok published p' Hids I E)
    as (_ & _ & Hok & _).
  assert (Ho : ok = true) by (change ok with (ok, published, p').1.1; rewrite <- E; vm_compute; reflexivity).
  assert (Hl : listed p' (bs "id") = true)
    by (change p' with (ok, published, p').2; rewrite <- E; vm_compute; reflexivity).
  assert (Hb : listed demo_process (bs "id") = false) by (vm_compute; reflexivity).
  assert (Hne : detail_body p' (bs "id") <> detail_body demo_process (bs "id")).
  { intros D. unfold listed in Hl, Hb. rewrite D, Hb in Hl. discriminate. }
  destruct (Hok Ho (bs "id") Hne) as [Hd Hlist].
  split; [exact Ho|]. split; [exact Hb|]. split; [exact Hl|]. split; [apply Hlist; congruence|].
  split; [vm_compute; reflexivity|]. apply Hd; vm_compute; reflexivity.
Defined.

(** A rollback changes what the resource of a bound connection shows, its binding
    being stale now, and publishes nothing. *)
Definition bound_process : Process := mkProcess opened_gps ∅.

Example rollback_is_silent :
  let '(ok, published, p') := run_demo (HRollbackProfile 8 no_faults (bs "gps") 2 1) bound_process in
  ok = true /\ published = [] /\
  (sm_profile <$> detail_body p' (bs "id")) <> (sm_profile <$> detail_body bound_process (bs "id")).
Proof. vm_compute. split_and!; [done|done|discriminate]. Qed.

(** An open that fails after the hardware is open enters the list silently, and so
    does a close that fails leave it. *)
Definition ring_process : Process := mkProcess default_limits_server ∅.

Example failed_calls_change_the_list_silently :
  let '(ok, published, p') :=
    run_demo (HOpen anywhere (Ok [demo_port]) no_faults (demo_env (bs "id")) tty_acm
                (overlay_of_profile_args None None None (Some (2 * 1024 * 1024))) (Some ModeNone)) ring_process in
  ok = false /\ published = [] /\ listed p' (bs "id") = true /\
  let '(ok, published, p'') :=
    run_demo (HClose 9 (Some (mkIoError NotFound (bs "gone"))) no_faults (bs "id")) p' in
  ok = false /\ published = [] /\ listed p'' (bs "id") = false.
Proof. vm_compute. done. Qed.
