(* ===== verification/Annotations.v ===== *)
(** * What the tool annotations promise

    The catalogue of [src/server.rs] with the hints of its [#[tool]] attributes, and
    what the handlers do that carry them: a tool marked read-only leaves the process
    as clients see it, and a tool marked idempotent changes nothing the second time. *)

From Stdlib Require Import Floats.SpecFloat.
From S2P Require Import Prelude RustStr Extern ExternModel Codec FramingConfig RxRing BufferBudget LogBuffer MatchConfig RxConsume ReadLoop Tools RxSession TxSession SerialConfig Manager Connection Profiles ProfileStore Learning IoTools ControlTools CaptureBoot Resources ServerTools OpenSettings PortPlan PortTools OpenProofs Handlers.

(** ** The catalogue *)

(** The hints of an attribute; every tool has [open_world_hint = false]. *)
Record ToolHints := mkHints {
  th_read_only : bool;
  th_destructive : bool;
  th_idempotent : bool;
}.

(** What the attributes spell out: [read_only_hint = true],
    [destructive_hint = true] or [false], and [idempotent_hint] with it. *)
Definition read_only : ToolHints := mkHints true false false.
Definition destructive : ToolHints := mkHints false true false.
Definition additive : ToolHints := mkHints false false false.
Definition settles : ToolHints := mkHints false true true.

(** [tool_catalog]. *)
Definition tool_catalog : list (list byte * ToolHints) :=
  [(bs "list_ports", read_only); (bs "list_connections", read_only); (bs "open", additive);
   (bs "close", additive); (bs "write", destructive); (bs "transact", destructive);
   (bs "read", read_only); (bs "capture_boot", destructive); (bs "flush", destructive);
   (bs "set_dtr_rts", settles); (bs "set_flow_control", settles); (bs "send_break", destructive);
   (bs "get_status", read_only); (bs "reconfigure", destructive); (bs "list_profiles", read_only);
   (bs "open_profile", additive); (bs "save_profile", destructive); (bs "delete_profile", destructive);
   (bs "configure", destructive); (bs "rollback_profile", destructive); (bs "get_log", read_only);
   (bs "clear_log", destructive); (bs "export_log", additive); (bs "reconnect", additive);
   (bs "compute_checksum", read_only)].

Definition hints_of (name : list byte) : option ToolHints :=
  (fun found => found.2.2) <$> list_find (fun t => t.1 = name) tool_catalog.

(** The tool a call of a handler belongs to. *)
Definition tool_of `{GlobCrate} (call : HandlerCall) : list byte :=
  match call with
  | HOpen _ _ _ _ _ _ _ => bs "open"
  | HOpenProfile _ _ _ _ _ => bs "open_profile"
  | HClose _ _ _ _ => bs "close"
  | HWrite _ _ _ => bs "write"
  | HTransact _ _ _ _ _ => bs "transact"
  | HRead _ _ => bs "read"
  | HCaptureBoot _ _ _ => bs "capture_boot"
  | HFlush _ _ _ => bs "flush"
  | HSetDtrRts _ _ _ _ => bs "set_dtr_rts"
  | HSetFlowControl _ _ _ _ _ => bs "set_flow_control"
  | HSendBreak _ _ _ _ _ _ => bs "send_break"
  | HReconfigure _ _ _ _ _ => bs "reconfigure"
  | HConfigure _ _ _ _ _ _ => bs "configure"
  | HReconnect _ _ _ _ => bs "reconnect"
  | HClearLog _ => bs "clear_log"
  | HSaveProfile _ _ _ _ _ => bs "save_profile"
  | HDeleteProfile _ _ _ => bs "delete_profile"
  | HRollbackProfile _ _ _ _ _ => bs "rollback_profile"
  | HListPorts _ _ => bs "list_ports"
  | HListConnections => bs "list_connections"
  | HGetStatus _ => bs "get_status"
  | HListProfiles => bs "list_profiles"
  | HGetLog _ _ _ => bs "get_log"
  | HComputeChecksum _ _ _ => bs "compute_checksum"
  end.

(** ** Learning twice *)

Definition no_nan (p : ReconnectPolicy) : Prop := is_nan (rp_backoff_multiplier p) = false.

Lemma SFeqb_refl x : is_nan x = false -> SFeqb x x = true.
Proof.
  destruct x as [s|s| |s m e]; intros Hx; [by destruct s..|done|]. unfold SFeqb, SFcompare.
  destruct s; rewrite ?Z.compare_refl, Pos.compare_cont_refl; done.
Qed.

Lemma policy_eqb_refl p : no_nan p -> policy_eqb p p = true.
Proof. intros Hn. unfold policy_eqb. by rewrite !Z.eqb_refl, !eqb_reflx, SFeqb_refl. Qed.

Lemma defaults_eqb_refl d : no_nan (pd_reconnect_policy d) -> defaults_eqb d d = true.
Proof.
  intros Hn. unfold defaults_eqb.
  by rewrite !Z.eqb_refl, !eqb_reflx, policy_eqb_refl, !bool_decide_eq_true_2.
Qed.

Lemma find_profile_found n ps p : find_profile n ps = Some p -> exists idx, find_or_err n ps = Ok (idx, p).
Proof.
  intros Hf. unfold find_or_err. pose proof (position_lookup n ps) as Hl.
  destruct (_ ≫= _) as [ [idx q]|]; destruct Hl as (Hl & Hq); [|congruence].
  destruct Hq as [Hq _]. exists idx. congruence.
Qed.

(** Once a learned update has gone through, learning the same again finds nothing to
    do. *)
Lemma apply_learned_again ps n rev d now u next now' :
  no_nan (pd_reconnect_policy d) -> apply_learned ps n rev d now = Ok (u, next) ->
  apply_learned (default ps next) n (if lu_changed u then revision (lu_profile u) else rev) d now'
  = Ok (mkLearned (lu_profile u) false, None).
Proof.
  intros Hn Ha. unfold apply_learned in Ha. apply result_bind_ok in Ha as ([idx cur] & Hf & Ha).
  pose proof (find_or_err_ok _ _ _ _ Hf) as (Hpos & Hfind & Hname). cbv zeta in Ha.
  destruct (negb _) eqn:Hrev in Ha; [done|]. destruct (defaults_eqb (p_defaults cur) d) eqn:Hd.
  - injection Ha as <- <-. cbn [from_option id lu_changed lu_profile]. unfold apply_learned. rewrite Hf.
    cbn [mbind result_bind]. cbv zeta. by rewrite Hrev, Hd.
  - injection Ha as <- <-. cbn [from_option id lu_changed lu_profile]. set (q := mkProfile _ _ _ _ _).
    destruct (find_profile_found n (<[idx := q]> ps) q) as (idx' & Hf').
    { rewrite (find_profile_update n) by done. by rewrite bool_decide_eq_true_2. }
    unfold apply_learned. rewrite Hf'. cbn [mbind result_bind]. cbv zeta. unfold revision.
    rewrite Z.eqb_refl. cbn [negb]. by rewrite defaults_eqb_refl.
Qed.

Section Again.
Context `{TomlLaws}.

(** A transaction that goes through, followed by one with nothing to do. *)
Lemma transaction_again {T} (f g : list Profile -> Z -> result StoreError (T * option (list Profile)))
    now file s v v' now' file1 s1 :
  (forall cur next, f cur now = Ok (v, next) -> g (default cur next) now' = Ok (v', None)) ->
  run_conditional_mutation f no_faults now file s = (Ok v, file1, s1) ->
  run_conditional_mutation g no_faults now' file1 s1 = (Ok v', file1, s1).
Proof.
  intros Hg. unfold run_conditional_mutation. destruct (st_persistent s) eqn:Hp; cbn [io_lock io_read io_write io_reread no_faults].
  - destruct (load_validated file None) as [cur|e] eqn:Hl; cbn [mbind result_bind]; [|by destruct (load_validated _ _)].
    destruct (f cur now) as [ [w [next|] ]|e] eqn:Hf; cbn [mbind result_bind].
    + destruct (write_atomic next None) as [file'|e] eqn:Hw; cbn [mbind result_bind]; [|done].
      intros [= -> <- <-]. cbn [st_persistent]. apply write_holds in Hw. unfold holds in Hw. rewrite Hw.
      cbn [mbind result_bind]. specialize (Hg cur (Some next) Hf). cbn [from_option id] in Hg. by rewrite Hg.
    + intros [= -> <- <-]. cbn [st_persistent]. rewrite Hl. cbn [mbind result_bind].
      specialize (Hg cur None Hf). cbn [from_option id] in Hg. by rewrite Hg.
    + done.
  - destruct (f (st_cache s) now) as [ [w [next|] ]|e] eqn:Hf; [..|done]; intros [= -> <- <-];
      cbn [st_persistent st_cache].
    + specialize (Hg _ _ Hf). cbn [from_option id] in Hg. by rewrite Hg.
    + specialize (Hg _ _ Hf). cbn [from_option id] in Hg. by rewrite Hp, Hg.
Qed.

(** The binding shows no failed learning. *)
Definition settled (binding : option ActiveProfileBinding) : Prop :=
  forall b, binding = Some b -> ab_last_persistence_error b = None.

Lemma binding_clean_again b r r' : r' = r -> binding_clean (binding_clean b r) r' = binding_clean b r.
Proof. by intros ->. Qed.

Lemma learn_again path now now' file store binding d op op' session res file1 store1 binding1 :
  no_nan (pd_reconnect_policy d) ->
  learn path no_faults now file store binding d op = (session, res, file1, store1, binding1) ->
  settled binding1 ->
  exists res', learn path no_faults now' file1 store1 binding1 d op' = (session, res', file1, store1, binding1).
Proof.
  intros Hn Hl Hset. unfold learn in Hl. destruct binding as [b|]; [|injection Hl as <- <- <- <- <-; by eexists].
  destruct (ab_persistent b) eqn:Hp; cbn [negb] in Hl.
  2:{ injection Hl as <- <- <- <- <-. unfold learn. rewrite Hp. by eexists. }
  destruct (ab_stale b) eqn:Hs; [injection Hl as <- <- <- <- <-; by specialize (Hset _ eq_refl)|].
  destruct (run_conditional_mutation _ _ _ _ _) as [ [ [ [p changed]|e] f1] s1] eqn:Hr;
    [|injection Hl as <- <- <- <- <-; by specialize (Hset _ eq_refl)].
  set (rev := default 0 (ab_revision b)) in *.
  apply (transaction_again _ (fun ps now => apply_learned ps (ab_profile_name b)
           (if changed then revision p else rev) d now) _ _ _ _ (mkLearned p false) now') in Hr.
  2:{ intros cur next Ha. by apply (apply_learned_again _ _ _ _ _ _ _ now') in Ha. }
  destruct changed; injection Hl as <- <- <- <- <-; unfold learn;
    cbn [ab_persistent ab_stale ab_profile_name ab_revision binding_clean]; rewrite Hp; cbn [negb];
    unfold revision in Hr; [change (default 0 (Some (pm_revision (p_metadata p)))) with (pm_revision (p_metadata p))|fold rev];
    rewrite Hr; by eexists.
Qed.
End Again.

(** ** The calls *)

Section Annotations.
Context `{HexCrate, Base64Crate, JsonCrate, RegexCrate, GlobCrate, TomlLaws}.
Context (path : list byte).

(** No device operation and no file operation of the call fails; of the tools marked
    idempotent. *)
Definition faultless (call : HandlerCall) : Prop :=
  match call with
  | HSetDtrRts _ _ _ fault => fault = None
  | HSetFlowControl _ fault io _ _ => fault = None /\ io = no_faults
  | _ => True
  end.

(** The same call, later. *)
Definition again (now : Z) (call : HandlerCall) : HandlerCall :=
  match call with
  | HSetFlowControl _ fault io id flow => HSetFlowControl now fault io id flow
  | _ => call
  end.

(** The binding of the connection shows no failed learning, and its backoff
    multiplier is a number. *)
Definition learned_well (call : HandlerCall) (p : Process) : Prop :=
  match call with
  | HSetFlowControl _ _ _ id _ => forall c, sv_conns (pr_server p) !! id = Some c ->
      settled (sc_profile c) /\ no_nan (sc_policy c)
  | _ => True
  end.

Lemma lookup_replaced s id c c' : lookup s id = Ok c -> lookup (set_conn s id c') id = Ok c'.
Proof.
  unfold lookup, server_get. cbn. destruct (manager_get _ _); cbn [mbind result_bind map_err]; [|done].
  by rewrite lookup_insert_eq.
Qed.

Lemma set_conn_twice s id c c' : set_conn (set_conn s id c) id c' = set_conn s id c'.
Proof. unfold set_conn. cbn. by rewrite insert_insert_eq. Qed.

(** *** Idempotence *)

Lemma set_lines_again c dtr rts u c' :
  set_dtr_rts_unlocked c dtr rts None = (Ok u, c') -> set_dtr_rts_unlocked c' dtr rts None = (Ok u, c').
Proof.
  unfold set_dtr_rts_unlocked, ensure_open, io_or_closed. destruct c as [? ? ? ? ? [d|] ? [] ? ? ? ?]; cbn; try done;
    by intros [= <- <-].
Qed.

Lemma set_flow_again c flow u c' :
  set_flow_control c flow None = (Ok u, c') -> forall b,
  set_flow_control (with_profile c' b) flow None = (Ok u, with_profile c' b).
Proof.
  unfold set_flow_control, ensure_open, io_or_closed. destruct c as [? ? ? ? ? [d|] ? [] ? ? ? ?]; cbn; try done;
    by intros [= <- <-].
Qed.

Lemma learn_conn_again op op' now now' id c s session res s1 :
  learn_conn path op no_faults now id c s = (session, res, s1) ->
  (forall c1, sv_conns s1 !! id = Some c1 -> settled (sc_profile c1) /\ no_nan (sc_policy c1)) ->
  exists b file store, s1 = set_conn (set_profiles s file store) id (with_profile c b) /\ exists res',
    learn_conn path op' no_faults now' id (with_profile c b) s1 = (session, res', s1).
Proof.
  unfold learn_conn. intros Hl Hset.
  destruct (learn _ _ _ _ _ _ _ _) as [ [ [ [sess r] file1] store1] b1] eqn:Hlearn. injection Hl as -> -> <-.
  destruct (Hset (with_profile c b1)) as [Hs Hn]; [apply lookup_insert_eq|].
  apply (learn_again _ _ now' _ _ _ _ _ op') in Hlearn as (res' & Hagain); [|exact Hn|exact Hs].
  exists b1, file1, store1. split; [done|]. exists res'.
  change (effective_defaults (with_profile c b1)) with (effective_defaults c).
  change (sc_profile (with_profile c b1)) with b1. cbn [sv_file sv_store set_conn set_profiles].
  rewrite Hagain. f_equal. unfold set_conn, set_profiles. cbn. by rewrite insert_insert_eq.
Qed.

Lemma set_dtr_rts_again id dtr rts p published p1 :
  handle_set_dtr_rts id dtr rts None p = (true, published, p1) ->
  handle_set_dtr_rts id dtr rts None p1 = (true, published, p1).
Proof.
  unfold handle_set_dtr_rts. destruct (lookup (pr_server p) id) as [c|] eqn:Hc; [|done].
  destruct (set_dtr_rts_unlocked c dtr rts None) as [ [u|e] c'] eqn:Hr; [|done].
  intros [= <- <-]. cbn [pr_server with_server].
  rewrite (lookup_replaced _ _ _ _ Hc), (set_lines_again _ _ _ _ _ Hr). cbn [publishing].
  by rewrite set_conn_twice.
Qed.

Lemma set_flow_control_again now now' id flow p published p1 :
  learned_well (HSetFlowControl now None no_faults id flow) p1 ->
  handle_set_flow_control path now None no_faults id flow p = (true, published, p1) ->
  handle_set_flow_control path now' None no_faults id flow p1 = (true, published, p1).
Proof.
  intros Hwell. unfold handle_set_flow_control, set_flow_control_tool.
  destruct (flow_control_from_str flow) as [fc|]; cbn [map_err mbind result_bind]; [|done].
  destruct (lookup (pr_server p) id) as [c|] eqn:Hc; cbn [mbind result_bind]; [|done].
  destruct (set_flow_control c fc None) as [ [u|e] c'] eqn:Hr; [|done].
  destruct (learn_conn _ _ _ _ _ _ _) as [ [sess pers] s1] eqn:Hl. intros [= <- <-].
  apply (learn_conn_again _ PoLearned _ now') in Hl as (b & file & store & Hs & res' & Hagain); [|exact Hwell].
  assert (Hc1 : lookup s1 id = Ok (with_profile c' b)).
  { rewrite Hs. apply (lookup_replaced _ _ c'). exact (lookup_replaced _ _ _ c' Hc). }
  cbn [pr_server with_server]. rewrite Hc1. cbn [mbind result_bind].
  rewrite (set_flow_again _ _ _ _ Hr b).
  assert (Hsame : set_conn s1 id (with_profile c' b) = s1) by (rewrite Hs; apply set_conn_twice).
  by rewrite Hsame, Hagain.
Qed.

(** *** Looking *)

(** The cache of the store has been refreshed from the profile file. *)
Definition refreshed (p p1 : Process) : Prop :=
  st_persistent (sv_store (pr_server p)) = true /\
  exists profiles, load_validated (sv_file (pr_server p)) None = Ok profiles /\
    sv_store (pr_server p1) = mkStore true profiles.

(** A call has only looked: what clients see of the process is as it was; a listing of
    the ports may have refreshed the cache, a read has moved its cursor. *)
Definition looked (call : HandlerCall) (p : Process) (o : Outcome) : Prop :=
  let '(_, published, p1) := o in
  published = [] /\ sv_registry (pr_server p1) = sv_registry (pr_server p) /\
  sv_file (pr_server p1) = sv_file (pr_server p) /\
  (sv_store (pr_server p1) = sv_store (pr_server p) \/ tool_of call = bs "list_ports" /\ refreshed p p1) /\
  (forall id, detail_body p1 id = detail_body p id) /\
  (tool_of call <> bs "read" -> io_view p1 = io_view p).

Lemma answer_looked {E A} call p (r : result E A) :
  looked call p (publishing (fun _ => []) p (r, pr_server p)).
Proof. destruct p, r; cbn; split_and!; try done; by left. Qed.

Lemma list_ports_looked enumerated io p : looked (HListPorts enumerated io) p (handle_list_ports enumerated io p).
Proof.
  unfold handle_list_ports.
  assert (Hstore : forall r store, list_ports enumerated io (sv_file (pr_server p)) (sv_store (pr_server p)) = (r, store) ->
    store = sv_store (pr_server p) \/ refreshed p (with_server p (set_profiles (pr_server p) (sv_file (pr_server p)) store))).
  { intros r store. unfold list_ports, list_fresh, run_read, refreshed. destruct enumerated as [ports|e]; [|intros [= _ <-]; by left].
    destruct (st_persistent _) eqn:Hp; [|intros [= _ <-]; by left].
    destruct (io_lock io); [intros [= _ <-]; by left|].
    destruct (load_validated _ (io_read io)) as [current|e] eqn:Hl; intros [= _ <-]; [|by left].
    right. split; [done|]. exists current. split; [|done]. destruct (io_read io); [|done].
    by destruct (sv_file (pr_server p)). }
  destruct (list_ports _ _ _ _) as [r store] eqn:Hl. specialize (Hstore r store eq_refl).
  destruct r as [a|e]; cbn; split_and!; try done; (destruct Hstore as [->|?]; [by left|by right]).
Qed.

Lemma read_looked args k p : alone_script k -> looked (HRead args k) p (handle_read args k p).
Proof.
  intros Halone. unfold handle_read. pose proof (read_tool_same args k (io_view p) Halone) as Hs.
  destruct (read_tool args k (io_view p)) as [r i]. cbn [snd] in Hs.
  assert (Hd : forall id, detail_body (io_back p i) id = detail_body p id).
  { intros id. rewrite !detail_body_eq. change (registered (io_back p i) id) with (registered p id).
    change (summaries (io_back p i) id) with (summary <$> io_conns i !! id). by rewrite Hs. }
  destruct r; cbn; split_and!; try done; by left.
Qed.

Lemma answer_seen {E A} call p (r : result E A) o :
  publishing (fun _ => []) p (r, pr_server p) = o -> looked call p o.
Proof. intros <-. apply answer_looked. Qed.

(** C16: the annotations of the tools are true.  Every call of a handler belongs
    to a tool of the catalogue.  A call of a tool marked read-only ([list_ports],
    [list_connections], [read], [get_status], [list_profiles], [get_log],
    [compute_checksum]), alone, publishes nothing and leaves the registry, the profile
    file and what the resource of every connection shows, whether it succeeds or not;
    the store is as it was too, but [list_ports] may refresh its cache from the file;
    and all but [read], which consumes the stream, leave the connections, logs, rings
    and cursors.  When a call of a tool marked idempotent has succeeded, no operation
    of it having failed, its learning included, the same call at any other time
    succeeds, publishes the same and leaves the whole process as it is; for this the
    backoff multiplier must be a number, for [nan] equals nothing and is learned again
    and again. *)
Theorem annotations_hold call p ok published p1 :
  run_handler path call p = (ok, published, p1) ->
  exists h, hints_of (tool_of call) = Some h /\
    (th_read_only h = true -> alone_call call ->
       published = [] /\ sv_registry (pr_server p1) = sv_registry (pr_server p) /\
       sv_file (pr_server p1) = sv_file (pr_server p) /\
       (sv_store (pr_server p1) = sv_store (pr_server p) \/
        tool_of call = bs "list_ports" /\ refreshed p p1) /\
       (forall id, detail_body p1 id = detail_body p id) /\
       (tool_of call <> bs "read" -> io_view p1 = io_view p)) /\
    (th_idempotent h = true -> ok = true -> faultless call -> learned_well call p1 ->
       forall now, run_handler path (again now call) p1 = (true, published, p1)).
Proof.
  intros Hrun. exists (default read_only (hints_of (tool_of call))).
  split; [by destruct call; vm_compute|].
  destruct call as [| | | | |args k| | |id dtr rts fault|now fault io id flow| | | | | | | |
      |enumerated io| |id| |id since limit|encoding data algorithm];
    (split; [intros Hro|intros Hid]); try discriminate; cbn [run_handler] in Hrun.
  - intros Halone. pose proof (read_looked args k p Halone) as Hl. by rewrite Hrun in Hl.
  - intros -> Hf _ now. cbn in Hf. subst fault. exact (set_dtr_rts_again _ _ _ _ _ _ Hrun).
  - intros -> [-> ->] Hwell now'. exact (set_flow_control_again _ now' _ _ _ _ _ Hwell Hrun).
  - intros _. pose proof (list_ports_looked enumerated io p) as Hl. by rewrite Hrun in Hl.
  - intros _. exact (answer_seen HListConnections p _ (ok, published, p1) Hrun).
  - intros _. exact (answer_seen (HGetStatus id) p _ (ok, published, p1) Hrun).
  - intros _. exact (answer_seen HListProfiles p _ (ok, published, p1) Hrun).
  - intros _. exact (answer_seen (HGetLog id since limit) p _ (ok, published, p1) Hrun).
  - intros _. exact (answer_seen (HComputeChecksum encoding data algorithm) p _ (ok, published, p1) Hrun).
Qed.
End Annotations.

(** The catalogue has twenty-five tools with names of their own. *)
Example catalogue_names : length tool_catalog = 25%nat /\ NoDup (fst <$> tool_catalog).
Proof. split; [reflexivity|]. apply (bool_decide_eq_true_1 (NoDup _)). vm_compute. reflexivity. Qed.

(** ** Witness *)

(** The device of [gps] is open, and gets another flow control. *)
Definition open_process : Process := (run_demo demo_open demo_process).2.

Definition demo_flow : HandlerCall := HSetFlowControl 20 None no_faults (bs "id") (bs "hardware").

Definition bound_well (p : Process) : bool :=
  match sv_conns (pr_server p) !! bs "id" with
  | Some c => negb (is_nan (rp_backoff_multiplier (sc_policy c))) &&
      match sc_profile c with Some b => negb (is_some (ab_last_persistence_error b)) | None => true end
  | None => false
  end.

Definition demo_listing : HandlerCall := HListPorts (Ok [demo_port]) no_faults.

Lemma annotations_hold_witness :
  (exists published p1,
    run_demo demo_flow open_process = (true, published, p1) /\ bound_well p1 = true /\
    run_demo (HSetFlowControl 99 None no_faults (bs "id") (bs "hardware")) p1 = (true, published, p1)) /\
  exists p2, run_demo demo_listing open_process = (true, [], p2) /\ io_view p2 = io_view open_process.
Proof.
  split.
  2:{ assert (Hok : (run_demo demo_listing open_process).1.1 = true) by (vm_compute; reflexivity).
      destruct (run_demo demo_listing open_process) as [ [ok published] p2] eqn:E. cbn [fst] in Hok. subst ok.
      exists p2. destruct (annotations_hold (bs "p.toml") demo_listing open_process true published p2 E)
        as (h & Hh & Hlook & _).
      assert (Eh : hints_of (tool_of demo_listing) = Some read_only) by (vm_compute; reflexivity).
      rewrite Eh in Hh. injection Hh as <-. destruct (Hlook eq_refl I) as (-> & _ & _ & _ & _ & Hview).
      split; [reflexivity|]. apply Hview. vm_compute. discriminate. }
  assert (Hok : (run_demo demo_flow open_process).1.1 = true) by (vm_compute; reflexivity).
  assert (Hwell : bound_well (run_demo demo_flow open_process).2 = true) by (vm_compute; reflexivity).
  destruct (run_demo demo_flow open_process) as [ [ok published] p1] eqn:E. cbn [fst snd] in Hok, Hwell.
  subst ok. exists published, p1. split; [reflexivity|]. split; [exact Hwell|].
  destruct (annotations_hold (bs "p.toml") demo_flow open_process true published p1 E) as (h & Hh & _ & Hagain).
  assert (Eh : hints_of (tool_of demo_flow) = Some settles) by (vm_compute; reflexivity).
  rewrite Eh in Hh. injection Hh as <-.
  apply (Hagain eq_refl eq_refl (conj eq_refl eq_refl)).
  intros c Hc. unfold bound_well in Hwell. rewrite Hc in Hwell.
  apply andb_true_iff in Hwell as [Hn Hb]. split.
  - intros b Eb. rewrite Eb in Hb. destruct (ab_last_persistence_error b); [discriminate|reflexivity].
  - apply negb_true_iff in Hn. exact Hn.
Defined.

(** The multiplier of a profile file can be [nan], which equals nothing: then every
    call that learns makes another revision. *)
Definition nan_defaults : ProfileDefaults :=
  let d := ProfileDefaults_default in
  mkDefaults (pd_baud_rate d) (pd_data_bits d) (pd_stop_bits d) (pd_parity d) (pd_flow_control d) (pd_name d)
    (pd_tx_framing d) (pd_rx_framing d) (pd_rx_parser d) (pd_protocol d) (pd_rx_buffer_size d)
    (pd_max_buffered_bytes d) (mkPolicy true 10 500 30000 S754_nan) (pd_log_capacity d) (pd_log_enabled d).

Lemma nan_never_settles ps n rev now u next :
  apply_learned ps n rev nan_defaults now = Ok (u, next) -> lu_changed u = true.
Proof.
  unfold apply_learned. intros ([idx cur] & _ & Ha)%result_bind_ok. cbv zeta in Ha.
  destruct (negb _); [done|]. assert (Hd : defaults_eqb (p_defaults cur) nan_defaults = false).
  { unfold defaults_eqb, policy_eqb. cbn [pd_reconnect_policy nan_defaults rp_backoff_multiplier].
    assert (Hf : SFeqb (rp_backoff_multiplier (pd_reconnect_policy (p_defaults cur))) S754_nan = false)
      by (by destruct (rp_backoff_multiplier _)).
    unfold nan_defaults. cbn [pd_reconnect_policy rp_backoff_multiplier]. by rewrite Hf, !andb_false_r. }
  rewrite Hd in Ha. by injection Ha as <- <-.
Qed.
