(* ===== verification/Protocol.v ===== *)
(** * What a client sees of the server

    The protocol side of [src/server.rs]: capabilities and server information by
    protocol version, [initialize] and [discover], the listings with their pages and
    cache fields, completions, and the texts of [src/prompts/]. *)

From S2P Require Import Prelude RustStr Util Extern ExternModel BufferBudget Tools SerialConfig Connection Manager Profiles ProfileStore Resources Pagination OpenSettings PortTools Startup ServerTools Handlers Annotations.

(** ** Texts *)

Definition nl : list byte := [x0a].
Definition dq : list byte := [x22].

(** The instructions of [server_info_for]. *)
Definition instructions : list byte :=
  concat
    [bs "Serial port MCP server. Workflow:"; nl;
     bs "1. Call `list_ports` and inspect `profile_matches`, which parallels `ports` and ";
     bs "previews which profile bare `open(port=...)` would reuse."; nl;
     bs "2. Normally call bare `open` with only the port. Baud defaults to 115200/8-N-1. The ";
     bs "server reuses the most recently used high-confidence profile for a known device. It ";
     bs "creates a durable generated profile only for a new high-confidence device. Weak, ";
     bs "ambiguous, or duplicate identity uses a transient session. The result reports the ";
     bs "choice in `profile`."; nl;
     bs "3. Use `transact` for command/response, `read` for buffered or unsolicited data ";
     bs "with `match` when needed, and `write` for send-only."; nl;
     bs "4. Use `capture_boot` for boot/reset capture such as an Arduino reset, power-cycle ";
     bs "banner, or boot prompt. It marks the live edge atomically, can pulse DTR/RTS, and ";
     bs "captures only post-mark bytes with a private cursor in memory. `reset=null` arms ";
     bs "capture for externally reset devices."; nl;
     bs "5. After durable changes, inspect `profile` and `profile_persistence`, or use ";
     bs "`get_status` to inspect the live binding."; nl;
     bs "6. Use `open_profile` for explicit choice or weak identity. Use `rollback_profile` ";
     bs "to restore a retained configuration after a bad learned change."; nl;
     bs "7. Use framing/parser, cursor replay, reconnect, line-control, and log tools only ";
     bs "when needed. `export_log` persists JSONL only when the server started with ";
     bs "`--capture-dir`; it accepts a portable filename, not a path, never overwrites, and ";
     bs "enforces quotas."; nl;
     bs "8. Modern clients may call `subscriptions/listen` with resource URIs ";
     bs "(`serial://ports`, `serial://connections`, or ";
     bs "`serial://connections/{id}[/raw|/log]`) for change hints. Notifications carry no ";
     bs "data; `read` remains the primary lossless data path."; nl;
     bs "Resources: serial://ports (same preview as list_ports), serial://connections, ";
     bs "serial://connections/{id}. Prompts: diagnose_port, interactive_terminal."].

(** [build_diagnose_prompt] and [build_interactive_prompt]: the message to the user,
    and the description. *)
Record DiagnosePortArgs := mkDiagnose { dp_port : list byte; dp_baud_rate : option Z }.
Record InteractiveTerminalArgs := mkTerminal {
  it_connection_id : list byte;
  it_line_ending : option (list byte);
  it_device_prompt : option (list byte);
}.

Definition diagnose_plan (port starting : list byte) : list byte :=
  concat
    [bs "Diagnose serial port `"; port; bs "` with the serial MCP tools."; nl; nl; bs "Plan:"; nl;
     bs "1. Call `list_ports`. Confirm `"; port;
     bs "` is present; otherwise stop and report. Inspect `profile_matches`: `selected` ";
     bs "means bare open reuses that profile; `none` means a fresh generated session starts."; nl;
     bs "2. Call the bare `open(port="; dq; port; dq; bs ")`. Baud defaults to "; starting;
     bs "; matching profiles apply automatically. Report the result's `profile` (name, ";
     bs "source, confidence) and whether the session was selected or created. If open fails, ";
     bs "try 9600, 38400, 115200, 230400, 460800 explicitly until one succeeds."; nl;
     bs "3. Sample unsolicited output with `read(connection_id, timeout_ms=500)`. Devices ";
     bs "may print a banner on boot or when DTR toggles."; nl;
     bs "4. For boot/reset capture, use one `capture_boot(connection_id, ";
     bs "reset={assert_dtr=false, assert_rts=false, release_dtr=true, release_rts=true, ";
     bs "hold_ms=100}, match=..., timeout_ms=5000)` call. It atomically marks the live edge, ";
     bs "pulses DTR/RTS (Arduino-style reset), and captures only post-reset bytes with a ";
     bs "private cursor. No arm/reset race or stale bytes. `reset=null` arms capture for ";
     bs "externally reset or power-cycled devices."; nl;
     bs "5. Probe with `transact(connection_id, data="; dq; bs "AT\r\n"; dq;
     bs ", match={pattern="; dq; bs "OK"; dq; bs ", config={mode="; dq; bs "literal_substring";
     dq; bs ", pattern_encoding="; dq; bs "utf8"; dq;
     bs "}}, timeout_ms=1000)` for one bounded write and awaited response. Try `?\r\n`, ";
     bs "`help\r\n`, `\r\n` as alternatives."; nl;
     bs "6. Characterise captured bytes: BOM/banner string, ANSI escapes, hex-only output, ";
     bs "and line-ending convention."; nl;
     bs "7. If a probe changed settings and the device misbehaves, `list_profiles` shows the ";
     bs "session's revision history. Restore a prior snapshot with `rollback_profile`, ";
     bs "passing the current revision as `expected_revision`."; nl;
     bs "8. Close cleanly with `close(connection_id)` before reporting."; nl; nl;
     bs "Optional for modern clients: `subscriptions/listen` on `serial://ports` or the ";
     bs "connection's `serial://connections/{id}` URI wakes the session when ports change or ";
     bs "new bytes arrive. Treat it as a hint; always read data with `read`/`transact`."; nl; nl;
     bs "Report: device identification (vendor, role, protocol), the working serial ";
     bs "parameters (baud rate + framing), the bound profile name and persistence state, the ";
     bs "prompt string (if any), and any anomalies."].

Definition terminal_rules (id line_ending prompt : list byte) : list byte :=
  concat
    [bs "Act as a serial terminal client for connection `"; id;
     bs "`. Use the serial MCP tools. Rules:"; nl; nl; bs "- Append `"; line_ending;
     bs "` to every line the user wants to send."; nl;
     bs "- For each user command use one `transact(connection_id="; dq; id; dq;
     bs ", data=..., match={pattern: "; prompt;
     bs "}, timeout_ms=2000)` call. It writes and awaits the response up to "; prompt;
     bs " in one round trip. Use `transact` instead of separate `write`+`read`."; nl;
     bs "- If the transact read times out, surface the partial buffer and ask how to ";
     bs "proceed; do not retry blindly."; nl;
     bs "- Decode response data as UTF-8. If the codec rejects bytes, use lossless hex ";
     bs "fallback and tell the user."; nl;
     bs "- Never call `close` unless the user explicitly says so."; nl;
     bs "- If the connection vanishes (tool returns Connection ID not found), tell the user ";
     bs "and stop. Do not silently reopen."; nl;
     bs "- Optional: for modern clients, `subscriptions/listen` on `serial://connections/"; id;
     bs "` can wake the session when new RX bytes arrive. Notifications are hints only. ";
     bs "Always use `transact`/`read` to fetch data."; nl; nl;
     bs "Begin by sending an empty line (transact with `"; line_ending;
     bs "` and the match pattern) to surface the current prompt, then report back and wait ";
     bs "for the user's first command."].

Definition build_diagnose_prompt (args : DiagnosePortArgs) : list byte * list byte :=
  let starting :=
    match dp_baud_rate args with Some b => usize_to_string b | None => bs "115200" end in
  (diagnose_plan (dp_port args) starting, bs "Diagnosis plan for port " ++ dp_port args).

Definition build_interactive_prompt (args : InteractiveTerminalArgs) : list byte * list byte :=
  let line_ending := default (bs "\r\n") (it_line_ending args) in
  let device_prompt :=
    match it_device_prompt args with
    | Some p => bs "`" ++ p ++ bs "`"
    | None => bs "the device's prompt string (e.g. `OK>`, `$ `)"
    end in
  (terminal_rules (it_connection_id args) line_ending device_prompt,
   bs "Interactive REPL session over connection " ++ it_connection_id args).

(** ** Server information *)

Record ServerCapabilities := mkCapabilities {
  cap_tools : bool;
  cap_resources : bool;
  cap_prompts : bool;
  cap_completions : bool;
  cap_resources_subscribe : bool;
}.

Definition capabilities_for (policy : ProtocolPolicy) : ServerCapabilities :=
  mkCapabilities true true true true (pp_resource_subscriptions policy).

(** Name and version are those of [Cargo.toml]. *)
Record ServerConfig := mkServerConfig {
  sg_capabilities : ServerCapabilities;
  sg_server_info : list byte * list byte;
  sg_protocol_version : list byte;
  sg_instructions : list byte;
}.

Definition server_info_for (policy : ProtocolPolicy) : ServerConfig :=
  mkServerConfig (capabilities_for policy) (bs "serial-mcp", bs "0.9.3") (pp_version policy) instructions.

Definition get_info : ServerConfig := server_info_for preferred_policy.

(** [initialize] on the version the peer has entered with, if any: the result, where
    [None] is the method-not-found error, and the version afterwards. *)
Definition initialize_session (version : list byte) (peer : option (list byte))
    : option ServerConfig * option (list byte) :=
  match initialize version with
  | None => (None, peer)
  | Some policy => (Some (server_info_for policy), Some version)
  end.

(** [discover]: the supported versions and the server information. *)
Definition discover : list (list byte) * ServerConfig :=
  (supported_protocol_versions, server_info_for preferred_policy).

(** ** Listings *)

Inductive CacheScope := CacheScopePrivate.

(** [ttlMs] and [cacheScope]. *)
Definition CacheFields : Type := Z * CacheScope.

Definition cache_of (version : option (list byte)) : option CacheFields :=
  if cache_fields_for version then Some (0, CacheScopePrivate) else None.

Record Listing (T : Type) := mkListing {
  ls_items : list T;
  ls_next_cursor : option (list byte);
  ls_cache : option CacheFields;
}.
Arguments mkListing {_} _ _ _.
Arguments ls_items {_} _.
Arguments ls_next_cursor {_} _.
Arguments ls_cache {_} _.

Definition PAGE_SIZE : Z := 100.

(** What the four listing handlers do with their vector. *)
Definition list_page `{Base64Crate} {T} (all : list T) (cursor : option (list byte))
    (version : option (list byte)) : Listing T :=
  let '(items, next_cursor) := paginate all cursor PAGE_SIZE in
  mkListing items next_cursor (cache_of version).

(** A listed resource; the priority is in tenths, and every audience is the user and
    the assistant. *)
Record Resource := mkResource {
  rc_uri : list byte;
  rc_name : list byte;
  rc_description : list byte;
  rc_mime_type : list byte;
  rc_size : Z;
  rc_priority : Z;
}.

Record ResourceTemplate := mkTemplate {
  rt_uri : list byte;
  rt_name : list byte;
  rt_description : list byte;
  rt_mime_type : list byte;
  rt_priority : Z;
}.

Definition URI_CONNECTION_TEMPLATE : list byte := bs "serial://connections/{id}".
Definition URI_CONNECTION_RAW_TEMPLATE : list byte := bs "serial://connections/{id}/raw".
Definition URI_CONNECTION_LOG_TEMPLATE : list byte := bs "serial://connections/{id}/log".

Definition all_resources (port_count conn_count : Z) : list Resource :=
  [mkResource URI_PORTS (bs "Available serial ports")
     (bs "JSON list of serial ports currently exposed by the OS.") (bs "application/json") port_count 9;
   mkResource URI_CONNECTIONS (bs "Open serial connections")
     (bs "JSON list of serial connections currently held open by this server.")
     (bs "application/json") conn_count 8].

Definition all_resource_templates : list ResourceTemplate :=
  [mkTemplate URI_CONNECTION_TEMPLATE (bs "Open serial connection by id")
     (bs "Per-connection state. Replace {id} with a connection_id returned by open.")
     (bs "application/json") 7;
   mkTemplate URI_CONNECTION_RAW_TEMPLATE (bs "Raw binary data from a serial connection")
     (bs "Base64-encoded bytes from the connection. Reading consumes up to 256 pending bytes. Replace {id} with a connection_id.")
     (bs "application/octet-stream") 6;
   mkTemplate URI_CONNECTION_LOG_TEMPLATE (bs "Event log for a serial connection")
     (bs "JSONL event log for the connection. Replace {id} with a connection_id. Each line is a JSON object with timestamp, direction, and event fields.")
     (bs "application/x-ndjson") 5].

(** The names in [prompt_router]. *)
Definition all_prompts : list (list byte) := [bs "diagnose_port"; bs "interactive_terminal"].

Section Listings.
Context `{Base64Crate, GlobCrate, TomlCrate}.

(** [enumerated] is what the port provider answers. *)
Definition list_resources (cursor version : option (list byte))
    (enumerated : result (list byte) (list PortInfo)) (s : Server) : Listing Resource :=
  let port_count := match enumerated with Ok ports => Z.of_nat (length ports) | Err _ => 0 end in
  let conn_count := Z.of_nat (size (connections (sv_registry s))) in
  list_page (all_resources port_count conn_count) cursor version.

Definition list_resource_templates (cursor version : option (list byte)) : Listing ResourceTemplate :=
  list_page all_resource_templates cursor version.

(** [all] is what the generated router lists. *)
Definition list_tools {T} (all : list T) (cursor version : option (list byte)) : Listing T :=
  list_page all cursor version.
Definition list_prompts {T} (all : list T) (cursor version : option (list byte)) : Listing T :=
  list_page all cursor version.

(** [complete]; [with_all_values] is the limit of the protocol library. *)
Definition complete {C} (with_all_values : list (list byte) -> result (list byte) C)
    (r : Reference) (argument : list byte) (enumerated : result (list byte) (list PortInfo))
    : result (list byte) C :=
  map_err (fun e => bs "Completion error: " ++ e) (with_all_values (get_completions r argument enumerated)).
End Listings.

(** [read_result_with_cache_fields]. *)
Definition read_result_with_cache_fields {A} (body : A) (version : option (list byte))
    : A * option CacheFields :=
  if cache_fields_for version then (body, Some (0, CacheScopePrivate)) else (body, None).

(** ** Properties *)

(** A client puts an id into a template. *)
Definition expand_template (template id : list byte) : list byte :=
  match find_subsequence template (bs "{id}") with
  | Some i => take i template ++ id ++ drop (i + 4) template
  | None => template
  end.

(** What the cache fields of answers to a version are. *)
Definition answers_cached `{Base64Crate} (version : option (list byte)) (fields : option CacheFields) : Prop :=
  (forall (T : Type) (all : list T) cursor, ls_cache (list_page all cursor version) = fields) /\
  (forall (A : Type) (body : A), read_result_with_cache_fields body version = (body, fields)).

Section ClientView.
Context `{Base64Laws, GlobCrate, TomlCrate}.

Lemma answers_cached_of version : answers_cached version (cache_of version).
Proof.
  split.
  - intros T all cursor. unfold list_page. by destruct (paginate _ _ _).
  - intros A body. unfold read_result_with_cache_fields, cache_of. by destruct (cache_fields_for version).
Qed.

(** A listing of up to a hundred items comes on one page. *)
Lemma first_page_whole {T} (all : list T) version :
  Z.of_nat (length all) <= PAGE_SIZE -> list_page all None version = mkListing all None (cache_of version).
Proof.
  intros Hl. unfold list_page. destruct (paginate_at all None PAGE_SIZE) as (o & Ho & Eo & ->).
  - done.
  - unfold PAGE_SIZE, U64_MAX in *. lia.
  - cbn in Eo. subst o. unfold page_at. rewrite drop_0. unfold PAGE_SIZE in *.
    rewrite take_ge by lia. by rewrite (proj2 (Nat.ltb_ge _ _)) by lia.
Qed.

Lemma expand_template_at template pre post id :
  find_subsequence template (bs "{id}") = Some (length pre) -> template = pre ++ bs "{id}" ++ post ->
  expand_template template id = pre ++ id ++ post.
Proof.
  intros Hf ->. unfold expand_template. rewrite Hf, take_app_length.
  by rewrite <- drop_drop, drop_app_length.
Qed.

(** The three templates are the three URIs of a connection. *)
Lemma expanded id :
  (fun t => expand_template (rt_uri t) id) <$> all_resource_templates =
  [URI_CONNECTION_PREFIX ++ id ++ []; URI_CONNECTION_PREFIX ++ id ++ bs "/raw";
   URI_CONNECTION_PREFIX ++ id ++ bs "/log"].
Proof.
  unfold all_resource_templates. cbn [fmap list_fmap map rt_uri].
  rewrite (expand_template_at URI_CONNECTION_TEMPLATE URI_CONNECTION_PREFIX []) by (by vm_compute).
  rewrite (expand_template_at URI_CONNECTION_RAW_TEMPLATE URI_CONNECTION_PREFIX (bs "/raw")) by (by vm_compute).
  by rewrite (expand_template_at URI_CONNECTION_LOG_TEMPLATE URI_CONNECTION_PREFIX (bs "/log")) by (by vm_compute).
Qed.

(** C35: what a client is told is what it gets.  [initialize] succeeds for the version
    2025-11-25 only: then it answers with that version, without resource
    subscriptions, the session speaks it from then on, and no listing and no resource
    it reads carries cache fields; when it fails, the session stays as it was.
    [discover] answers with the supported versions, the first of which is the one of
    the server information, has the subscriptions, and makes every listing and
    resource stale at once and private.  Without a cursor the listings of the
    resources, the templates and the prompts, and of up to a hundred tools, come whole;
    and whoever follows the cursors of a longer listing gets every item once, in order.
    Every listed resource can be subscribed to; and a template with a connection id
    in it is the URI of that connection, its bytes or its log, as the publishers build
    it, while no template is one by itself. *)
Theorem client_view requested peer answer peer' :
  initialize_session requested peer = (answer, peer') ->
  match answer with
  | Some cfg => requested = bs "2025-11-25" /\ sg_protocol_version cfg = requested /\
      cap_resources_subscribe (sg_capabilities cfg) = false /\ peer' = Some requested /\
      answers_cached peer' None
  | None => requested <> bs "2025-11-25" /\ peer' = peer
  end /\
  discover = (supported_protocol_versions, get_info) /\
  head supported_protocol_versions = Some (sg_protocol_version get_info) /\
  cap_resources_subscribe (sg_capabilities get_info) = true /\
  answers_cached (Some (sg_protocol_version get_info)) (Some (0, CacheScopePrivate)) /\
  (forall version enumerated s,
     (forall l, list_resources None version enumerated s = l ->
        ls_next_cursor l = None /\ rc_uri <$> ls_items l = [URI_PORTS; URI_CONNECTIONS] /\
        Forall (fun r => is_subscribable_uri (rc_uri r) = true) (ls_items l)) /\
     list_resource_templates None version = mkListing all_resource_templates None (cache_of version) /\
     list_prompts all_prompts None version = mkListing all_prompts None (cache_of version) /\
     (forall (T : Type) (tools : list T), Z.of_nat (length tools) <= 100 ->
        list_tools tools None version = mkListing tools None (cache_of version))) /\
  (forall (T : Type) (all : list T), Z.of_nat (length all) <= U64_MAX ->
     exists pages, all_pages (S (length all)) all None PAGE_SIZE = Some pages /\ concat pages = all /\
       Forall (fun p => Z.of_nat (length p) <= PAGE_SIZE) pages) /\
  Forall (fun t => is_subscribable_uri (rt_uri t) = false) all_resource_templates /\
  (forall id, valid_connection_id id = true ->
     (fun t => Some (expand_template (rt_uri t) id)) <$> all_resource_templates = [detail_uri id; raw_uri id; log_uri id]).
Proof.
  intros Hi. split_and!.
  - unfold initialize_session, initialize in Hi. destruct (policy_cases requested) as [ [-> E]|[ [-> E]|[Hv E] ] ];
      rewrite E in Hi; cbn in Hi; injection Hi as <- <-.
    + by split.
    + by split_and!.
    + split; [|done]. intros ->. apply Hv. apply (bool_decide_eq_true_1 _). by vm_compute.
  - done.
  - done.
  - done.
  - apply (answers_cached_of (Some (bs "2026-07-28"))).
  - intros version enumerated s. split_and!.
    + intros l <-. unfold list_resources. rewrite first_page_whole by (by vm_compute).
      split_and!; [done|done|]. repeat (apply Forall_cons; split; [by vm_compute|]). by apply Forall_nil.
    + by apply first_page_whole.
    + by apply first_page_whole.
    + intros T tools Ht. by apply first_page_whole.
  - intros T all Hl.
    destruct (all_pages_from all PAGE_SIZE (S (length all)) None 0) as (pages & Hp & Hc & _ & Hle); [done|done|cbn; lia|lia|].
    by exists pages.
  - repeat (apply Forall_cons; split; [by vm_compute|]). by apply Forall_nil.
  - intros id Hv. rewrite (list_fmap_compose (fun t => expand_template (rt_uri t) id) Some), expanded.
    destruct (built_uris id Hv) as (Hd & Hr & Hl). by rewrite Hd, Hr, Hl.
Qed.
End ClientView.

(** An old client initialises; a modern one that does is refused. *)
Lemma client_view_witness :
  snd (initialize_session (bs "2025-11-25") None) = Some (bs "2025-11-25") /\
  answers_cached (Some (bs "2025-11-25")) None /\
  snd (initialize_session (bs "2026-07-28") None) = None.
Proof.
  destruct (initialize_session (bs "2025-11-25") None) as [answer peer'] eqn:E.
  assert (Hok : is_some (fst (initialize_session (bs "2025-11-25") None)) = true) by (vm_compute; reflexivity).
  rewrite E in Hok. destruct (client_view _ _ _ _ E) as [Hc _].
  destruct answer as [cfg|]; [|discriminate Hok]. destruct Hc as (_ & _ & _ & -> & Hcached).
  split; [reflexivity|]. split; [exact Hcached|]. vm_compute. reflexivity.
Defined.

(** *** The prompts *)

(** A starting rate given to the diagnosis is announced as the rate of a bare open,
    which is another one. *)
Example diagnosis_announces_wrong_default :
  contains (build_diagnose_prompt (mkDiagnose (bs "COM3") (Some 9600))).1 (bs "Baud defaults to 9600") = true /\
  pd_baud_rate ProfileDefaults_default = 115200.
Proof. vm_compute. by split. Qed.

(** The calls a text shows: names before an opening parenthesis, after a backquote. *)
Fixpoint shown_calls (word : option (list byte)) (text : list byte) : list (list byte) :=
  match text with
  | [] => []
  | b :: text =>
      if bool_decide (b = x60) then shown_calls (Some []) text
      else
        match word with
        | None => shown_calls None text
        | Some w =>
            if bool_decide (b = x28) then w :: shown_calls None text
            else if is_ascii_alphanumeric b || bool_decide (b = x5f) then shown_calls (Some (w ++ [b])) text
            else shown_calls None text
        end
  end.

(** The texts show calls of tools in the catalogue only. *)
Example shown_calls_exist :
  let calls :=
    shown_calls None instructions ++
    shown_calls None (build_diagnose_prompt (mkDiagnose (bs "COM3") None)).1 ++
    shown_calls None (build_interactive_prompt (mkTerminal (bs "id") None None)).1 in
  forallb (fun c => is_some (hints_of c)) calls = true /\ (5 <=? length calls)%nat = true.
Proof. vm_compute. by split. Qed.
