(* ===== verification/Background.v ===== *)
(** * What the process does by itself

    The tasks that work next to the handlers, on the same state: a turn of an RX
    pump ([src/rx_session.rs]), a poll of the reconnect supervisor
    ([src/server.rs]) and an attempt of a reconnect task
    ([src/serial/manager.rs]); and reading a resource, which consumes bytes. *)

From S2P Require Import Prelude RustStr Extern ExternModel Codec FramingConfig RxRing BufferBudget LogBuffer MatchConfig RxConsume ReadLoop Tools RxSession RxPump TxSession SerialConfig Manager Connection Profiles ProfileStore IoTools Resources ServerTools PortPlan PortTools Handlers.

Section Background.
Context `{HexCrate, Base64Crate, JsonCrate, RegexCrate, GlobCrate, TomlCrate}.

Definition with_conn (p : Process) (id : list byte) (c : SerialConnection) : Process :=
  with_server p (set_conn (pr_server p) id c).

Definition with_session_of (p : Process) (id : list byte) (f : RxSession -> RxSession) : Process :=
  let s := pr_server p in
  with_server p (set_rx s (update_session (ss_sessions (sv_rx s)) id f)).

(** ** The pump *)

(** A read of [pump_loop] that started at [started], and what the loop does with its
    result: the hints it publishes, and the process. *)
Definition pump_turn (id : list byte) (started now : Z) (poll : PollResult) (p : Process)
    : list (list byte) * Process :=
  match sv_conns (pr_server p) !! id, session_get (ss_sessions (sv_rx (pr_server p))) id with
  | Some c, Some session =>
      if rs_pump_cancelled session then ([], p)
      else
        match ensure_open c with
        | Err _ => ([], p)
        | Ok _ =>
            let '(r, c) := read_poll c now (started + PUMP_READ_TIMEOUT) PUMP_READ_SIZE poll in
            match pump_action <$> r with
            | Some (PumpAppend bytes) =>
                (publish_connection_changed id,
                 with_session_of (with_conn p id (with_log c (rx_data (sc_log c) now (zlen bytes)))) id
                   (fun x => RxSession.pump_append x bytes))
            | Some (PumpDisconnect e) =>
                ([], with_conn p id (mark_disconnected c now (bs "Read error: " ++ io_error_text e)))
            | _ => ([], with_conn p id c)
            end
        end
  | _, _ => ([], p)
  end.

(** ** Reconnects *)

(** The supervisor looks at one connection: whether it starts a task, and the
    registry with the finished tasks pruned. *)
Definition supervise (id : list byte) (is_finished : nat -> bool) (p : Process) : bool * Process :=
  match sv_conns (pr_server p) !! id with
  | Some c =>
      let '(starts, reg) := supervisor_poll (sv_registry (pr_server p)) is_finished id (sc_state c) (sc_policy c) in
      (starts, with_server p (set_registry (pr_server p) reg))
  | None => (false, p)
  end.

(** The task that was spawned enters the table. *)
Definition register_task (id : list byte) (task : nat) (p : Process) : Process :=
  let s := pr_server p in
  with_server p (set_registry s (start_reconnect_insert (sv_registry s) id task)).

(** An attempt of a reconnect task after [attempts] failures: whether the task goes on. *)
Definition reconnect_attempt (id : list byte) (now : Z)
    (build_stream : ConnectionConfig -> result SerialError Device) (to_string : SerialError -> list byte)
    (attempts : Z) (is_finished : nat -> bool) (pump : nat) (p : Process) : bool * Process :=
  match sv_conns (pr_server p) !! id with
  | None => (false, p)
  | Some c =>
      match sc_state c with
      | CsOpen | CsClosed => (false, p)
      | _ =>
          let '(r, c') := reconnect c now build_stream to_string in
          match r with
          | Ok _ =>
              (false,
               with_session_of (with_conn p id (reset_reconnect_attempts c')) id
                 (fun x => (ensure_pump_running x is_finished pump).2))
          | Err _ =>
              if (0 <? rp_max_attempts (sc_policy c)) && (rp_max_attempts (sc_policy c) <=? attempts + 1)
              then (false, with_conn p id (with_log c' (record (sc_log c') now None ReconnectExhausted)))
              else (true, with_conn p id c')
          end
      end
  end.

(** ** Events *)

Inductive ProcessEvent :=
  | EvCall (call : HandlerCall)
  | EvResource (to_string : LogEntry -> result (list byte) (list byte)) (uri : list byte) (version : option (list byte))
      (enumerated : result (list byte) (list PortInfo)) (io : IoFaults) (start : Z)
      (polls : list (Z * PollResult))
  | EvPump (id : list byte) (started now : Z) (poll : PollResult)
  | EvSupervise (id : list byte) (is_finished : nat -> bool)
  | EvTask (id : list byte) (task : nat)
  | EvReconnect (id : list byte) (now : Z) (build_stream : ConnectionConfig -> result SerialError Device)
      (to_string : SerialError -> list byte) (attempts : Z) (is_finished : nat -> bool) (pump : nat).

Definition run_event (path : list byte) (ev : ProcessEvent) (p : Process) : Process :=
  match ev with
  | EvCall call => (run_handler path call p).2
  | EvResource to_string uri version enumerated io start polls =>
      with_server p (read_resource to_string uri version enumerated io start polls (pr_server p)).2
  | EvPump id started now poll => (pump_turn id started now poll p).2
  | EvSupervise id is_finished => (supervise id is_finished p).2
  | EvTask id task => register_task id task p
  | EvReconnect id now build to_string attempts is_finished pump =>
      (reconnect_attempt id now build to_string attempts is_finished pump p).2
  end.

Definition run_events (path : list byte) (evs : list ProcessEvent) (p : Process) : Process :=
  foldl (fun p ev => run_event path ev p) p evs.

(** ** What no operation of a connection changes *)

Lemma reconnect_identity c now build to_string : sc_identity (reconnect c now build to_string).2 = sc_identity c.
Proof. unfold reconnect, reconnect_begin. by repeat (case_match; simplify_eq/=). Qed.

Lemma read_poll_identity c now deadline max poll : sc_identity (read_poll c now deadline max poll).2 = sc_identity c.
Proof. unfold read_poll, record_rx_bytes. by repeat (case_match; simplify_eq/=). Qed.

Lemma conn_read_identity c deadline max polls : sc_identity (conn_read c deadline max polls).2 = sc_identity c.
Proof.
  revert c. induction polls as [|[now poll] polls IH]; intros c; [done|]. cbn [conn_read].
  pose proof (read_poll_identity c now deadline max poll) as Hp.
  destruct (read_poll _ _ _ _ _) as [ [r|] c']; [done|]. rewrite IH. done.
Qed.
End Background.
