(* ===== verification/ProcessInvariant.v ===== *)
(** * The invariant of the server process

    What holds between any two calls of the handlers ([src/server.rs]): the
    registry, the connections and the profiles stay consistent through every
    sequence of calls, successful or not. *)

From S2P Require Import Prelude RustStr Extern ExternModel Codec FramingConfig RxRing BufferBudget LogBuffer MatchConfig RxConsume ReadLoop Tools RxSession TxSession SerialConfig Manager Connection Profiles ProfileStore StoreInvariant Learning IoTools ControlTools CaptureBoot Resources ServerTools OpenSettings PortPlan PortTools OpenProofs RxPump Handlers Background.

Section ProcessInvariant.
Context `{HexCrate, Base64Crate, JsonCrate, RegexCrate, GlobCrate, TomlLaws}.
Context (path : list byte).

(** ** The invariant *)

(** Every registered connection has its object, under its id and with its port; no
    port is registered twice; and no port is being opened or closed. *)
Record registry_ok (p : Process) : Prop := {
  ro_ids : ids_agree p;
  ro_known : forall id ident, registered p id = Some ident ->
    exists m, summaries p id = Some m /\ sm_port m = sc_port ident;
  ro_ports : forall i j a b, registered p i = Some a -> registered p j = Some b ->
    sc_port a = sc_port b -> i = j;
  ro_opening : opening_ports (sv_registry (pr_server p)) = ∅;
  ro_closing : closing_ports (sv_registry (pr_server p)) = ∅;
}.

Definition documents_ok (bound : Z) (p : Process) : Prop :=
  profiles_ok bound (sv_file (pr_server p)) (sv_store (pr_server p)).

(** ** The registry *)

Lemma registry_ok_keeps p p' : registry_ok p -> keeps p p' -> registry_ok p'.
Proof.
  intros [Hi Hk Hp Ho Hc] Hkeep. pose proof Hkeep as [Hr Hw].
  pose proof (same_registered p p' Hr) as Hreg. split.
  - by eapply keeps_ids.
  - intros id ident. rewrite Hreg. intros (m & Hm & Hport)%Hk. specialize (Hw id). rewrite Hm in Hw.
    destruct (summaries p' id) as [m'|]; [|done]. injection Hw as _ Hsame. exists m'. by rewrite Hsame.
  - intros i j a b. rewrite !Hreg. apply Hp.
  - by rewrite Hr.
  - by rewrite Hr.
Qed.

(** Two clients see different connections on different ports. *)
Lemma listed_ports p i j a b :
  registry_ok p -> detail_body p i = Some a -> detail_body p j = Some b -> sm_port a = sm_port b -> i = j.
Proof.
  intros [_ Hk Hp _ _]. rewrite !detail_body_eq.
  destruct (registered p i) as [x|] eqn:Hx; [|done]. destruct (registered p j) as [y|] eqn:Hy; [|done].
  cbn [mbind option_bind]. intros Ha Hb E.
  destruct (Hk i x Hx) as (m & Hm & Em). destruct (Hk j y Hy) as (n & Hn & En).
  apply (Hp i j x y Hx Hy). congruence.
Qed.

(** Opening registers a connection whose port nobody had. *)
Lemma manager_open_admits e config s id s' :
  manager_open e config s = (Ok id, s') ->
  forall i ident, connections (sv_registry s) !! i = Some ident -> sc_port ident <> cc_port config.
Proof.
  unfold manager_open, open_begin.
  destruct (check_port _ _) as [u|] eqn:Hc; cbn [mbind result_bind]; [|done].
  intros _. by apply check_port_ok in Hc as [Hc _].
Qed.

Lemma registry_opened p s' id c :
  registry_ok p ->
  (forall i ident, registered p i = Some ident -> sc_port ident <> sc_port (sc_identity c)) ->
  sc_id (sc_identity c) = id ->
  sv_registry s' = open_finish (sv_registry (pr_server p)) (sc_port (sc_identity c)) (sc_identity c) ->
  (forall i, i <> id -> sv_conns s' !! i = sv_conns (pr_server p) !! i) ->
  (exists c', sv_conns s' !! id = Some c' /\ sc_identity c' = sc_identity c) ->
  registry_ok (with_server p s').
Proof.
  intros [Hi Hk Hp Ho Hc] Hfree Hid Hr Hs (c' & Hc' & Hsame).
  assert (Hreg : forall i, registered (with_server p s') i
    = if decide (i = id) then Some (sc_identity c) else registered p i).
  { intros i. unfold registered. cbn. rewrite Hr. cbn. rewrite Hid. case_decide as E.
    - rewrite E. apply lookup_insert_eq.
    - by rewrite lookup_insert_ne. }
  split.
  - intros i x. cbn. destruct (decide (i = id)) as [->|Hne].
    + rewrite Hc'. intros [= <-]. by rewrite Hsame.
    + rewrite (Hs i Hne). apply Hi.
  - intros i ident. rewrite Hreg. unfold summaries. cbn. case_decide as E.
    + rewrite E, Hc'. intros [= <-]. eexists. split; [done|]. cbn. by rewrite Hsame.
    + rewrite (Hs i E). apply Hk.
  - intros i j a b. rewrite !Hreg. repeat case_decide; [congruence| | |by apply Hp].
    + intros [= <-] Hb E. by destruct (Hfree j b Hb).
    + intros Ha [= <-] E. by destruct (Hfree i a Ha).
  - cbn. rewrite Hr. cbn. rewrite Ho. set_solver.
  - cbn. by rewrite Hr.
Qed.

Lemma registry_open_connection p e port overlay security d pi plan r s' :
  registry_ok p ->
  open_connection path security e port overlay d pi plan (pr_server p) = (r, s') ->
  registry_ok (with_server p s').
Proof.
  intros Hok. assert (Hsame : registry_ok (with_server p (pr_server p))) by by destruct p.
  unfold open_connection. destruct (negb _); [by intros [= <- <-]|].
  destruct (resolve port overlay d) as [resolved|]; cbn [map_err mbind result_bind]; [|by intros [= <- <-] ].
  destruct (plan_dirty plan resolved) as [dirty|]; cbn [map_err mbind result_bind]; [|by intros [= <- <-] ].
  destruct (manager_open _ _ _) as [ [id|err] s1] eqn:Hm;
    [|apply manager_open_spec in Hm; subst s1; by intros [= <- <-] ].
  pose proof (manager_open_admits _ _ _ _ _ Hm) as Hfree. apply manager_open_spec in Hm as (-> & io & ->).
  set (c := from_io_with_config _ _ _ io) in *. set (s1 := set_conn _ _ c).
  assert (Hc : sv_conns s1 !! oe_id e = Some c) by apply lookup_insert_eq.
  assert (Hopened : forall s2, sv_registry s2 = sv_registry s1 ->
    (forall i, i <> oe_id e -> sv_conns s2 !! i = sv_conns s1 !! i) ->
    (exists c', sv_conns s2 !! oe_id e = Some c' /\ sc_identity c' = sc_identity c) ->
    registry_ok (with_server p s2)).
  { intros s2 Hr Hs Hc'. apply (registry_opened p s2 (oe_id e) c); try done.
    intros i Hi. rewrite (Hs i Hi). cbn. by rewrite lookup_insert_ne. }
  destruct (server_get s1 (oe_id e)) as [c1|err] eqn:Hget.
  - assert (Hc1 : lookup s1 (oe_id e) = Ok c1) by (unfold lookup; by rewrite Hget).
    apply lookup_conn in Hc1. rewrite Hc in Hc1. injection Hc1 as <-. intros Ho.
    apply open_session_frame in Ho as (Hr & Hs & Hc' & _); [|done]. by apply Hopened.
  - intros [= <- <-]. apply Hopened; [done|done|]. by exists c.
Qed.

(** A plan and the marks of the store touch no connection. *)
Lemma registry_profiles p file store : registry_ok p -> registry_ok (with_server p (set_profiles (pr_server p) file store)).
Proof. intros Hok. by apply (registry_ok_keeps p). Qed.

(** Closing unregisters the connection, whether the device closes or not. *)
Lemma registry_closed p s' tx id :
  registry_ok p -> connections (sv_registry s') = delete id (connections (sv_registry (pr_server p))) ->
  opening_ports (sv_registry s') = ∅ -> closing_ports (sv_registry s') = ∅ ->
  (forall i, sc_identity <$> sv_conns s' !! i = sc_identity <$> sv_conns (pr_server p) !! i) ->
  registry_ok (mkProcess s' tx).
Proof.
  intros [Hi Hk Hp _ _] Hr Ho Hc Hs.
  assert (Hreg : forall i ident, registered (mkProcess s' tx) i = Some ident -> registered p i = Some ident).
  { intros i ident. unfold registered. cbn. rewrite Hr. by intros [_ ?]%lookup_delete_Some. }
  split; [| |by eauto|done|done].
  - intros i c. cbn. intros Hc'. specialize (Hs i). rewrite Hc' in Hs.
    destruct (sv_conns (pr_server p) !! i) as [c0|] eqn:Hc0; [|done]. injection Hs as ->. by apply Hi.
  - intros i ident (m & Hm & Hport)%Hreg%Hk. unfold summaries in *. cbn. specialize (Hs i).
    destruct (sv_conns (pr_server p) !! i) as [c0|]; [|done].
    destruct (sv_conns s' !! i) as [c1|]; [|done]. injection Hs as Hs. injection Hm as <-.
    eexists. split; [done|]. cbn in *. by rewrite Hs.
Qed.

Lemma learn_conn_frame op io now id c s session persistence s' :
  learn_conn path op io now id c s = (session, persistence, s') ->
  sv_registry s' = sv_registry s /\ exists c', sv_conns s' = <[id := c']> (sv_conns s) /\ sc_identity c' = sc_identity c.
Proof.
  unfold learn_conn. destruct (learn _ _ _ _ _ _ _ _) as [ [ [ [x y] file] store] b]. intros [= <- <- <-].
  split; [done|]. by eexists.
Qed.

Lemma close_identity c fault : sc_identity (close c fault).2 = sc_identity c.
Proof. unfold close, close_begin, close_io. by repeat (case_match; simplify_eq/=). Qed.

Lemma registry_close now fault io id p :
  registry_ok p -> registry_ok (handle_close path now fault io id p).2.
Proof.
  intros Hok. unfold handle_close, PortTools.close_tool. set (s0 := set_registry _ _).
  assert (Hsame : registry_ok (with_server p s0)).
  { destruct Hok as [Hi Hk Hp Ho Hc]. by split. }
  destruct (lookup s0 id) as [c|] eqn:Hc; [|done].
  pose proof (lookup_conn _ _ _ Hc) as Hconn. change (sv_conns s0) with (sv_conns (pr_server p)) in Hconn.
  unfold manager_close, manager_close_begin.
  destruct (connections (sv_registry s0) !! id) as [ident|]; cbn [ok_or mbind result_bind]; [|done].
  pose proof (close_identity (with_log c (closed (sc_log c) now)) fault) as Hid.
  destruct (close _ fault) as [r c']. cbn [snd] in Hid. set (s1 := set_conn _ _ c').
  pose proof (ro_opening p Hok) as Ho. pose proof (ro_closing p Hok) as Hcl.
  assert (Hcl1 : closing_ports (sv_registry s1) = ∅) by (cbn; rewrite Hcl; set_solver).
  assert (Hwho : forall s2 tx, sv_registry s2 = sv_registry s1 ->
    (exists c2, sv_conns s2 = <[id := c2]> (sv_conns (pr_server p)) /\ sc_identity c2 = sc_identity c) ->
    registry_ok (mkProcess s2 tx)).
  { intros s2 tx Hr (c2 & Hs2 & Hc2). apply (registry_closed p s2 tx id Hok); rewrite ?Hr; [done|exact Ho|exact Hcl1|].
    intros i. rewrite Hs2. destruct (decide (i = id)) as [->|Hne]; [|by rewrite lookup_insert_ne].
    rewrite lookup_insert_eq, Hconn. cbn. by rewrite Hc2. }
  destruct r as [u|e]; [|apply Hwho; [done|by exists c'] ].
  destruct (learn_conn _ _ _ _ _ _ _) as [ [profile persistence] s2] eqn:Hl.
  apply learn_conn_frame in Hl as (Hr & c2 & Hs2 & Hc2). apply Hwho; [done|]. exists c2.
  cbn. rewrite Hs2. cbn. rewrite insert_insert_eq. split; [done|]. by rewrite Hc2.
Qed.

(** Every call. *)
Lemma handler_keeps_registry p call :
  registry_ok p -> alone_call call -> registry_ok (run_handler path call p).2.
Proof.
  intros Hok Halone. destruct (opens_or_closes call) eqn:Hopens.
  - destruct call as [security [live|text] plan_io e port overlay mode|security [ports|text] e name overlay
                     |now fault io id| | | | | | | | | | | | | | | | | | | | |]; try done; cbn [run_handler].
    + unfold handle_open, open.
      destruct (plan_session _ _ _ _ _ _) as [ [plan|err] store]; cbv zeta; [|by apply registry_profiles].
      pose proof (registry_profiles p (sv_file (pr_server p)) store Hok) as Hok1.
      destruct (open_connection _ _ _ _ _ _ _ _ _) as [r s'] eqn:Ho.
      apply (registry_open_connection (with_server p _)) in Ho; [|exact Hok1]. by destruct r.
    + unfold handle_open. cbn. by destruct p.
    + unfold handle_open_profile, open_profile. destruct (store_get _ _) as [profile|]; [|by destruct p].
      destruct (filter _ ports) as [|port [|? ?] ]; [by destruct p| |by destruct p].
      destruct (open_connection _ _ _ _ _ _ _ _ _) as [r s'] eqn:Ho.
      apply (registry_open_connection p) in Ho; [|done]. by destruct r.
    + unfold handle_open_profile, open_profile. destruct (store_get _ _); by destruct p.
    + by apply registry_close.
  - pose proof (handler_hinted path p call (ro_ids p Hok) Halone) as Hh.
    destruct (run_handler path call p) as [ [ok published] p']. rewrite Hopens in Hh.
    destruct Hh as (Hkeep & _). by apply (registry_ok_keeps p), Hkeep.
Qed.

(** ** The profiles *)

(** A listing of the ports refreshes the cache from the file. *)
Lemma list_ports_keeps bound enumerated io file store r store' :
  list_ports enumerated io file store = (r, store') -> profiles_ok bound file store -> profiles_ok bound file store'.
Proof.
  unfold list_ports. destruct enumerated as [ports|text]; [|by intros [= _ <-] ].
  unfold list_fresh. destruct (run_read _ _ _ _) as [r1 store1] eqn:Hr. intros [= _ <-] Hok.
  by apply (read_keeps _ bound) in Hr.
Qed.

(** The clocks a call reads for the profile file. *)
Definition call_clock (call : HandlerCall) : option Z :=
  match call with
  | HOpen _ _ _ e _ _ _ | HOpenProfile _ _ e _ _ => Some (oe_now e)
  | HClose now _ _ _ | HSetFlowControl now _ _ _ _ | HReconfigure now _ _ _ _
  | HConfigure now _ _ _ _ _ | HSaveProfile now _ _ _ _ | HDeleteProfile now _ _
  | HRollbackProfile now _ _ _ _ => Some now
  | _ => None
  end.

Definition clock_fits (call : HandlerCall) : Prop := forall now, call_clock call = Some now -> fits_u64 now.

Lemma learn_keeps_profiles bound io now file store b d op session persistence file' store' b' :
  1 <= bound < U64_MAX -> fits_u64 now -> profiles_ok bound file store ->
  learn path io now file store b d op = (session, persistence, file', store', b') ->
  profiles_ok (bound + 1) file' store'.
Proof.
  intros Hb Hnow Hok. assert (Hok' : profiles_ok (bound + 1) file store) by (eapply profiles_ok_mono; [|done]; lia).
  unfold learn. destruct b as [b|]; [|by intros [= <- <- <- <- <-] ].
  destruct (negb _); [by intros [= <- <- <- <- <-]|]. destruct (ab_stale b); [by intros [= <- <- <- <- <-]|].
  destruct (run_conditional_mutation _ _ _ _ _) as [ [r f] st] eqn:Hr.
  eapply (transaction_keeps _ bound) in Hr; [|apply learned_keeps|done..].
  destruct r as [ [p [] ]|e]; by intros [= <- <- <- <- <-].
Qed.

Lemma learn_conn_profiles bound op io now id c s session persistence s' :
  1 <= bound < U64_MAX -> fits_u64 now -> profiles_ok bound (sv_file s) (sv_store s) ->
  learn_conn path op io now id c s = (session, persistence, s') ->
  profiles_ok (bound + 1) (sv_file s') (sv_store s').
Proof.
  intros Hb Hnow Hok. unfold learn_conn.
  destruct (learn _ _ _ _ _ _ _ _) as [ [ [ [x y] file] store] b] eqn:Hl.
  intros [= <- <- <-]. cbn. by eapply learn_keeps_profiles in Hl.
Qed.

Lemma plan_session_profiles bound mode pi live io file s r s' :
  profiles_ok bound file s -> plan_session mode pi live io file s = (r, s') -> profiles_ok bound file s'.
Proof.
  intros Hok. unfold plan_session. destruct mode as [ [|]|], pi as [port|];
    try (by intros [= _ <-]); destruct (high_identity port) as [identity|] eqn:Hid; try (by intros [= _ <-]);
    (case_match; [by intros [= _ <-]|]); unfold store_resolve_automatic; rewrite Hid;
    (destruct (run_read _ _ _ _) as [r0 s0] eqn:Hr); apply (read_keeps _ bound) in Hr; try done; by intros [= _ <-].
Qed.

Lemma mark_used_profiles bound io now p source conf dirty file store b file' store' :
  1 <= bound < U64_MAX -> fits_u64 now -> profiles_ok bound file store ->
  mark_used_binding path io now p source conf dirty file store = (b, file', store') ->
  profiles_ok (bound + 1) file' store'.
Proof.
  intros Hb Hnow Hok. unfold mark_used_binding. destruct (run_mutation _ _ _ _ _) as [ [r f] st] eqn:Hr.
  eapply (mutation_keeps _ bound) in Hr; [|apply mark_used_keeps|done..]. by intros [= _ <- <-].
Qed.

Lemma session_binding_profiles bound io now plan resolved pi dirty file store r file' store' :
  1 <= bound < U64_MAX -> fits_u64 now -> profiles_ok bound file store ->
  session_binding path io now plan resolved pi dirty file store = (r, file', store') ->
  profiles_ok (bound + 1) file' store'.
Proof.
  intros Hb Hnow Hok. assert (Hok' : profiles_ok (bound + 1) file store) by (eapply profiles_ok_mono; [|done]; lia).
  unfold session_binding. destruct plan as [conf|conf names|p|p|]; cbv zeta.
  - by intros [= _ <- <-].
  - by intros [= _ <- <-].
  - destruct (mark_used_binding _ _ _ _ _ _ _ _ _) as [ [b f] st] eqn:Hm. intros [= _ <- <-].
    by eapply mark_used_profiles in Hm.
  - destruct (mark_used_binding _ _ _ _ _ _ _ _ _) as [ [b f] st] eqn:Hm. intros [= _ <- <-].
    by eapply mark_used_profiles in Hm.
  - destruct (pi ≫= canonical_high_selector) as [sel|]; [|by intros [= _ <- <-] ].
    destruct (run_mutation _ _ _ _ _) as [ [r0 f] st] eqn:Hr. intros [= _ <- <-].
    by eapply (mutation_keeps _ bound) in Hr; [|apply create_generated_keeps|..].
Qed.

Definition server_profiles (bound : Z) (s : Server) : Prop := profiles_ok bound (sv_file s) (sv_store s).

Lemma server_profiles_mono b c s : b <= c -> server_profiles b s -> server_profiles c s.
Proof. apply profiles_ok_mono. Qed.

Section OneCall.
Context (bound now : Z) (Hbound : 1 <= bound < U64_MAX - 1) (Hnow : fits_u64 now).

#[local] Lemma bound_first : 1 <= bound < U64_MAX.
Proof. lia. Qed.

#[local] Lemma bound_second : 1 <= bound + 1 < U64_MAX.
Proof. lia. Qed.

#[local] Lemma unchanged s : server_profiles bound s -> server_profiles (bound + 2) s.
Proof. apply server_profiles_mono. lia. Qed.

#[local] Lemma changed_once s : server_profiles (bound + 1) s -> server_profiles (bound + 2) s.
Proof. apply server_profiles_mono. lia. Qed.

#[local] Hint Resolve bound_first bound_second unchanged changed_once : core.

Lemma learned_once op io id c s session persistence s' :
  server_profiles bound s -> learn_conn path op io now id c s = (session, persistence, s') ->
  server_profiles (bound + 2) s'.
Proof. intros Hok Hl. apply changed_once. by eapply learn_conn_profiles. Qed.

Lemma mutated_once {T} (apply : list Profile -> Z -> result StoreError (T * list Profile)) io s r file store :
  keeps_list apply -> server_profiles bound s ->
  run_mutation apply io now (sv_file s) (sv_store s) = (r, file, store) ->
  server_profiles (bound + 2) (set_profiles s file store).
Proof. intros Hk Hok Hr. apply changed_once. by eapply mutation_keeps in Hr. Qed.

Lemma open_session_profiles e resolved pi plan dirty id c s r s' :
  oe_now e = now -> server_profiles bound s ->
  open_session path e resolved pi plan dirty id c s = (r, s') -> server_profiles (bound + 2) s'.
Proof.
  intros He Hok. unfold open_session. cbv zeta. rewrite He.
  destruct (get_or_create _ _ _ _) as [ [session|err] m]; [|by intros [= _ <-]; apply unchanged].
  destruct (session_binding _ _ _ _ _ _ _ _ _) as [ [rb file] store] eqn:Hb.
  apply (session_binding_profiles bound) in Hb; [|done..].
  destruct rb as [b|err]; [|by intros [= _ <-]; apply changed_once].
  destruct (ab_dirty b); [|by intros [= _ <-]; apply changed_once].
  destruct (learn_conn _ _ _ _ _ _ _) as [ [learned persistence] s2] eqn:Hl. intros [= _ <-].
  apply (learn_conn_profiles (bound + 1)) in Hl; [|done..]. by rewrite <- Z.add_assoc in Hl.
Qed.

Lemma open_connection_profiles security e port overlay d pi plan s r s' :
  oe_now e = now -> server_profiles bound s ->
  open_connection path security e port overlay d pi plan s = (r, s') -> server_profiles (bound + 2) s'.
Proof.
  intros He Hok. unfold open_connection. destruct (negb _); [by intros [= _ <-]; apply unchanged|].
  destruct (resolve port overlay d) as [resolved|]; cbn [map_err mbind result_bind];
    [|by intros [= _ <-]; apply unchanged].
  destruct (plan_dirty plan resolved) as [dirty|]; cbn [map_err mbind result_bind];
    [|by intros [= _ <-]; apply unchanged].
  destruct (manager_open _ _ _) as [ [id|err] s1] eqn:Hm; apply manager_open_spec in Hm;
    [|subst s1; by intros [= _ <-]; apply unchanged].
  destruct Hm as (-> & io & ->). destruct (server_get _ _) as [c|err]; [|by intros [= _ <-]; apply unchanged].
  by apply open_session_profiles.
Qed.

Lemma publishing_server {E A} (uris : A -> list (list byte)) p (r : result E A) s :
  pr_server (publishing uris p (r, s)).2 = s.
Proof. by destruct r. Qed.

Lemma publishing_io_server {A} (uris : A -> list (list byte)) p (r : ToolEnd IoToolError A * IoState) :
  server_profiles bound (pr_server p) -> server_profiles (bound + 2) (pr_server (publishing_io uris p r).2).
Proof. destruct r as [ [a|e| | |] i]; apply unchanged. Qed.

Lemma handle_open_profiles security enumerated plan_io e port overlay mode p :
  oe_now e = now -> server_profiles bound (pr_server p) ->
  server_profiles (bound + 2) (pr_server (handle_open path security enumerated plan_io e port overlay mode p).2).
Proof.
  intros He Hok. unfold handle_open, open. destruct enumerated as [live|text]; [|by apply unchanged].
  destruct (plan_session _ _ _ _ _ _) as [ [plan|err] store] eqn:Hplan; cbv zeta;
    apply (plan_session_profiles bound) in Hplan; try done; [|by apply unchanged].
  destruct (open_connection _ _ _ _ _ _ _ _ _) as [r s'] eqn:Ho. rewrite publishing_server.
  by apply open_connection_profiles in Ho.
Qed.

Lemma handle_open_profile_profiles security enumerated e name overlay p :
  oe_now e = now -> server_profiles bound (pr_server p) ->
  server_profiles (bound + 2) (pr_server (handle_open_profile path security enumerated e name overlay p).2).
Proof.
  intros He Hok. unfold handle_open_profile, open_profile.
  destruct (store_get _ _) as [profile|]; [|by apply unchanged].
  destruct enumerated as [ports|text]; [|by apply unchanged].
  destruct (filter _ ports) as [|port [|? ?] ]; [by apply unchanged| |by apply unchanged].
  destruct (open_connection _ _ _ _ _ _ _ _ _) as [r s'] eqn:Ho. rewrite publishing_server.
  by apply open_connection_profiles in Ho.
Qed.

Lemma handle_close_profiles fault io id p :
  server_profiles bound (pr_server p) ->
  server_profiles (bound + 2) (pr_server (handle_close path now fault io id p).2).
Proof.
  intros Hok. unfold handle_close, PortTools.close_tool. set (s0 := set_registry _ _).
  destruct (lookup s0 id) as [c|]; [|by apply unchanged]. unfold manager_close.
  destruct (manager_close_begin _ _) as [ [ident reg]|err]; [|by apply unchanged].
  destruct (close _ fault) as [ [u|e] c']; [|by apply unchanged].
  destruct (learn_conn _ _ _ _ _ _ _) as [ [profile persistence] s2] eqn:Hl.
  by apply learned_once in Hl.
Qed.

Lemma connection_tool_profiles call p :
  match call with
  | HSetFlowControl t _ _ _ _ | HReconfigure t _ _ _ _ | HConfigure t _ _ _ _ _ => t = now
  | _ => False
  end -> server_profiles bound (pr_server p) ->
  server_profiles (bound + 2) (pr_server (run_handler path call p).2).
Proof.
  intros Ht Hok. destruct call as [| | | | | | | | |t fault io id flow| |t fault io id args
    |t io profile id defaults overwrite| | | | | | | | | | |]; try done; cbn [run_handler]; subst t.
  - unfold handle_set_flow_control, set_flow_control_tool.
    destruct (flow ← _; _) as [ [fl c]|e]; [|by apply unchanged].
    destruct (set_flow_control c fl fault) as [ [u|e] c']; [|by apply unchanged].
    destruct (learn_conn _ _ _ _ _ _ _) as [ [profile persistence] s'] eqn:Hl. by apply learned_once in Hl.
  - unfold handle_reconfigure, reconfigure_tool. destruct (c ← _; _) as [ [c rc]|e]; [|by apply unchanged].
    destruct (Connection.reconfigure c rc fault) as [ [st|e] c']; [|by apply unchanged].
    destruct (learn_conn _ _ _ _ _ _ _) as [ [profile persistence] s'] eqn:Hl. by apply learned_once in Hl.
  - unfold handle_configure, configure. destruct profile as [name|], id as [id|]; [by apply unchanged| | |by apply unchanged].
    + destruct (run_mutation _ _ _ _ _) as [ [r file] store] eqn:Hr. rewrite publishing_server.
      by apply mutated_once in Hr; [|apply update_defaults_keeps|].
    + destruct (lookup _ id) as [c|]; [|by apply unchanged].
      destruct (learn_conn _ _ _ _ _ _ _) as [ [session persistence] s'] eqn:Hl. by apply learned_once in Hl.
Qed.

Lemma profile_tool_profiles call p :
  match call with
  | HSaveProfile t _ _ _ _ | HDeleteProfile t _ _ | HRollbackProfile t _ _ _ _ => t = now
  | _ => False
  end -> server_profiles bound (pr_server p) ->
  server_profiles (bound + 2) (pr_server (run_handler path call p).2).
Proof.
  intros Ht Hok. destruct call as [| | | | | | | | | | | | | | |t io id name overwrite|t io name
    |t io name expected revision| | | | | |]; try done; cbn [run_handler]; subst t.
  - unfold handle_save_profile, save_profile. destruct (c ← _; _) as [ [c info]|e]; [|by apply unchanged].
    destruct (run_mutation _ _ _ _ _) as [ [r file] store] eqn:Hr. rewrite publishing_server.
    by apply mutated_once in Hr; [|apply upsert_keeps|].
  - unfold handle_delete_profile, delete_profile. destruct (bound_ids _ _); [|by apply unchanged].
    destruct (run_mutation _ _ _ _ _) as [ [r file] store] eqn:Hr. rewrite publishing_server.
    by apply mutated_once in Hr; [|apply delete_keeps|].
  - unfold handle_rollback_profile, rollback_profile.
    destruct (run_mutation _ _ _ _ _) as [ [r file] store] eqn:Hr.
    apply mutated_once in Hr; [|apply rollback_keeps|done]. by destruct r.
Qed.

(** The other calls write no profile. *)
Lemma other_call_profiles call p :
  call_clock call = None -> server_profiles bound (pr_server p) ->
  server_profiles (bound + 2) (pr_server (run_handler path call p).2).
Proof.
  intros Ht Hok. destruct call; try done; cbn [run_handler];
    try (by apply publishing_io_server).
  - unfold handle_set_dtr_rts. destruct (lookup _ _) as [c|]; [|by apply unchanged].
    destruct (set_dtr_rts_unlocked _ _ _ _) as [r c']. rewrite publishing_server. by apply unchanged.
  - unfold handle_send_break. destruct (send_break_begin _ _ _) as [ [r|e] [c|] ]; try by apply unchanged.
    destruct (send_break_end _ _ _) as [ [ [ [u|e]|] armed] c']; by apply unchanged.
  - unfold handle_reconnect, reconnect_tool. destruct (lookup _ _) as [c|]; [|by apply unchanged].
    destruct (reconnect _ _ _ _) as [r c']. rewrite publishing_server. by apply unchanged.
  - unfold handle_clear_log. destruct (lookup _ _) as [c|]; by apply unchanged.
  - unfold handle_list_ports. destruct (list_ports _ _ _ _) as [r store] eqn:Hl. rewrite publishing_server.
    apply list_ports_keeps with (bound := bound) in Hl; [by apply unchanged|done].
  - by apply unchanged.
  - unfold handle_get_status. rewrite publishing_server. by apply unchanged.
  - by apply unchanged.
  - unfold handle_get_log. rewrite publishing_server. by apply unchanged.
  - unfold handle_compute_checksum. rewrite publishing_server. by apply unchanged.
Qed.
End OneCall.

Lemma handler_keeps_profiles bound call p :
  1 <= bound < U64_MAX - 1 -> clock_fits call -> server_profiles bound (pr_server p) ->
  server_profiles (bound + 2) (pr_server (run_handler path call p).2).
Proof.
  intros Hb Hclock Hok. destruct (call_clock call) as [now|] eqn:Hc; [|by apply other_call_profiles].
  pose proof (Hclock now Hc) as Hnow.
  destruct call; cbn [call_clock] in Hc; try done; injection Hc as Hc.
  - by eapply handle_open_profiles.
  - by eapply handle_open_profile_profiles.
  - subst. by eapply handle_close_profiles.
  - by eapply connection_tool_profiles.
  - by eapply connection_tool_profiles.
  - by eapply connection_tool_profiles.
  - by eapply profile_tool_profiles.
  - by eapply profile_tool_profiles.
  - by eapply profile_tool_profiles.
Qed.

(** ** The tasks *)

Lemma set_conn_keeps p id c c' :
  sv_conns (pr_server p) !! id = Some c -> sc_identity c' = sc_identity c -> keeps p (with_conn p id c').
Proof.
  intros Hc Hid. apply (changes_only_keeps id), (replaced_only p id c c'); [done|done| |apply lookup_insert_eq|done].
  intros i Hi. cbn. by rewrite lookup_insert_ne.
Qed.

Lemma keeps_session p p' id f : keeps p p' -> keeps p (with_session_of p' id f).
Proof. done. Qed.

(** The reconnect tasks are not part of the invariant. *)
Lemma registry_tasks p reg :
  connections reg = connections (sv_registry (pr_server p)) ->
  opening_ports reg = opening_ports (sv_registry (pr_server p)) ->
  closing_ports reg = closing_ports (sv_registry (pr_server p)) ->
  registry_ok p -> registry_ok (with_server p (set_registry (pr_server p) reg)).
Proof.
  intros Hconn Ho Hcl [Hi Hk Hp Hopen Hclosing].
  assert (Hreg : forall i, registered (with_server p (set_registry (pr_server p) reg)) i = registered p i)
    by (intros i; unfold registered; cbn; by rewrite Hconn).
  split; [done| | |cbn; by rewrite Ho|cbn; by rewrite Hcl].
  - intros id ident. rewrite Hreg. apply Hk.
  - intros i j a b. rewrite !Hreg. apply Hp.
Qed.

Lemma pump_turn_keeps id started now poll p : keeps p (pump_turn id started now poll p).2.
Proof.
  unfold pump_turn. destruct (sv_conns (pr_server p) !! id) as [c|] eqn:Hc; [|done].
  destruct (session_get _ _) as [session|]; [|done]. destruct (rs_pump_cancelled session); [done|].
  destruct (ensure_open c); [|done]. pose proof (read_poll_identity c now (started + PUMP_READ_TIMEOUT) PUMP_READ_SIZE poll) as Hid.
  destruct (read_poll _ _ _ _ _) as [r c']. cbn [snd] in Hid.
  destruct (pump_action <$> r) as [ [ |bytes|e|]|]; cbn [snd]; try apply keeps_session;
    by eapply set_conn_keeps.
Qed.

Lemma reconnect_attempt_keeps id now build to_string attempts is_finished pump p :
  keeps p (reconnect_attempt id now build to_string attempts is_finished pump p).2.
Proof.
  unfold reconnect_attempt. destruct (sv_conns (pr_server p) !! id) as [c|] eqn:Hc; [|done].
  pose proof (reconnect_identity c now build to_string) as Hid.
  destruct (reconnect c now build to_string) as [r c']. cbn [snd] in Hid.
  destruct (sc_state c); try done; (destruct r; [apply keeps_session; by eapply set_conn_keeps|]);
    (destruct (_ && _); by eapply set_conn_keeps).
Qed.

Lemma resource_keeps {E} (to_string : LogEntry -> result E (list byte)) uri version enumerated io start polls p :
  keeps p (with_server p (read_resource to_string uri version enumerated io start polls (pr_server p)).2).
Proof.
  unfold read_resource. destruct (parse_resource_uri uri) as [| |id|id|id|]; try done.
  - by destruct (list_ports _ _ _ _).
  - destruct (server_get (pr_server p) id) as [c|] eqn:Hget; cbn [map_err]; [|done].
    assert (Hc : lookup (pr_server p) id = Ok c) by (unfold lookup; by rewrite Hget).
    apply lookup_conn in Hc. unfold read_latest.
    pose proof (conn_read_identity c (start + 100) 256 polls) as Hid.
    destruct (conn_read _ _ _ _) as [r c']. cbn [snd] in *. by eapply set_conn_keeps.
Qed.

Definition alone_event (ev : ProcessEvent) : Prop :=
  match ev with EvCall call => alone_call call | _ => True end.
Definition event_clock_fits (ev : ProcessEvent) : Prop :=
  match ev with EvCall call => clock_fits call | _ => True end.

Lemma event_keeps_registry p ev : registry_ok p -> alone_event ev -> registry_ok (run_event path ev p).
Proof.
  intros Hok Halone. destruct ev; cbn [run_event].
  - by apply handler_keeps_registry.
  - apply (registry_ok_keeps p), resource_keeps. done.
  - apply (registry_ok_keeps p), pump_turn_keeps. done.
  - unfold supervise. destruct (sv_conns (pr_server p) !! id) as [c|]; [|done].
    destruct (supervisor_poll _ _ _ _ _) as [starts reg] eqn:Hs.
    unfold supervisor_poll, start_reconnect_check in Hs.
    apply registry_tasks; try done; by repeat (case_match; simplify_eq/=).
  - by apply registry_tasks.
  - apply (registry_ok_keeps p), reconnect_attempt_keeps. done.
Qed.

Lemma event_keeps_profiles bound p ev :
  1 <= bound < U64_MAX - 1 -> event_clock_fits ev -> documents_ok bound p ->
  documents_ok (bound + 2) (run_event path ev p).
Proof.
  intros Hb Hclock Hok. assert (Hok' : documents_ok (bound + 2) p) by (eapply profiles_ok_mono; [|exact Hok]; lia).
  destruct ev; cbn [run_event].
  - by apply handler_keeps_profiles.
  - unfold read_resource. destruct (parse_resource_uri uri) as [| |id|id|id|]; try done.
    + destruct (list_ports _ _ _ _) as [r store] eqn:Hl. by apply list_ports_keeps with (bound := bound + 2) in Hl.
    + destruct (server_get (pr_server p) id) as [c|]; cbn [map_err]; [|done]. by destruct (read_latest _ _ _ _).
  - unfold pump_turn. by repeat case_match.
  - unfold supervise. by repeat case_match.
  - done.
  - unfold reconnect_attempt. by repeat case_match.
Qed.

(** ** Every run *)

Lemma run_events_ok evs : forall bound p,
  1 <= bound -> bound + 2 * Z.of_nat (length evs) < U64_MAX ->
  Forall alone_event evs -> Forall event_clock_fits evs -> registry_ok p -> documents_ok bound p ->
  registry_ok (run_events path evs p) /\ documents_ok (bound + 2 * Z.of_nat (length evs)) (run_events path evs p).
Proof.
  induction evs as [|ev evs IH]; intros bound p Hone Hb Halone Hclock Hr Hd.
  - cbn [length]. split; [done|]. by rewrite Z.add_0_r.
  - change (run_events path (ev :: evs) p) with (run_events path evs (run_event path ev p)).
    cbn [length] in *. replace (bound + 2 * Z.of_nat (S (length evs)))
      with (bound + 2 + 2 * Z.of_nat (length evs)) by lia.
    inversion_clear Halone. inversion_clear Hclock. apply IH; [lia|lia|done|done| |].
    + by apply event_keeps_registry.
    + apply event_keeps_profiles; [lia|done..].
Qed.

(** A process that has just started. *)
Lemma started_ok m file store tx : registry_ok (mkProcess (mkServer registry_new ∅ m file store) tx).
Proof.
  split; try done.
Qed.

(** C8: the process stays consistent.  The handlers are called
    and resources are read any number of times, in any order, with any arguments; in
    between, the pumps, the reconnect supervisor and its tasks take their turns;
    devices, file operations and lookups fail as they like, and within one call a
    read or a capture waits alone.  Then the registry and the connections still agree:
    every registered connection is listed, under its own id, no two listed connections
    are on one port, and no port is left reserved by an open or a close.  And the
    profile file and the store's cache are well-formed, each event having changed a
    profile at most twice. *)
Theorem process_stays_consistent bound p evs :
  1 <= bound -> bound + 2 * Z.of_nat (length evs) < U64_MAX ->
  Forall alone_event evs -> Forall event_clock_fits evs -> registry_ok p -> documents_ok bound p ->
  let p' := run_events path evs p in
  (forall id, listed p' id = is_some (registered p' id)) /\
  (forall id m, detail_body p' id = Some m -> sm_connection_id m = id) /\
  (forall i j a b, detail_body p' i = Some a -> detail_body p' j = Some b -> sm_port a = sm_port b -> i = j) /\
  opening_ports (sv_registry (pr_server p')) = ∅ /\ closing_ports (sv_registry (pr_server p')) = ∅ /\
  documents_ok (bound + 2 * Z.of_nat (length evs)) p'.
Proof.
  intros Hone Hb Halone Hclock Hr Hd p'.
  destruct (run_events_ok evs bound p Hone Hb Halone Hclock Hr Hd) as [Hr' Hd']. fold p' in Hr', Hd'.
  pose proof Hr' as [Hi Hk _ Ho Hc]. split_and!; [| |by eauto using listed_ports|done|done|done].
  - intros id. unfold listed. rewrite detail_body_eq. destruct (registered p' id) as [ident|] eqn:E; [|done].
    by destruct (Hk id ident E) as (m & -> & _).
  - intros id m. rewrite detail_body_eq. destruct (registered p' id); [|done]. cbn [mbind option_bind].
    intros Hm. rewrite ids_agree_summaries in Hi. by apply Hi.
Qed.
End ProcessInvariant.

(** ** Witness *)

(** The built-in defaults, with reconnects. *)
Definition reconnecting : ProfileDefaults :=
  let d := ProfileDefaults_default in
  mkDefaults (pd_baud_rate d) (pd_data_bits d) (pd_stop_bits d) (pd_parity d) (pd_flow_control d) (pd_name d)
    (pd_tx_framing d) (pd_rx_framing d) (pd_rx_parser d) (pd_protocol d) (pd_rx_buffer_size d)
    (pd_max_buffered_bytes d) (mkPolicy true 10 500 30000 (rp_backoff_multiplier ReconnectPolicy_default))
    (pd_log_capacity d) (pd_log_enabled d).

(** Open the device, let it reconnect and change its speed; it is unplugged under the
    pump, the supervisor starts a reconnect task, and the close fails; open it again
    under another id. *)
Definition demo_events : list ProcessEvent :=
  [EvCall demo_open;
   EvCall (HConfigure 6 no_faults None (Some (bs "id")) reconnecting false);
   EvCall (HReconfigure 7 None no_faults (bs "id") (mkReconfigureArgs (Some 9600) None None None None));
   EvPump (bs "id") 7 8 (PollFails (mkIoError BrokenPipe (bs "unplugged")));
   EvSupervise (bs "id") (fun _ => false); EvTask (bs "id") 3;
   EvCall (HClose 9 (Some (mkIoError NotFound (bs "gone"))) no_faults (bs "id"));
   EvCall (HOpen anywhere (Ok [demo_port]) no_faults (demo_env (bs "id2")) tty_acm overlay_default None)].

Lemma gps_ok : document_ok 1 [gps].
Proof.
  split; [apply NoDup_singleton|]. apply Forall_singleton. split.
  - by split.
  - split; [intros t [= <-]..|]; by split.
  - constructor.
  - reflexivity.
Qed.

Lemma process_stays_consistent_witness :
  let p' := run_events (bs "p.toml") demo_events demo_process in
  listed p' (bs "id") = false /\ listed p' (bs "id2") = true /\
  (forall j b, detail_body p' j = Some b -> sm_port b = tty_acm -> bs "id2" = j) /\
  documents_ok 17 p'.
Proof.
  cbv zeta.
  assert (Hl1 : listed (run_events (bs "p.toml") demo_events demo_process) (bs "id") = false)
    by (vm_compute; reflexivity).
  assert (Hl2 : (sm_port <$> detail_body (run_events (bs "p.toml") demo_events demo_process) (bs "id2")) = Some tty_acm)
    by (vm_compute; reflexivity).
  pose proof (process_stays_consistent (bs "p.toml") 1 demo_process demo_events) as Hthm. cbv zeta in Hthm.
  revert Hl1 Hl2 Hthm. generalize (run_events (bs "p.toml") demo_events demo_process). intros p' Hl1 Hl2 Hthm.
  destruct Hthm as (_ & _ & Hports & _ & _ & Hdocs).
  - lia.
  - reflexivity.
  - repeat apply Forall_cons_2; try apply Forall_nil_2; exact I.
  - repeat apply Forall_cons_2; try apply Forall_nil_2; try exact I; intros now [= <-]; by split.
  - apply started_ok.
  - split; [exists [gps]; split; [reflexivity|exact gps_ok]|exact gps_ok].
  - destruct (detail_body p' (bs "id2")) as [m|] eqn:E; [|discriminate]. injection Hl2 as Hl2.
    split; [exact Hl1|]. split; [unfold listed; by rewrite E|]. split; [|exact Hdocs].
    intros j b Hb Hport. apply (Hports _ _ m b E Hb). by rewrite Hl2.
Defined.

(** The supervisor does start a task for the unplugged device. *)
Example unplugged_device_gets_a_task :
  (supervise (bs "id") (fun _ => false) (run_events (bs "p.toml") (take 4 demo_events) demo_process)).1 = true.
Proof. vm_compute. reflexivity. Qed.
