(* ===== verification/Lifetime.v ===== *)
(** * From start to start

    [main] of [src/main.rs] up to the transport, with the profile file it finds, and
    the server process started, run and started again on what it left behind.  A
    run may end after any event, so killing the process is a run that stops early. *)

From S2P Require Import Prelude RustStr Extern ExternModel BufferBudget Tools Manager Profiles ProfileStore StoreInvariant CaptureStore RxSession TxSession PortTools ServerTools OpenSettings PortPlan OpenProofs Handlers Background ProcessInvariant Startup.

(** ** The path of the profile file *)

(** [PathBuf::join] on Unix. *)
Definition path_join (dir part : list byte) : list byte :=
  match part with
  | x2f :: _ => part
  | _ => if bool_decide (dir = []) || bool_decide (last dir = Some x2f) then dir ++ part
         else dir ++ x2f :: part
  end.

(** [default_profiles_path]; [config_dir] is what the [dirs] crate finds. *)
Definition default_profiles_path (config_dir : option (list byte)) : result unit (list byte) :=
  dir ← ok_or config_dir tt;
  Ok (path_join (path_join dir (bs "serial-mcp")) (bs "profiles.toml")).

(** ** Starting *)

Section Lifetime.
Context `{HexCrate, Base64Crate, JsonCrate, RegexCrate, GlobCrate, TomlLaws}.

(** Which file a path leads to. *)
Context (resolve : list byte -> list byte).

Notation Files := (gmap (list byte) TomlText).

(** What one start finds besides the profile files. *)
Record StartFacts := mkStart {
  sf_raw : RawArgs;
  sf_config_dir : option (list byte);
  sf_read_fault : option (list byte);
  sf_capture_faults : CommitFaults;
  sf_capture_facts : DirFacts;
  sf_capture_content : Dir;
}.

(** Why [main] exits before it serves; the second is a panic. *)
Inductive StartError :=
  | StartArguments (e : ArgsError)
  | StartBudgetPanic
  | StartNoConfigDir
  | StartProfiles (path : list byte) (e : StoreError)
  | StartCapture (e : CaptureError).

(** What it hands to [run_http] or [run_stdio]. *)
Record Started := mkStarted {
  sd_args : Args;
  sd_security : SecurityManager;
  sd_path : list byte;
  sd_capture : CaptureStore;
  sd_process : Process;
}.

Definition main_start (f : StartFacts) (files : Files) : result StartError Started :=
  args ← map_err StartArguments (parse_args (sf_raw f));
  let security := start_security args in
  budget ← ok_or (start_budget args) StartBudgetPanic;
  path ← match a_profiles_path args with
         | Some p => Ok p
         | None => map_err (fun _ => StartNoConfigDir) (default_profiles_path (sf_config_dir f))
         end;
  let file := files !! resolve path in
  store ← map_err (StartProfiles path) (store_open file (sf_read_fault f));
  capture ← map_err StartCapture
              (start_capture args (sf_capture_faults f) (sf_capture_facts f) (sf_capture_content f)).1;
  Ok (mkStarted args security path capture
        (mkProcess (mkServer registry_new ∅ (session_start budget) file store) ∅)).

(** ** Lifetimes *)

(** A start and what happens until the process ends. *)
Record Lifetime := mkLifetime { lt_start : StartFacts; lt_events : list ProcessEvent }.

Definition run_lifetime (l : Lifetime) (files : Files) : option Process * Files :=
  match main_start (lt_start l) files with
  | Err _ => (None, files)
  | Ok sd =>
      let p := run_events (sd_path sd) (lt_events l) (sd_process sd) in
      (Some p, partial_alter (fun _ => sv_file (pr_server p)) (resolve (sd_path sd)) files)
  end.

(** The processes as they ended, and the files. *)
Fixpoint run_lifetimes (ls : list Lifetime) (files : Files) : list Process * Files :=
  match ls with
  | [] => ([], files)
  | l :: ls =>
      let '(ended, files) := run_lifetime l files in
      let '(later, files) := run_lifetimes ls files in
      (option_list ended ++ later, files)
  end.

(** ** The files *)

(** A missing file is an empty document. *)
Definition file_ok (bound : Z) (file : option TomlText) : Prop :=
  exists ps, holds file ps /\ document_ok bound ps.

Definition files_ok (bound : Z) (files : Files) : Prop :=
  forall path, file_ok bound (files !! path).

Definition lifetime_fits (l : Lifetime) : Prop :=
  Forall alone_event (lt_events l) /\ Forall event_clock_fits (lt_events l).

Definition total_events (ls : list Lifetime) : Z :=
  Z.of_nat (sum_list_with (fun l => length (lt_events l)) ls).

(** Why a start was refused. *)
Definition refused_for (f : StartFacts) (e : StartError) : Prop :=
  match e with
  | StartArguments e => parse_args (sf_raw f) = Err e
  | StartBudgetPanic => False
  | StartNoConfigDir => raw_profiles_path (sf_raw f) = None /\ sf_config_dir f = None
  | StartProfiles _ e => exists text, sf_read_fault f = Some text /\ e = StoreIo text
  | StartCapture e => exists args d, parse_args (sf_raw f) = Ok args /\ a_capture_dir args <> None /\
      start_capture args (sf_capture_faults f) (sf_capture_facts f) (sf_capture_content f) = (Err e, d)
  end.

Definition plain_start (files : Files) (sd : Started) : Prop :=
  registry_ok (sd_process sd) /\
  holds (files !! resolve (sd_path sd)) (st_cache (sv_store (pr_server (sd_process sd)))) /\
  forall id, listed (sd_process sd) id = false.

Lemma file_ok_missing bound : file_ok bound None.
Proof. exists []. split; [done|apply document_ok_nil]. Qed.

Lemma file_ok_mono b c file : b <= c -> file_ok b file -> file_ok c file.
Proof. intros Hle (ps & Hh & Hd). exists ps. eauto using document_ok_mono. Qed.

Lemma files_ok_mono b c files : b <= c -> files_ok b files -> files_ok c files.
Proof. intros Hle Hf path. by eapply file_ok_mono. Qed.

(** ** One start *)

(** What a start that succeeds has made. *)
Lemma main_start_ok f files sd :
  main_start f files = Ok sd ->
  exists budget store,
    sd_process sd = mkProcess (mkServer registry_new ∅ (session_start budget)
                                 (files !! resolve (sd_path sd)) store) ∅ /\
    holds (files !! resolve (sd_path sd)) (st_cache store).
Proof.
  unfold main_start. intros (args & _ & Hs)%result_bind_ok. cbv zeta in Hs.
  apply result_bind_ok in Hs as (budget & _ & Hs). apply result_bind_ok in Hs as (path & _ & Hs).
  apply result_bind_ok in Hs as (store & Hst%map_err_ok & Hs). apply result_bind_ok in Hs as (capture & _ & Hs).
  injection Hs as <-. exists budget, store. split; [done|]. cbn [sd_path].
  unfold store_open in Hst. apply result_bind_ok in Hst as (ps & Hl & Hst). injection Hst as <-.
  unfold holds. destruct (sf_read_fault f); [by cbn [load_validated] in Hl|done].
Qed.

Lemma main_start_plain bound f files sd :
  files_ok bound files -> main_start f files = Ok sd ->
  plain_start files sd /\ documents_ok bound (sd_process sd).
Proof.
  intros Hf (budget & store & Hp & Hh)%main_start_ok. unfold plain_start. rewrite Hp.
  destruct (Hf (resolve (sd_path sd))) as (ps & Hps & Hd). split; [split_and!; [apply started_ok|done|done]|].
  split; [by exists ps|]. cbn. unfold holds in Hh, Hps. rewrite Hh in Hps. by injection Hps as <-.
Qed.

Lemma main_start_refused bound f files e :
  raw_sizes_ok (sf_raw f) -> files_ok bound files -> main_start f files = Err e -> refused_for f e.
Proof.
  intros Hsizes Hf. unfold main_start.
  destruct (parse_args (sf_raw f)) as [args|ae] eqn:Ha; cbn [map_err mbind result_bind]; [|by intros [= <-] ].
  destruct (accepted_budget _ _ Ha Hsizes) as (b & -> & _). cbn [ok_or mbind result_bind].
  destruct (accepted_options _ _ Ha) as [Hpath Hdir].
  destruct (match a_profiles_path args with Some _ => _ | None => _ end) as [path|pe] eqn:Hp;
    cbn [mbind result_bind].
  2:{ intros [= <-]. rewrite Hpath in Hp. destruct (raw_profiles_path (sf_raw f)) eqn:Hraw; [done|].
      unfold default_profiles_path in Hp. destruct (sf_config_dir f) eqn:Hc; [done|]. by injection Hp as <-. }
  destruct (Hf (resolve path)) as (ps & Hh & _).
  destruct (store_open _ _) as [store|se] eqn:Hst; cbn [map_err mbind result_bind].
  2:{ intros [= <-]. unfold store_open in Hst.
      pose proof (load_faulty _ ps (sf_read_fault f) _ Hh eq_refl) as Hl.
      destruct (load_validated _ _) as [qs|le]; [done|]. injection Hst as <-.
      destruct Hl as (text & -> & Hfault). by exists text. }
  destruct (start_capture _ _ _ _) as [ [c|ce] d] eqn:Hcap; [done|]. intros [= <-].
  exists args, d. split_and!; [done| |done]. unfold start_capture in Hcap. by destruct (a_capture_dir args).
Qed.

(** ** Every sequence of lifetimes *)

Lemma run_lifetime_ok bound l files :
  1 <= bound -> bound + 2 * total_events [l] < U64_MAX -> lifetime_fits l -> files_ok bound files ->
  let '(ended, files') := run_lifetime l files in
  let bound' := bound + 2 * total_events [l] in
  files_ok bound' files' /\
  forall p, ended = Some p -> registry_ok p /\ documents_ok bound' p.
Proof.
  intros Hone Hb [Halone Hclock] Hf. unfold run_lifetime.
  assert (Hmono : files_ok (bound + 2 * total_events [l]) files)
    by (eapply files_ok_mono; [|done]; unfold total_events; lia).
  destruct (main_start (lt_start l) files) as [sd|e] eqn:Hs; cbv zeta; [|by split].
  apply (main_start_plain bound) in Hs as [ [Hreg _] Hdocs]; [|done].
  assert (Hev : bound + 2 * total_events [l] = bound + 2 * Z.of_nat (length (lt_events l)))
    by (unfold total_events; cbn [sum_list_with]; lia).
  rewrite Hev in *.
  pose proof (run_events_ok (sd_path sd) (lt_events l) bound _ Hone Hb Halone Hclock Hreg Hdocs) as [Hr Hd].
  split; [|by intros p [= <-] ]. intros path. destruct (decide (resolve (sd_path sd) = path)) as [->|Hne].
  - rewrite lookup_partial_alter_eq. apply Hd.
  - rewrite lookup_partial_alter_ne by done. apply Hmono.
Qed.

Lemma total_events_cons l ls : total_events (l :: ls) = total_events [l] + total_events ls.
Proof. unfold total_events. cbn [sum_list_with]. lia. Qed.

Lemma run_lifetimes_ok ls : forall bound files,
  1 <= bound -> bound + 2 * total_events ls < U64_MAX -> Forall lifetime_fits ls -> files_ok bound files ->
  let '(ended, files') := run_lifetimes ls files in
  let bound' := bound + 2 * total_events ls in
  files_ok bound' files' /\ Forall (fun p => registry_ok p /\ documents_ok bound' p) ended.
Proof.
  induction ls as [|l ls IH]; intros bound files Hone Hb Hfit Hf; cbn [run_lifetimes].
  { split; [|constructor]. eapply files_ok_mono; [|done]. unfold total_events. lia. }
  inversion_clear Hfit as [|? ? Hl Hls]. rewrite total_events_cons in *.
  assert (0 <= total_events [l] /\ 0 <= total_events ls) as [? ?] by (unfold total_events; lia).
  pose proof (run_lifetime_ok bound l files Hone ltac:(lia) Hl Hf) as Hstep.
  destruct (run_lifetime l files) as [ended files1]. destruct Hstep as [Hf1 Hended].
  specialize (IH (bound + 2 * total_events [l]) files1 ltac:(lia) ltac:(lia) Hls Hf1).
  destruct (run_lifetimes ls files1) as [later files2]. cbv zeta in *.
  replace (bound + 2 * (total_events [l] + total_events ls))
    with (bound + 2 * total_events [l] + 2 * total_events ls) by lia.
  destruct IH as [Hf2 Hlater]. split; [done|]. apply Forall_app. split; [|done].
  destruct ended as [p|]; cbn [option_list]; [|constructor]. apply Forall_singleton.
  destruct (Hended p eq_refl) as [Hr Hd]. split; [done|].
  eapply profiles_ok_mono; [|exact Hd]. lia.
Qed.

(** C9: the server can always be started again.  From profile files that are
    missing or well-formed, the server is started, used and stopped or killed any number
    of times, with any options: then every process ended consistent, every profile file
    is well-formed, and the next start either gives a consistent process without
    connections, whose profiles are those in its file, or is refused for its
    arguments, for want of a configuration directory, for an error reading the file
    or for the capture directory, never for what an earlier process wrote. *)
Theorem restarts_recover bound ls files s :
  1 <= bound -> bound + 2 * total_events ls < U64_MAX -> Forall lifetime_fits ls -> files_ok bound files ->
  raw_sizes_ok (sf_raw s) ->
  let '(ended, files') := run_lifetimes ls files in
  let bound' := bound + 2 * total_events ls in
  Forall (fun p => registry_ok p /\ documents_ok bound' p) ended /\
  files_ok bound' files' /\
  match main_start s files' with
  | Ok sd => plain_start files' sd /\ documents_ok bound' (sd_process sd)
  | Err e => refused_for s e
  end.
Proof.
  intros Hone Hb Hfit Hf Hsizes. pose proof (run_lifetimes_ok ls bound files Hone Hb Hfit Hf) as Hrun.
  destruct (run_lifetimes ls files) as [ended files']. destruct Hrun as [Hf' Hended]. cbv zeta in *.
  split_and!; [done|done|]. destruct (main_start s files') as [sd|e] eqn:Hs.
  - by eapply main_start_plain.
  - by eapply main_start_refused.
Qed.
End Lifetime.

(** ** Witness *)

Definition home : list byte := bs "/home/me/.config".
Definition home_profiles : list byte := bs "/home/me/.config/serial-mcp/profiles.toml".

Definition capture_there : DirFacts := mkDirFacts true (Ok Special) true (Ok (bs "/srv/captures")).

(** Without [--profiles-path], capturing into an existing directory. *)
Definition home_start : StartFacts :=
  mkStart plain_args (Some home) None no_commit_faults capture_there ∅.

(** The first run finds no file, opens the device and is killed; a second one has
    nowhere to look for the file. *)
Definition demo_lifetimes : list Lifetime :=
  [mkLifetime home_start [EvCall demo_open];
   mkLifetime (mkStart plain_args None None no_commit_faults capture_there ∅) [EvCall demo_open]].

Definition restarted : list Process * gmap (list byte) TomlText := run_lifetimes id demo_lifetimes ∅.

(** What the third start has loaded, and where from. *)
Definition third_start : option (list byte * list (list byte)) :=
  match main_start id home_start restarted.2 with
  | Ok sd => Some (sd_path sd, p_name <$> st_cache (sv_store (pr_server (sd_process sd))))
  | Err _ => None
  end.

(** It knows the device the first run had opened, under the profile generated then. *)
Lemma restarts_recover_witness :
  exists sd, main_start id home_start restarted.2 = Ok sd /\
    plain_start id restarted.2 sd /\ documents_ok 5 (sd_process sd) /\
    sd_path sd = home_profiles /\
    p_name <$> st_cache (sv_store (pr_server (sd_process sd))) = [bs "auto-stmicroelectronics"].
Proof.
  assert (H3 : third_start = Some (home_profiles, [bs "auto-stmicroelectronics"])) by (vm_compute; reflexivity).
  pose proof (restarts_recover id 1 demo_lifetimes ∅ home_start) as Hthm. unfold third_start in H3.
  change (run_lifetimes id demo_lifetimes ∅) with restarted in Hthm. revert H3 Hthm.
  generalize restarted. intros [ended files'] H3 Hthm. cbn [snd] in *.
  destruct Hthm as (_ & _ & Hstart).
  - lia.
  - reflexivity.
  - repeat apply Forall_cons_2; try apply Forall_nil_2;
      (split; repeat apply Forall_cons_2; try apply Forall_nil_2; try exact I; intros now [= <-]; by split).
  - intros path. rewrite lookup_empty. apply file_ok_missing.
  - split; intros n F; discriminate F.
  - destruct (main_start id home_start files') as [sd|e]; [|discriminate H3]. injection H3 as Hpath Hname.
    destruct Hstart as [Hplain Hdocs]. exists sd. split; [reflexivity|]. split; [exact Hplain|].
    split; [exact Hdocs|]. by split.
Defined.

(** The second run had been refused. *)
Example second_run_is_refused : length restarted.1 = 1%nat.
Proof. vm_compute. reflexivity. Qed.
