(* ===== verification/PortEnum.v ===== *)
(** * Enumerated ports

    [src/serial/port_info.rs]: how a port of the operating system becomes a
    [PortInfo], what its identity is worth, and which ports a profile saved from it
    matches.  The enumeration itself is the [serialport] crate's. *)

From S2P Require Import Prelude RustStr Extern ExternModel Tools SerialConfig Profiles OpenSettings PortTools.

(** ** The ports of the [serialport] crate, as far as the code reads them *)

Record UsbPortInfo := mkUsb {
  usb_vid : Z;
  usb_pid : Z;
  usb_serial_number : option (list byte);
  usb_manufacturer : option (list byte);
  usb_product : option (list byte);
  usb_interface : option Z;
}.

Inductive SerialPortType := UsbPort (info : UsbPortInfo) | PciPort | BluetoothPort | UnknownPort.

Record SerialPortInfo := mkOsPort { port_name : list byte; port_type : SerialPortType }.

(** ** The conversion *)

Definition transport_from_os (t : SerialPortType) : PortTransport :=
  match t with UsbPort _ => Usb | PciPort => Pci | BluetoothPort => Bluetooth | UnknownPort => UnknownTransport end.

Definition usb_fields (t : SerialPortType)
    : option Z * option Z * option (list byte) * option (list byte) * option (list byte) * option Z :=
  match t with
  | UsbPort info =>
      (Some (usb_vid info), Some (usb_pid info), usb_serial_number info, usb_manufacturer info,
       usb_product info, usb_interface info)
  | _ => (None, None, None, None, None, None)
  end.

(** [{:04X}] of a 16-bit number. *)
Definition hex4_upper (z : Z) : list byte :=
  [hex_char true (z / 4096 mod 16); hex_char true (z / 256 mod 16);
   hex_char true (z / 16 mod 16); hex_char true (z mod 16)].

Definition format_hardware_id (p : SerialPortInfo) : option (list byte) :=
  match port_type p with
  | UsbPort info => Some (bs "USB VID:" ++ hex4_upper (usb_vid info) ++ bs " PID:" ++ hex4_upper (usb_pid info))
  | PciPort => Some (bs "PCI")
  | BluetoothPort => Some (bs "Bluetooth")
  | UnknownPort => None
  end.

Definition describe_port (p : SerialPortInfo) : list byte :=
  match port_type p with
  | UsbPort info =>
      default (bs "Unknown") (usb_manufacturer info) ++ bs " "
        ++ default (bs "USB Serial Device") (usb_product info)
  | PciPort => bs "PCI Serial Port"
  | BluetoothPort => bs "Bluetooth Serial Port"
  | UnknownPort => bs "Serial Port"
  end.

(** [rsplit(&['/', '\\']).next()]: what follows the last separator. *)
Fixpoint short_display_name (name : list byte) : list byte :=
  match name with
  | [] => []
  | b :: rest =>
      if existsb (fun c => bool_decide (c = x2f) || bool_decide (c = x5c)) rest
      then short_display_name rest
      else if bool_decide (b = x2f) || bool_decide (b = x5c) then rest else name
  end.

Definition from_os (p : SerialPortInfo) : PortInfo :=
  let '(vid, pid, serial_number, manufacturer, product, interface) := usb_fields (port_type p) in
  mkPort (port_name p) (short_display_name (port_name p)) (describe_port p) (format_hardware_id p)
    (transport_from_os (port_type p)) vid pid serial_number manufacturer product interface.

(** [list_available], after the enumeration; an error becomes [SerialError]. *)
Definition list_available (available : result (list byte) (list SerialPortInfo))
    : result (list byte) (list PortInfo) :=
  match available with Ok ports => Ok (from_os <$> ports) | Err e => Err e end.

Example short_names :
  short_display_name (bs "/dev/ttyUSB0") = bs "ttyUSB0" /\ short_display_name (bs "\\.\COM3") = bs "COM3" /\
  short_display_name (bs "COM3") = bs "COM3" /\ short_display_name (bs "a/") = [].
Proof. by vm_compute. Qed.

(** The short name is the part after the last separator. *)
Lemma short_display_name_spec name :
  exists before, name = before ++ short_display_name name /\
    Forall (fun b => b <> x2f /\ b <> x5c) (short_display_name name) /\
    (before = [] \/ exists init sep, before = init ++ [sep] /\ (sep = x2f \/ sep = x5c)).
Proof.
  induction name as [|b rest IH]; [by exists []; split_and!; [| |left]|]. cbn [short_display_name].
  destruct (existsb _ rest) eqn:Hsep.
  - destruct IH as (before & E & Hf & Hb). exists (b :: before). split_and!; [cbn; congruence|done|].
    right. destruct Hb as [->|(init & sep & -> & Hs)]; [|by exists (b :: init), sep].
    exfalso. cbn in E. apply existsb_exists in Hsep as (c & Hc & Hsep).
    rewrite E in Hc. apply list_elem_of_In in Hc. rewrite Forall_forall in Hf. destruct (Hf c Hc).
    apply orb_true_iff in Hsep as [?%bool_decide_eq_true|?%bool_decide_eq_true]; done.
  - assert (Hrest : Forall (fun b => b <> x2f /\ b <> x5c) rest).
    { apply Forall_forall. intros c Hc. split; intros ->; apply not_true_iff_false in Hsep; apply Hsep;
        apply existsb_exists; eexists; (split; [by apply list_elem_of_In|]); by vm_compute. }
    destruct (bool_decide (b = x2f) || bool_decide (b = x5c)) eqn:Hb.
    + exists [b]. split_and!; [done|done|]. right. exists [], b. split; [done|].
      apply orb_true_iff in Hb as [?%bool_decide_eq_true|?%bool_decide_eq_true]; auto.
    + exists []. apply orb_false_iff in Hb as [?%bool_decide_eq_false ?%bool_decide_eq_false].
      split_and!; [done|by constructor|by left].
Qed.

(** ** What the identity is worth *)

(** The confidence of an enumerated port is decided by its type and, for USB, by
    the serial number. *)
Lemma enumerated_confidence p :
  identity_confidence (from_os p) =
  match port_type p with
  | UsbPort info => if is_some (non_empty (usb_serial_number info)) then ConfHigh else ConfMedium
  | PciPort | BluetoothPort => ConfLow
  | UnknownPort => ConfNone
  end.
Proof.
  unfold from_os, identity_confidence. destruct (port_type p) eqn:Et; cbn; rewrite ?Et; cbn; try done.
  all: unfold format_hardware_id; by rewrite Et.
Qed.

(** ** A saved profile and the ports it matches *)

(** What a profile saved from a port of type [t] asks of the type of another. *)
Definition same_device (t t' : SerialPortType) : Prop :=
  let agree {A} (want have : option A) := want = None \/ have = want in
  match t, t' with
  | UsbPort a, UsbPort b =>
      usb_vid b = usb_vid a /\ usb_pid b = usb_pid a /\
      agree (usb_serial_number a) (usb_serial_number b) /\
      agree (usb_manufacturer a) (usb_manufacturer b) /\
      agree (usb_product a) (usb_product b) /\ agree (usb_interface a) (usb_interface b)
  | PciPort, PciPort | BluetoothPort, BluetoothPort | UnknownPort, UnknownPort => True
  | _, _ => False
  end.

Section Saved.
Context `{GlobCrate}.

(** The profile [save_profile] stores for a connection on the port. *)
Definition saved_profile (p : SerialPortInfo) (name : list byte) (defaults : ProfileDefaults) : Profile :=
  mkProfile name (selector_of_port (from_os p)) defaults ProfileMetadata_default [].

(** A profile saved from an enumerated port matches
    another enumerated port exactly when that one is the same device as far as the
    first told: the same transport and, for USB, the same vendor and product, and
    the same serial number, manufacturer, product name and interface where the first
    had them; the name under which the port appears plays no part.  When the first
    port has a serial number, every port the profile matches has a high-confidence
    identity, and the profile is a candidate for its automatic selection unless that
    port reports an interface and the first did not. *)
Theorem saved_profile_follows_device p p' name defaults :
  (matches (saved_profile p name defaults) (from_os p') = true <-> same_device (port_type p) (port_type p')) /\
  (same_device (port_type p) (port_type p') -> identity_confidence (from_os p) = ConfHigh ->
   exists id, high_identity (from_os p') = Some id /\
     (selector_matches_high_identity (p_selector (saved_profile p name defaults)) id = true <->
      pi_interface (from_os p') = None \/ pi_interface (from_os p') = pi_interface (from_os p))).
Proof.
  split.
  - unfold matches, saved_profile, selector_of_port. cbn [p_selector sel_vid sel_pid sel_serial_number
      sel_manufacturer sel_product sel_interface sel_port_pattern sel_description_pattern sel_transport
      sel_hardware_id]. rewrite !andb_true_iff, !agrees_spec. cbn [glob_agrees].
    unfold from_os, format_hardware_id, same_device.
    destruct (port_type p) as [a| | |], (port_type p') as [b| | |]; cbn; split; intros Hm;
      try (by repeat (destruct Hm as [Hm ?]; naive_solver)); try naive_solver.
    destruct Hm as (-> & -> & Hs & Hmf & Hpr & Hi). naive_solver.
  - intros Hd Hc. rewrite enumerated_confidence in Hc. unfold same_device in Hd.
    destruct (port_type p) as [a| | |] eqn:Ea; try done. destruct (port_type p') as [b| | |] eqn:Eb; try done.
    destruct Hd as (Hv & Hp & Hs & _). unfold non_empty in Hc.
    destruct (usb_serial_number a) as [serial|] eqn:Es; [|done]. cbn [mbind option_bind] in Hc.
    destruct Hs as [?|Hs]; [done|].
    assert (Hne : serial <> []) by (intros ->; by rewrite bool_decide_eq_true_2 in Hc).
    exists (mkIdentity (bs "usb") (usb_vid b) (usb_pid b) serial (usb_interface b)). split.
    + unfold from_os. rewrite Eb. cbn. by apply high_identity_intro.
    + unfold selector_matches_high_identity, saved_profile, selector_of_port, from_os. rewrite Ea, Eb.
      cbn. rewrite Hv, Hp, Es, !bool_decide_eq_true_2 by done. cbn.
      destruct (usb_interface b); [|by split; [left|] ]. rewrite bool_decide_eq_true. naive_solver.
Qed.
End Saved.

(** The device of a saved profile turns up under another name; another device of the
    same make does not match. *)
Definition usb_port (name serial : string) : SerialPortInfo :=
  mkOsPort (bs name) (UsbPort (mkUsb 1155 22336 (Some (bs serial)) (Some (bs "STM")) None (Some 0))).

Lemma saved_profile_follows_device_witness :
  matches (saved_profile (usb_port "/dev/ttyACM0" "A1") (bs "gps") ProfileDefaults_default)
    (from_os (usb_port "/dev/ttyACM7" "A1")) = true /\
  matches (saved_profile (usb_port "/dev/ttyACM0" "A1") (bs "gps") ProfileDefaults_default)
    (from_os (usb_port "/dev/ttyACM0" "B2")) <> true.
Proof.
  split.
  - apply (saved_profile_follows_device (usb_port "/dev/ttyACM0" "A1") (usb_port "/dev/ttyACM7" "A1")
             (bs "gps") ProfileDefaults_default). split_and!; try reflexivity; by right.
  - intros Hm. apply (saved_profile_follows_device (usb_port "/dev/ttyACM0" "A1") (usb_port "/dev/ttyACM0" "B2")
             (bs "gps") ProfileDefaults_default) in Hm as (_ & _ & [Hs|Hs] & _); discriminate Hs.
Defined.
