(* ===== verification/TestTarget.v ===== *)
(** * [xtask/src/main.rs]: disposable test targets

    [xtask test] builds and tests into a directory of its own below [target],
    and removes it when the run succeeded.  The file system is a tree with
    symbolic links, given as a map from absolute paths without links; what the
    child processes do to it, and which operations fail, are parameters. *)

From S2P Require Import Prelude Util RustStr.

(** ** The file system, as the standard library shows it *)

(** The components of an absolute path. *)
Abbreviation Path := (list (list byte)).

(** A symbolic link has an absolute or a relative target. *)
Inductive Node :=
  | File
  | Directory
  | Link (absolute : bool) (target : Path).

#[export] Instance Node_eq_dec : EqDecision Node.
Proof. solve_decision. Defined.

(** The root is not an entry of the map. *)
Abbreviation FS := (gmap Path Node).

Inductive IoKind := NotFound | NotADirectory | FilesystemLoop | AlreadyExists | OtherIo (text : list byte).

Definition node_at (fs : FS) (p : Path) : option Node :=
  if bool_decide (p = []) then Some Directory else fs !! p.

(** The system's walk of a path from a directory: the place it leads to, with
    every link followed. *)
Fixpoint walk (links : nat) (fs : FS) : Path -> Path -> result IoKind Path :=
  fix go (at_ todo : Path) {struct todo} : result IoKind Path :=
    match todo with
    | [] => Ok at_
    | name :: todo =>
        if bool_decide (node_at fs at_ <> Some Directory) then Err NotADirectory
        else if bool_decide (name = bs ".") then go at_ todo
        else if bool_decide (name = bs "..") then go (removelast at_) todo
        else
          match fs !! (at_ ++ [name]) with
          | None => Err NotFound
          | Some (Link absolute target) =>
              match links with
              | O => Err FilesystemLoop
              | S links => walk links fs (if absolute then [] else at_) (target ++ todo)
              end
          | Some _ => go (at_ ++ [name]) todo
          end
    end.

Definition MAX_LINKS : nat := 40.

(** Where a path's last component is, itself not followed. *)
Definition locate (fs : FS) (p : Path) : result IoKind Path :=
  match last p with
  | None => Ok []
  | Some name =>
      dir ← walk MAX_LINKS fs [] (removelast p);
      if bool_decide (node_at fs dir = Some Directory) then Ok (dir ++ [name]) else Err NotADirectory
  end.

(** [fs::symlink_metadata], [fs::canonicalize], [fs::create_dir]. *)
Definition symlink_metadata (fs : FS) (p : Path) : result IoKind Node :=
  at_ ← locate fs p; ok_or (node_at fs at_) NotFound.

Definition canonicalize (fs : FS) (p : Path) : result IoKind Path := walk MAX_LINKS fs [] p.

Definition create_dir (fs : FS) (p : Path) : result IoKind FS :=
  at_ ← locate fs p;
  match node_at fs at_ with
  | Some _ => Err AlreadyExists
  | None => Ok (<[at_ := Directory]> fs)
  end.

(** Removing what is at or below a place, except what is kept. *)
Definition prune (kept : Path -> bool) (at_ : Path) (fs : FS) : FS :=
  filter (fun e => ~ at_ `prefix_of` e.1 \/ kept e.1 = true) fs.

(** [fs::remove_dir_all]: a link is removed itself, not followed; a failure on
    the way leaves some entries. *)
Definition remove_dir_all (fault : option IoKind) (kept : Path -> bool) (fs : FS) (p : Path)
    : result IoKind unit * FS :=
  match locate fs p with
  | Err e => (Err e, fs)
  | Ok at_ =>
      match node_at fs at_, fault with
      | None, _ => (Err NotFound, fs)
      | Some File, _ => (Err NotADirectory, fs)
      | Some _, Some e => (Err e, prune kept at_ fs)
      | Some _, None => (Ok tt, prune (fun _ => false) at_ fs)
      end
  end.

(** [Path::parent], [Path::file_name], [Path::join] with one component. *)
Definition parent (p : Path) : option Path :=
  match p with [] => None | _ => Some (removelast p) end.
Definition join1 (p : Path) (name : list byte) : Path := p ++ [name].

(** ** Child processes *)

(** One [cargo] command: its arguments and the two variables it may set; it runs
    in the workspace root. *)
Record Command := mkCommand {
  cmd_args : list (list byte);
  cargo_target_dir : option Path;
  serial_mcp_bin : option Path;
}.

(** What is outside the program, by the number of the operation: the kind of
    failure of a file operation, what a failing removal leaves, what a child
    does to the files and whether it was started and succeeded, the clock. *)
Class World := {
  fault : nat -> option IoKind;
  kept : nat -> Path -> bool;
  child : nat -> Command -> FS -> option bool * FS;
  unix_nanos : nat -> option Z;
  process_id : Z;
  manifest_dir : Path;
}.

(** The file system, the operations so far and the commands started. *)
Record Sys := mkSys { sys_tick : nat; sys_fs : FS; sys_spawned : list Command }.

(** The errors of the tool, by the message they carry. *)
Inductive XtaskError :=
  | CannotInspectRoot (p : Path) (e : IoKind) | RootIsSymlink (p : Path) | RootNotDirectory (p : Path)
  | CannotCanonicalize (p : Path) (e : IoKind)
  | ParentNotDirectChild (p : Path) | CannotInspectParent (p : Path) (e : IoKind)
  | CannotCreateParent (p : Path) (e : IoKind) | ParentIsSymlink (p : Path) | ParentNotDirectory (p : Path)
  | TargetNotDirectChild (p : Path) | TargetHasNoName (p : Path) | TargetMalformed (p : Path)
  | CannotInspectTarget (p : Path) (e : IoKind) | TargetIsSymlink (p : Path) | TargetNotDirectory (p : Path)
  | ClockBeforeEpoch
  | CannotInspectCollision (p : Path) (e : IoKind) | CollisionNotDirectory (p : Path)
  | CannotReserve (p : Path) (e : IoKind) | AttemptsExhausted (p : Path)
  | CannotRemove (p : Path) (e : IoKind)
  | KeepTakesNoValue (argument : list byte)
  | CannotSpawn (what : list byte) | ExitedWith (what : list byte)
  | BinaryMissing (p : Path) (e : IoKind) | BinaryNotRegular (p : Path).

(** Fallible code on the state of the system. *)
Definition M (E A : Type) : Type := Sys -> result E A * Sys.

#[export] Instance M_ret {E} : MRet (M E) := fun _ a s => (Ok a, s).
#[export] Instance M_bind {E} : MBind (M E) := fun _ _ f m s =>
  match m s with
  | (Ok a, s) => f a s
  | (Err e, s) => (Err e, s)
  end.

Definition lift {E A} (r : result E A) : M E A := fun s => (r, s).

(** [with_context]. *)
Definition with_context {E F A} (f : E -> F) (m : M E A) : M F A := fun s =>
  let '(r, s) := m s in (map_err f r, s).

(** The outcome of [m] as a value. *)
Definition outcome {E F A} (m : M E A) : M F (result E A) := fun s =>
  let '(r, s) := m s in (Ok r, s).

Definition bail {E A} (e : E) : M E A := lift (Err e).

(** ** Names *)

Definition SERIAL_MCP_BIN : list byte := bs "serial-mcp".
Definition KEEP_TEST_TARGET : list byte := bs "--keep-test-target".
Definition RESERVED_TARGET_ATTEMPTS : nat := 128.

Definition is_decimal (value : list byte) : bool :=
  negb (bool_decide (value = [])) && forallb is_ascii_digit value.

Definition valid_reserved_target_name (name : list byte) : bool :=
  match strip_prefix name (bs ".xtask-test-") with
  | None => false
  | Some rest =>
      match split_on (fun b => bool_decide (b = x2d)) rest with
      | [a; b; c] => is_decimal a && is_decimal b && is_decimal c
      | _ => false
      end
  end.

Definition reserved_target_name (pid unix_nanos attempt : Z) : list byte :=
  bs ".xtask-test-" ++ usize_to_string pid ++ x2d :: usize_to_string unix_nanos
    ++ x2d :: usize_to_string attempt.

Definition serial_mcp_binary_path (target : Path) : Path :=
  join1 (join1 target (bs "debug")) SERIAL_MCP_BIN.

Record ReservedTestTarget := mkReserved {
  workspace_root : Path;
  target_parent : Path;
  reserved_path : Path;
}.

Create HintDb xtask.

Section Xtask.
Context `{World}.

(** A file operation that only reads, one that writes, and a child process. *)
Definition query {A} (op : FS -> result IoKind A) : M IoKind A := fun s =>
  let s' := mkSys (S (sys_tick s)) (sys_fs s) (sys_spawned s) in
  match fault (sys_tick s) with
  | Some e => (Err e, s')
  | None => (op (sys_fs s), s')
  end.

Definition create (p : Path) : M IoKind unit := fun s =>
  let done fs := mkSys (S (sys_tick s)) fs (sys_spawned s) in
  match fault (sys_tick s) with
  | Some e => (Err e, done (sys_fs s))
  | None =>
      match create_dir (sys_fs s) p with
      | Ok fs => (Ok tt, done fs)
      | Err e => (Err e, done (sys_fs s))
      end
  end.

Definition remove (p : Path) : M IoKind unit := fun s =>
  let '(r, fs) := remove_dir_all (fault (sys_tick s)) (kept (sys_tick s)) (sys_fs s) p in
  (r, mkSys (S (sys_tick s)) fs (sys_spawned s)).

(** [run]. *)
Definition run (cmd : Command) (what : list byte) : M XtaskError unit := fun s =>
  let '(status, fs) := child (sys_tick s) cmd (sys_fs s) in
  (match status with
   | None => Err (CannotSpawn what)
   | Some false => Err (ExitedWith what)
   | Some true => Ok tt
   end, mkSys (S (sys_tick s)) fs (sys_spawned s ++ [cmd])).

(** ** Validation *)

(** [workspace_root]: the directory above the manifest of the tool. *)
Definition workspace_root_dir : Path := default manifest_dir (parent manifest_dir).

Definition validate_workspace_root_path (root : Path) : M XtaskError unit :=
  metadata ← with_context (CannotInspectRoot root) (query (fun fs => symlink_metadata fs root));
  match metadata with
  | Link _ _ => bail (RootIsSymlink root)
  | File => bail (RootNotDirectory root)
  | Directory => mret tt
  end.

Definition canonicalize_root (root : Path) : M XtaskError Path :=
  with_context (CannotCanonicalize root) (query (fun fs => canonicalize fs root)).

Definition canonical_workspace_root : M XtaskError Path :=
  _ ← validate_workspace_root_path workspace_root_dir;
  canonicalize_root workspace_root_dir.

Definition validate_target_parent_path (root parent_ : Path) : M XtaskError unit :=
  if bool_decide (parent_ <> join1 root (bs "target")) then bail (ParentNotDirectChild parent_)
  else
    metadata ← with_context (CannotInspectParent parent_) (query (fun fs => symlink_metadata fs parent_));
    match metadata with
    | Link _ _ => bail (ParentIsSymlink parent_)
    | File => bail (ParentNotDirectory parent_)
    | Directory => mret tt
    end.

Definition ensure_target_parent (root : Path) : M XtaskError Path :=
  let parent_ := join1 root (bs "target") in
  found ← outcome (query (fun fs => symlink_metadata fs parent_));
  _ ← match found with
      | Ok _ => mret tt
      | Err NotFound => with_context (CannotCreateParent parent_) (create parent_)
      | Err e => bail (CannotInspectParent parent_ e)
      end;
  _ ← validate_target_parent_path root parent_;
  mret parent_.

(** The name of a candidate, when it is text. *)
Definition utf8_file_name (candidate : Path) : option (list byte) :=
  name ← last candidate; if utf8_valid name then Some name else None.

Definition validate_reserved_candidate (root parent_ candidate : Path) (require_directory : bool)
    : M XtaskError unit :=
  _ ← validate_workspace_root_path root;
  _ ← validate_target_parent_path root parent_;
  if bool_decide (parent candidate <> Some parent_) then bail (TargetNotDirectChild candidate)
  else
    match utf8_file_name candidate with
    | None => bail (TargetHasNoName candidate)
    | Some name =>
        if negb (valid_reserved_target_name name) then bail (TargetMalformed candidate)
        else if require_directory then
          metadata ← with_context (CannotInspectTarget candidate)
                       (query (fun fs => symlink_metadata fs candidate));
          match metadata with
          | Link _ _ => bail (TargetIsSymlink candidate)
          | File => bail (TargetNotDirectory candidate)
          | Directory => mret tt
          end
        else mret tt
    end.

Definition validate_for_cleanup (t : ReservedTestTarget) : M XtaskError unit :=
  validate_reserved_candidate (workspace_root t) (target_parent t) (reserved_path t) true.

(** ** Reservation *)

(** The loop over the attempts, [attempts] of them from [attempt] on. *)
Fixpoint reserve_loop (root parent_ : Path) (nanos attempt : Z) (attempts : nat)
    : M XtaskError ReservedTestTarget :=
  match attempts with
  | O => bail (AttemptsExhausted parent_)
  | S attempts =>
      let candidate := join1 parent_ (reserved_target_name process_id nanos attempt) in
      _ ← validate_reserved_candidate root parent_ candidate false;
      created ← outcome (create candidate);
      match created with
      | Ok _ =>
          let reserved := mkReserved root parent_ candidate in
          _ ← validate_for_cleanup reserved;
          mret reserved
      | Err AlreadyExists =>
          metadata ← with_context (CannotInspectCollision candidate)
                       (query (fun fs => symlink_metadata fs candidate));
          if bool_decide (metadata <> Directory) then bail (CollisionNotDirectory candidate)
          else reserve_loop root parent_ nanos (attempt + 1) attempts
      | Err e => bail (CannotReserve candidate e)
      end
  end.

(** [SystemTime::now] against the epoch. *)
Definition now_nanos : M XtaskError Z := fun s =>
  (ok_or (unix_nanos (sys_tick s)) ClockBeforeEpoch,
   mkSys (S (sys_tick s)) (sys_fs s) (sys_spawned s)).

(** [ReservedTestTarget::reserve]. *)
Definition reserve (root : Path) : M XtaskError ReservedTestTarget :=
  root ← canonicalize_root root;
  _ ← validate_workspace_root_path root;
  parent_ ← ensure_target_parent root;
  nanos ← now_nanos;
  reserve_loop root parent_ nanos 0 RESERVED_TARGET_ATTEMPTS.

(** ** A test run *)

Definition cleanup_after_success (t : ReservedTestTarget) : M XtaskError unit :=
  _ ← validate_for_cleanup t;
  with_context (CannotRemove (reserved_path t)) (remove (reserved_path t)).

Fixpoint extract_keep_test_target (rest : list (list byte))
    : result XtaskError (list (list byte) * bool) :=
  match rest with
  | [] => Ok ([], false)
  | argument :: rest =>
      if bool_decide (argument = KEEP_TEST_TARGET) then
        '(forwarded, _) ← extract_keep_test_target rest; Ok (forwarded, true)
      else if starts_with argument (KEEP_TEST_TARGET ++ bs "=") then Err (KeepTakesNoValue argument)
      else
        '(forwarded, keep) ← extract_keep_test_target rest; Ok (argument :: forwarded, keep)
  end.

Definition finish_test_run (target : ReservedTestTarget) (r : result XtaskError unit) (keep : bool)
    : M XtaskError unit :=
  match r with
  | Ok _ => if keep then mret tt else cleanup_after_success target
  | Err e => bail e
  end.

(** [ChildEnvironment::for_target] and [apply]. *)
Definition in_target (target : ReservedTestTarget) (args : list (list byte)) : Command :=
  mkCommand args (Some (reserved_path target)) (Some (serial_mcp_binary_path (reserved_path target))).

Definition integration_suites : list (list byte * bool) :=
  [(bs "device_fixture", false); (bs "device_command_parity", false);
   (bs "device_framing_parity", false); (bs "device_protocol_parity", false);
   (bs "stdio_integration", false); (bs "blob_resources", false)].

(** The arguments for the test runner: one thread, unless the caller says. *)
Definition runner_arguments (runner_args : list (list byte)) : list (list byte) :=
  if existsb (fun a => bool_decide (a = bs "--test-threads") || starts_with a (bs "--test-threads="))
       runner_args
  then runner_args else runner_args ++ [bs "--test-threads=1"].

Fixpoint run_suites (reserved : ReservedTestTarget) (args : list (list byte))
    (suites : list (list byte * bool)) : M XtaskError unit :=
  match suites with
  | [] => mret tt
  | (suite, with_ignored) :: suites =>
      _ ← run (in_target reserved
                 ([bs "test"; bs "--test"; suite; bs "--locked"; bs "--"]
                  ++ (if with_ignored : bool then [bs "--ignored"] else []) ++ args))
             (bs "cargo test --test " ++ suite);
      run_suites reserved args suites
  end.

Definition run_test_suites (runner_args : list (list byte)) (include_http : bool)
    (reserved : ReservedTestTarget) : M XtaskError unit :=
  _ ← run (mkCommand [bs "build"; bs "--bin"; SERIAL_MCP_BIN; bs "--locked"]
             (Some (reserved_path reserved)) None)
        (bs "cargo build --bin serial-mcp --locked");
  let binary := serial_mcp_binary_path (reserved_path reserved) in
  metadata ← with_context (BinaryMissing binary) (query (fun fs => symlink_metadata fs binary));
  if bool_decide (metadata <> File) then bail (BinaryNotRegular binary)
  else
    let args := runner_arguments runner_args in
    _ ← run (in_target reserved ([bs "test"; bs "--lib"; bs "--locked"; bs "--"] ++ args))
          (bs "cargo test --lib");
    _ ← run_suites reserved args integration_suites;
    if include_http then
      run_suites reserved args [(bs "http_integration", false)]
    else mret tt.

(** [build_test_assets]. *)
Definition build_test_assets (rest : list (list byte)) : M XtaskError unit :=
  run (mkCommand ([bs "build"; bs "--bin"; SERIAL_MCP_BIN] ++ option_list (head rest)) None None)
    (bs "cargo build --bin serial-mcp").

(** [test]: [xtask test] and, with [include_http], [xtask test-all]. *)
Definition test (rest : list (list byte)) (include_http : bool) : M XtaskError unit :=
  '(runner_args, keep) ← lift (extract_keep_test_target rest);
  root ← canonical_workspace_root;
  reserved ← reserve root;
  r ← outcome (run_test_suites runner_args include_http reserved);
  finish_test_run reserved r keep.
End Xtask.

(** * Names *)

Lemma split_on_piece {A} (sep : A -> bool) p x rest :
  Forall (fun y => sep y = false) p -> sep x = true ->
  split_on sep (p ++ x :: rest) = p :: split_on sep rest.
Proof.
  intros Hp Hx. induction Hp as [|y p Hy _ IH]; simpl; [by rewrite Hx|]. by rewrite Hy, IH.
Qed.

Lemma split_on_single {A} (sep : A -> bool) p :
  Forall (fun y => sep y = false) p -> split_on sep p = [p].
Proof. induction 1 as [|y p Hy _ IH]; simpl; [done|]. by rewrite Hy, IH. Qed.

Lemma number_is_decimal n : is_decimal (usize_to_string n) = true.
Proof.
  unfold is_decimal. rewrite bool_decide_false by apply usize_to_string_nonempty.
  apply forallb_forall. intros b Hb.
  by apply (proj1 (Forall_forall _ _) (usize_to_string_digits n)), list_elem_of_In.
Qed.

Lemma number_no_dash n :
  Forall (fun b => bool_decide (b = x2d) = false) (usize_to_string n).
Proof.
  eapply Forall_impl; [apply usize_to_string_digits|]. simpl. intros b Hb.
  apply bool_decide_eq_false. by intros ->.
Qed.

(** Reserved names have the form that the cleanup accepts. *)
Lemma reserved_target_name_valid pid nanos attempt :
  valid_reserved_target_name (reserved_target_name pid nanos attempt) = true.
Proof.
  unfold valid_reserved_target_name, reserved_target_name, strip_prefix.
  rewrite (proj2 (starts_with_spec _ _)) by (eexists; done).
  rewrite drop_app_length. rewrite !split_on_piece, split_on_single; auto using number_no_dash.
  by rewrite !number_is_decimal.
Qed.

(** * The walk of a path *)

Definition normal (name : list byte) : Prop := name <> bs "." /\ name <> bs "..".

Lemma prefix_snoc_inv {A} (q p : list A) x : q `prefix_of` p ++ [x] -> q `prefix_of` p \/ q = p ++ [x].
Proof.
  intros [k Hk]. destruct k as [|y k _] using rev_ind; [right; by rewrite app_nil_r in Hk|].
  left. rewrite app_assoc in Hk. apply app_inj_tail in Hk as [-> _]. by apply prefix_app_r.
Qed.

(** A place that is reached without links: every directory on the way is one. *)
Definition placed (fs : FS) (p : Path) : Prop :=
  Forall normal p /\ forall q, q `prefix_of` p -> q <> p -> node_at fs q = Some Directory.

Definition real (fs : FS) (p : Path) : Prop := placed fs p /\ node_at fs p = Some Directory.

Lemma node_at_snoc fs p name : node_at fs (p ++ [name]) = fs !! (p ++ [name]).
Proof. unfold node_at. by rewrite bool_decide_false by (by destruct p). Qed.

Lemma node_at_grow fs fs' p n : fs ⊆ fs' -> node_at fs p = Some n -> node_at fs' p = Some n.
Proof. unfold node_at. intros Hsub. case_bool_decide; [done|]. intros. by eapply lookup_weaken. Qed.

Lemma real_grow fs fs' p : fs ⊆ fs' -> real fs p -> real fs' p.
Proof. intros Hsub [ [Hn Hp] Hd]. repeat split; eauto using node_at_grow. Qed.

Lemma placed_snoc fs p name : real fs p -> normal name -> placed fs (p ++ [name]).
Proof.
  intros [ [Hn Hp] Hd] Hname. split; [by apply Forall_app_2; [|apply Forall_singleton]|].
  intros q [Hq| ->]%prefix_snoc_inv Hne; [|done].
  destruct (decide (q = p)) as [->|Hqp]; [done|]. by apply Hp.
Qed.

Lemma placed_removelast fs p : placed fs p -> real fs (removelast p).
Proof.
  destruct p as [|name p _] using rev_ind; [repeat split; auto; by intros q ->%prefix_nil_inv|].
  rewrite removelast_last. intros [ [Hn _]%Forall_app Hp].
  assert (Hsub : forall q, q `prefix_of` p -> node_at fs q = Some Directory).
  { intros q Hq. apply Hp; [by apply prefix_app_r|]. intros ->. apply prefix_length in Hq.
    rewrite length_app in Hq. simpl in Hq. lia. }
  repeat split; auto.
Qed.

(** The walk follows links to a place without links, and a place without links
    is where the walk of it leads. *)
Lemma walk_placed fs : forall links at_ todo r,
  placed fs at_ -> walk links fs at_ todo = Ok r -> placed fs r.
Proof.
  induction links as [|links IHl]; intros at_ todo; revert at_;
    (induction todo as [|name todo IH]; intros at_ r Hat; cbn; [by intros [= <-]|]);
    (case_bool_decide as Hd; [done|]);
    (case_bool_decide as H1; [by apply IH|]);
    (case_bool_decide as H2; [by apply IH, placed_removelast|]);
    assert (Hs : placed fs (at_ ++ [name])) by (by apply placed_snoc);
    (destruct (fs !! (at_ ++ [name])) as [ [| |absolute target]|] eqn:Hf; try done; try by apply IH).
  apply IHl. destruct absolute; [|done]. split; [done|]. by intros q ->%prefix_nil_inv.
Qed.

Lemma walk_real fs links : forall todo at_,
  real fs (at_ ++ todo) -> walk links fs at_ todo = Ok (at_ ++ todo).
Proof.
  induction todo as [|name todo IH]; intros at_ Hr; [by destruct links; rewrite app_nil_r|].
  rewrite (cons_middle name at_ todo), app_assoc in *.
  destruct Hr as [ [Hn Hp] Hd]. pose proof Hn as [ [_ [H1 H2]%Forall_singleton]%Forall_app _]%Forall_app.
  assert (Hsub : forall q, q `prefix_of` (at_ ++ [name]) ++ todo -> node_at fs q = Some Directory).
  { intros q Hq. destruct (decide (q = (at_ ++ [name]) ++ todo)) as [->|]; auto. }
  destruct links; cbn;
    (rewrite bool_decide_false by (intros Hne; apply Hne, Hsub; rewrite <- app_assoc; by apply prefix_app_r));
    rewrite !bool_decide_false by done;
    rewrite <- node_at_snoc, Hsub by (by apply prefix_app_r); apply IH; by repeat split.
Qed.

Lemma walk_snoc fs name : normal name -> forall links at_ todo d,
  walk links fs at_ todo = Ok d -> real fs (d ++ [name]) ->
  walk links fs at_ (todo ++ [name]) = Ok (d ++ [name]).
Proof.
  intros Hname. induction links as [|links IHl]; intros at_ todo; revert at_;
    (induction todo as [|m todo IH]; intros at_ d; [intros [= <-] Hr; by apply walk_real|]);
    cbn; (case_bool_decide; [done|]);
    (case_bool_decide; [by apply IH|]); (case_bool_decide; [by apply IH|]);
    (destruct (fs !! (at_ ++ [m])) as [ [| |absolute target]|]; try done; try by apply IH).
  rewrite app_assoc. apply IHl.
Qed.

Lemma real_nil fs : real fs [].
Proof. repeat split; auto. by intros q ->%prefix_nil_inv. Qed.

Lemma locate_placed fs p : placed fs p -> locate fs p = Ok p.
Proof.
  intros Hp%placed_removelast. unfold locate.
  destruct p as [|name p _] using rev_ind; [done|]. rewrite last_snoc, removelast_last in *.
  unfold MAX_LINKS. rewrite (walk_real fs 40 p []) by done. cbn.
  by rewrite bool_decide_true by apply Hp.
Qed.

Lemma locate_child fs p l name :
  Forall normal p -> locate fs p = Ok l -> node_at fs l = Some Directory ->
  locate fs (p ++ [name]) = Ok (l ++ [name]).
Proof.
  unfold locate at 1. intros Hn Hl Hd. unfold locate. rewrite last_snoc, removelast_last.
  destruct p as [|m p _] using rev_ind.
  - injection Hl as <-. cbn. by rewrite bool_decide_true.
  - rewrite last_snoc, removelast_last in Hl. apply result_bind_ok in Hl as (d & Hw & Hl).
    case_bool_decide as Hdir; [|done]. injection Hl as <-.
    apply Forall_app in Hn as [_ Hm]. rewrite Forall_singleton in Hm.
    assert (Hr : real fs (d ++ [m])).
    { split; [|done]. apply placed_snoc; [|exact Hm]. split; [|exact Hdir].
      eapply walk_placed, Hw. apply real_nil. }
    unfold MAX_LINKS in *. rewrite (walk_snoc fs m Hm _ _ _ d Hw Hr). cbn. by rewrite bool_decide_true.
Qed.

(** * Steps of the program *)

(** [m] relates the states before and after it by [R], however it ends. *)
Definition steps {E A} (R : Sys -> Sys -> Prop) (m : M E A) : Prop := forall s, R s (snd (m s)).

(** Nothing happened to the files, or files were only added; no child ran. *)
Definition same (s s' : Sys) : Prop := sys_fs s' = sys_fs s /\ sys_spawned s' = sys_spawned s.
Definition grows (s s' : Sys) : Prop := sys_fs s ⊆ sys_fs s' /\ sys_spawned s' = sys_spawned s.

#[export] Instance same_preorder : PreOrder same.
Proof. split; [by split|]. intros s1 s2 s3 [] []. split; congruence. Qed.

#[export] Instance grows_preorder : PreOrder grows.
Proof. split; [by split|]. intros s1 s2 s3 [] []. split; [by etrans|congruence]. Qed.

Lemma same_grows s s' : same s s' -> grows s s'.
Proof. unfold grows. intros [-> ->]. done. Qed.

Section Steps.
Context (R : Sys -> Sys -> Prop) `{!PreOrder R}.

Lemma steps_bind {E A B} (m : M E A) (f : A -> M E B) :
  steps R m -> (forall a, steps R (f a)) -> steps R (m ≫= f).
Proof.
  intros Hm Hf s. specialize (Hm s). unfold mbind, M_bind.
  destruct (m s) as [ [a|e] s1]; simpl in *; [|done]. etrans; [done|apply Hf].
Qed.

Lemma steps_lift {E A} (r : result E A) : steps R (lift r).
Proof. by intros s. Qed.

Lemma steps_ret {E A} (a : A) : steps R (mret a : M E A).
Proof. by intros s. Qed.

Lemma steps_with_context {E F A} (f : E -> F) (m : M E A) : steps R m -> steps R (with_context f m).
Proof. intros Hm s. specialize (Hm s). unfold with_context. by destruct (m s). Qed.

Lemma steps_outcome {E F A} (m : M E A) : steps R m -> steps R (outcome (F := F) m).
Proof. intros Hm s. specialize (Hm s). unfold outcome. by destruct (m s). Qed.
End Steps.

#[export] Hint Resolve steps_bind steps_lift steps_ret steps_with_context steps_outcome : xtask.
#[export] Hint Extern 0 (PreOrder _) => apply _ : xtask.
#[export] Hint Extern 1 (steps _ (bail _)) => apply steps_lift : xtask.
#[export] Hint Extern 2 (steps _ (match ?x with _ => _ end)) => destruct x : xtask.
#[export] Hint Extern 2 (steps _ (if ?x then _ else _)) => destruct x : xtask.

(** How a sequence succeeds. *)
Lemma bind_ok {E A B} (m : M E A) (f : A -> M E B) s b s' :
  (m ≫= f) s = (Ok b, s') -> exists a s1, m s = (Ok a, s1) /\ f a s1 = (Ok b, s').
Proof. unfold mbind, M_bind. destruct (m s) as [ [a|e] s1]; naive_solver. Qed.

Lemma with_context_ok {E F A} (f : E -> F) (m : M E A) s a s' :
  with_context f m s = (Ok a, s') -> m s = (Ok a, s').
Proof. unfold with_context. destruct (m s) as [ [] s1]; simpl; congruence. Qed.

Section XtaskProofs.
Context `{World}.

Lemma query_same {A} (op : FS -> result IoKind A) : steps same (query op).
Proof. intros s. unfold query. by case_match. Qed.

Lemma query_grows {A} (op : FS -> result IoKind A) : steps grows (query op).
Proof. intros s. apply same_grows, query_same. Qed.

Lemma query_ok {A} (op : FS -> result IoKind A) s a s' :
  query op s = (Ok a, s') -> op (sys_fs s) = Ok a /\ same s s'.
Proof. unfold query. case_match; intros E; [done|]. by injection E as Ha <-. Qed.

Lemma create_grows p : steps grows (create p).
Proof.
  intros s. unfold create, create_dir. case_match; [done|].
  destruct (locate _ _) as [at_|]; simpl; [|done].
  destruct (node_at _ at_) eqn:Hn; [done|]. split; [|done]. apply insert_subseteq.
  unfold node_at in Hn. by destruct (bool_decide _).
Qed.
Hint Resolve query_same query_grows create_grows : xtask.

Lemma validate_root_same root : steps same (validate_workspace_root_path root).
Proof. unfold validate_workspace_root_path. auto 8 with xtask. Qed.

Lemma validate_parent_same root parent_ : steps same (validate_target_parent_path root parent_).
Proof. unfold validate_target_parent_path. auto 10 with xtask. Qed.
Hint Resolve validate_root_same validate_parent_same : xtask.

Lemma validate_candidate_same root parent_ candidate req :
  steps same (validate_reserved_candidate root parent_ candidate req).
Proof. unfold validate_reserved_candidate. auto 20 with xtask. Qed.

Lemma same_steps_grow {E A} (m : M E A) : steps same m -> steps grows m.
Proof. intros Hm s. apply same_grows, Hm. Qed.
Hint Resolve validate_candidate_same same_steps_grow : xtask.

Lemma reserve_loop_grows root parent_ nanos : forall attempts attempt,
  steps grows (reserve_loop root parent_ nanos attempt attempts).
Proof. induction attempts as [|n IH]; intros attempt; cbn; unfold validate_for_cleanup; auto 20 with xtask. Qed.

Lemma ensure_target_parent_grows root : steps grows (ensure_target_parent root).
Proof. unfold ensure_target_parent. auto 20 with xtask. Qed.
Hint Resolve reserve_loop_grows ensure_target_parent_grows : xtask.

Lemma now_same : steps same now_nanos.
Proof. by intros s. Qed.
Hint Resolve now_same : xtask.

Lemma reserve_grows root : steps grows (reserve root).
Proof. unfold reserve, canonicalize_root. auto 10 with xtask. Qed.

Lemma canonical_root_same : steps same canonical_workspace_root.
Proof. unfold canonical_workspace_root, canonicalize_root. auto 10 with xtask. Qed.

(** ** What the validations establish *)

(** A link-free look at [p] shows a directory. *)
Definition is_dir (fs : FS) (p : Path) : Prop := symlink_metadata fs p = Ok Directory.

Lemma validate_root_ok root s u s' :
  validate_workspace_root_path root s = (Ok u, s') -> is_dir (sys_fs s) root /\ same s s'.
Proof.
  unfold validate_workspace_root_path. intros (n & s1 & Hq & Hn)%bind_ok.
  apply with_context_ok, query_ok in Hq as [Hq Hs]. destruct n; try done. by injection Hn as <- <-.
Qed.

Lemma validate_parent_ok root parent_ s u s' :
  validate_target_parent_path root parent_ s = (Ok u, s') ->
  parent_ = root ++ [bs "target"] /\ is_dir (sys_fs s) parent_ /\ same s s'.
Proof.
  unfold validate_target_parent_path. case_bool_decide as Hp; [done|].
  intros (n & s1 & Hq & Hn)%bind_ok.
  apply with_context_ok, query_ok in Hq as [Hq Hs]. destruct n; try done. by injection Hn as <- <-.
Qed.

Lemma parent_snoc (p q : Path) name : parent p = Some q -> last p = Some name -> p = q ++ [name].
Proof.
  destruct p as [|m p _] using rev_ind; [done|]. rewrite last_snoc. unfold parent.
  destruct (p ++ [m]) eqn:E; [by destruct p|]. rewrite <- E, removelast_last. congruence.
Qed.

(** What [validate_reserved_candidate] has checked when it succeeds. *)
Definition checked (fs : FS) (root parent_ path : Path) : Prop :=
  parent_ = root ++ [bs "target"] /\ is_dir fs root /\ is_dir fs parent_ /\
  exists name, path = parent_ ++ [name] /\ valid_reserved_target_name name = true.

Lemma validate_candidate_ok root parent_ path req s u s' :
  validate_reserved_candidate root parent_ path req s = (Ok u, s') ->
  checked (sys_fs s) root parent_ path /\ (req = true -> is_dir (sys_fs s) path) /\ same s s'.
Proof.
  unfold validate_reserved_candidate. intros (u1 & s1 & [Hroot Hs1]%validate_root_ok & Hm)%bind_ok.
  apply bind_ok in Hm as (u2 & s2 & (Hpar & Hdir & Hs2)%validate_parent_ok & Hm).
  assert (Hs : same s s2) by (by etrans). destruct Hs1 as [Hf1 _], Hs as [Hf Hsp].
  rewrite Hf1 in Hdir. case_bool_decide as Hparent; [done|].
  destruct (utf8_file_name path) as [name|] eqn:Hname; [|done].
  destruct (valid_reserved_target_name name) eqn:Hv; [|done].
  assert (Hch : checked (sys_fs s) root parent_ path).
  { split_and!; [done..|]. exists name. split; [|done].
    unfold utf8_file_name in Hname. apply bind_Some in Hname as (n & Hn & Hn').
    destruct (utf8_valid n); [|done]. injection Hn' as ->. by apply parent_snoc. }
  destruct req; simpl in Hm; [|by injection Hm as _ <-].
  apply bind_ok in Hm as (n & s3 & Hq & Hn). apply with_context_ok, query_ok in Hq as [Hq [Hf3 Hp3]].
  destruct n; try done. injection Hn as _ <-. unfold is_dir, same. rewrite Hf in Hq.
  split_and!; [done..|congruence|congruence].
Qed.

Lemma is_dir_placed fs p : placed fs p -> is_dir fs p -> real fs p.
Proof.
  intros Hp Hd. split; [done|]. unfold is_dir, symlink_metadata in Hd.
  rewrite locate_placed in Hd by done. by apply ok_or_ok in Hd.
Qed.

Lemma valid_name_normal name : valid_reserved_target_name name = true -> normal name.
Proof. intros Hv. by split; intros ->. Qed.

(** ** Reservation *)

Lemma create_ok p s u s' :
  create p s = (Ok u, s') ->
  exists at_, locate (sys_fs s) p = Ok at_ /\ node_at (sys_fs s) at_ = None /\
    sys_fs s' = <[at_ := Directory]> (sys_fs s) /\ sys_spawned s' = sys_spawned s.
Proof.
  unfold create, create_dir. case_match; [done|].
  destruct (locate _ _) as [at_|] eqn:Hl; simpl; [|done].
  destruct (node_at _ at_) eqn:Hn; [done|]. intros E. injection E as _ <-. by exists at_.
Qed.

Lemma create_err p s e s' : create p s = (Err e, s') -> same s s'.
Proof. unfold create. case_match; [|case_match]; intros E; try done; by injection E as _ <-. Qed.

Lemma reserve_loop_ok root parent_ nanos : forall attempts attempt s t s',
  real (sys_fs s) parent_ ->
  reserve_loop root parent_ nanos attempt attempts s = (Ok t, s') ->
  workspace_root t = root /\ checked (sys_fs s') (workspace_root t) (target_parent t) (reserved_path t) /\
  sys_fs s !! reserved_path t = None /\ sys_fs s' !! reserved_path t = Some Directory.
Proof.
  induction attempts as [|n IH]; intros attempt s t s' Hr; cbn; [done|].
  set (candidate := join1 parent_ _). intros (u & s1 & Hv & Hm)%bind_ok.
  apply validate_candidate_ok in Hv as ((_ & _ & _ & name & Hname & Hvalid) & _ & Hf1 & _).
  apply bind_ok in Hm as ([v|e] & s2 & Hc & Hm); unfold outcome in Hc;
    destruct (create candidate s1) as [r s2'] eqn:Hcr; injection Hc as -> ->.
  - apply bind_ok in Hm as (u' & s3 & Hv' & Hm). injection Hm as <- <-.
    apply validate_candidate_ok in Hv' as (Hch & _ & Hf3 & _). rewrite Hf3. simpl in *.
    apply create_ok in Hcr as (at_ & Hl & Hn & Hf2 & _). rewrite Hf1, Hname in *.
    rewrite locate_placed in Hl by (by apply placed_snoc, valid_name_normal).
    injection Hl as <-. rewrite node_at_snoc in Hn. split_and!; [done..|].
    by rewrite Hf2, lookup_insert_eq.
  - destruct e; try done. apply create_err in Hcr as [Hf2 _].
    apply bind_ok in Hm as (meta & s3 & Hq & Hm).
    apply with_context_ok, query_ok in Hq as [_ [Hf3 _]]. case_bool_decide; [done|].
    assert (Hf : sys_fs s3 = sys_fs s) by congruence.
    rewrite <- Hf. apply (IH (attempt + 1)); [by rewrite Hf|done].
Qed.

(** A reservation is a directory that was not there before. *)
Lemma reserve_ok root s t s' :
  reserve root s = (Ok t, s') ->
  real (sys_fs s) (workspace_root t) /\
  checked (sys_fs s') (workspace_root t) (target_parent t) (reserved_path t) /\
  sys_fs s !! reserved_path t = None /\ sys_fs s' !! reserved_path t = Some Directory.
Proof.
  unfold reserve. intros (root' & s1 & Hc & Hm)%bind_ok.
  apply with_context_ok, query_ok in Hc as [Hc [Hf1 _]].
  apply (walk_placed _ _ _ _ _ (proj1 (real_nil _))) in Hc.
  apply bind_ok in Hm as (u & s2 & [Hdir [Hf2 _]]%validate_root_ok & Hm).
  rewrite Hf1 in Hdir. apply is_dir_placed in Hdir; [|done].
  apply bind_ok in Hm as (parent_ & s3 & Hp & Hm).
  pose proof (ensure_target_parent_grows root' s2) as [Hsub _]. rewrite Hp in Hsub. simpl in Hsub.
  unfold ensure_target_parent in Hp. apply bind_ok in Hp as (found & t1 & _ & Hp).
  apply bind_ok in Hp as (u1 & t2 & _ & Hp). apply bind_ok in Hp as (u2 & t3 & Hp & Ht).
  apply validate_parent_ok in Hp as (_ & Hpd & [Hft _]). injection Ht as <- ->.
  rewrite <- Hft in Hpd. assert (Hr : real (sys_fs s3) (join1 root' (bs "target"))).
  { apply is_dir_placed; [|done]. apply placed_snoc; [|done].
    eapply real_grow; [|done]. by rewrite <- Hf1, <- Hf2. }
  apply bind_ok in Hm as (nanos & s4 & Hnow & Hm).
  assert (Hf4 : sys_fs s4 = sys_fs s3) by (by injection Hnow as _ <-).
  rewrite <- Hf4 in Hr. apply reserve_loop_ok in Hm as (Hroot & Hch & Hnone & Hsome); [|done].
  split_and!; [by rewrite Hroot|done| |done]. rewrite Hf4 in Hnone. eapply lookup_weaken_None; [done|].
  by rewrite <- Hf1, <- Hf2.
Qed.

(** ** The run and the cleanup *)

(** Every command that is started builds into [path]. *)
Definition builds_in (path : Path) (s s' : Sys) : Prop :=
  exists cmds, sys_spawned s' = sys_spawned s ++ cmds /\
    Forall (fun c => cargo_target_dir c = Some path) cmds.

#[export] Instance builds_in_preorder path : PreOrder (builds_in path).
Proof.
  split; [intros s; exists []; by rewrite app_nil_r|].
  intros s1 s2 s3 (c1 & H1 & Hc1) (c2 & H2 & Hc2). exists (c1 ++ c2).
  rewrite H2, H1, app_assoc. split; [done|]. by apply Forall_app_2.
Qed.

Lemma run_builds_in path cmd what : cargo_target_dir cmd = Some path -> steps (builds_in path) (run cmd what).
Proof.
  intros Hc s. unfold run. destruct (child _ _ _) as [status fs]. exists [cmd]. by split; [|constructor].
Qed.

Lemma same_builds_in {E A} path (m : M E A) : steps same m -> steps (builds_in path) m.
Proof. intros Hm s. exists []. rewrite app_nil_r. by split; [apply Hm|]. Qed.
Hint Resolve run_builds_in same_builds_in : xtask.

Lemma run_suites_build_in t args suites : steps (builds_in (reserved_path t)) (run_suites t args suites).
Proof. induction suites as [|[suite ign] suites IH]; cbn; auto with xtask. Qed.
Hint Resolve run_suites_build_in : xtask.

Lemma run_test_suites_build_in args http t :
  steps (builds_in (reserved_path t)) (run_test_suites args http t).
Proof. unfold run_test_suites. auto 20 with xtask. Qed.

(** Entries at or below [at_] may be gone; nothing else is different. *)
Definition only_below (at_ : Path) (fs fs' : FS) : Prop :=
  forall q, fs' !! q = fs !! q \/ (at_ `prefix_of` q /\ fs' !! q = None).

Lemma prune_below k at_ fs : only_below at_ fs (prune k at_ fs).
Proof.
  intros q. unfold prune. destruct (fs !! q) as [n|] eqn:Hq.
  - destruct (decide (~ at_ `prefix_of` q \/ k q = true)) as [Hk|Hk].
    + left. by apply map_lookup_filter_Some.
    + right. split; [by apply dec_stable; intros ?; apply Hk; left|].
      apply map_lookup_filter_None. right. intros n' _. naive_solver.
  - left. apply map_lookup_filter_None. by left.
Qed.

Lemma prune_all at_ fs q : at_ `prefix_of` q -> prune (fun _ => false) at_ fs !! q = None.
Proof. intros Hq. apply map_lookup_filter_None. right. intros n _ [Hn|Hn]; [by apply Hn|done]. Qed.

(** What a cleanup can change: a real directory [target/<reserved name>] in what
    the root then is, and nothing if it fails before the removal. *)
Lemma cleanup_spec t s r s' :
  Forall normal (workspace_root t) ->
  cleanup_after_success t s = (r, s') ->
  sys_spawned s' = sys_spawned s /\
  (sys_fs s' = sys_fs s /\ r <> Ok tt \/
   exists at_ name,
     locate (sys_fs s) (workspace_root t) = Ok at_ /\
     valid_reserved_target_name name = true /\
     reserved_path t = workspace_root t ++ [bs "target"; name] /\
     node_at (sys_fs s) at_ = Some Directory /\
     sys_fs s !! (at_ ++ [bs "target"]) = Some Directory /\
     sys_fs s !! (at_ ++ [bs "target"; name]) = Some Directory /\
     only_below (at_ ++ [bs "target"; name]) (sys_fs s) (sys_fs s') /\
     (r = Ok tt -> forall q, at_ ++ [bs "target"; name] `prefix_of` q -> sys_fs s' !! q = None)).
Proof.
  intros Hnormal. unfold cleanup_after_success, mbind, M_bind.
  pose proof (validate_candidate_same (workspace_root t) (target_parent t) (reserved_path t) true s) as [Hf Hp].
  destruct (validate_for_cleanup t s) as [ [u|e] s1] eqn:Hv; unfold validate_for_cleanup in Hv;
    rewrite Hv in Hf, Hp; simpl in Hf, Hp; [|intros [= <- <-]; split; [done|by left]].
  apply validate_candidate_ok in Hv as ((-> & Hroot & Htarget & name & Hpath & Hname) & Hdir & _).
  specialize (Hdir eq_refl). unfold is_dir, symlink_metadata in Hroot, Htarget, Hdir.
  apply result_bind_ok in Hroot as (at_ & Hat & Hroot%ok_or_ok).
  rewrite Hpath in Hdir.
  assert (Hl1 : locate (sys_fs s) (workspace_root t ++ [bs "target"]) = Ok (at_ ++ [bs "target"]))
    by by apply locate_child.
  rewrite Hl1 in Htarget. apply (ok_or_ok (node_at _ _)) in Htarget.
  assert (Hl2 : locate (sys_fs s) ((workspace_root t ++ [bs "target"]) ++ [name])
                = Ok ((at_ ++ [bs "target"]) ++ [name])).
  { apply locate_child; [|done..]. apply Forall_app_2; [done|]. by repeat constructor. }
  rewrite Hl2 in Hdir. apply (ok_or_ok (node_at _ _)) in Hdir.
  unfold with_context, remove, remove_dir_all. rewrite Hf, Hpath, Hl2. cbv iota. rewrite Hdir, <- Hp.
  rewrite !node_at_snoc in *. rewrite <- !(app_assoc _ [bs "target"] [name]) in *.
  change ([bs "target"] ++ [name]) with [bs "target"; name] in *.
  intros Hend. assert (Hcases : sys_spawned s' = sys_spawned s1 /\
    only_below (at_ ++ [bs "target"; name]) (sys_fs s) (sys_fs s') /\
    (r = Ok tt -> forall q, at_ ++ [bs "target"; name] `prefix_of` q -> sys_fs s' !! q = None)).
  { destruct (fault (sys_tick s1)); injection Hend as <- <-;
      (split; [done|]); (split; [apply prune_below|]); intros Hr q Hq; [discriminate Hr|].
    by apply prune_all. }
  destruct Hcases as (Hsp & Hbelow & Hall). split; [congruence|].
  right. exists at_, name. by split_and!.
Qed.

(** C40: A test run touches only the directory it made for itself.  Whatever the
    arguments, the files, the failures of file operations and the child
    processes: a run that fails before its first command has at most added
    entries.  Otherwise it has reserved a directory [<root>/target/<name>] that
    was not there before, every command it starts is told to build there, and
    once the commands are done it removes nothing unless they succeeded and the
    caller did not ask to keep the directory; and then only entries at or below
    the entry of that name in the directory [target] of what the root is by then,
    where none of the three is a link; and all of them, if it reports success. *)
Theorem test_touches_only_its_target rest include_http s r s' :
  test rest include_http s = (r, s') ->
  (grows s s' /\ r <> Ok tt) \/
  exists t runner_args keep s1 ran s2,
    extract_keep_test_target rest = Ok (runner_args, keep) /\
    grows s s1 /\ sys_fs s !! reserved_path t = None /\
    sys_fs s1 !! reserved_path t = Some Directory /\
    run_test_suites runner_args include_http t s1 = (ran, s2) /\
    builds_in (reserved_path t) s s' /\
    (sys_fs s' = sys_fs s2 /\ (r = Ok tt -> ran = Ok tt /\ keep = true) \/
     ran = Ok tt /\ keep = false /\
     exists at_ name,
       locate (sys_fs s2) (workspace_root t) = Ok at_ /\
       valid_reserved_target_name name = true /\
       reserved_path t = workspace_root t ++ [bs "target"; name] /\
       node_at (sys_fs s2) at_ = Some Directory /\
       sys_fs s2 !! (at_ ++ [bs "target"]) = Some Directory /\
       sys_fs s2 !! (at_ ++ [bs "target"; name]) = Some Directory /\
       only_below (at_ ++ [bs "target"; name]) (sys_fs s2) (sys_fs s') /\
       (r = Ok tt -> forall q, at_ ++ [bs "target"; name] `prefix_of` q -> sys_fs s' !! q = None)).
Proof.
  unfold test, mbind, M_bind, lift.
  destruct (extract_keep_test_target rest) as [[runner_args keep]|e] eqn:Hrest; [|intros [= <- <-]; by left].
  pose proof (canonical_root_same s) as H1.
  destruct (canonical_workspace_root s) as [ [root|e] t1]; simpl in H1;
    [|intros [= <- <-]; left; by split; [apply same_grows|]].
  apply same_grows in H1. pose proof (reserve_grows root t1) as H2.
  destruct (reserve root t1) as [ [t|e] s1] eqn:Hres; simpl in H2;
    [|intros [= <- <-]; left; by split; [etrans|]].
  apply reserve_ok in Hres as ([ [Hnormal _] _] & _ & Hnone & Hsome).
  pose proof (run_test_suites_build_in runner_args include_http t s1) as Hb. unfold outcome.
  destruct (run_test_suites runner_args include_http t s1) as [ran s2] eqn:Hrun. simpl in Hb.
  intros Hfin. right. exists t, runner_args, keep, s1, ran, s2.
  assert (Hg : grows s s1) by (by etrans).
  split; [done|]. split; [done|]. split; [by eapply lookup_weaken_None, H1|].
  split; [done|]. split; [done|].
  assert (Hbs : forall s3, sys_spawned s3 = sys_spawned s2 -> builds_in (reserved_path t) s s3).
  { intros s3 Hs3. destruct Hb as (cmds & Hc & Hall), Hg as [_ Hg]. exists cmds. split; [congruence|done]. }
  destruct ran as [ [] |e]; [destruct keep|]; cbn in Hfin;
    [injection Hfin as <- <-; split; [by apply Hbs|by left]| |
     injection Hfin as <- <-; split; [by apply Hbs|by left] ].
  apply cleanup_spec in Hfin as [Hsp [ [Hf Hr]|(at_ & name & Hc)] ]; [| |done].
  - split; [by apply Hbs|]. by left.
  - split; [by apply Hbs|]. right. split; [done|]. split; [done|]. by exists at_, name.
Qed.
End XtaskProofs.

(** * Examples *)

(** A workspace [/ws] with the tool in [/ws/xtask]. *)
Definition sample_fs : FS :=
  {[ [bs "ws"] := Directory; [bs "ws"; bs "xtask"] := Directory; [bs "ws"; bs "Cargo.toml"] := File ]}.

(** Nothing fails; [cargo build] leaves the binary in its target. *)
Definition calm : World := {|
  fault := fun _ => None;
  kept := fun _ _ => true;
  child := fun _ cmd fs =>
    (Some true,
     match cargo_target_dir cmd, serial_mcp_bin cmd with
     | Some target, None =>
         <[target ++ [bs "debug"] := Directory]> (<[serial_mcp_binary_path target := File]> fs)
     | _, _ => fs
     end);
  unix_nanos := fun _ => Some 1700000000;
  process_id := 42;
  manifest_dir := [bs "ws"; bs "xtask"];
|}.

Definition sample_target : Path := [bs "ws"; bs "target"; bs ".xtask-test-42-1700000000-0"].

Definition start_sys (fs : FS) : Sys := mkSys 0 fs [].

(** The whole run: eight commands, and only [target] is left of it. *)
Example calm_run :
  (let '(r, s) := @test calm [bs "--nocapture"] false (start_sys sample_fs) in
   (r, length (sys_spawned s),
    bool_decide (sys_fs s = <[ [bs "ws"; bs "target"] := Directory ]> sample_fs)))
  = (Ok tt, 8%nat, true).
Proof. vm_compute. reflexivity. Qed.

(** With the flag, the target stays. *)
Example kept_run :
  (let '(r, s) := @test calm [bs "--keep-test-target"] true (start_sys sample_fs) in
   (r, length (sys_spawned s), sys_fs s !! sample_target)) = (Ok tt, 9%nat, Some Directory).
Proof. vm_compute. reflexivity. Qed.

(** A link in the place of [target] is refused before anything is made. *)
Definition linked_fs : FS :=
  <[ [bs "ws"; bs "target"] := Link true [bs "home"] ]> (<[ [bs "home"] := Directory ]> sample_fs).

Example linked_target_refused :
  (let '(r, s) := @test calm [] false (start_sys linked_fs) in (r, bool_decide (sys_fs s = linked_fs)))
  = (Err (ParentIsSymlink [bs "ws"; bs "target"]), true).
Proof. vm_compute. reflexivity. Qed.

Lemma test_touches_only_its_target_witness :
  let '(r, s') := @test calm [] false (start_sys sample_fs) in
  r = Ok tt /\
  exists t s1, sys_fs (start_sys sample_fs) !! reserved_path t = None /\ sys_fs s1 !! reserved_path t = Some Directory /\
    builds_in (reserved_path t) (start_sys sample_fs) s'.
Proof.
  destruct (@test calm [] false (start_sys sample_fs)) as [r s'] eqn:E.
  assert (Hr : fst (@test calm [] false (start_sys sample_fs)) = Ok tt) by (vm_compute; reflexivity).
  rewrite E in Hr. split; [exact Hr|].
  destruct (test_touches_only_its_target [] false _ r s' E)
    as [ [_ Hne]|(t & a & k & s1 & ran & s2 & _ & _ & Hnone & Hsome & _ & Hb & _)]; [by destruct Hne|].
  exists t, s1. split; [exact Hnone|]. split; [exact Hsome|exact Hb].
Defined.
