(* ===== verification/AgentEval.v ===== *)
(** * [xtask/src/agent_eval]: the evaluation of the tool interface

    [xtask agent-eval] measures the tool catalog and a fixed list of call
    sequences and decides by fixed thresholds which shorter call shapes are worth
    having.  The JSON text of a value and the tools of the catalog are
    parameters; [f64] is binary64 as the Standard Library specifies it. *)

From Stdlib Require Import Floats.SpecFloat.
From stdpp Require Import sorting.
From S2P Require Import Prelude RustStr Extern ExternModel PortWatcher.

(** ** [f64] *)

Abbreviation f64 := spec_float.

(** [as f64] from an integer, the operations and the comparison [>=]; a
    comparison with a NaN is false. *)
Definition as_f64 (z : Z) : f64 := binary_normalize 53 1024 z 0 false.
Definition f64_sub : f64 -> f64 -> f64 := SFsub 53 1024.
Definition f64_add : f64 -> f64 -> f64 := SFadd 53 1024.
Definition f64_mul : f64 -> f64 -> f64 := SFmul 53 1024.
Definition f64_div : f64 -> f64 -> f64 := SFdiv 53 1024.
Definition f64_ge (a b : f64) : bool := SFleb b a.

(** [partial_cmp(..).unwrap()] as an order: it panics on a NaN, which no value
    that is sorted here can be. *)
Definition f64_le (a b : f64) : Prop := SFleb a b = true.
#[export] Instance f64_le_dec : RelDecision f64_le.
Proof. intros a b. unfold f64_le. apply _. Defined.

(** ** The catalog: catalog.rs *)

(** A tool as the router serves it: its name and description, and the JSON texts
    of the tool and its schemas. *)
Record Tool := mkTool {
  tool_name : list byte;
  tool_json : Json;
  description : option (list byte);
  input_schema : Json;
  output_schema : option Json;
}.

Record ToolBytes := mkToolBytes {
  tb_name : list byte;
  total_bytes : Z;
  description_bytes : Z;
  input_schema_bytes : Z;
  output_schema_bytes : Z;
}.

Record CatalogMetrics := mkCatalog {
  tool_count : Z;
  aggregate_bytes : Z;
  per_tool_bytes : list ToolBytes;
  top_largest : list ToolBytes;
}.

Definition by_name (a b : ToolBytes) : Prop := cmp_str (tb_name a) (tb_name b) <> Gt.
Definition by_size (a b : ToolBytes) : Prop :=
  then_with (Z.compare (total_bytes b) (total_bytes a)) (cmp_str (tb_name a) (tb_name b)) <> Gt.

#[export] Instance by_name_dec : RelDecision by_name.
Proof. intros a b. unfold by_name. apply _. Defined.
#[export] Instance by_size_dec : RelDecision by_size.
Proof. intros a b. unfold by_size. apply _. Defined.

(** ** The scenarios: scenarios.rs *)

Record Call := mkCall { tool : list byte; args : Json }.

Record ModeledVariant := mkModeled {
  mv_kind : list byte;
  mv_label : list byte;
  mv_calls : list Call;
  expansion_calls : list Call;
  mv_note : list byte;
}.

Record Scenario := mkScenario {
  sc_id : list byte;
  sc_label : list byte;
  sc_calls : list Call;
  sc_modeled : option ModeledVariant;
  sc_completion_ref : list byte;
  sc_stale_race : bool;
  sc_retries : Z;
  sc_invalid_calls : Z;
  sc_common : bool;
}.

Record ModeledMetrics := mkModeledMetrics {
  mm_kind : list byte;
  mm_label : list byte;
  mm_tool_calls : Z;
  mm_request_bytes : Z;
  mm_expansion_calls : Z;
  mm_expansion_bytes : Z;
  mm_note : list byte;
}.

Record ScenarioMetrics := mkMetrics {
  sm_id : list byte;
  sm_label : list byte;
  tool_calls : Z;
  request_bytes : Z;
  invalid_calls : Z;
  retries : Z;
  advanced_fields : Z;
  stale_race : bool;
  completion_ref : list byte;
  common : bool;
  modeled : option ModeledMetrics;
}.

Definition ADVANCED_KEYS : list (list byte) :=
  bs <$> ["rx_framing"; "tx_framing"; "rx_parser"; "protocol"; "match"; "reconnect_policy"; "profile_mode"].

(** [call.args.as_object()]: its keys. *)
Definition object_keys (v : Json) : option (list (list byte)) :=
  match v with JObject members => Some (fst <$> members) | _ => None end.

(** [advanced_fields]; [None] when the arguments of a call are no object, which
    panics. *)
Definition advanced_fields_of (calls : list Call) : option Z :=
  keys ← mapM (fun c => object_keys (args c)) calls;
  Some (zlen (filter (fun k => k ∈ ADVANCED_KEYS) (concat keys))).

Definition FIXED_CONNECTION_ID : list byte := bs "9f1e3c2a-b3d4-4a5b-9c2d-1e2f3a4b5c6d".
Definition FIXED_PORT : list byte := bs "/dev/ttyACM0".
Definition FIXED_ENVELOPE_ID : list byte := bs "1".

(** Literals of [json!]. *)
Definition jstr (s : string) : Json := JString (bs s).
Definition jobj (members : list (string * Json)) : Json := JObject (prod_map bs id <$> members).
Definition call (tool : string) (args : list (string * Json)) : Call := mkCall (bs tool) (jobj args).

Definition cid : string * Json := ("connection_id", JString FIXED_CONNECTION_ID).
Definition port : string * Json := ("port", JString FIXED_PORT).

(** The match object of most scenarios. *)
Definition match_literal (pattern : string) : Json :=
  jobj [("pattern", jstr pattern);
        ("config", jobj [("mode", jstr "literal_substring"); ("pattern_encoding", jstr "utf8")])].
Definition match_ok : Json := match_literal "OK>".

Definition status_data : string * Json := ("data", JString (bs "status" ++ [x0d; x0a])).
Definition timeout (ms : Z) : string * Json := ("timeout_ms", JNumber ms).
Definition open_port : Call := call "open" [port].
Definition transact_status : Call :=
  call "transact" [cid; status_data; ("match", match_ok); timeout 3000].

Definition open_at : Call := call "open" [port; ("protocol", jobj [("type", jstr "at_command")])].
Definition transact_ati : Call :=
  call "transact" [cid; ("data", jstr "ATI"); ("match", match_literal "OK"); timeout 3000].
Definition open_ndjson : Call := call "open" [port; ("protocol", jobj [("type", jstr "ndjson")])].
Definition read_1000 : Call := call "read" [cid; timeout 1000].

Definition scenario (id label : string) (calls : list Call) (modeled : option ModeledVariant)
    (completion_ref : string) (stale_race : bool) (retries invalid_calls : Z) (common : bool) : Scenario :=
  mkScenario (bs id) (bs label) calls modeled (bs completion_ref) stale_race retries invalid_calls common.

Definition variant (kind label : string) (calls expansion : list Call) (note : string)
    : option ModeledVariant :=
  Some (mkModeled (bs kind) (bs label) calls expansion (bs note)).

Definition first_console_discovery_open : Scenario :=
  scenario "first_console_discovery_open" "First console: discover and open"
    [call "list_ports" []; open_port] None
    "tests/serial_pty.rs::auto_session_first_open_creates_generated_profile_and_pty_traffic_flows"
    false 0 0 true.

Definition returning_known_console_automatic : Scenario :=
  scenario "returning_known_console_automatic" "Returning device: automatic profile reuse"
    [open_port; transact_status] None
    "tests/serial_pty.rs::list_ports_preview_selected_winner_matches_later_bare_open"
    false 0 0 true.

Definition explicit_profile_management : Scenario :=
  scenario "explicit_profile_management" "Returning device: explicit profile management"
    [call "list_profiles" []; call "open_profile" [("profile", jstr "console-dev")]; transact_status]
    None
    "tests/serial_pty.rs::open_profile_explicit_binding_reports_matched_port_confidence"
    false 0 0 true.

Definition command_response_transact : Scenario :=
  scenario "command_response_transact" "Command response with transact"
    [open_port; transact_status]
    (variant "shorthand" "transact with string shorthand for match and from"
       [open_port;
        call "transact" [cid; status_data; ("match", jstr "OK>"); ("from", jstr "now"); timeout 3000] ]
       [open_port; transact_status]
       "String forms for `match` and `from` would expand to current tagged objects.")
    "tests/serial_pty.rs::pty_transact_writes_then_reads_response"
    false 0 0 true.

Definition command_response_write_read : Scenario :=
  scenario "command_response_write_read" "Command response with write and read"
    [open_port; call "write" [cid; status_data];
     call "read" [cid; ("match", match_ok); timeout 3000] ] None
    "tests/serial_pty.rs::pty_transact_writes_then_reads_response"
    false 0 0 true.

Definition line_capture : Scenario :=
  scenario "line_capture" "Line capture"
    [open_port;
     call "read" [cid; ("rx_framing", jobj [("type", jstr "line"); ("ending", jstr "auto")]); timeout 1000] ]
    None
    "tests/device_framing_parity.rs::line_framing_returns_exact_ordered_peer_frames"
    false 0 0 true.

Definition at_modem : Scenario :=
  scenario "at_modem" "AT modem (protocol preset)"
    [open_at; transact_ati]
    (variant "shorthand" "open with string protocol shorthand"
       [call "open" [port; ("protocol", jstr "at_command")]; transact_ati]
       [open_at; transact_ati]
       "Bare-string `protocol` would expand to the current tagged preset object.")
    "tests/device_protocol_parity.rs::at_command_connection_default_drives_stateful_transact_and_parser_quirk"
    false 0 0 false.

Definition at_modem_recipe : Scenario :=
  scenario "at_modem_recipe" "AT modem with connection recipe (modeled)"
    [open_at; transact_ati]
    (variant "recipe" "open with recipe instead of protocol object"
       [call "open" [port; ("recipe", jobj [("type", jstr "at_modem")])]; transact_ati]
       [open_at; transact_ati]
       "A `recipe` would replace the repeated protocol-preset object: at_modem uses the at_command preset and bounded timeouts.")
    "tests/device_protocol_parity.rs::at_command_connection_default_drives_stateful_transact_and_parser_quirk"
    false 0 0 false.

Definition ndjson_stream : Scenario :=
  scenario "ndjson_stream" "NDJSON stream with protocol preset"
    [open_ndjson; read_1000]
    (variant "recipe" "open with ndjson_stream recipe instead of protocol object"
       [call "open" [port; ("recipe", jobj [("type", jstr "ndjson_stream")])]; read_1000]
       [open_ndjson; read_1000]
       "ndjson_stream recipe uses the ndjson preset: line framing, JSON parser, and skip_empty.")
    "tests/device_protocol_parity.rs::ndjson_preset_parses_records_and_skips_blank_whitespace_lines"
    false 0 0 false.

Definition rollback_recovery : Scenario :=
  scenario "rollback_recovery" "Rollback recovery after a bad learned setting"
    [open_port; call "reconfigure" [cid; ("baud_rate", JNumber 9600)]; call "close" [cid];
     call "list_profiles" [];
     call "rollback_profile" [("profile_name", jstr "console-dev"); ("expected_revision", JNumber 2);
                              ("revision", JNumber 1)];
     open_port] None
    "tests/serial_pty.rs::rollback_with_no_active_connections_reports_zero"
    false 0 0 false.

Definition boot_reset_prompt_capture : Scenario :=
  scenario "boot_reset_prompt_capture" "Boot reset prompt capture with atomic capture_boot"
    [call "capture_boot"
       [cid;
        ("reset", jobj [("assert_dtr", JBool false); ("assert_rts", JBool false);
                        ("release_dtr", JBool true); ("release_rts", JBool true);
                        ("hold_ms", JNumber 100)]);
        ("match", match_literal "boot>"); timeout 5000] ] None
    "tests/http_integration.rs::capture_boot_stale_bytes_excluded_boot_bytes_captured_cursor_preserved"
    false 0 0 false.

Definition boot_reset_manual_composition : Scenario :=
  scenario "boot_reset_manual_composition" "Boot reset prompt capture with manual calls"
    [open_port;
     call "read" [cid; ("from", jobj [("type", jstr "now")]); timeout 100];
     call "set_dtr_rts" [cid; ("dtr", JBool false); ("rts", JBool false)];
     call "set_dtr_rts" [cid; ("dtr", JBool true); ("rts", JBool true)];
     call "read" [cid; ("match", match_literal "boot>"); timeout 5000] ] None
    "tests/serial_pty.rs::pty_transact_from_now_skips_pre_write_buffer"
    true 0 0 false.

Definition permission_busy_disconnected : Scenario :=
  scenario "permission_busy_disconnected" "Permission, busy, and disconnected errors with retry"
    [open_port; open_port; read_1000; call "reconnect" [cid] ] None
    "tests/device_fixture.rs::public_mcp_ping_hold_disconnect_replace_and_reconnect"
    false 1 0 false.

Definition command_response_facade : Scenario :=
  scenario "command_response_facade" "Command response with `command` facade (modeled)"
    [open_port; transact_status]
    (variant "facade" "concise `command` tool (transact alias)"
       [open_port; call "command" [cid; status_data; ("match", jstr "OK>"); timeout 3000] ]
       [open_port; transact_status]
       "A `command` facade would alias `transact` with string `match`. It keeps call count unchanged and uses fewer bytes.")
    "tests/serial_pty.rs::pty_transact_writes_then_reads_response"
    false 0 0 true.

(** [scenarios()]. *)
Definition scenarios : list Scenario :=
  [first_console_discovery_open; returning_known_console_automatic; explicit_profile_management;
   command_response_transact; command_response_write_read; line_capture; at_modem; at_modem_recipe;
   ndjson_stream; rollback_recovery; boot_reset_prompt_capture; boot_reset_manual_composition;
   permission_busy_disconnected; command_response_facade].

(** ** Comparisons and decisions: decisions.rs *)

Record Comparison := mkComparison {
  cp_scenario : list byte;
  cp_label : list byte;
  current_calls : Z;
  alternative_calls : Z;
  current_bytes : Z;
  alternative_bytes : Z;
  call_savings : Z;
  byte_reduction_pct : f64;
  reduced_advanced_objects : Z;
  cp_completion_ref : list byte;
  cp_invalid_calls : Z;
}.

(** [Comparison::new]. *)
Definition compare_shapes (current alternative : ScenarioMetrics) (reduced : Z) : Comparison :=
  mkComparison (sm_id current) (sm_label current) (tool_calls current) (tool_calls alternative)
    (request_bytes current) (request_bytes alternative)
    (tool_calls current - tool_calls alternative)
    (if request_bytes current =? 0 then as_f64 0
     else f64_mul (f64_div (f64_sub (as_f64 (request_bytes current)) (as_f64 (request_bytes alternative)))
                     (as_f64 (request_bytes current))) (as_f64 100))
    reduced (completion_ref alternative) (invalid_calls alternative).

Record AggregateMetrics := mkAggregate {
  automatic_profiles : Comparison;
  transact_vs_write_read : Comparison;
  shorthand_comparisons : list Comparison;
  recipe_comparisons : list Comparison;
  facade_comparisons : list Comparison;
  capture_boot : Comparison;
  boot_stale_race : bool;
  common_median_calls : f64;
  common_median_facade_call_savings : f64;
  common_median_facade_byte_reduction_pct : f64;
  total_scenario_request_bytes : Z;
}.

(** [by_id] and [modeled_of]; [None] is the panic of a missing scenario. *)
Definition by_id (l : list ScenarioMetrics) (id : string) : option ScenarioMetrics :=
  snd <$> list_find (fun s => sm_id s = bs id) l.

(** A modeled variant as metrics of its own. *)
Definition modeled_metrics (l : list ScenarioMetrics) : list (list byte * ScenarioMetrics) :=
  omap (fun s =>
    m ← modeled s;
    let id := sm_id s ++ bs "::modeled" in
    Some (id, mkMetrics id (mm_label m) (mm_tool_calls m) (mm_request_bytes m) 0 0 0 false
                (bs "modeled") false None)) l.

Definition modeled_of (l : list ScenarioMetrics) (id : string) : option ScenarioMetrics :=
  m ← list_find (fun m => fst m = bs id ++ bs "::modeled") (modeled_metrics l);
  Some (snd (snd m)).

(** [median] of a sorted list. *)
Definition median (sorted : list f64) : f64 :=
  if bool_decide (sorted = []) then as_f64 0
  else
    let mid := (length sorted / 2)%nat in
    if (length sorted mod 2 =? 0)%nat
    then f64_div (f64_add (nth (mid - 1) sorted (as_f64 0)) (nth mid sorted (as_f64 0))) (as_f64 2)
    else nth mid sorted (as_f64 0).

Definition median_of (l : list f64) : f64 := median (merge_sort f64_le l).

Definition compare_modeled (l : list ScenarioMetrics) (reduced : Z) (id : string) : option Comparison :=
  current ← by_id l id; alternative ← modeled_of l id; Some (compare_shapes current alternative reduced).

(** [aggregate]. *)
Definition aggregate (l : list ScenarioMetrics) : option AggregateMetrics :=
  explicit ← by_id l "explicit_profile_management";
  automatic ← by_id l "returning_known_console_automatic";
  write_read ← by_id l "command_response_write_read";
  transact ← by_id l "command_response_transact";
  shorthand ← mapM (compare_modeled l 0) ["command_response_transact"; "at_modem"];
  recipe ← mapM (compare_modeled l 1) ["at_modem_recipe"; "ndjson_stream"];
  facade ← mapM (compare_modeled l 0) ["command_response_facade"];
  manual ← by_id l "boot_reset_manual_composition";
  atomic ← by_id l "boot_reset_prompt_capture";
  Some (mkAggregate (compare_shapes explicit automatic 0) (compare_shapes write_read transact 0)
          shorthand recipe facade (compare_shapes manual atomic 0) (stale_race manual)
          (median_of ((fun s => as_f64 (tool_calls s)) <$> filter (fun s => common s = true) l))
          (median_of ((fun c => as_f64 (call_savings c)) <$> facade))
          (median_of (byte_reduction_pct <$> facade))
          (foldr Z.add 0 (request_bytes <$> l))).

(** The reason of a decision, by the values its text shows. *)
Inductive Reason :=
  | ScenariosMeet (met of_ : Z)
  | FacadeMedians (savings reduction : f64) (all_modeled : bool)
  | CaptureReduces (race : bool) (from_ to_ : Z)
  | AutomaticSaves (savings : Z) (reduction : f64).

Record Decision := mkDecision { decision : list byte; thresholds_met : bool; reason : Reason }.

Record Decisions := mkDecisions {
  d_automatic_profiles : Decision;
  shorthand_now : Decision;
  initial_recipes_now : Decision;
  versioned_facade_now : Decision;
  phase5_capture_boot : Decision;
}.

Definition MODELED_CATALOG_GROWTH_PCT : f64 := as_f64 0.
Definition SHORTHAND_MIN_BYTE_REDUCTION_PCT : f64 := as_f64 20.
Definition SHORTHAND_MIN_SCENARIOS : Z := 3.
Definition SHORTHAND_MAX_CATALOG_GROWTH_PCT : f64 := as_f64 3.
Definition RECIPE_MIN_BYTE_REDUCTION_PCT : f64 := as_f64 20.
Definition RECIPE_MIN_SCENARIOS : Z := 3.
Definition RECIPE_MAX_CATALOG_GROWTH_PCT : f64 := as_f64 2.
Definition FACADE_MIN_CALL_SAVINGS : Z := 1.
Definition FACADE_MIN_BYTE_REDUCTION_PCT : f64 := as_f64 30.
Definition FACADE_MAX_CATALOG_GROWTH_PCT : f64 := as_f64 10.
Definition AUTOMATIC_MIN_CALL_SAVINGS : Z := 1.
Definition AUTOMATIC_MIN_BYTE_REDUCTION_PCT : f64 := as_f64 20.

Definition decide_ (met : bool) (reason : Reason) : Decision :=
  mkDecision (if met then bs "yes" else bs "no") met reason.

Definition count {A} (p : A -> bool) (l : list A) : Z := zlen (filter (fun x => p x = true) l).

(** [evaluate]. *)
Definition evaluate (m : AggregateMetrics) : Decisions :=
  let shorthand_met_count :=
    count (fun c => f64_ge (byte_reduction_pct c) SHORTHAND_MIN_BYTE_REDUCTION_PCT)
      (shorthand_comparisons m) in
  let recipe_met_count :=
    count (fun c => (f64_ge (byte_reduction_pct c) RECIPE_MIN_BYTE_REDUCTION_PCT
                     || (1 <=? reduced_advanced_objects c))
                    && (alternative_calls c <=? current_calls c)) (recipe_comparisons m) in
  let facade_all_modeled :=
    forallb (fun c => (cp_invalid_calls c =? 0) && negb (bool_decide (cp_completion_ref c = [])))
      (facade_comparisons m) in
  mkDecisions
    (decide_ ((AUTOMATIC_MIN_CALL_SAVINGS <=? call_savings (automatic_profiles m))
              && f64_ge (byte_reduction_pct (automatic_profiles m)) AUTOMATIC_MIN_BYTE_REDUCTION_PCT
              && (cp_invalid_calls (automatic_profiles m) =? 0))
       (AutomaticSaves (call_savings (automatic_profiles m)) (byte_reduction_pct (automatic_profiles m))))
    (decide_ ((SHORTHAND_MIN_SCENARIOS <=? shorthand_met_count)
              && f64_ge SHORTHAND_MAX_CATALOG_GROWTH_PCT MODELED_CATALOG_GROWTH_PCT)
       (ScenariosMeet shorthand_met_count (zlen (shorthand_comparisons m))))
    (decide_ ((RECIPE_MIN_SCENARIOS <=? recipe_met_count)
              && f64_ge RECIPE_MAX_CATALOG_GROWTH_PCT MODELED_CATALOG_GROWTH_PCT)
       (ScenariosMeet recipe_met_count (zlen (recipe_comparisons m))))
    (decide_ (f64_ge (common_median_facade_call_savings m) (as_f64 FACADE_MIN_CALL_SAVINGS)
              && f64_ge (common_median_facade_byte_reduction_pct m) FACADE_MIN_BYTE_REDUCTION_PCT
              && facade_all_modeled
              && f64_ge FACADE_MAX_CATALOG_GROWTH_PCT MODELED_CATALOG_GROWTH_PCT)
       (FacadeMedians (common_median_facade_call_savings m)
          (common_median_facade_byte_reduction_pct m) facade_all_modeled))
    (decide_ (boot_stale_race m
              && (alternative_calls (capture_boot m) <? current_calls (capture_boot m)))
       (CaptureReduces (boot_stale_race m) (current_calls (capture_boot m))
          (alternative_calls (capture_boot m)))).

(** [dominant_friction]. *)
Definition dominant_friction (m : AggregateMetrics) (catalog : CatalogMetrics)
    (l : list ScenarioMetrics) : list byte :=
  if 64 * 1024 <=? aggregate_bytes catalog then bs "schema size"
  else if f64_ge (common_median_calls m) (as_f64 3) then bs "call shape"
  else if default false ((fun s => 4 <=? tool_calls s) <$> by_id l "first_console_discovery_open")
  then bs "setup"
  else if existsb (fun s => 0 <? retries s) l then bs "orchestration"
  else bs "no dominant source".

Record PerToolRegression := mkRegression {
  pr_name : list byte;
  baseline_bytes : Z;
  pr_current_bytes : Z;
  growth_pct : f64;
  growth_bytes : Z;
}.

Record CatalogRegression := mkCatalogRegression {
  status : list byte;
  aggregate_growth_pct : option f64;
  per_tool_regressions : list PerToolRegression;
}.

Definition no_baseline : CatalogRegression := mkCatalogRegression (bs "no_baseline") None [].

Definition REGRESSION_AGGREGATE_PCT : f64 := as_f64 5.
Definition REGRESSION_PER_TOOL_PCT : f64 := as_f64 10.
Definition REGRESSION_PER_TOOL_BYTES : Z := 2048.

(** The growth of a size in percent. *)
Definition growth (baseline current : Z) : f64 :=
  if baseline =? 0 then as_f64 0
  else f64_mul (f64_div (f64_sub (as_f64 current) (as_f64 baseline)) (as_f64 baseline)) (as_f64 100).

Definition tool_regression (baseline : list ToolBytes) (t : ToolBytes) : option PerToolRegression :=
  b ← snd <$> list_find (fun b => tb_name b = tb_name t) baseline;
  let pct := growth (total_bytes b) (total_bytes t) in
  let bytes := total_bytes t - total_bytes b in
  if f64_ge pct REGRESSION_PER_TOOL_PCT || (REGRESSION_PER_TOOL_BYTES <=? bytes)
  then Some (mkRegression (tb_name t) (total_bytes b) (total_bytes t) pct bytes)
  else None.

(** [regression_vs_baseline]. *)
Definition regression_vs_baseline (baseline current : CatalogMetrics) : CatalogRegression :=
  let pct := growth (aggregate_bytes baseline) (aggregate_bytes current) in
  let per_tool := omap (tool_regression (per_tool_bytes baseline)) (per_tool_bytes current) in
  mkCatalogRegression
    (if f64_ge pct REGRESSION_AGGREGATE_PCT || negb (bool_decide (per_tool = []))
     then bs "warning" else bs "ok")
    (Some pct) per_tool.

(** ** The measurements and the run: catalog.rs, mod.rs *)

Section Measured.
Context `{JsonWriter}.

Definition measure_tool (t : Tool) : ToolBytes :=
  mkToolBytes (tool_name t) (zlen (json_to_string (tool_json t)))
    (default 0 (zlen <$> description t))
    (zlen (json_to_string (input_schema t)))
    (default 0 ((fun s => zlen (json_to_string s)) <$> output_schema t)).

(** [catalog_metrics]. *)
Definition catalog_metrics (tools : list Tool) : CatalogMetrics :=
  let per_tool := merge_sort by_name (measure_tool <$> tools) in
  mkCatalog (zlen per_tool)
    (zlen (json_to_string (jobj [("tools", JArray (tool_json <$> tools))])))
    per_tool (take 5 (merge_sort by_size per_tool)).

Definition envelope_bytes (c : Call) : Z :=
  zlen (json_to_string
    (jobj [("jsonrpc", jstr "2.0"); ("id", JString FIXED_ENVELOPE_ID); ("method", jstr "tools/call");
           ("params", jobj [("name", JString (tool c)); ("arguments", args c)])])).

Definition total_bytes_of (calls : list Call) : Z := foldr Z.add 0 (envelope_bytes <$> calls).

(** [scenario_metrics]. *)
Definition scenario_metrics (s : Scenario) : option ScenarioMetrics :=
  fields ← advanced_fields_of (sc_calls s);
  Some (mkMetrics (sc_id s) (sc_label s) (zlen (sc_calls s)) (total_bytes_of (sc_calls s))
          (sc_invalid_calls s) (sc_retries s) fields (sc_stale_race s) (sc_completion_ref s) (sc_common s)
          ((fun m => mkModeledMetrics (mv_kind m) (mv_label m) (zlen (mv_calls m))
                       (total_bytes_of (mv_calls m)) (zlen (expansion_calls m))
                       (total_bytes_of (expansion_calls m)) (mv_note m)) <$> sc_modeled s)).

Record EvalReport := mkReport {
  er_schema : list byte;
  er_catalog : CatalogMetrics;
  er_scenarios : list ScenarioMetrics;
  er_metrics : AggregateMetrics;
  er_decisions : Decisions;
  er_friction : list byte;
  er_regression : CatalogRegression;
}.

(** The report of [run], from the tools served and the catalog of a baseline. *)
Definition run_evaluation (tools : list Tool) (baseline : option CatalogMetrics) : option EvalReport :=
  let catalog := catalog_metrics tools in
  l ← mapM scenario_metrics scenarios;
  metrics ← aggregate l;
  Some (mkReport (bs "serial-mcp-agent-interface-eval/v1") catalog l metrics (evaluate metrics) (dominant_friction metrics catalog l)
          (match baseline with
           | Some b => regression_vs_baseline b catalog
           | None => no_baseline
           end)).
End Measured.

(** * Decisions *)

Lemma mapM_length {A B} (f : A -> option B) l k : mapM f l = Some k -> length k = length l.
Proof. intros H%mapM_Some. symmetry. by eapply Forall2_length. Qed.

Lemma count_le {A} (p : A -> bool) l : count p l <= zlen l.
Proof. unfold count, zlen. pose proof (length_filter (fun x => p x = true) l). lia. Qed.

(** Two scenarios are compared for each of shorthands and recipes, and three are
    asked for: whatever is measured, and of whatever scenarios, both decisions
    are no. *)
Theorem too_few_scenarios l m :
  aggregate l = Some m ->
  thresholds_met (shorthand_now (evaluate m)) = false /\
  thresholds_met (initial_recipes_now (evaluate m)) = false.
Proof.
  unfold aggregate. intros Hm.
  repeat match type of Hm with
         | (_ ≫= _) = Some _ => apply bind_Some in Hm as (? & ? & Hm)
         end.
  injection Hm as <-.
  repeat match goal with
         | H : mapM _ _ = Some _ |- _ => apply mapM_length in H; simpl in H
         end.
  unfold evaluate; cbn [shorthand_now initial_recipes_now decide_ thresholds_met
    shorthand_comparisons recipe_comparisons].
  split; apply andb_false_iff; left; apply Z.leb_gt;
    (eapply Z.le_lt_trans; [apply count_le|]); unfold zlen, SHORTHAND_MIN_SCENARIOS, RECIPE_MIN_SCENARIOS; lia.
Qed.

(** The evaluation of the fixed scenarios never panics, and four of its five
    decisions do not depend on any measured size. *)
Theorem evaluation_is_foregone `{JsonWriter} tools baseline :
  exists r, run_evaluation tools baseline = Some r /\
    thresholds_met (shorthand_now (er_decisions r)) = false /\
    thresholds_met (initial_recipes_now (er_decisions r)) = false /\
    thresholds_met (versioned_facade_now (er_decisions r)) = false /\
    thresholds_met (phase5_capture_boot (er_decisions r)) = true.
Proof.
  assert (Hrun : exists l m, mapM scenario_metrics scenarios = Some l /\ aggregate l = Some m /\
    thresholds_met (versioned_facade_now (evaluate m)) = false /\
    thresholds_met (phase5_capture_boot (evaluate m)) = true)
    by (do 2 eexists; split; [reflexivity|]; split; [reflexivity|]; split; vm_compute; reflexivity).
  destruct Hrun as (l & m & Hl & Hm & Hfacade & Hboot). unfold run_evaluation. rewrite Hl.
  cbn [mbind option_bind]. rewrite Hm. eexists. split; [reflexivity|].
  cbn [er_decisions]. destruct (too_few_scenarios l m Hm). auto.
Qed.

(** * The catalog *)

(** [by_size] compares the sizes, larger first, then the names. *)
Definition size_key (t : ToolBytes) : Z * list byte := (- total_bytes t, tb_name t).
Definition size_cmp : Z * list byte -> Z * list byte -> comparison := cmp_pair Z.compare cmp_str.

(** A size that did not change grew by zero, or is out of the range of [f64]. *)
Lemma growth_self n p : p = as_f64 5 \/ p = as_f64 10 -> f64_ge (growth n n) p = false.
Proof.
  unfold growth. case_match; [by intros [-> | ->]|]. unfold f64_sub.
  assert (Hz : exists z, SFsub 53 1024 (as_f64 n) (as_f64 n) = z /\
    (z = S754_nan \/ exists sg, z = S754_zero sg)).
  { eexists. split; [reflexivity|]. destruct (as_f64 n) as [sg|sg| |sg m e]; cbn; eauto.
    - destruct sg; cbn; eauto.
    - destruct sg; cbn; eauto.
    - rewrite Z.sub_diag. cbn. eauto. }
  destruct Hz as (z & -> & [-> |[sg ->] ]).
  - by intros [-> | ->].
  - destruct (as_f64 n) as [sg'|sg'| |sg' m e]; intros [-> | ->]; try destruct sg, sg'; done.
Qed.

(** Against itself a catalog shows no regression, when no two tools have the same
    name; and a tool that grew by 2 KiB is always reported. *)
Theorem regression_against_itself c :
  NoDup (tb_name <$> per_tool_bytes c) ->
  regression_vs_baseline c c = mkCatalogRegression (bs "ok") (Some (growth (aggregate_bytes c) (aggregate_bytes c))) [].
Proof.
  intros Hnd. unfold regression_vs_baseline.
  assert (Ho : omap (tool_regression (per_tool_bytes c)) (per_tool_bytes c) = []).
  { apply elem_of_nil_inv. intros r (t & Ht & Hr)%list_elem_of_omap. revert Hr. unfold tool_regression.
    destruct (list_find _ _) as [ [i b]|] eqn:Hf; [|done]. cbn.
    apply list_find_Some in Hf as (Hi & Hname & _). apply list_elem_of_lookup in Ht as [j Hj].
    assert (i = j) as ->.
    { eapply (NoDup_lookup (tb_name <$> per_tool_bytes c)); [done|by rewrite list_lookup_fmap, Hi|].
      by rewrite list_lookup_fmap, Hj, Hname. }
    assert (b = t) as -> by congruence. rewrite growth_self by by right.
    by rewrite Z.sub_diag. }
  rewrite Ho, growth_self by by left. done.
Qed.

Lemma by_size_cmp a b : by_size a b <-> size_cmp (size_key a) (size_key b) <> Gt.
Proof. unfold by_size, size_cmp, cmp_pair. simpl. by rewrite <- Z.compare_opp. Qed.

#[export] Instance by_size_total : Total by_size.
Proof. intros a b. rewrite !by_size_cmp. apply (good_le_total size_cmp (size_key a) (size_key b)). Qed.

#[export] Instance by_size_trans : Transitive by_size.
Proof. intros a b c. rewrite !by_size_cmp. apply (good_le_trans size_cmp (size_key a) (size_key b) (size_key c)). Qed.

Lemma by_size_le a b : by_size a b -> total_bytes b <= total_bytes a.
Proof.
  unfold by_size, then_with. destruct (Z.compare_spec (total_bytes b) (total_bytes a)); [lia..|done].
Qed.

Lemma sorted_split {A} (R : A -> A -> Prop) (l k : list A) x y :
  StronglySorted R (l ++ k) -> x ∈ l -> y ∈ k -> R x y.
Proof.
  induction l as [|z l IH]; simpl; [by intros _ ?%elem_of_nil|].
  intros [Hs Hz]%StronglySorted_inv [-> |Hx]%elem_of_cons Hy; [|by apply IH].
  eapply Forall_forall in Hz; [done|]. apply elem_of_app. by right.
Qed.

(** [top_largest]: at most five tools of the catalog, none smaller than one left
    out. *)
Theorem top_largest_are_largest `{JsonWriter} tools t u :
  let c := catalog_metrics tools in
  t ∈ top_largest c -> u ∈ per_tool_bytes c -> u ∉ top_largest c ->
  t ∈ per_tool_bytes c /\ total_bytes u <= total_bytes t /\ (length (top_largest c) <= 5)%nat.
Proof.
  cbn. set (l := merge_sort by_name (measure_tool <$> tools)). intros Ht Hu Hnu.
  pose proof (merge_sort_Permutation by_size l) as Hp.
  pose proof (StronglySorted_merge_sort by_size l) as Hs.
  rewrite <- (take_drop 5 (merge_sort by_size l)) in Hs.
  split; [rewrite <- Hp; eapply elem_of_take in Ht as (i & Hi & _); by eapply list_elem_of_lookup_2|].
  split; [|rewrite length_take; lia].
  apply by_size_le. eapply sorted_split; [done..|].
  rewrite <- Hp, <- (take_drop 5 (merge_sort by_size l)) in Hu. by apply elem_of_app in Hu as [Hu|Hu].
Qed.

(** * The command line: main.rs *)

Record EvalOptions := mkOptions {
  output_dir : option (list byte);
  baseline : option (list byte);
  write_baseline : option (list byte);
}.

Inductive EvalArgError := RequiresValue (flag : list byte) | UnknownFlag (flag : list byte).

(** [str::split_once('=')]: what is before the first sign, and after it. *)
Definition split_flag (arg : list byte) : list byte * option (list byte) :=
  match position (fun b => bool_decide (b = x3d)) arg with
  | Some i => (take i arg, Some (drop (S i) arg))
  | None => (arg, None)
  end.

Definition set_option (o : EvalOptions) (flag value : list byte) : EvalOptions :=
  if bool_decide (flag = bs "--output-dir") then mkOptions (Some value) (baseline o) (write_baseline o)
  else if bool_decide (flag = bs "--baseline") then mkOptions (output_dir o) (Some value) (write_baseline o)
  else mkOptions (output_dir o) (baseline o) (Some value).

(** The loop of [agent_eval] over its arguments. *)
Fixpoint eval_options (o : EvalOptions) (rest : list (list byte)) : result EvalArgError EvalOptions :=
  match rest with
  | [] => Ok o
  | arg :: rest =>
      let '(flag, inline) := split_flag arg in
      if negb (bool_decide (flag ∈ bs <$> ["--output-dir"; "--baseline"; "--write-baseline"]))
      then Err (UnknownFlag flag)
      else
        match inline with
        | Some value => eval_options (set_option o flag value) rest
        | None =>
            match rest with
            | [] => Err (RequiresValue flag)
            | value :: rest => eval_options (set_option o flag value) rest
            end
        end
  end.

Example eval_options_forms :
  eval_options (mkOptions None None None) (bs <$> ["--baseline=a=b"; "--output-dir"; "--baseline"])
  = Ok (mkOptions (Some (bs "--baseline")) (Some (bs "a=b")) None)
  /\ eval_options (mkOptions None None None) [bs "--baseline"] = Err (RequiresValue (bs "--baseline")).
Proof. split; reflexivity. Qed.

(** * The committed measurements *)

(** With a compact writer, the scenarios have the sizes that
    docs/reports/agent-interface-baseline.json records, where it has the same
    scenario; the automatic profiles save one call and at least a fifth of the
    bytes. *)
Example committed_sizes :
  (omap (fun s => request_bytes <$> scenario_metrics s) scenarios)
  = [203; 383; 490; 383; 522; 314; 408; 408; 298; 787; 360; 886; 525; 383].
Proof. vm_compute. reflexivity. Qed.

Example automatic_profiles_pay :
  (fun r => thresholds_met (d_automatic_profiles (er_decisions r))) <$> run_evaluation [] None = Some true.
Proof. vm_compute. reflexivity. Qed.
